(* ===== verification/_CoqProject ===== *)
-Q . S2P
Prelude.v
Memory.v
MemoryCopy.v
DeepCopy.v
Sharing.v
Prog.v
K8s.v
Defaulting.v
ApiTypes.v
Cluster.v
OwnerReferences.v
CoreUtils.v
Concurrency.v
CsiUtils.v
Replication.v
Json.v
JsonFuel.v
JsonCodec.v
Server.v
Mapping.v
Profile.v
ProfileReconcile.v
ClusterInfo.v
ProfileTheorems.v
ProfileLifecycle.v
Elections.v
DriverSpec.v
SharingTheorems.v
ControllerPlugin.v
NodePlugin.v
DriverReconcile.v
DriverSpecTheorems.v
PodTheorems.v
DriverTargets.v
DriverTheorems.v
DriverIteration.v
System.v
SystemTheorems.v
Watches.v
WatchTheorems.v
Main.v
