(* ===== verification/Prelude.v ===== *)
(** * Ceph-CSI operator: verification library

    The operator watches six custom resource kinds of a Kubernetes cluster and
    keeps the objects that deploy and configure the Ceph CSI drivers in the
    state the resources ask for.  This library models its Go code, function
    by function, and proves what makes it correct.

    ** The program and the files

    A controller receives requests (the key of a resource) from its watches
    and runs one iteration per request: it loads the resource and what it
    refers to, computes the desired objects and submits them.  Four
    controllers share the API server; three of them also share one config
    map, [ceph-csi-config].

    Foundations.
    - Prelude: Go values (zero values, [cmp.Or], [strings.Join], [Sprintf]),
      panics as the left of a sum, lemmas on strings and lists.
    - Prog: effectful programs [prog E]: trees of outside calls with the
      panics of Go as leaves; [run] executes a program, [wp] reasons about it
      against a specification of the calls, for every answer it allows.
    - K8s, ApiTypes: the Kubernetes types the operator builds or reads, and
      the custom resources of src/api/v1.  Defaulting: [keeps], what the API
      server keeps of a spec it fills default values into.
    - Cluster: the client calls ([call]), owner references, finalizers,
      annotations and [CreateOrUpdate] (src/internal/utils/meta.go and the
      vendored controllerutil); OwnerReferences: the invariant of the owner
      references.
    - Server: [api_spec], what the calls promise over a store of objects: a
      read answers what is stored; an update changes the object it names, and
      not its identity; a status update changes the status; an object that is
      being deleted goes with its last finalizer.  [memory_server] is an
      executable server that implements it.  A list call answers the objects
      asked for in any order, as the cache behind the client does.  The
      server may fill in fields of a spec that the operator leaves unset; it
      stores every other field, and the client's metadata, as submitted
      ([accepted]).  The lemmas on [CreateOrUpdate]
      the controllers share.
    - Json, JsonFuel, JsonCodec: encoding/json, from Go values to text and
      back, as far as the operator uses it.

    src/api/v1, as memory.
    - Memory, MemoryCopy: Go memory, the values it holds ([reads]), and the
      statements that copy them.
    - DeepCopy: zz_generated.deepcopy.go, function by function.
    - Sharing, SharingTheorems: [mergeDriverSpecs] in place, on pointers, and
      how it relates to the function on immutable values.

    src/internal/utils.
    - CoreUtils: the generic helpers of core.go.
    - Concurrency: [RunConcurrently] and [ChannelToSlice] as an interleaving
      step relation on a pool of goroutines and one channel.
    - CsiUtils: volumes, mounts, environment and container arguments (csi.go).

    src/internal/controller.
    - Replication: clientprofilereplication_controller.go; [winner] is the
      specification of the resource it elects.
    - Mapping: clientprofilemapping_controller.go; [grouped] is the
      specification of the list it stores.
    - Profile, ProfileReconcile: clientprofile_controller.go, the records and
      the iteration; ClusterInfo, ProfileTheorems and ProfileLifecycle: their
      properties.  [describes] is the specification of the record of a
      profile, [reconciled] of what an iteration leaves in the cluster.
    - Elections: the replication and profile controllers together.
    - DriverSpec: defaults.go, and of driver_controller.go the names, the
      loading of the desired state and [mergeDriverSpecs].
    - ControllerPlugin, NodePlugin: the deployment and the two daemon sets.
    - DriverReconcile: config maps, CSIDriver, network policies, liveness
      service, and the iteration that runs the nine reconcilers concurrently.
    - DriverTargets: [targets], the specification of the objects of a driver,
      and that each reconciler follows it.  DriverSpecTheorems, PodTheorems,
      DriverTheorems, DriverIteration: the properties.
    - Watches: predicates.go and the SetupWithManager methods, as functions
      from events to requests; WatchTheorems: their properties.

    src/cmd/main.go: Main.

    All controllers together: System, SystemTheorems.  A [system] is a store,
    the lock of the ClientProfile controller and a pool of iterations, each a
    program that has run up to some call; a step serves one call of one of
    them, starts a new iteration, or is one of another client.

    ** How state is modelled

    Values are immutable, which DeepCopy justifies; a Go function that changes
    the fields of its receiver takes and returns the record of those fields
    ([ClientProfileReconcile], [driverReconcile]), also when it fails.  A
    pointer, map or slice is an [option] where the code compares it with nil.
    The order in which [range] visits a map is an outside call that may answer
    any permutation of the entries.  API errors are values with the reasons
    the code distinguishes; a panic (index out of range, nil dereference) is a
    result of its own.  An API call may fail at any time, and every theorem on
    an iteration quantifies over all answers.

    ** What the theorems show

    - Driver: each of the nine reconcilers submits only its own object, with
      the content the spec asks for, deletes it only when the spec disables it
      (the CSIDriver: only to submit it again), and always returns; the
      concurrent part ends for every interleaving and loses no error; an
      iteration without an error has established all nine in the cluster,
      metadata and specs, and changed nothing else; what is loaded is the
      merge of the layers; a CSIDriver belongs to one driver; the pods are
      well formed for every spec whose user volumes are named like their
      mounts; the ports, replicas, names and labels.
    - ClientProfile: what a successful iteration leaves in the cluster; when
      clean-up cannot succeed; the finalizer is removed, and Ready reported,
      only when they may be; the cluster list implements a finite map and an iteration
      makes one change to it, to the record that describes the profile; the
      lock is held around every access; nothing else is written.
    - ClientProfileReplication: the same resource is elected from every
      iteration; only its status is written; two that are Ready block the
      profile they name for as long as they are.
    - ClientProfileMapping: what an iteration stores does not depend on the
      order of the resources but for the order of the text, and the next one
      that is answered in the same order writes nothing.
    - The config map the controllers share: however their iterations
      interleave, no update is lost, each changes its own part only, and the
      lock is held where it must be and never deadlocks.
    - Memory: every deep copy has the value of the original and shares nothing
      with it; merging the defaults leaves them alone and apart.
    - Text: what is stored as JSON is read back unchanged.
    - Watches: the deletion of a driver's object starts its iteration;
      defaults and profiles fan out to what depends on them.
    - Process: the watched namespaces, the initialisation, the order of the
      set-up and the exit status.
    Where the code does not do what it means to (a panic, a reference that is
    not stored, a service without endpoints, a path that is not watched), the
    theorem states what it does.

    ** Bounds and fuel

    [parse_json] starts with fuel twice the length of the text plus one;
    [JsonFuel.parse_json_fuel] shows that more fuel gives the same answer for
    every text.  The nesting limit 10000 is Go's.  No other definition has
    fuel: programs are finite trees, deep copies recurse on the types.  Integers of the JSON records are bounded by the int64 range where
    they are read back ([int_min], [int_max]).

    ** Parameters

    - [ApiLib]: the API types the operator passes through without looking
      inside, what the API server keeps of a value of each, and the two methods of
      [resource.Quantity] it calls.
    - [SemanticEquality]: [equality.Semantic.DeepEqual] in [CreateOrUpdate].
    - [JsonErrorText]: the text of a JSON error.
    - [ReflectDeepEqual], [RestMapper]: [reflect.DeepEqual] on the defaults
      and the REST mapper of the owner handler.
    - [ExtTypes], [ExtTypesOk], [ExtTrees]: the types of other packages in
      memory, and that their own deep copies are deep copies.
    Each has a concrete instance the witnesses use.

    ** What System assumes

    A read answers what is stored at that moment: an answer that is out of
    date is one the iteration got earlier.  Every write gives the object a
    resource version that was not used before, and an update with another
    version than the stored one is refused.  Other clients change anything
    but the data of the drivers' config maps.  More iterations than the work
    queues admit may run at the same time, for the same request too.

    ** What is not modelled

    Logging; the parsing of the command line; the work queue with its retries and the cache, apart from what a
    read may answer; the deep copies of types of other packages; the rest of
    controller-runtime; TypeMeta and list types; manifests, charts and tests.
    The scheme is the function from kinds to their API version and name. *)
From stdpp Require Export base gmap strings list fin_maps.
From Stdlib Require Import DecimalString.
From Stdlib Require Export Ascii ZArith Lia Permutation.

(** ** Go values: zero values, pointers, [cmp.Or], [ptr.Deref]

    A Go pointer, map or slice that the code compares with [nil] is an
    [option]; [None] is [nil].  The other types have a zero value. *)
Class GoZero (A : Type) := go_zero : A.

#[export] Instance string_zero : GoZero string := EmptyString.
#[export] Instance Z_zero : GoZero Z := 0%Z.
#[export] Instance bool_zero : GoZero bool := false.
#[export] Instance option_zero {A} : GoZero (option A) := None.
#[export] Instance list_zero {A} : GoZero (list A) := [].

(** The test [v == zero], for the types the code applies [cmp.Or] to. *)
Class GoIsZero (A : Type) := go_is_zero : A → bool.

#[export] Instance string_is_zero : GoIsZero string := λ s, String.eqb s "".
#[export] Instance Z_is_zero : GoIsZero Z := λ z, Z.eqb z 0.
#[export] Instance option_is_zero {A} : GoIsZero (option A) :=
  λ o, match o with Some _ => false | None => true end.

(** [cmp.Or(x, y)]: the first argument that is not the zero value. *)
Definition cmp_Or {A} `{GoIsZero A} (x y : A) : A := if go_is_zero x then y else x.

(** [cmp.Or(p, &d)] on a pointer followed by a dereference. *)
Definition or_new {A} (p : option A) (d : A) : A := default d p.

(** ** Go strings *)

(** [fmt.Sprintf("%d", z)] *)
Definition itoa (z : Z) : string := NilEmpty.string_of_int (Z.to_int z).

(** [fmt.Sprintf("%t", b)] *)
Definition fmt_bool (b : bool) : string := if b then "true" else "false".

(** The newline and tab characters, as one-character strings. *)
Definition nl : string := String (Ascii.ascii_of_nat 10) EmptyString.
Definition tab : string := String (Ascii.ascii_of_nat 9) EmptyString.

(** [strings.Join] *)
Fixpoint strings_Join (elems : list string) (sep : string) : string :=
  match elems with
  | [] => ""
  | [s] => s
  | s :: rest => (s ++ sep ++ strings_Join rest sep)%string
  end.

(** [fmt.Sprintf("%v", names)] for a slice of strings. *)
Definition fmt_strings (names : list string) : string :=
  ("[" ++ strings_Join names " " ++ "]")%string.

(** [strings.ToLower], byte by byte: exact on ASCII strings. *)
Definition lower_ascii (c : Ascii.ascii) : Ascii.ascii :=
  let n := Ascii.N_of_ascii c in
  if ((65 <=? n) && (n <=? 90))%N then Ascii.ascii_of_N (n + 32) else c.

Fixpoint string_map (f : Ascii.ascii → Ascii.ascii) (s : string) : string :=
  match s with
  | EmptyString => EmptyString
  | String c rest => String (f c) (string_map f rest)
  end.

Definition strings_ToLower (s : string) : string := string_map lower_ascii s.

(** ** Go slices *)

(** [slices.IndexFunc]: [None] is [-1]. *)
Fixpoint IndexFunc {A} (f : A → bool) (l : list A) : option nat :=
  match l with
  | [] => None
  | x :: l => if f x then Some 0 else S <$> IndexFunc f l
  end.

(** [slices.ContainsFunc] *)
Definition ContainsFunc {A} (f : A → bool) (l : list A) : bool :=
  match IndexFunc f l with Some _ => true | None => false end.

(** Code that calls nothing outside and may panic: [inl] is the panic. *)
#[export] Instance or_panic_ret : MRet (sum string) := λ A a, inr a.
#[export] Instance or_panic_bind : MBind (sum string) :=
  λ A B f p, match p with inl m => inl m | inr a => f a end.

(** [l[i]] *)
Definition index_panic (i n : nat) : string :=
  ("index out of range [" ++ itoa (Z.of_nat i) ++ "] with length " ++ itoa (Z.of_nat n))%string.

Definition go_index {A} (l : list A) (i : nat) : string + A :=
  match l !! i with Some x => inr x | None => inl (index_panic i (length l)) end.

(** A loop over a slice whose body may panic. *)
Fixpoint for_range {A S} (body : S → A → string + S) (l : list A) (s : S) : string + S :=
  match l with
  | [] => inr s
  | x :: l => match body s x with inl m => inl m | inr s => for_range body l s end
  end.

(** The first occurrences of the values of a list. *)
Definition add_new {A} `{EqDecision A} (l : list A) (x : A) : list A :=
  if decide (x ∈ l) then l else l ++ [x].
Definition first_occurrences {A} `{EqDecision A} (l : list A) : list A := foldl add_new [] l.

(** ** Machine integers *)

(** Conversion to [int32]. *)
Definition int32 (z : Z) : Z := ((z + 2 ^ 31) mod 2 ^ 32 - 2 ^ 31)%Z.

(** ** Tactics *)

(** Case on the scrutinee of a [match] in the goal, remembering the equation. *)
Ltac case_goal :=
  match goal with
  | |- context [match ?x with _ => _ end] => destruct x eqn:?
  end.

(** Discharge a conjunction of easy goals. *)
Ltac split_done := repeat split; try done; try lia.

Create HintDb golib.
Create Rewrite HintDb golib.

(** ** Lemmas *)

Lemma string_app_cons (x : Ascii.ascii) (a b : string) :
  (String x a ++ b = String x (a ++ b))%string.
Proof. done. Qed.

Lemma string_app_nil_l (a : string) : ("" ++ a = a)%string.
Proof. done. Qed.

#[export] Hint Rewrite string_app_cons string_app_nil_l : golib.

Lemma string_app_assoc (a b c : string) : ((a ++ b) ++ c = a ++ (b ++ c))%string.
Proof. induction a as [|x a IH]; autorewrite with golib; congruence. Qed.

Lemma string_app_nil_r (a : string) : (a ++ "" = a)%string.
Proof. induction a as [|x a IH]; autorewrite with golib; congruence. Qed.

#[export] Hint Rewrite string_app_assoc string_app_nil_r : golib.

Lemma string_app_inj_l (a b c : string) : (a ++ b = a ++ c)%string → b = c.
Proof.
  induction a as [|x a IH]; autorewrite with golib; [done|].
  intros [=]. auto.
Qed.

Lemma string_length_app (a b : string) :
  String.length (a ++ b)%string = String.length a + String.length b.
Proof.
  induction a as [|x a IH]; autorewrite with golib; simpl; congruence.
Qed.

Lemma string_app_inj_r (a b c : string) : (a ++ c = b ++ c)%string → a = b.
Proof.
  revert b. induction a as [|x a IH]; intros [|y b]; autorewrite with golib; intros H;
    try done;
    try (exfalso; apply (f_equal String.length) in H; simpl in H;
         rewrite string_length_app in H; lia).
  injection H as -> H. f_equal. by apply IH.
Qed.

Lemma IndexFunc_Some {A} (f : A → bool) (l : list A) i :
  IndexFunc f l = Some i →
  ∃ x, l !! i = Some x ∧ f x = true ∧ (∀ j y, j < i → l !! j = Some y → f y = false).
Proof.
  revert i. induction l as [|x l IH]; simpl; intros i; [done|].
  destruct (f x) eqn:Hx.
  - intros [= <-]. exists x. split_done.
  - destruct (IndexFunc f l) as [i'|] eqn:Hi; [|done]. intros [= <-].
    destruct (IH i' eq_refl) as (y & Hy & Hf & Hmin).
    exists y. split_done. intros [|j] z Hj; simpl; [congruence|].
    intros Hz. apply (Hmin j); [lia|done].
Qed.

Lemma IndexFunc_None {A} (f : A → bool) (l : list A) :
  IndexFunc f l = None ↔ ∀ x, x ∈ l → f x = false.
Proof.
  induction l as [|x l IH]; simpl.
  - split; [intros _ y Hy; by apply not_elem_of_nil in Hy | done].
  - destruct (f x) eqn:Hx.
    + split; [done|]. intros H. specialize (H x ltac:(left)). congruence.
    + destruct (IndexFunc f l) as [i|]; simpl.
      * split; [done|]. intros H. destruct IH as [_ IH].
        discriminate IH. intros y Hy. apply H. by right.
      * split; [|done]. intros _ y Hy. apply elem_of_cons in Hy as [->|Hy]; [done|].
        by apply IH.
Qed.

Lemma IndexFunc_first {A} (f : A → bool) (l : list A) i x :
  l !! i = Some x → f x = true → (∀ j y, j < i → l !! j = Some y → f y = false) →
  IndexFunc f l = Some i.
Proof.
  revert i. induction l as [|z l IH]; intros [|i] Hi Hx Hj; simplify_eq/=; [by rewrite Hx|].
  rewrite (Hj 0 z) by (done || lia). rewrite (IH i); [done..|].
  intros j y Hlt Hy. apply (Hj (S j) y); [lia|done].
Qed.

Lemma ContainsFunc_true {A} (f : A → bool) (l : list A) :
  ContainsFunc f l = true ↔ ∃ x, x ∈ l ∧ f x = true.
Proof.
  unfold ContainsFunc. destruct (IndexFunc f l) as [i|] eqn:Hi.
  - apply IndexFunc_Some in Hi as (x & Hx & Hf & _).
    split; [|done]. intros _. exists x. split; [|done].
    by eapply list_elem_of_lookup_2.
  - rewrite IndexFunc_None in Hi. split; [done|].
    intros (x & Hx & Hf). rewrite Hi in Hf; done.
Qed.

Lemma for_range_app {A S} (body : S → A → string + S) (l l' : list A) s :
  for_range body (l ++ l') s
  = match for_range body l s with inl m => inl m | inr s => for_range body l' s end.
Proof.
  revert s. induction l as [|x l IH]; intros s; simpl; [done|].
  destruct (body s x); [done|apply IH].
Qed.

Lemma first_occurrences_snoc {A} `{EqDecision A} (l : list A) x :
  first_occurrences (l ++ [x]) = add_new (first_occurrences l) x.
Proof. unfold first_occurrences. by rewrite foldl_app. Qed.

Lemma elem_of_add_new {A} `{EqDecision A} (l : list A) x y : y ∈ add_new l x ↔ y ∈ l ∨ y = x.
Proof. unfold add_new. case_decide; set_solver. Qed.

Lemma elem_of_first_occurrences {A} `{EqDecision A} (l : list A) y :
  y ∈ first_occurrences l ↔ y ∈ l.
Proof.
  induction l as [|x l IH] using rev_ind; [done|].
  rewrite first_occurrences_snoc, elem_of_add_new. set_solver.
Qed.

Lemma NoDup_first_occurrences {A} `{EqDecision A} (l : list A) : NoDup (first_occurrences l).
Proof.
  induction l as [|x l IH] using rev_ind; [constructor|].
  rewrite first_occurrences_snoc. unfold add_new. case_decide; [done|].
  apply NoDup_app. split_and!; [done|set_solver|]. apply NoDup_singleton.
Qed.

Lemma list_elem_of_perm {A} (l l' : list A) x : l ≡ₚ l' → x ∈ l → x ∈ l'.
Proof. by intros ->. Qed.

(** Filtering commutes with changing the order. *)
Lemma filter_perm {A} (f : A → bool) (l l' : list A) :
  l ≡ₚ l' → List.filter f l ≡ₚ List.filter f l'.
Proof.
  induction 1 as [|x l l' _ IH|x y l|? ? ? _ IH1 _ IH2]; simpl.
  - done.
  - destruct (f x); by rewrite IH.
  - destruct (f x), (f y); by try constructor.
  - by rewrite IH1.
Qed.

(** The order of a list decides only the order of its first occurrences. *)
Lemma first_occurrences_perm {A} `{EqDecision A} (l l' : list A) :
  l ≡ₚ l' → first_occurrences l ≡ₚ first_occurrences l'.
Proof.
  intros Hp. apply list.NoDup_Permutation; [apply NoDup_first_occurrences..|].
  intros x. by rewrite !elem_of_first_occurrences, Hp.
Qed.

Lemma cmp_Or_zero {A} `{GoIsZero A} (x y : A) : go_is_zero x = true → cmp_Or x y = y.
Proof. unfold cmp_Or. by intros ->. Qed.

#[export] Hint Resolve list_elem_of_lookup_2 : golib.
