(* ===== verification/Memory.v ===== *)
(** * Go memory

    Pointers, slices and maps of Go refer to memory that others may refer to
    as well.  The rest of the development uses immutable values; this file
    models the memory itself, for the code whose purpose is to keep values
    apart: the generated deep copies (DeepCopy.v) and [mergeDriverSpecs], which
    relies on them (Sharing.v).

    A [heap] maps locations to cells; a [val] is what a variable, a field or an
    element holds; [reads] is the immutable value a [val] of a type stands for,
    with the locations it occupies. *)
From S2P Require Import Prelude.

Notation loc := nat.

Inductive scalar :=
| Str (s : string)
| Int (z : Z)
| Bool (b : bool).

(** A slice header is the location of the array, the offset and the length. *)
Inductive val :=
| VScalar (s : scalar)
| VStruct (fields : gmap string val)
| VPtr (p : option loc)
| VSlice (s : option (loc * nat * nat))
| VMap (m : option loc).

Inductive cell :=
| CVal (v : val)
| CArr (items : list val)
| CMap (entries : gmap string val).

Notation heap := (gmap loc cell).

(** The types of the API: [TExt] is a struct type of another package. *)
Inductive ty :=
| TScalar
| TStruct (fields : list (string * ty))
| TPtr (t : ty)
| TSlice (t : ty)
| TMap (t : ty)
| TExt (name : string).

(** ** Computations on memory

    [None] is a nil dereference, an index out of range, or memory that does
    not hold what the code expects of it. *)
Definition mem (A : Type) : Type := heap → option (A * heap).

#[export] Instance mem_ret : MRet mem := λ A a h, Some (a, h).
#[export] Instance mem_bind : MBind mem :=
  λ A B f m h, match m h with Some (a, h) => f a h | None => None end.

Definition stuck {A} : mem A := λ _, None.

Definition alloc (c : cell) : mem loc := λ h, let p := fresh (dom h) in Some (p, <[p := c]> h).

Definition load (p : loc) : mem cell := λ h, c ← h !! p; Some (c, h).

Definition store (p : loc) (c : cell) : mem unit :=
  λ h, match h !! p with Some _ => Some (tt, <[p := c]> h) | None => None end.

Definition load_val (p : loc) : mem val :=
  c ← load p; match c with CVal v => mret v | _ => stuck end.

(** [l[off : off+n]] of the array at [p]. *)
Definition window {A} (l : list A) (off n : nat) : option (list A) :=
  if decide (off + n ≤ length l) then Some (take n (drop off l)) else None.

Definition load_slice (p : loc) (off n : nat) : mem (list val) :=
  c ← load p;
  match c with
  | CArr l => match window l off n with Some vs => mret vs | None => stuck end
  | _ => stuck
  end.

Definition load_map (p : loc) : mem (gmap string val) :=
  c ← load p; match c with CMap m => mret m | _ => stuck end.

Definition store_item (p : loc) (i : nat) (v : val) : mem unit :=
  c ← load p;
  match c with
  | CArr l => if decide (i < length l) then store p (CArr (<[i := v]> l)) else stuck
  | _ => stuck
  end.

Definition store_entry (p : loc) (k : string) (v : val) : mem unit :=
  m ← load_map p; store p (CMap (<[k := v]> m)).

Definition field (f : string) (v : val) : mem val :=
  match v with
  | VStruct m => match m !! f with Some w => mret w | None => stuck end
  | _ => stuck
  end.

Definition set_field (f : string) (w v : val) : mem val :=
  match v with VStruct m => mret (VStruct (<[f := w]> m)) | _ => stuck end.

(** What [new] and [make] put into memory: the model has no need of the zero
    value of each type, every place is written before it is read. *)
Definition zero : val := VPtr None.

(** ** Values in memory *)

(** Types of other packages: what their values stand for, which locations they
    occupy, and their deep copy. *)
Class ExtTypes := {
  ext_value : Type;
  ext_reads : string → heap → val → option (ext_value * list loc);
  ext_DeepCopyInto : string → val → mem val;
}.

Section reads.
Context `{EX : !ExtTypes}.

(** Immutable values. *)
Inductive tree :=
| Leaf (s : scalar)
| Ext (x : ext_value)
| Nil
| Ref (x : tree)
| Items (l : list tree)
| Entries (m : gmap string tree)
| Node (fields : list (string * tree)).

(** The value of [v] at type [t] in a heap, with the locations it occupies. *)
Fixpoint reads (h : heap) (t : ty) (v : val) : option (tree * list loc) :=
  match t with
  | TScalar => match v with VScalar s => Some (Leaf s, []) | _ => None end
  | TExt n => '(x, ls) ← ext_reads n h v; Some (Ext x, ls)
  | TStruct fs =>
      match v with
      | VStruct m =>
          rs ← mapM (λ '(f, t), w ← m !! f; r ← reads h t w; Some (f, r)) fs;
          Some (Node (prod_map id fst <$> rs), rs ≫= λ r, r.2.2)
      | _ => None
      end
  | TPtr t =>
      match v with
      | VPtr None => Some (Nil, [])
      | VPtr (Some p) =>
          match h !! p with
          | Some (CVal w) => '(x, ls) ← reads h t w; Some (Ref x, p :: ls)
          | _ => None
          end
      | _ => None
      end
  | TSlice t =>
      match v with
      | VSlice None => Some (Nil, [])
      | VSlice (Some (p, off, n)) =>
          match h !! p with
          | Some (CArr l) =>
              vs ← window l off n;
              rs ← mapM (reads h t) vs;
              Some (Items rs.*1, p :: (rs ≫= snd))
          | _ => None
          end
      | _ => None
      end
  | TMap t =>
      match v with
      | VMap None => Some (Nil, [])
      | VMap (Some p) =>
          match h !! p with
          | Some (CMap m) =>
              rs ← mapM (λ '(k, w), r ← reads h t w; Some (k, r)) (map_to_list m);
              Some (Entries (list_to_map (prod_map id fst <$> rs)), p :: (rs ≫= λ r, r.2.2))
          | _ => None
          end
      | _ => None
      end
  end.

(** A type without references. *)
Fixpoint flat (t : ty) : bool :=
  match t with
  | TScalar => true
  | TStruct fs => forallb (λ '(_, t), flat t) fs
  | _ => false
  end.

End reads.
