(* ===== verification/MemoryCopy.v ===== *)
(** * Copying values in memory

    The statements the generated deep copies are made of ([assign], [pointer],
    [slice], [entries], [copy_struct]), and what each of them promises
    ([copies]): memory that was there is not touched, and the copy has the
    same value in new memory that nothing else refers to. *)
From S2P Require Import Prelude Memory.

(** ** Lists of optional results *)

Lemma mapM_impl {A B} (f g : A → option B) l k :
  mapM f l = Some k → (∀ x y, x ∈ l → y ∈ k → f x = Some y → g x = Some y) → mapM g l = Some k.
Proof.
  rewrite !mapM_Some. intros H Himp. induction H as [|x y l k Hxy _ IH]; [done|].
  constructor; [by apply Himp; [apply list_elem_of_here|apply list_elem_of_here|]|].
  apply IH. intros x' y' ??. apply Himp; by apply list_elem_of_further.
Qed.

Lemma mapM_perm {A B} (f : A → option B) l l' k :
  l ≡ₚ l' → mapM f l = Some k → ∃ k', mapM f l' = Some k' ∧ k ≡ₚ k'.
Proof.
  intros Hl. revert k. induction Hl as [|x l l' _ IH|x y l|l l' l'' _ IH1 _ IH2]; intros k.
  - by exists k.
  - rewrite !mapM_Some. intros H. inversion H as [|? z ? k0 Hz Hk0]; subst.
    apply mapM_Some in Hk0. destruct (IH _ Hk0) as (k' & Hk' & Hp). apply mapM_Some in Hk'.
    exists (z :: k'). split; [apply mapM_Some; by constructor|by constructor].
  - rewrite mapM_Some. intros H. inversion H as [|? z1 ? k0 Hz1 Hk0]; subst.
    inversion Hk0 as [|? z2 ? k1 Hz2 Hk1]; subst. exists (z2 :: z1 :: k1).
    split; [apply mapM_Some; by repeat constructor|constructor].
  - intros Hk. destruct (IH1 _ Hk) as (k1 & Hk1 & Hp1). destruct (IH2 _ Hk1) as (k2 & Hk2 & Hp2).
    exists k2. split; [done|by etrans].
Qed.

(** [mapM] on a non-empty list. *)
Lemma mapM_cons_Some {A B} (f : A → option B) x l y k :
  mapM f (x :: l) = Some (y :: k) ↔ f x = Some y ∧ mapM f l = Some k.
Proof.
  rewrite !mapM_Some. split; [by inversion 1|intros []; by constructor].
Qed.

Lemma mapM_cons_inv {A B} (f : A → option B) x l k :
  mapM f (x :: l) = Some k → ∃ y k', k = y :: k' ∧ f x = Some y ∧ mapM f l = Some k'.
Proof. rewrite mapM_Some. inversion 1; subst. rewrite <-mapM_Some in *. eauto. Qed.

Lemma mapM_elem {A B} (f : A → option B) l k y :
  mapM f l = Some k → y ∈ k → ∃ x, x ∈ l ∧ f x = Some y.
Proof.
  rewrite mapM_Some. intros H. revert y. induction H as [|x z l k Hxz _ IH]; intros y Hy.
  - by apply not_elem_of_nil in Hy.
  - apply elem_of_cons in Hy as [->|Hy]; [exists x; split; [apply list_elem_of_here|done]|].
    destruct (IH y Hy) as (x' & ? & ?). exists x'. split; [by apply list_elem_of_further|done].
Qed.

(** ** Reading is local *)

(** Induction over types, with the types of the fields of a struct. *)
Lemma ty_nested_ind (P : ty → Prop) :
  P TScalar → (∀ fs, Forall (λ ft, P ft.2) fs → P (TStruct fs)) →
  (∀ t, P t → P (TPtr t)) → (∀ t, P t → P (TSlice t)) → (∀ t, P t → P (TMap t)) →
  (∀ n, P (TExt n)) → ∀ t, P t.
Proof.
  intros Hs Hst Hp Hsl Hm He. fix IH 1. intros [|fs|t|t|t|n].
  - exact Hs.
  - apply Hst. induction fs as [|[f t] fs IHfs]; constructor; [apply IH|apply IHfs].
  - apply Hp, IH.
  - apply Hsl, IH.
  - apply Hm, IH.
  - apply He.
Qed.

(** What the deep copies rely on in the types of other packages: a value
    depends on the locations it occupies only, and its deep copy is one. *)
Section copying.
Context `{EX : !ExtTypes}.

(** New locations, each used once. *)
Definition new_in (h : heap) (ls : list loc) : Prop := NoDup ls ∧ ∀ l, l ∈ ls → h !! l = None.

(** [c] makes copies of the values of type [t]. *)
Definition copies (t : ty) (c : val → mem val) : Prop :=
  ∀ h v x ls, reads h t v = Some (x, ls) →
    ∃ v' h' ls', c v h = Some (v', h') ∧ h ⊆ h' ∧ reads h' t v' = Some (x, ls') ∧ new_in h ls'.

Class ExtTypesOk := {
  ext_local n h h' v x ls :
    ext_reads n h v = Some (x, ls) → (∀ l, l ∈ ls → h' !! l = h !! l) → ext_reads n h' v = Some (x, ls);
  ext_dom n h v x ls l : ext_reads n h v = Some (x, ls) → l ∈ ls → is_Some (h !! l);
  ext_copies n : copies (TExt n) (ext_DeepCopyInto n);
}.

Context {OK : ExtTypesOk}.

Lemma bind_locs_in {A} (rs : list (A * list loc)) r l : r ∈ rs → l ∈ r.2 → l ∈ rs ≫= snd.
Proof. intros. apply list_elem_of_bind. by exists r. Qed.

Lemma bind_fields_in {K A} (rs : list (K * (A * list loc))) r l :
  r ∈ rs → l ∈ r.2.2 → l ∈ rs ≫= λ r, r.2.2.
Proof. intros. apply list_elem_of_bind. by exists r. Qed.

Lemma reads_local t : ∀ h h' v x ls,
  reads h t v = Some (x, ls) → (∀ l, l ∈ ls → h' !! l = h !! l) → reads h' t v = Some (x, ls).
Proof.
  induction t as [|fs IH|t IH|t IH|t IH|n] using ty_nested_ind; intros h h' v x ls; simpl.
  - done.
  - destruct v as [|m| | |]; try done. destruct (mapM _ fs) as [rs|] eqn:Hrs; [|done].
    simpl. intros [= <- <-] Heq. erewrite mapM_impl; [done|exact Hrs|].
    intros [f t] r Hf Hr. destruct (m !! f) as [w|]; [|done]. simpl.
    destruct (reads h t w) as [[y ls]|] eqn:Hy; [|done]. simpl. intros [= <-].
    erewrite (proj1 (Forall_forall _ _) IH (f, t) Hf); [done|exact Hy|].
    intros l Hl. apply Heq. by eapply bind_fields_in.
  - destruct v as [| |[p|]| |]; try done. destruct (h !! p) as [[w| |]|] eqn:Hp; try done.
    destruct (reads h t w) as [[y ls']|] eqn:Hy; [|done]. simpl. intros [= <- <-] Heq.
    rewrite Heq, Hp by apply list_elem_of_here. erewrite IH; [done|exact Hy|].
    intros l Hl. apply Heq. by apply list_elem_of_further.
  - destruct v as [| | |[[[p off] n]|]|]; try done. destruct (h !! p) as [[|l|]|] eqn:Hp; try done.
    destruct (window l off n) as [vs|] eqn:Hw; [|done]. simpl.
    destruct (mapM (reads h t) vs) as [rs|] eqn:Hrs; [|done]. simpl. intros [= <- <-] Heq.
    rewrite Heq, Hp by apply list_elem_of_here. rewrite Hw. simpl.
    erewrite mapM_impl; [done|exact Hrs|]. intros w [y ls] _ Hr Hy. eapply IH; [exact Hy|].
    intros i Hi. apply Heq, list_elem_of_further. by eapply bind_locs_in.
  - destruct v as [| | | |[p|]]; try done. destruct (h !! p) as [[| |m]|] eqn:Hp; try done.
    destruct (mapM _ (map_to_list m)) as [rs|] eqn:Hrs; [|done]. simpl. intros [= <- <-] Heq.
    rewrite Heq, Hp by apply list_elem_of_here. simpl. erewrite mapM_impl; [done|exact Hrs|].
    intros [k w] r _ Hr. destruct (reads h t w) as [[y ls]|] eqn:Hy; [|done]. simpl. intros [= <-].
    erewrite IH; [done|exact Hy|]. intros i Hi. apply Heq, list_elem_of_further. by eapply bind_fields_in.
  - destruct (ext_reads n h v) as [[y ls']|] eqn:Hy; [|done]. simpl. intros [= <- <-] Heq.
    by erewrite ext_local.
Qed.

Lemma bind_locs_inv {A} (rs : list (A * list loc)) l : l ∈ rs ≫= snd → ∃ r, r ∈ rs ∧ l ∈ r.2.
Proof. intros (r & ? & ?)%list_elem_of_bind. by exists r. Qed.

(** A value occupies memory that is there. *)
Lemma reads_dom t : ∀ h v x ls l, reads h t v = Some (x, ls) → l ∈ ls → is_Some (h !! l).
Proof.
  induction t as [|fs IH|t IH|t IH|t IH|n] using ty_nested_ind; intros h v x ls l; simpl.
  - destruct v; try done. intros [= _ <-] Hl. by apply not_elem_of_nil in Hl.
  - destruct v as [|m| | |]; try done. destruct (mapM _ fs) as [rs|] eqn:Hrs; [|done].
    simpl. intros [= _ <-] (r & Hl & Hr)%list_elem_of_bind.
    destruct (mapM_elem _ _ _ _ Hrs Hr) as ([f t] & Hf & Hft).
    destruct (m !! f) as [w|]; [|done]. simpl in Hft.
    destruct (reads h t w) as [[y ls]|] eqn:Hy; [|done]. injection Hft as <-.
    exact (proj1 (Forall_forall _ _) IH (f, t) Hf h w y ls l Hy Hl).
  - destruct v as [| |[p|]| |]; try done.
    + destruct (h !! p) as [[w| |]|] eqn:Hp; try done.
      destruct (reads h t w) as [[y ls']|] eqn:Hy; [|done]. simpl.
      intros [= _ <-] [->|Hl]%elem_of_cons; [by eexists|by eapply IH].
    + intros [= _ <-] Hl. by apply not_elem_of_nil in Hl.
  - destruct v as [| | |[[[p off] n]|]|]; try done.
    + destruct (h !! p) as [[|a|]|] eqn:Hp; try done.
      destruct (window a off n) as [vs|]; [|done]. simpl.
      destruct (mapM (reads h t) vs) as [rs|] eqn:Hrs; [|done]. simpl.
      intros [= _ <-] [->|(r & Hr & Hl)%bind_locs_inv]%elem_of_cons; [by eexists|].
      destruct (mapM_elem _ _ _ _ Hrs Hr) as (w & _ & Hw). destruct r. by eapply IH.
    + intros [= _ <-] Hl. by apply not_elem_of_nil in Hl.
  - destruct v as [| | | |[p|]]; try done.
    + destruct (h !! p) as [[| |m]|] eqn:Hp; try done.
      destruct (mapM _ (map_to_list m)) as [rs|] eqn:Hrs; [|done]. simpl.
      intros [= _ <-] [->|(r & Hl & Hr)%list_elem_of_bind]%elem_of_cons; [by eexists|].
      destruct (mapM_elem _ _ _ _ Hrs Hr) as ([k w] & _ & Hw).
      destruct (reads h t w) as [[y ls]|] eqn:Hy; [|done]. injection Hw as <-. by eapply IH.
    + intros [= _ <-] Hl. by apply not_elem_of_nil in Hl.
  - destruct (ext_reads n h v) as [[y ls']|] eqn:Hy; [|done]. simpl. intros [= _ <-].
    by eapply ext_dom.
Qed.

Lemma reads_mono h h' t v x ls : h ⊆ h' → reads h t v = Some (x, ls) → reads h' t v = Some (x, ls).
Proof.
  intros Hsub Hv. apply (reads_local t h); [done|]. intros l Hl.
  destruct (reads_dom t h v x ls l Hv Hl) as [c Hc]. rewrite Hc. by eapply lookup_weaken.
Qed.

(** A flat value occupies no memory. *)
Lemma reads_flat t : ∀ h v x ls, flat t = true → reads h t v = Some (x, ls) → ls = [].
Proof.
  induction t as [|fs IH|t IH|t IH|t IH|n] using ty_nested_ind; intros h v x ls; simpl; try done.
  - destruct v; try done. by intros _ [= _ <-].
  - intros Hfl. destruct v as [|m| | |]; try done. destruct (mapM _ fs) as [rs|] eqn:Hrs; [|done].
    simpl. intros [= _ <-]. assert (Hnil : ∀ r, r ∈ rs → r.2.2 = []).
    { intros r Hr. destruct (mapM_elem _ _ _ _ Hrs Hr) as ([f t] & Hf & Hft).
      destruct (m !! f) as [w|]; [|done]. simpl in Hft.
      destruct (reads h t w) as [[y ls]|] eqn:Hy; [|done]. injection Hft as <-. simpl.
      eapply (proj1 (Forall_forall _ _) IH (f, t) Hf); [|exact Hy].
      rewrite forallb_forall in Hfl. apply (Hfl (f, t)). by apply list_elem_of_In. }
    clear Hrs. induction rs as [|r rs IHrs]; [done|]. simpl. rewrite Hnil by apply list_elem_of_here.
    apply IHrs. intros r' ?. by apply Hnil, list_elem_of_further.
Qed.

(** ** The statements of the deep copies *)

(** [*out = *in] *)
Definition assign (v : val) : mem val := mret v.

(** [if in.F != nil { *out = new(T); body }] *)
Definition pointer (c : val → mem val) (v : val) : mem val :=
  match v with
  | VPtr None => mret v
  | VPtr (Some p) =>
      q ← alloc (CVal zero);
      w ← load_val p;
      w' ← c w;
      _ ← store q (CVal w');
      mret (VPtr (Some q))
  | _ => stuck
  end.

(** [for i := range *in { body }], for the elements from the [i]th on. *)
Fixpoint copy_items (c : val → mem val) (q : loc) (i : nat) (vs : list val) : mem unit :=
  match vs with
  | [] => mret tt
  | w :: vs => w' ← c w; _ ← store_item q i w'; copy_items c q (S i) vs
  end.

(** [*out = make([]T, len( *in))] and the loop, or [copy], that fills it *)
Definition make_slice (c : val → mem val) (n : nat) (vs : list val) : mem val :=
  q ← alloc (CArr (replicate n zero));
  _ ← copy_items c q 0 vs;
  mret (VSlice (Some (q, 0, n))).

(** [if in.F != nil { *out = make([]T, len( *in)); body }] *)
Definition slice (c : val → mem val) (v : val) : mem val :=
  match v with
  | VSlice None => mret v
  | VSlice (Some (p, off, n)) => vs ← load_slice p off n; make_slice c n vs
  | _ => stuck
  end.

Fixpoint copy_entries (c : val → mem val) (q : loc) (l : list (string * val)) : mem unit :=
  match l with
  | [] => mret tt
  | (k, w) :: l => w' ← c w; _ ← store_entry q k w'; copy_entries c q l
  end.

(** [if in.F != nil { *out = make(map[string]T, len( *in)); for key, val := range *in { body } }];
    the order of the loop is that of [map_to_list]: the copy does not depend
    on it. *)
Definition entries (c : val → mem val) (v : val) : mem val :=
  match v with
  | VMap None => mret v
  | VMap (Some p) =>
      m ← load_map p;
      q ← alloc (CMap ∅);
      _ ← copy_entries c q (map_to_list m);
      mret (VMap (Some q))
  | _ => stuck
  end.

Fixpoint copy_fields (cs : list (string * (val → mem val))) (inp out : val) : mem val :=
  match cs with
  | [] => mret out
  | (f, c) :: cs =>
      w ← field f inp;
      w' ← c w;
      out ← set_field f w' out;
      copy_fields cs inp out
  end.

(** [*out = *in], and then the fields that need more than that. *)
Definition copy_struct (cs : list (string * (val → mem val))) (inp : val) : mem val :=
  copy_fields cs inp inp.

(** [DeepCopyObject]: a nil pointer gives a nil interface. *)
Definition copy_object (deep_copy : val → mem val) (inp : val) : mem (option val) :=
  c ← deep_copy inp;
  match c with VPtr None => mret None | _ => mret (Some c) end.

(** ** What they promise *)

(** One statement of a computation. *)
Lemma mem_then {A B} (m : mem A) (f : A → mem B) h a h1 :
  m h = Some (a, h1) → (m ≫= f) h = f a h1.
Proof. unfold mbind, mem_bind. by intros ->. Qed.

Lemma load_val_run h p v : h !! p = Some (CVal v) → load_val p h = Some (v, h).
Proof. intros Hp. unfold load_val. erewrite mem_then; [|unfold load; by rewrite Hp]. done. Qed.

Lemma load_map_run h p m : h !! p = Some (CMap m) → load_map p h = Some (m, h).
Proof. intros Hp. unfold load_map. erewrite mem_then; [|unfold load; by rewrite Hp]. done. Qed.

Lemma load_slice_run h p l off n vs :
  h !! p = Some (CArr l) → window l off n = Some vs → load_slice p off n h = Some (vs, h).
Proof.
  intros Hp Hw. unfold load_slice. erewrite mem_then; [|unfold load; by rewrite Hp]. simpl. by rewrite Hw.
Qed.

Lemma store_run h p c0 c : h !! p = Some c0 → store p c h = Some (tt, <[p := c]> h).
Proof. unfold store. by intros ->. Qed.

Lemma store_item_run h p l i v :
  h !! p = Some (CArr l) → i < length l → store_item p i v h = Some (tt, <[p := CArr (<[i := v]> l)]> h).
Proof.
  intros Hp Hi. unfold store_item. erewrite mem_then; [|unfold load; by rewrite Hp].
  simpl. rewrite decide_True by done. by eapply store_run.
Qed.

Lemma store_entry_run h p m k v :
  h !! p = Some (CMap m) → store_entry p k v h = Some (tt, <[p := CMap (<[k := v]> m)]> h).
Proof.
  intros Hp. unfold store_entry. erewrite mem_then by (by apply load_map_run). by eapply store_run.
Qed.

Lemma new_in_nil h : new_in h [].
Proof. split; [constructor|]. intros l Hl. by apply not_elem_of_nil in Hl. Qed.

Lemma copies_flat t : flat t = true → copies t assign.
Proof.
  intros Hfl h v x ls Hv. exists v, h, ls. split; [done|]. split; [done|]. split; [done|].
  rewrite (reads_flat t h v x ls Hfl Hv). apply new_in_nil.
Qed.

Lemma fresh_loc (h : heap) : h !! fresh (dom h) = None.
Proof. apply not_elem_of_dom, is_fresh. Qed.

(** Writing to a place does not change the values that do not occupy it. *)
Lemma reads_insert h t v x ls p c :
  reads h t v = Some (x, ls) → p ∉ ls → reads (<[p := c]> h) t v = Some (x, ls).
Proof.
  intros Hv Hp. apply (reads_local t h); [done|]. intros l Hl.
  apply lookup_insert_ne. by intros ->.
Qed.

Lemma new_in_weaken h h' ls : h ⊆ h' → new_in h' ls → new_in h ls.
Proof.
  intros Hsub [Hnd Hls]. split; [done|]. intros l Hl. by eapply lookup_weaken_None; [apply Hls|].
Qed.

Lemma new_in_not_elem h ls p c : new_in h ls → h !! p = Some c → p ∉ ls.
Proof. intros [_ Hls] Hp Hin. by rewrite (Hls p Hin) in Hp. Qed.

Lemma copies_pointer t c : copies t c → copies (TPtr t) (pointer c).
Proof.
  intros Hc h v x ls. simpl. destruct v as [| |[p|]| |]; try done.
  2: { intros [= <- <-]. exists (VPtr None), h, []. split_and!; try done. apply new_in_nil. }
  destruct (h !! p) as [[w| |]|] eqn:Hp; try done.
  destruct (reads h t w) as [[y ls']|] eqn:Hy; [|done]. simpl. intros [= <- <-].
  set (q := fresh (dom h)). assert (Hq : h !! q = None) by apply fresh_loc.
  set (h1 := <[q := CVal zero]> h). assert (Hsub : h ⊆ h1) by (by apply insert_subseteq).
  destruct (Hc h1 w y ls') as (w' & h2 & ls2 & Hrun & Hsub2 & Hw' & Hnew); [by eapply reads_mono|].
  assert (Hq1 : h1 !! q = Some (CVal zero)) by apply lookup_insert_eq.
  assert (Hq2 : h2 !! q = Some (CVal zero)) by (by eapply lookup_weaken).
  assert (Hqn : q ∉ ls2) by (by eapply new_in_not_elem).
  exists (VPtr (Some q)), (<[q := CVal w']> h2), (q :: ls2). split_and!.
  - unfold pointer. erewrite mem_then by reflexivity. fold q. fold h1.
    erewrite mem_then by (apply load_val_run; by eapply lookup_weaken).
    erewrite mem_then by done. by erewrite mem_then by (by eapply store_run).
  - apply insert_subseteq_r; [done|]. by etrans.
  - simpl. rewrite lookup_insert_eq. by erewrite reads_insert by done.
  - destruct (new_in_weaken h h1 ls2 Hsub Hnew) as [Hnd Hls].
    split; [by constructor|]. intros l [->|Hl]%elem_of_cons; [done|by apply Hls].
Qed.

(** The heap grows, but for the place that is being filled. *)
Definition grows (q : loc) (h h' : heap) : Prop := ∀ l c, l ≠ q → h !! l = Some c → h' !! l = Some c.

Lemma reads_grows q h h' t v x ls :
  grows q h h' → q ∉ ls → reads h t v = Some (x, ls) → reads h' t v = Some (x, ls).
Proof.
  intros Hg Hq Hv. apply (reads_local t h); [done|]. intros l Hl.
  destruct (reads_dom t h v x ls l Hv Hl) as [c Hc]. rewrite Hc. apply Hg; [congruence|done].
Qed.

Lemma grows_store q h h1 c h' : h ⊆ h1 → grows q (<[q := c]> h1) h' → grows q h h'.
Proof.
  intros Hsub Hg l c' Hne Hl. apply Hg; [done|]. rewrite lookup_insert_ne by done.
  by eapply lookup_weaken.
Qed.

(** What was copied first stays as it is and apart from what is copied later. *)
Lemma new_in_app q h h1 c t v x ls ls' :
  h ⊆ h1 → is_Some (h1 !! q) → reads h1 t v = Some (x, ls) →
  new_in h ls → new_in (<[q := c]> h1) ls' → new_in h (ls ++ ls').
Proof.
  intros Hsub Hq Hv [Hnd Hls] [Hnd' Hls'].
  assert (Hh : ∀ l, l ∈ ls' → h1 !! l = None).
  { intros l Hl. specialize (Hls' l Hl). by apply lookup_insert_None in Hls' as [? _]. }
  split.
  - apply NoDup_app. split_and!; [done| |done]. intros l Hl Hl'.
    destruct (reads_dom t h1 v x ls l Hv Hl) as [c' Hc]. by rewrite (Hh l Hl') in Hc.
  - intros l [Hl|Hl]%elem_of_app; [by apply Hls|]. by eapply lookup_weaken_None; [apply Hh|].
Qed.

Lemma grows_new q h c h' : h !! q = None → grows q (<[q := c]> h) h' → h ⊆ h'.
Proof.
  intros Hq Hg. apply map_subseteq_spec. intros l c' Hl. apply Hg; [congruence|].
  rewrite lookup_insert_ne by congruence. done.
Qed.

Lemma new_in_cons q h c ls : h !! q = None → new_in (<[q := c]> h) ls → new_in h (q :: ls).
Proof.
  intros Hq [Hnd Hls]. split.
  - constructor; [|done]. intros Hin. specialize (Hls q Hin). by rewrite lookup_insert_eq in Hls.
  - intros l [->|Hl]%elem_of_cons; [done|].
    by apply Hls, lookup_insert_None in Hl as [? _].
Qed.

(** *** Slices *)

Lemma copy_items_ok t c : copies t c → ∀ vs h q ds rs,
  h !! q = Some (CArr (ds ++ replicate (length vs) zero)) →
  mapM (reads h t) vs = Some rs → q ∉ rs ≫= snd →
  ∃ h' ds' rs', copy_items c q (length ds) vs h = Some (tt, h')
    ∧ h' !! q = Some (CArr (ds ++ ds')) ∧ grows q h h' ∧ length ds' = length vs
    ∧ mapM (reads h' t) ds' = Some rs' ∧ rs'.*1 = rs.*1 ∧ new_in h (rs' ≫= snd).
Proof.
  intros Hc. induction vs as [|w vs IH]; intros h q ds rs Hq Hrs Hqn.
  - injection Hrs as <-. exists h, [], []. split_and!; try done; [by intros ?|apply new_in_nil].
  - apply mapM_cons_inv in Hrs as ([y ls] & rs0 & -> & Hw & Hrs).
    simpl in Hqn. apply not_elem_of_app in Hqn as [_ Hqn].
    destruct (Hc h w y ls Hw) as (w' & h1 & ls1 & Hrun & Hsub & Hw' & Hnew).
    pose proof (lookup_weaken _ _ _ _ Hq Hsub) as Hq1.
    pose proof (new_in_not_elem _ _ _ _ Hnew Hq) as Hqn1.
    set (h2 := <[q := CArr ((ds ++ [w']) ++ replicate (length vs) zero)]> h1).
    destruct (IH h2 q (ds ++ [w']) rs0) as (h' & ds' & rs' & Hrest & Hq' & Hg & Hlen & Hds & Hfst & Hnew').
    + apply lookup_insert_eq.
    + eapply mapM_impl; [exact Hrs|]. intros v [z ls'] _ Hin Hv. apply reads_insert.
      * by eapply reads_mono.
      * intros Hin'. apply Hqn. by eapply bind_locs_in.
    + done.
    + rewrite length_app in Hrest. simpl in Hrest. rewrite Nat.add_1_r in Hrest.
      exists h', (w' :: ds'), ((y, ls1) :: rs'). split_and!.
      * simpl. erewrite mem_then by exact Hrun. erewrite mem_then; [exact Hrest|].
        erewrite store_item_run; [|exact Hq1|rewrite length_app; simpl; lia].
        rewrite insert_app_r_alt, Nat.sub_diag by lia. simpl. unfold h2. by rewrite <-app_assoc.
      * by rewrite Hq', <-app_assoc.
      * by eapply grows_store.
      * simpl. by rewrite Hlen.
      * apply mapM_cons_Some. split; [|done]. eapply reads_grows; [exact Hg|done|].
        by apply reads_insert.
      * rewrite !fmap_cons. by f_equal.
      * simpl. by eapply new_in_app; [exact Hsub|by eexists|exact Hw'|done|].
Qed.

Lemma window_all {A} (l : list A) : window l 0 (length l) = Some l.
Proof. unfold window. rewrite decide_True by lia. by rewrite drop_0, firstn_all. Qed.

Lemma length_window {A} (l : list A) off n vs : window l off n = Some vs → length vs = n.
Proof.
  unfold window. case_decide; [|done]. intros [= <-]. rewrite length_take, length_drop. lia.
Qed.

(** The elements of a slice, or none, copied to a new array. *)
Lemma make_slice_ok t c h vs rs :
  copies t c → mapM (reads h t) vs = Some rs →
  ∃ v' h' ls', make_slice c (length vs) vs h = Some (v', h') ∧ h ⊆ h'
    ∧ reads h' (TSlice t) v' = Some (Items rs.*1, ls') ∧ new_in h ls'.
Proof.
  intros Hc Hrs. set (q := fresh (dom h)). pose proof (fresh_loc h : h !! q = None) as Hq.
  set (h1 := <[q := CArr (replicate (length vs) zero)]> h).
  destruct (copy_items_ok t c Hc vs h1 q [] rs)
    as (h' & ds & rs' & Hrun & Hq' & Hg & Hlen & Hds & Hfst & Hnew).
  - apply lookup_insert_eq.
  - eapply mapM_impl; [exact Hrs|]. intros v [y ls] _ _. apply reads_mono. by apply insert_subseteq.
  - intros ([y ls] & Hr & Hl)%bind_locs_inv. destruct (mapM_elem _ _ _ _ Hrs Hr) as (w & _ & Hw).
    destruct (reads_dom t h w y ls q Hw Hl) as [? ?]. congruence.
  - exists (VSlice (Some (q, 0, length vs))), h', (q :: (rs' ≫= snd)). split_and!.
    + unfold make_slice. erewrite mem_then by reflexivity. by erewrite mem_then by exact Hrun.
    + by eapply grows_new.
    + simpl. rewrite Hq'. simpl. rewrite <-Hlen, window_all. simpl. rewrite Hds. simpl. by rewrite Hfst.
    + by eapply new_in_cons.
Qed.

Lemma copies_slice t c : copies t c → copies (TSlice t) (slice c).
Proof.
  intros Hc h v x ls. simpl. destruct v as [| | |[[[p off] n]|]|]; try done.
  2: { intros [= <- <-]. exists (VSlice None), h, []. split_and!; try done. apply new_in_nil. }
  destruct (h !! p) as [[|a|]|] eqn:Hp; try done.
  destruct (window a off n) as [vs|] eqn:Hw; [|done]. simpl.
  destruct (mapM (reads h t) vs) as [rs|] eqn:Hrs; [|done]. simpl. intros [= <- <-].
  destruct (make_slice_ok t c h vs rs Hc Hrs) as (v' & h' & ls' & Hrun & Hrest).
  exists v', h', ls'. split; [|done]. unfold slice.
  erewrite mem_then by (by eapply load_slice_run). by rewrite <-(length_window _ _ _ _ Hw).
Qed.

(** *** Maps *)

Definition read_entry (h : heap) (t : ty) (kw : string * val) : option (string * (tree * list loc)) :=
  r ← reads h t kw.2; Some (kw.1, r).

Lemma read_entry_Some h t kw k x ls :
  read_entry h t kw = Some (k, (x, ls)) ↔ kw.1 = k ∧ reads h t kw.2 = Some (x, ls).
Proof.
  unfold read_entry. destruct (reads h t kw.2) as [[y ls']|]; simpl; [|naive_solver].
  split; [by intros [= <- <- <-]|by intros [<- [= <- <-]]].
Qed.

Lemma reads_map h t p m :
  h !! p = Some (CMap m) →
  reads h (TMap t) (VMap (Some p)) =
    (rs ← mapM (read_entry h t) (map_to_list m);
     Some (Entries (list_to_map (prod_map id fst <$> rs)), p :: (rs ≫= λ r, r.2.2))).
Proof.
  intros Hp. simpl. rewrite Hp. f_equal. apply mapM_ext. by intros [k w].
Qed.

Lemma copy_entries_ok t c : copies t c → ∀ l h q m rs,
  h !! q = Some (CMap m) → NoDup l.*1 → (∀ k, k ∈ l.*1 → m !! k = None) →
  mapM (read_entry h t) l = Some rs → q ∉ rs ≫= (λ r, r.2.2) →
  ∃ h' ds rs', copy_entries c q l h = Some (tt, h')
    ∧ h' !! q = Some (CMap (list_to_map ds ∪ m)) ∧ grows q h h' ∧ ds.*1 = l.*1
    ∧ mapM (read_entry h' t) ds = Some rs' ∧ prod_map id fst <$> rs' = prod_map id fst <$> rs
    ∧ new_in h (rs' ≫= λ r, r.2.2).
Proof.
  intros Hc. induction l as [|[k w] l IH]; intros h q m rs Hq Hnd Hm Hrs Hqn.
  - injection Hrs as <-. exists h, [], [].
    split_and!; try done; [by simpl; rewrite Hq, (left_id_L ∅ (∪))|by intros ?|apply new_in_nil].
  - apply mapM_cons_inv in Hrs as ([k' [y ls]] & rs0 & -> & [<- Hw]%read_entry_Some & Hrs).
    simpl in *. apply not_elem_of_app in Hqn as [_ Hqn]. apply NoDup_cons in Hnd as [Hk Hnd].
    destruct (Hc h w y ls Hw) as (w' & h1 & ls1 & Hrun & Hsub & Hw' & Hnew).
    pose proof (lookup_weaken _ _ _ _ Hq Hsub) as Hq1.
    pose proof (new_in_not_elem _ _ _ _ Hnew Hq) as Hqn1.
    set (h2 := <[q := CMap (<[k := w']> m)]> h1).
    destruct (IH h2 q (<[k := w']> m) rs0) as (h' & ds & rs' & Hrest & Hq' & Hg & Hlen & Hds & Hfst & Hnew').
    + apply lookup_insert_eq.
    + done.
    + intros k' Hk'. rewrite lookup_insert_ne by (by intros ->). apply Hm. by apply elem_of_cons; right.
    + eapply mapM_impl; [exact Hrs|]. intros kv [k' [z ls']] _ Hin [? Hv]%read_entry_Some.
      apply read_entry_Some. split; [done|]. apply reads_insert; [by eapply reads_mono|].
      intros Hin'. apply Hqn. by eapply bind_fields_in.
    + done.
    + exists h', ((k, w') :: ds), ((k, (y, ls1)) :: rs').
      assert (Hkd : k ∉ ds.*1) by (by rewrite Hlen).
      split_and!.
      * erewrite mem_then by exact Hrun. erewrite mem_then; [exact Hrest|]. by apply store_entry_run.
      * rewrite Hq'. do 2 f_equal. simpl. rewrite <-insert_union_l, <-insert_union_r; [done|].
        by apply not_elem_of_list_to_map.
      * by eapply grows_store.
      * simpl. by f_equal.
      * apply mapM_cons_Some. split; [|done]. apply read_entry_Some. split; [done|].
        eapply reads_grows; [exact Hg|done|]. by apply reads_insert.
      * rewrite !fmap_cons. by f_equal.
      * simpl. by eapply new_in_app; [exact Hsub|by eexists|exact Hw'|done|].
Qed.

Lemma read_entry_keys h t l rs : mapM (read_entry h t) l = Some rs → (prod_map id fst <$> rs).*1 = l.*1.
Proof.
  revert rs. induction l as [|kw l IH]; intros rs; [by intros [= <-]|].
  intros ([k [y ls]] & rs' & -> & [<- _]%read_entry_Some & Hrs)%mapM_cons_inv.
  rewrite !fmap_cons. simpl. by rewrite (IH _ Hrs).
Qed.

Lemma new_in_perm h ls ls' : ls ≡ₚ ls' → new_in h ls → new_in h ls'.
Proof.
  intros Hp [Hnd Hls]. split; [by rewrite <-Hp|]. intros l Hl. apply Hls. by rewrite Hp.
Qed.

Lemma copies_entries t c : copies t c → copies (TMap t) (entries c).
Proof.
  intros Hc h v x ls. destruct v as [| | | |[p|]]; try done.
  2: { intros [= <- <-]. exists (VMap None), h, []. split_and!; try done. apply new_in_nil. }
  destruct (h !! p) as [[| |m]|] eqn:Hp; [by simpl; rewrite Hp..| |by simpl; rewrite Hp].
  rewrite (reads_map h t p m Hp). destruct (mapM _ _) as [rs|] eqn:Hrs; [|done]. simpl.
  intros [= <- <-]. set (q := fresh (dom h)). pose proof (fresh_loc h : h !! q = None) as Hq.
  set (h1 := <[q := CMap ∅]> h). assert (Hsub : h ⊆ h1) by (by apply insert_subseteq).
  pose proof (NoDup_fst_map_to_list m) as Hnd.
  destruct (copy_entries_ok t c Hc (map_to_list m) h1 q ∅ rs)
    as (h' & ds & rs' & Hrun & Hq' & Hg & Hkeys & Hds & Hfst & Hnew).
  - apply lookup_insert_eq.
  - done.
  - done.
  - eapply mapM_impl; [exact Hrs|]. intros kv [k [y ls]] _ _ [? Hv]%read_entry_Some.
    apply read_entry_Some. split; [done|]. by eapply reads_mono.
  - intros ([k [y ls]] & Hl & Hr)%list_elem_of_bind.
    destruct (mapM_elem _ _ _ _ Hrs Hr) as (kv & _ & [_ Hw]%read_entry_Some).
    destruct (reads_dom t h _ y ls q Hw Hl) as [? ?]. congruence.
  - rewrite (right_id_L ∅ (∪)) in Hq'. rewrite <-Hkeys in Hnd.
    destruct (mapM_perm (read_entry h' t) ds (map_to_list (list_to_map ds : gmap string val)) rs') as (rs2 & Hrs2 & Hp2);
      [by rewrite map_to_list_to_map|done|].
    exists (VMap (Some q)), h', (q :: (rs2 ≫= λ r, r.2.2)). split_and!.
    + unfold entries. erewrite mem_then by (by apply load_map_run).
      erewrite mem_then by reflexivity. by erewrite mem_then by exact Hrun.
    + by eapply grows_new.
    + etrans; [by apply reads_map|]. rewrite Hrs2. simpl. do 3 f_equal. rewrite <-Hfst.
      apply list_to_map_proper; [|by rewrite <-Hp2].
      erewrite read_entry_keys by exact Hrs2. apply NoDup_fst_map_to_list.
    + eapply new_in_cons; [done|]. eapply new_in_perm; [|exact Hnew]. by rewrite Hp2.
Qed.

(** *** Structs *)

Definition read_field (h : heap) (m : gmap string val) (ft : string * ty) : option (string * (tree * list loc)) :=
  w ← m !! ft.1; r ← reads h ft.2 w; Some (ft.1, r).

Lemma read_field_Some h m ft f x ls :
  read_field h m ft = Some (f, (x, ls)) ↔
    ft.1 = f ∧ ∃ w, m !! f = Some w ∧ reads h ft.2 w = Some (x, ls).
Proof.
  unfold read_field. split.
  - destruct (m !! ft.1) as [w|] eqn:Hw; [|done]. simpl.
    destruct (reads h ft.2 w) as [[y ls']|] eqn:Hy; [|done]. intros [= <- <- <-]. eauto.
  - intros (<- & w & -> & Hw). simpl. by rewrite Hw.
Qed.

Lemma reads_struct h fs m :
  reads h (TStruct fs) (VStruct m) =
    (rs ← mapM (read_field h m) fs; Some (Node (prod_map id fst <$> rs), rs ≫= λ r, r.2.2)).
Proof. simpl. f_equal. apply mapM_ext. by intros [f t]. Qed.

(** The statements of a deep copy, in the order of the fields; a field without
    references needs none. *)
Inductive copies_fields : list (string * ty) → list (string * (val → mem val)) → Prop :=
| copies_none : copies_fields [] []
| copies_assigned f t fs cs :
    flat t = true → copies_fields fs cs → copies_fields ((f, t) :: fs) cs
| copies_one f t c fs cs :
    copies t c → copies_fields fs cs → copies_fields ((f, t) :: fs) ((f, c) :: cs).

Lemma copy_fields_ok fs cs : copies_fields fs cs → NoDup fs.*1 → ∀ h m out rs,
  mapM (read_field h m) fs = Some rs → (∀ f, f ∈ fs.*1 → out !! f = m !! f) →
  ∃ out' h' rs', copy_fields cs (VStruct m) (VStruct out) h = Some (VStruct out', h') ∧ h ⊆ h'
    ∧ mapM (read_field h' out') fs = Some rs' ∧ prod_map id fst <$> rs' = prod_map id fst <$> rs
    ∧ new_in h (rs' ≫= λ r, r.2.2) ∧ ∀ f, f ∉ fs.*1 → out' !! f = out !! f.
Proof.
  induction 1 as [|f t fs cs Hfl _ IH|f t c fs cs Hc _ IH]; intros Hnd h m out rs Hrs Hout.
  - injection Hrs as <-. exists out, h, []. split_and!; try done. apply new_in_nil.
  - apply NoDup_cons in Hnd as [Hf Hnd].
    apply mapM_cons_inv in Hrs as ([f' [y ls]] & rs0 & -> & (<- & w & Hw & Hy)%read_field_Some & Hrs).
    simpl in *. assert (ls = []) as -> by (by eapply reads_flat).
    destruct (IH Hnd h m out rs0 Hrs) as (out' & h' & rs' & Hrun & Hsub & Hrs' & Hfst & Hnew & Hother).
    { intros g Hg. apply Hout. by apply elem_of_cons; right. }
    exists out', h', ((f, (y, [])) :: rs'). split_and!; try done.
    + apply mapM_cons_Some. split; [|done]. apply read_field_Some. split; [done|]. exists w.
      rewrite Hother, Hout, Hw by (done || apply elem_of_cons; by left).
      split; [done|]. by eapply reads_mono.
    + rewrite !fmap_cons. by f_equal.
    + intros g [_ Hg]%not_elem_of_cons. by apply Hother.
  - apply NoDup_cons in Hnd as [Hf Hnd].
    apply mapM_cons_inv in Hrs as ([f' [y ls]] & rs0 & -> & (<- & w & Hw & Hy)%read_field_Some & Hrs).
    simpl in *. destruct (Hc h w y ls Hy) as (w' & h1 & ls1 & Hrun1 & Hsub1 & Hw' & Hnew1).
    destruct (IH Hnd h1 m (<[f := w']> out) rs0) as (out' & h' & rs' & Hrun & Hsub & Hrs' & Hfst & Hnew & Hother).
    + eapply mapM_impl; [exact Hrs|]. intros ft [g [z ls']] _ _ (? & w0 & ? & ?)%read_field_Some.
      apply read_field_Some. split; [done|]. exists w0. split; [done|]. by eapply reads_mono.
    + intros g Hg. rewrite lookup_insert_ne by (by intros ->). apply Hout. by apply elem_of_cons; right.
    + exists out', h', ((f, (y, ls1)) :: rs'). split_and!.
      * erewrite mem_then by (unfold field; by rewrite Hw). erewrite mem_then by exact Hrun1.
        by erewrite mem_then by reflexivity.
      * by etrans.
      * apply mapM_cons_Some. split; [|done]. apply read_field_Some. split; [done|]. exists w'. simpl.
        rewrite Hother, lookup_insert_eq by done. split; [done|]. by eapply reads_mono.
      * rewrite !fmap_cons. by f_equal.
      * simpl. destruct Hnew1 as [Hnd1 Hls1], Hnew as [Hnd2 Hls2]. split.
        -- apply NoDup_app. split_and!; [done| |done]. intros l Hl Hl'.
           destruct (reads_dom t h1 w' y ls1 l Hw' Hl) as [c' Hc']. by rewrite (Hls2 l Hl') in Hc'.
        -- intros l [Hl|Hl]%elem_of_app; [by apply Hls1|].
           by eapply lookup_weaken_None; [apply Hls2|].
      * intros g [Hne Hg]%not_elem_of_cons. rewrite Hother by done. by apply lookup_insert_ne.
Qed.

Lemma copies_struct fs cs : NoDup fs.*1 → copies_fields fs cs → copies (TStruct fs) (copy_struct cs).
Proof.
  intros Hnd Hcs h v x ls Hv. destruct v as [|m| | |]; try done. rewrite reads_struct in Hv.
  destruct (mapM _ _) as [rs|] eqn:Hrs; [|done]. simpl in Hv. injection Hv as <- <-.
  destruct (copy_fields_ok fs cs Hcs Hnd h m m rs Hrs) as (out & h' & rs' & Hrun & Hsub & Hrs' & Hfst & Hnew & _);
    [done|].
  exists (VStruct out), h', (rs' ≫= λ r, r.2.2). split_and!; try done.
  rewrite reads_struct, Hrs'. simpl. by rewrite Hfst.
Qed.

(** *** Objects *)

Lemma copies_object t c h p x ls :
  copies (TPtr t) c → reads h (TPtr t) (VPtr p) = Some (x, ls) →
  ∃ o h', copy_object c (VPtr p) h = Some (o, h') ∧ h ⊆ h' ∧
    match p, o with
    | None, None => True
    | Some _, Some v' => ∃ ls', reads h' (TPtr t) v' = Some (x, ls') ∧ new_in h ls'
    | _, _ => False
    end.
Proof.
  intros Hc Hv. destruct (Hc h (VPtr p) x ls Hv) as (v' & h' & ls' & Hrun & Hsub & Hv' & Hnew).
  unfold copy_object. erewrite mem_then by exact Hrun.
  assert (Hnil : reads h (TPtr t) (VPtr p) = Some (x, ls) → (p = None ↔ x = Nil)).
  { destruct p as [p|]; simpl; [|naive_solver]. destruct (h !! p) as [[]|]; try done.
    destruct (reads h t v) as [[]|]; simpl; naive_solver. }
  specialize (Hnil Hv). destruct v' as [| |[q|]| |]; try done.
  - exists (Some (VPtr (Some q))), h'. split; [done|]. split; [done|]. destruct p; [by exists ls'|].
    rewrite (proj1 Hnil eq_refl) in Hv'. simpl in Hv'. destruct (h' !! q) as [[]|]; try done.
    by destruct (reads h' t v) as [[]|].
  - exists None, h'. split; [done|]. split; [done|]. injection Hv' as <- _.
    by rewrite (proj2 Hnil eq_refl).
Qed.

End copying.
