(* ===== verification/DeepCopy.v ===== *)
(** * The generated deep copies

    src/api/v1/zz_generated.deepcopy.go, function by function, over the memory
    of Memory.v.  [T_type] is the struct of the type [T] with its fields in the
    order of the source, [T_DeepCopyInto] takes [*in] and returns what it
    leaves in [*out], [T_DeepCopy] and [T_DeepCopyObject] take and return
    pointers.  The deep copies of the types of other packages are parameters.

    Every copy has the value of the original and shares no memory with it or
    with anything else.  This is what allows the rest of the development to
    treat the objects of the API as immutable values: the client hands out
    deep copies of the objects in its cache, and the reconcilers change them in
    place. *)
From S2P Require Import Prelude Memory MemoryCopy.

(** ** The types *)

Definition TypeMeta_type : ty := TStruct [ ("Kind", TScalar); ("APIVersion", TScalar) ].
Definition LocalObjectReference_type : ty := TStruct [ ("Name", TScalar) ].
Definition SecretReference_type : ty := TStruct [ ("Name", TScalar); ("Namespace", TScalar) ].

Definition ReadAffinitySpec_type : ty := TStruct [ ("CrushLocationLabels", TSlice TScalar) ].

Definition CephConnectionSpec_type : ty := TStruct
  [ ("Monitors", TSlice TScalar); ("ReadAffinity", TPtr ReadAffinitySpec_type);
    ("RbdMirrorDaemonCount", TScalar) ].

Definition CephConnectionStatus_type : ty := TStruct [].

Definition CephConnection_type : ty := TStruct
  [ ("TypeMeta", TypeMeta_type); ("ObjectMeta", TExt "metav1.ObjectMeta");
    ("Spec", CephConnectionSpec_type); ("Status", CephConnectionStatus_type) ].

Definition CephConnectionList_type : ty := TStruct
  [ ("TypeMeta", TypeMeta_type); ("ListMeta", TExt "metav1.ListMeta");
    ("Items", TSlice CephConnection_type) ].

Definition CephCsiSecretsSpec_type : ty := TStruct
  [ ("ControllerPublishSecret", SecretReference_type);
    ("NodePublishSecret", SecretReference_type) ].

Definition CephFsConfigSpec_type : ty := TStruct
  [ ("SubVolumeGroup", TScalar); ("KernelMountOptions", TMap TScalar);
    ("FuseMountOptions", TMap TScalar); ("RadosNamespace", TPtr TScalar);
    ("CephCsiSecrets", TPtr CephCsiSecretsSpec_type) ].

Definition RbdConfigSpec_type : ty := TStruct
  [ ("RadosNamespace", TScalar); ("CephCsiSecrets", TPtr CephCsiSecretsSpec_type) ].

Definition NfsConfigSpec_type : ty := TStruct [].

Definition NvmeofConfigSpec_type : ty := TStruct
  [ ("RadosNamespace", TScalar); ("CephCsiSecrets", TPtr CephCsiSecretsSpec_type) ].

Definition ClientProfileSpec_type : ty := TStruct
  [ ("CephConnectionRef", LocalObjectReference_type); ("CephFs", TPtr CephFsConfigSpec_type);
    ("Rbd", TPtr RbdConfigSpec_type); ("Nfs", TPtr NfsConfigSpec_type);
    ("Nvmeof", TPtr NvmeofConfigSpec_type) ].

Definition ClientProfileStatus_type : ty := TStruct [ ("Phase", TScalar); ("Message", TScalar) ].

Definition ClientProfile_type : ty := TStruct
  [ ("TypeMeta", TypeMeta_type); ("ObjectMeta", TExt "metav1.ObjectMeta");
    ("Spec", ClientProfileSpec_type); ("Status", ClientProfileStatus_type) ].

Definition ClientProfileList_type : ty := TStruct
  [ ("TypeMeta", TypeMeta_type); ("ListMeta", TExt "metav1.ListMeta");
    ("Items", TSlice ClientProfile_type) ].

Definition BlockPoolIdPair_type : ty := TSlice TScalar.

Definition MappingsSpec_type : ty := TStruct
  [ ("LocalClientProfile", TScalar); ("RemoteClientProfile", TScalar);
    ("BlockPoolIdMapping", TSlice BlockPoolIdPair_type) ].

Definition ClientProfileMappingSpec_type : ty := TStruct [ ("Mappings", TSlice MappingsSpec_type) ].

Definition ClientProfileMappingStatus_type : ty := TStruct [].

Definition ClientProfileMapping_type : ty := TStruct
  [ ("TypeMeta", TypeMeta_type); ("ObjectMeta", TExt "metav1.ObjectMeta");
    ("Spec", ClientProfileMappingSpec_type); ("Status", ClientProfileMappingStatus_type) ].

Definition ClientProfileMappingList_type : ty := TStruct
  [ ("TypeMeta", TypeMeta_type); ("ListMeta", TExt "metav1.ListMeta");
    ("Items", TSlice ClientProfileMapping_type) ].

Definition PoolMappingSpec_type : ty := TStruct [ ("Name", TScalar); ("RemoteID", TScalar) ].

Definition RBDReplicationSpec_type : ty := TStruct [ ("PoolMapping", TSlice PoolMappingSpec_type) ].

Definition ClientProfileReplicationSpec_type : ty := TStruct
  [ ("LocalClientProfile", TScalar); ("RemoteClientProfile", TScalar);
    ("RBD", TPtr RBDReplicationSpec_type) ].

Definition ClientProfileReplicationStatus_type : ty := TStruct
  [ ("Phase", TScalar); ("Message", TScalar) ].

Definition ClientProfileReplication_type : ty := TStruct
  [ ("TypeMeta", TypeMeta_type); ("ObjectMeta", TExt "metav1.ObjectMeta");
    ("Spec", ClientProfileReplicationSpec_type); ("Status", ClientProfileReplicationStatus_type) ].

Definition ClientProfileReplicationList_type : ty := TStruct
  [ ("TypeMeta", TypeMeta_type); ("ListMeta", TExt "metav1.ListMeta");
    ("Items", TSlice ClientProfileReplication_type) ].

Definition LogRotationSpec_type : ty := TStruct
  [ ("MaxFiles", TScalar); ("MaxLogSize", TExt "resource.Quantity"); ("Periodicity", TScalar);
    ("LogHostPath", TScalar) ].

Definition LogSpec_type : ty := TStruct
  [ ("Verbosity", TScalar); ("Rotation", TPtr LogRotationSpec_type) ].

Definition EncryptionSpec_type : ty := TStruct [ ("ConfigMapRef", LocalObjectReference_type) ].

Definition VolumeSpec_type : ty := TStruct
  [ ("Volume", TExt "corev1.Volume"); ("Mount", TExt "corev1.VolumeMount") ].

Definition PodCommonSpec_type : ty := TStruct
  [ ("ServiceAccountName", TPtr TScalar); ("PrioritylClassName", TPtr TScalar);
    ("Labels", TMap TScalar); ("Annotations", TMap TScalar);
    ("Affinity", TPtr (TExt "corev1.Affinity"));
    ("Tolerations", TSlice (TExt "corev1.Toleration")); ("Volumes", TSlice VolumeSpec_type);
    ("ImagePullPolicy", TScalar) ].

Definition NodePluginResourcesSpec_type : ty := TStruct
  [ ("Registrar", TPtr (TExt "corev1.ResourceRequirements"));
    ("Liveness", TPtr (TExt "corev1.ResourceRequirements"));
    ("Addons", TPtr (TExt "corev1.ResourceRequirements"));
    ("LogRotator", TPtr (TExt "corev1.ResourceRequirements"));
    ("Plugin", TPtr (TExt "corev1.ResourceRequirements")) ].

Definition TopologySpec_type : ty := TStruct [ ("DomainLabels", TSlice TScalar) ].

Definition NodePluginSpec_type : ty := TStruct
  [ ("PodCommonSpec", PodCommonSpec_type);
    ("UpdateStrategy", TPtr (TExt "appsv1.DaemonSetUpdateStrategy"));
    ("Resources", NodePluginResourcesSpec_type); ("KubeletDirPath", TScalar);
    ("EnableSeLinuxHostMount", TPtr TScalar); ("Topology", TPtr TopologySpec_type);
    ("ContainerExtraArgs", TMap (TSlice TScalar)) ].

Definition ControllerPluginResourcesSpec_type : ty := TStruct
  [ ("Attacher", TPtr (TExt "corev1.ResourceRequirements"));
    ("Snapshotter", TPtr (TExt "corev1.ResourceRequirements"));
    ("Resizer", TPtr (TExt "corev1.ResourceRequirements"));
    ("Provisioner", TPtr (TExt "corev1.ResourceRequirements"));
    ("OMapGenerator", TPtr (TExt "corev1.ResourceRequirements"));
    ("Liveness", TPtr (TExt "corev1.ResourceRequirements"));
    ("Addons", TPtr (TExt "corev1.ResourceRequirements"));
    ("LogRotator", TPtr (TExt "corev1.ResourceRequirements"));
    ("Plugin", TPtr (TExt "corev1.ResourceRequirements")) ].

Definition ControllerPluginSpec_type : ty := TStruct
  [ ("HostNetwork", TPtr TScalar); ("PodCommonSpec", PodCommonSpec_type);
    ("DeploymentStrategy", TPtr (TExt "appsv1.DeploymentStrategy")); ("Replicas", TPtr TScalar);
    ("Resources", ControllerPluginResourcesSpec_type); ("Privileged", TPtr TScalar);
    ("ContainerExtraArgs", TMap (TSlice TScalar)) ].

Definition LivenessSpec_type : ty := TStruct [ ("MetricsPort", TScalar) ].

Definition LeaderElectionSpec_type : ty := TStruct
  [ ("LeaseDuration", TScalar); ("RenewDeadline", TScalar); ("RetryPeriod", TScalar) ].

Definition DriverSpec_type : ty := TStruct
  [ ("Log", TPtr LogSpec_type); ("ImageSet", TPtr LocalObjectReference_type);
    ("ClusterName", TPtr TScalar); ("EnableMetadata", TPtr TScalar);
    ("EnableFencing", TPtr TScalar); ("GRpcTimeout", TScalar); ("SnapshotPolicy", TScalar);
    ("GenerateOMapInfo", TPtr TScalar); ("FsGroupPolicy", TScalar);
    ("Encryption", TPtr EncryptionSpec_type); ("NodePlugin", TPtr NodePluginSpec_type);
    ("ControllerPlugin", TPtr ControllerPluginSpec_type); ("AttachRequired", TPtr TScalar);
    ("Liveness", TPtr LivenessSpec_type); ("LeaderElection", TPtr LeaderElectionSpec_type);
    ("DeployCsiAddons", TPtr TScalar); ("CephFsClientType", TScalar);
    ("KernelMountOptions", TMap TScalar); ("FuseMountOptions", TMap TScalar) ].

Definition DriverStatus_type : ty := TStruct [].

Definition Driver_type : ty := TStruct
  [ ("TypeMeta", TypeMeta_type); ("ObjectMeta", TExt "metav1.ObjectMeta");
    ("Spec", DriverSpec_type); ("Status", DriverStatus_type) ].

Definition DriverList_type : ty := TStruct
  [ ("TypeMeta", TypeMeta_type); ("ListMeta", TExt "metav1.ListMeta");
    ("Items", TSlice Driver_type) ].

Definition OperatorLogSpec_type : ty := TStruct [ ("Verbosity", TScalar) ].

Definition OperatorConfigSpec_type : ty := TStruct
  [ ("Log", TPtr OperatorLogSpec_type); ("DriverSpecDefaults", TPtr DriverSpec_type) ].

Definition OperatorConfigStatus_type : ty := TStruct [].

Definition OperatorConfig_type : ty := TStruct
  [ ("TypeMeta", TypeMeta_type); ("ObjectMeta", TExt "metav1.ObjectMeta");
    ("Spec", OperatorConfigSpec_type); ("Status", OperatorConfigStatus_type) ].

Definition OperatorConfigList_type : ty := TStruct
  [ ("TypeMeta", TypeMeta_type); ("ListMeta", TExt "metav1.ListMeta");
    ("Items", TSlice OperatorConfig_type) ].

(** ** The functions *)

Section deep_copies.
Context `{EX : !ExtTypes}.

Definition ReadAffinitySpec_DeepCopyInto : val → mem val := copy_struct
  [ ("CrushLocationLabels", slice assign) ].
Definition ReadAffinitySpec_DeepCopy : val → mem val := pointer ReadAffinitySpec_DeepCopyInto.

Definition CephConnectionSpec_DeepCopyInto : val → mem val := copy_struct
  [ ("Monitors", slice assign); ("ReadAffinity", pointer ReadAffinitySpec_DeepCopyInto) ].
Definition CephConnectionSpec_DeepCopy : val → mem val := pointer CephConnectionSpec_DeepCopyInto.

Definition CephConnectionStatus_DeepCopyInto : val → mem val := copy_struct [].
Definition CephConnectionStatus_DeepCopy : val → mem val := pointer CephConnectionStatus_DeepCopyInto.

Definition CephConnection_DeepCopyInto : val → mem val := copy_struct
  [ ("TypeMeta", assign); ("ObjectMeta", ext_DeepCopyInto "metav1.ObjectMeta");
    ("Spec", CephConnectionSpec_DeepCopyInto); ("Status", assign) ].
Definition CephConnection_DeepCopy : val → mem val := pointer CephConnection_DeepCopyInto.
Definition CephConnection_DeepCopyObject : val → mem (option val) := copy_object CephConnection_DeepCopy.

Definition CephConnectionList_DeepCopyInto : val → mem val := copy_struct
  [ ("TypeMeta", assign); ("ListMeta", ext_DeepCopyInto "metav1.ListMeta");
    ("Items", slice CephConnection_DeepCopyInto) ].
Definition CephConnectionList_DeepCopy : val → mem val := pointer CephConnectionList_DeepCopyInto.
Definition CephConnectionList_DeepCopyObject : val → mem (option val) := copy_object CephConnectionList_DeepCopy.

Definition CephCsiSecretsSpec_DeepCopyInto : val → mem val := copy_struct
  [ ("ControllerPublishSecret", assign); ("NodePublishSecret", assign) ].
Definition CephCsiSecretsSpec_DeepCopy : val → mem val := pointer CephCsiSecretsSpec_DeepCopyInto.

Definition CephFsConfigSpec_DeepCopyInto : val → mem val := copy_struct
  [ ("KernelMountOptions", entries assign); ("FuseMountOptions", entries assign);
    ("RadosNamespace", pointer assign); ("CephCsiSecrets", pointer assign) ].
Definition CephFsConfigSpec_DeepCopy : val → mem val := pointer CephFsConfigSpec_DeepCopyInto.

Definition RbdConfigSpec_DeepCopyInto : val → mem val := copy_struct
  [ ("CephCsiSecrets", pointer assign) ].
Definition RbdConfigSpec_DeepCopy : val → mem val := pointer RbdConfigSpec_DeepCopyInto.

Definition NfsConfigSpec_DeepCopyInto : val → mem val := copy_struct [].
Definition NfsConfigSpec_DeepCopy : val → mem val := pointer NfsConfigSpec_DeepCopyInto.

Definition NvmeofConfigSpec_DeepCopyInto : val → mem val := copy_struct
  [ ("CephCsiSecrets", pointer assign) ].
Definition NvmeofConfigSpec_DeepCopy : val → mem val := pointer NvmeofConfigSpec_DeepCopyInto.

Definition ClientProfileSpec_DeepCopyInto : val → mem val := copy_struct
  [ ("CephConnectionRef", assign); ("CephFs", pointer CephFsConfigSpec_DeepCopyInto);
    ("Rbd", pointer RbdConfigSpec_DeepCopyInto); ("Nfs", pointer assign);
    ("Nvmeof", pointer NvmeofConfigSpec_DeepCopyInto) ].
Definition ClientProfileSpec_DeepCopy : val → mem val := pointer ClientProfileSpec_DeepCopyInto.

Definition ClientProfileStatus_DeepCopyInto : val → mem val := copy_struct [].
Definition ClientProfileStatus_DeepCopy : val → mem val := pointer ClientProfileStatus_DeepCopyInto.

Definition ClientProfile_DeepCopyInto : val → mem val := copy_struct
  [ ("TypeMeta", assign); ("ObjectMeta", ext_DeepCopyInto "metav1.ObjectMeta");
    ("Spec", ClientProfileSpec_DeepCopyInto); ("Status", assign) ].
Definition ClientProfile_DeepCopy : val → mem val := pointer ClientProfile_DeepCopyInto.
Definition ClientProfile_DeepCopyObject : val → mem (option val) := copy_object ClientProfile_DeepCopy.

Definition ClientProfileList_DeepCopyInto : val → mem val := copy_struct
  [ ("TypeMeta", assign); ("ListMeta", ext_DeepCopyInto "metav1.ListMeta");
    ("Items", slice ClientProfile_DeepCopyInto) ].
Definition ClientProfileList_DeepCopy : val → mem val := pointer ClientProfileList_DeepCopyInto.
Definition ClientProfileList_DeepCopyObject : val → mem (option val) := copy_object ClientProfileList_DeepCopy.

Definition BlockPoolIdPair_DeepCopyInto (inp : val) : mem val :=
  match inp with
  | VSlice None => make_slice assign 0 []
  | VSlice (Some (p, off, n)) => vs ← load_slice p off n; make_slice assign n vs
  | _ => stuck
  end.

Definition BlockPoolIdPair_DeepCopy (inp : val) : mem val :=
  match inp with
  | VSlice None => mret (VSlice None)
  | _ => BlockPoolIdPair_DeepCopyInto inp
  end.

Definition MappingsSpec_DeepCopyInto : val → mem val := copy_struct
  [ ("BlockPoolIdMapping", slice (slice assign)) ].
Definition MappingsSpec_DeepCopy : val → mem val := pointer MappingsSpec_DeepCopyInto.

Definition ClientProfileMappingSpec_DeepCopyInto : val → mem val := copy_struct
  [ ("Mappings", slice MappingsSpec_DeepCopyInto) ].
Definition ClientProfileMappingSpec_DeepCopy : val → mem val := pointer ClientProfileMappingSpec_DeepCopyInto.

Definition ClientProfileMappingStatus_DeepCopyInto : val → mem val := copy_struct [].
Definition ClientProfileMappingStatus_DeepCopy : val → mem val := pointer ClientProfileMappingStatus_DeepCopyInto.

Definition ClientProfileMapping_DeepCopyInto : val → mem val := copy_struct
  [ ("TypeMeta", assign); ("ObjectMeta", ext_DeepCopyInto "metav1.ObjectMeta");
    ("Spec", ClientProfileMappingSpec_DeepCopyInto); ("Status", assign) ].
Definition ClientProfileMapping_DeepCopy : val → mem val := pointer ClientProfileMapping_DeepCopyInto.
Definition ClientProfileMapping_DeepCopyObject : val → mem (option val) := copy_object ClientProfileMapping_DeepCopy.

Definition ClientProfileMappingList_DeepCopyInto : val → mem val := copy_struct
  [ ("TypeMeta", assign); ("ListMeta", ext_DeepCopyInto "metav1.ListMeta");
    ("Items", slice ClientProfileMapping_DeepCopyInto) ].
Definition ClientProfileMappingList_DeepCopy : val → mem val := pointer ClientProfileMappingList_DeepCopyInto.
Definition ClientProfileMappingList_DeepCopyObject : val → mem (option val) := copy_object ClientProfileMappingList_DeepCopy.

Definition PoolMappingSpec_DeepCopyInto : val → mem val := copy_struct [].
Definition PoolMappingSpec_DeepCopy : val → mem val := pointer PoolMappingSpec_DeepCopyInto.

Definition RBDReplicationSpec_DeepCopyInto : val → mem val := copy_struct
  [ ("PoolMapping", slice assign) ].
Definition RBDReplicationSpec_DeepCopy : val → mem val := pointer RBDReplicationSpec_DeepCopyInto.

Definition ClientProfileReplicationSpec_DeepCopyInto : val → mem val := copy_struct
  [ ("RBD", pointer RBDReplicationSpec_DeepCopyInto) ].
Definition ClientProfileReplicationSpec_DeepCopy : val → mem val := pointer ClientProfileReplicationSpec_DeepCopyInto.

Definition ClientProfileReplicationStatus_DeepCopyInto : val → mem val := copy_struct [].
Definition ClientProfileReplicationStatus_DeepCopy : val → mem val := pointer ClientProfileReplicationStatus_DeepCopyInto.

Definition ClientProfileReplication_DeepCopyInto : val → mem val := copy_struct
  [ ("TypeMeta", assign); ("ObjectMeta", ext_DeepCopyInto "metav1.ObjectMeta");
    ("Spec", ClientProfileReplicationSpec_DeepCopyInto); ("Status", assign) ].
Definition ClientProfileReplication_DeepCopy : val → mem val := pointer ClientProfileReplication_DeepCopyInto.
Definition ClientProfileReplication_DeepCopyObject : val → mem (option val) := copy_object ClientProfileReplication_DeepCopy.

Definition ClientProfileReplicationList_DeepCopyInto : val → mem val := copy_struct
  [ ("TypeMeta", assign); ("ListMeta", ext_DeepCopyInto "metav1.ListMeta");
    ("Items", slice ClientProfileReplication_DeepCopyInto) ].
Definition ClientProfileReplicationList_DeepCopy : val → mem val := pointer ClientProfileReplicationList_DeepCopyInto.
Definition ClientProfileReplicationList_DeepCopyObject : val → mem (option val) := copy_object ClientProfileReplicationList_DeepCopy.

Definition LogRotationSpec_DeepCopyInto : val → mem val := copy_struct
  [ ("MaxLogSize", ext_DeepCopyInto "resource.Quantity") ].
Definition LogRotationSpec_DeepCopy : val → mem val := pointer LogRotationSpec_DeepCopyInto.

Definition LogSpec_DeepCopyInto : val → mem val := copy_struct
  [ ("Rotation", pointer LogRotationSpec_DeepCopyInto) ].
Definition LogSpec_DeepCopy : val → mem val := pointer LogSpec_DeepCopyInto.

Definition EncryptionSpec_DeepCopyInto : val → mem val := copy_struct [ ("ConfigMapRef", assign) ].
Definition EncryptionSpec_DeepCopy : val → mem val := pointer EncryptionSpec_DeepCopyInto.

Definition VolumeSpec_DeepCopyInto : val → mem val := copy_struct
  [ ("Volume", ext_DeepCopyInto "corev1.Volume");
    ("Mount", ext_DeepCopyInto "corev1.VolumeMount") ].
Definition VolumeSpec_DeepCopy : val → mem val := pointer VolumeSpec_DeepCopyInto.

Definition PodCommonSpec_DeepCopyInto : val → mem val := copy_struct
  [ ("ServiceAccountName", pointer assign); ("PrioritylClassName", pointer assign);
    ("Labels", entries assign); ("Annotations", entries assign);
    ("Affinity", pointer (ext_DeepCopyInto "corev1.Affinity"));
    ("Tolerations", slice (ext_DeepCopyInto "corev1.Toleration"));
    ("Volumes", slice VolumeSpec_DeepCopyInto) ].
Definition PodCommonSpec_DeepCopy : val → mem val := pointer PodCommonSpec_DeepCopyInto.

Definition NodePluginResourcesSpec_DeepCopyInto : val → mem val := copy_struct
  [ ("Registrar", pointer (ext_DeepCopyInto "corev1.ResourceRequirements"));
    ("Liveness", pointer (ext_DeepCopyInto "corev1.ResourceRequirements"));
    ("Addons", pointer (ext_DeepCopyInto "corev1.ResourceRequirements"));
    ("LogRotator", pointer (ext_DeepCopyInto "corev1.ResourceRequirements"));
    ("Plugin", pointer (ext_DeepCopyInto "corev1.ResourceRequirements")) ].
Definition NodePluginResourcesSpec_DeepCopy : val → mem val := pointer NodePluginResourcesSpec_DeepCopyInto.

Definition TopologySpec_DeepCopyInto : val → mem val := copy_struct
  [ ("DomainLabels", slice assign) ].
Definition TopologySpec_DeepCopy : val → mem val := pointer TopologySpec_DeepCopyInto.

Definition NodePluginSpec_DeepCopyInto : val → mem val := copy_struct
  [ ("PodCommonSpec", PodCommonSpec_DeepCopyInto);
    ("UpdateStrategy", pointer (ext_DeepCopyInto "appsv1.DaemonSetUpdateStrategy"));
    ("Resources", NodePluginResourcesSpec_DeepCopyInto);
    ("EnableSeLinuxHostMount", pointer assign); ("Topology", pointer TopologySpec_DeepCopyInto);
    ("ContainerExtraArgs", entries (slice assign)) ].
Definition NodePluginSpec_DeepCopy : val → mem val := pointer NodePluginSpec_DeepCopyInto.

Definition ControllerPluginResourcesSpec_DeepCopyInto : val → mem val := copy_struct
  [ ("Attacher", pointer (ext_DeepCopyInto "corev1.ResourceRequirements"));
    ("Snapshotter", pointer (ext_DeepCopyInto "corev1.ResourceRequirements"));
    ("Resizer", pointer (ext_DeepCopyInto "corev1.ResourceRequirements"));
    ("Provisioner", pointer (ext_DeepCopyInto "corev1.ResourceRequirements"));
    ("OMapGenerator", pointer (ext_DeepCopyInto "corev1.ResourceRequirements"));
    ("Liveness", pointer (ext_DeepCopyInto "corev1.ResourceRequirements"));
    ("Addons", pointer (ext_DeepCopyInto "corev1.ResourceRequirements"));
    ("LogRotator", pointer (ext_DeepCopyInto "corev1.ResourceRequirements"));
    ("Plugin", pointer (ext_DeepCopyInto "corev1.ResourceRequirements")) ].
Definition ControllerPluginResourcesSpec_DeepCopy : val → mem val := pointer ControllerPluginResourcesSpec_DeepCopyInto.

Definition ControllerPluginSpec_DeepCopyInto : val → mem val := copy_struct
  [ ("HostNetwork", pointer assign); ("PodCommonSpec", PodCommonSpec_DeepCopyInto);
    ("DeploymentStrategy", pointer (ext_DeepCopyInto "appsv1.DeploymentStrategy"));
    ("Replicas", pointer assign); ("Resources", ControllerPluginResourcesSpec_DeepCopyInto);
    ("Privileged", pointer assign); ("ContainerExtraArgs", entries (slice assign)) ].
Definition ControllerPluginSpec_DeepCopy : val → mem val := pointer ControllerPluginSpec_DeepCopyInto.

Definition LivenessSpec_DeepCopyInto : val → mem val := copy_struct [].
Definition LivenessSpec_DeepCopy : val → mem val := pointer LivenessSpec_DeepCopyInto.

Definition LeaderElectionSpec_DeepCopyInto : val → mem val := copy_struct [].
Definition LeaderElectionSpec_DeepCopy : val → mem val := pointer LeaderElectionSpec_DeepCopyInto.

Definition DriverSpec_DeepCopyInto : val → mem val := copy_struct
  [ ("Log", pointer LogSpec_DeepCopyInto); ("ImageSet", pointer assign);
    ("ClusterName", pointer assign); ("EnableMetadata", pointer assign);
    ("EnableFencing", pointer assign); ("GenerateOMapInfo", pointer assign);
    ("Encryption", pointer assign); ("NodePlugin", pointer NodePluginSpec_DeepCopyInto);
    ("ControllerPlugin", pointer ControllerPluginSpec_DeepCopyInto);
    ("AttachRequired", pointer assign); ("Liveness", pointer assign);
    ("LeaderElection", pointer assign); ("DeployCsiAddons", pointer assign);
    ("KernelMountOptions", entries assign); ("FuseMountOptions", entries assign) ].
Definition DriverSpec_DeepCopy : val → mem val := pointer DriverSpec_DeepCopyInto.

Definition DriverStatus_DeepCopyInto : val → mem val := copy_struct [].
Definition DriverStatus_DeepCopy : val → mem val := pointer DriverStatus_DeepCopyInto.

Definition Driver_DeepCopyInto : val → mem val := copy_struct
  [ ("TypeMeta", assign); ("ObjectMeta", ext_DeepCopyInto "metav1.ObjectMeta");
    ("Spec", DriverSpec_DeepCopyInto); ("Status", assign) ].
Definition Driver_DeepCopy : val → mem val := pointer Driver_DeepCopyInto.
Definition Driver_DeepCopyObject : val → mem (option val) := copy_object Driver_DeepCopy.

Definition DriverList_DeepCopyInto : val → mem val := copy_struct
  [ ("TypeMeta", assign); ("ListMeta", ext_DeepCopyInto "metav1.ListMeta");
    ("Items", slice Driver_DeepCopyInto) ].
Definition DriverList_DeepCopy : val → mem val := pointer DriverList_DeepCopyInto.
Definition DriverList_DeepCopyObject : val → mem (option val) := copy_object DriverList_DeepCopy.

Definition OperatorLogSpec_DeepCopyInto : val → mem val := copy_struct [].
Definition OperatorLogSpec_DeepCopy : val → mem val := pointer OperatorLogSpec_DeepCopyInto.

Definition OperatorConfigSpec_DeepCopyInto : val → mem val := copy_struct
  [ ("Log", pointer assign); ("DriverSpecDefaults", pointer DriverSpec_DeepCopyInto) ].
Definition OperatorConfigSpec_DeepCopy : val → mem val := pointer OperatorConfigSpec_DeepCopyInto.

Definition OperatorConfigStatus_DeepCopyInto : val → mem val := copy_struct [].
Definition OperatorConfigStatus_DeepCopy : val → mem val := pointer OperatorConfigStatus_DeepCopyInto.

Definition OperatorConfig_DeepCopyInto : val → mem val := copy_struct
  [ ("TypeMeta", assign); ("ObjectMeta", ext_DeepCopyInto "metav1.ObjectMeta");
    ("Spec", OperatorConfigSpec_DeepCopyInto); ("Status", assign) ].
Definition OperatorConfig_DeepCopy : val → mem val := pointer OperatorConfig_DeepCopyInto.
Definition OperatorConfig_DeepCopyObject : val → mem (option val) := copy_object OperatorConfig_DeepCopy.

Definition OperatorConfigList_DeepCopyInto : val → mem val := copy_struct
  [ ("TypeMeta", assign); ("ListMeta", ext_DeepCopyInto "metav1.ListMeta");
    ("Items", slice OperatorConfig_DeepCopyInto) ].
Definition OperatorConfigList_DeepCopy : val → mem val := pointer OperatorConfigList_DeepCopyInto.
Definition OperatorConfigList_DeepCopyObject : val → mem (option val) := copy_object OperatorConfigList_DeepCopy.

(** The functions with the types they copy. *)
Definition deep_copies : list (ty * (val → mem val)) :=
  [ (TPtr ReadAffinitySpec_type, ReadAffinitySpec_DeepCopy);
    (TPtr CephConnectionSpec_type, CephConnectionSpec_DeepCopy);
    (TPtr CephConnectionStatus_type, CephConnectionStatus_DeepCopy);
    (TPtr CephConnection_type, CephConnection_DeepCopy);
    (TPtr CephConnectionList_type, CephConnectionList_DeepCopy);
    (TPtr CephCsiSecretsSpec_type, CephCsiSecretsSpec_DeepCopy);
    (TPtr CephFsConfigSpec_type, CephFsConfigSpec_DeepCopy);
    (TPtr RbdConfigSpec_type, RbdConfigSpec_DeepCopy);
    (TPtr NfsConfigSpec_type, NfsConfigSpec_DeepCopy);
    (TPtr NvmeofConfigSpec_type, NvmeofConfigSpec_DeepCopy);
    (TPtr ClientProfileSpec_type, ClientProfileSpec_DeepCopy);
    (TPtr ClientProfileStatus_type, ClientProfileStatus_DeepCopy);
    (TPtr ClientProfile_type, ClientProfile_DeepCopy);
    (TPtr ClientProfileList_type, ClientProfileList_DeepCopy);
    (BlockPoolIdPair_type, BlockPoolIdPair_DeepCopy);
    (TPtr MappingsSpec_type, MappingsSpec_DeepCopy);
    (TPtr ClientProfileMappingSpec_type, ClientProfileMappingSpec_DeepCopy);
    (TPtr ClientProfileMappingStatus_type, ClientProfileMappingStatus_DeepCopy);
    (TPtr ClientProfileMapping_type, ClientProfileMapping_DeepCopy);
    (TPtr ClientProfileMappingList_type, ClientProfileMappingList_DeepCopy);
    (TPtr PoolMappingSpec_type, PoolMappingSpec_DeepCopy);
    (TPtr RBDReplicationSpec_type, RBDReplicationSpec_DeepCopy);
    (TPtr ClientProfileReplicationSpec_type, ClientProfileReplicationSpec_DeepCopy);
    (TPtr ClientProfileReplicationStatus_type, ClientProfileReplicationStatus_DeepCopy);
    (TPtr ClientProfileReplication_type, ClientProfileReplication_DeepCopy);
    (TPtr ClientProfileReplicationList_type, ClientProfileReplicationList_DeepCopy);
    (TPtr LogRotationSpec_type, LogRotationSpec_DeepCopy); (TPtr LogSpec_type, LogSpec_DeepCopy);
    (TPtr EncryptionSpec_type, EncryptionSpec_DeepCopy);
    (TPtr VolumeSpec_type, VolumeSpec_DeepCopy); (TPtr PodCommonSpec_type, PodCommonSpec_DeepCopy);
    (TPtr NodePluginResourcesSpec_type, NodePluginResourcesSpec_DeepCopy);
    (TPtr TopologySpec_type, TopologySpec_DeepCopy);
    (TPtr NodePluginSpec_type, NodePluginSpec_DeepCopy);
    (TPtr ControllerPluginResourcesSpec_type, ControllerPluginResourcesSpec_DeepCopy);
    (TPtr ControllerPluginSpec_type, ControllerPluginSpec_DeepCopy);
    (TPtr LivenessSpec_type, LivenessSpec_DeepCopy);
    (TPtr LeaderElectionSpec_type, LeaderElectionSpec_DeepCopy);
    (TPtr DriverSpec_type, DriverSpec_DeepCopy); (TPtr DriverStatus_type, DriverStatus_DeepCopy);
    (TPtr Driver_type, Driver_DeepCopy); (TPtr DriverList_type, DriverList_DeepCopy);
    (TPtr OperatorLogSpec_type, OperatorLogSpec_DeepCopy);
    (TPtr OperatorConfigSpec_type, OperatorConfigSpec_DeepCopy);
    (TPtr OperatorConfigStatus_type, OperatorConfigStatus_DeepCopy);
    (TPtr OperatorConfig_type, OperatorConfig_DeepCopy);
    (TPtr OperatorConfigList_type, OperatorConfigList_DeepCopy) ].

Definition deep_copy_objects : list (ty * (val → mem (option val))) :=
  [ (CephConnection_type, CephConnection_DeepCopyObject);
    (CephConnectionList_type, CephConnectionList_DeepCopyObject);
    (ClientProfile_type, ClientProfile_DeepCopyObject);
    (ClientProfileList_type, ClientProfileList_DeepCopyObject);
    (ClientProfileMapping_type, ClientProfileMapping_DeepCopyObject);
    (ClientProfileMappingList_type, ClientProfileMappingList_DeepCopyObject);
    (ClientProfileReplication_type, ClientProfileReplication_DeepCopyObject);
    (ClientProfileReplicationList_type, ClientProfileReplicationList_DeepCopyObject);
    (Driver_type, Driver_DeepCopyObject); (DriverList_type, DriverList_DeepCopyObject);
    (OperatorConfig_type, OperatorConfig_DeepCopyObject);
    (OperatorConfigList_type, OperatorConfigList_DeepCopyObject) ].

(** ** Every deep copy is one *)

Context {OK : ExtTypesOk}.

Lemma BlockPoolIdPair_copies : copies BlockPoolIdPair_type BlockPoolIdPair_DeepCopy.
Proof.
  intros h v x ls Hv. destruct v as [| | |[[[p off] n]|]|]; try done.
  - exact (copies_slice TScalar assign (copies_flat TScalar eq_refl) h _ x ls Hv).
  - exact (copies_slice TScalar assign (copies_flat TScalar eq_refl) h _ x ls Hv).
Qed.

Ltac solve_fields :=
  lazymatch goal with
  | |- copies_fields [] [] => apply copies_none
  | |- copies_fields ((?f, _) :: _) ((?f, _) :: _) => apply copies_one; [solve_copies|solve_fields]
  | |- copies_fields _ _ => apply copies_assigned; [reflexivity|solve_fields]
  end
with solve_copies :=
  lazymatch goal with
  | |- copies _ (ext_DeepCopyInto _) => apply ext_copies
  | |- copies _ assign => apply copies_flat; reflexivity
  | |- copies _ (pointer _) => apply copies_pointer; solve_copies
  | |- copies _ (slice _) => apply copies_slice; solve_copies
  | |- copies _ (entries _) => apply copies_entries; solve_copies
  | |- copies _ (copy_struct _) =>
      apply copies_struct; [by apply (bool_decide_unpack _); vm_compute|solve_fields]
  | |- copies _ BlockPoolIdPair_DeepCopy => apply BlockPoolIdPair_copies
  | |- copies ?t ?c => let c' := eval red in c in change (copies t c'); solve_copies
  end.

Lemma deep_copies_copy : Forall (λ tc, copies tc.1 tc.2) deep_copies.
Proof. unfold deep_copies. repeat (constructor; [simpl; solve_copies|]). constructor. Qed.

(** What is written to the memory of one value does not change another that
    shares none of it. *)
Lemma reads_apart h h' t v x (ls ls' : list loc) :
  reads h t v = Some (x, ls) → (∀ l, l ∈ ls' → l ∉ ls) →
  (∀ l, l ∉ ls' → h' !! l = h !! l) → reads h' t v = Some (x, ls).
Proof.
  intros Hv Hap Hh. apply (reads_local t h); [done|]. intros l Hl. apply Hh. intros Hl'.
  by apply (Hap l Hl').
Qed.

(** C14: every deep copy of a value that is in memory ends, leaves the memory
    that was there as it was, and gives a value that reads the same, in new
    memory, used once.  Whatever is then written to the memory of the copy,
    the original still reads the same, and the other way round. *)
Theorem deep_copy_independent (t : ty) (f : val → mem val) (h : heap) (v : val) (x : tree) (ls : list loc) :
  (t, f) ∈ deep_copies → reads h t v = Some (x, ls) →
  ∃ v' h' ls', f v h = Some (v', h') ∧ h ⊆ h' ∧ reads h' t v' = Some (x, ls')
    ∧ NoDup ls' ∧ (∀ l, l ∈ ls' → h !! l = None)
    ∧ (∀ h'' : heap, (∀ l, l ∉ ls' → h'' !! l = h' !! l) → reads h'' t v = Some (x, ls))
    ∧ (∀ h'' : heap, (∀ l, l ∉ ls → h'' !! l = h' !! l) → reads h'' t v' = Some (x, ls')).
Proof.
  intros Hf Hv. destruct (proj1 (Forall_forall _ _) deep_copies_copy _ Hf h v x ls Hv)
    as (v' & h' & ls' & Hrun & Hsub & Hv' & Hnd & Hnew).
  exists v', h', ls'. split_and!; try done.
  - intros h''. apply reads_apart; [by eapply reads_mono|]. intros l Hl Hl'.
    destruct (reads_dom t h v x ls l Hv Hl') as [c Hc]. by rewrite (Hnew l Hl) in Hc.
  - intros h''. apply reads_apart; [done|]. intros l Hl Hl'.
    destruct (reads_dom t h v x ls l Hv Hl) as [c Hc]. by rewrite (Hnew l Hl') in Hc.
Qed.

(** [DeepCopyObject] gives a nil interface for a nil pointer, and otherwise the
    copy. *)
Theorem deep_copy_object (t : ty) (f : val → mem (option val)) (h : heap) (p : option loc) (x : tree)
    (ls : list loc) :
  (t, f) ∈ deep_copy_objects → reads h (TPtr t) (VPtr p) = Some (x, ls) →
  ∃ o h', f (VPtr p) h = Some (o, h') ∧ h ⊆ h' ∧
    match p, o with
    | None, None => True
    | Some _, Some v' => ∃ ls', reads h' (TPtr t) v' = Some (x, ls') ∧ new_in h ls'
    | _, _ => False
    end.
Proof.
  intros Hf Hv. assert (Hobj : Forall (λ tf, ∃ c, copies (TPtr tf.1) c ∧ tf.2 = copy_object c) deep_copy_objects).
  { unfold deep_copy_objects. repeat (constructor; [eexists; split; [|reflexivity]; simpl; solve_copies|]).
    constructor. }
  destruct (proj1 (Forall_forall _ _) Hobj _ Hf) as (c & Hc & Hfc). simpl in Hc, Hfc. subst f.
  by apply (copies_object t c h p x ls).
Qed.

End deep_copies.

(** ** Evaluation on a concrete driver *)

(** Types of other packages that are a scalar or a pointer to one. *)
#[export] Instance plain_ext : ExtTypes := {|
  ext_value := scalar;
  ext_reads _ h v :=
    match v with
    | VScalar s => Some (s, [])
    | VPtr (Some p) => match h !! p with Some (CVal (VScalar s)) => Some (s, [p]) | _ => None end
    | _ => None
    end;
  ext_DeepCopyInto _ v := match v with VScalar _ => mret v | _ => pointer assign v end;
|}.

Lemma plain_ext_copies n : copies (TExt n) (ext_DeepCopyInto n).
Proof.
  intros h v x ls. simpl. destruct v as [s| |[p|]| |]; try done.
  - intros [= <- <-]. exists (VScalar s), h, []. split_and!; try done. apply new_in_nil.
  - destruct (h !! p) as [[[s| | | |]| |]|] eqn:Hp; try done. simpl. intros [= <- <-].
    pose proof (fresh_loc h) as Hq. set (q := fresh (dom h)) in *.
    exists (VPtr (Some q)), (<[q := CVal (VScalar s)]> h), [q]. split_and!.
    + erewrite mem_then by reflexivity. fold q.
      erewrite mem_then by (apply load_val_run; rewrite lookup_insert_ne by congruence; exact Hp).
      erewrite mem_then by reflexivity.
      erewrite mem_then by (eapply store_run; apply lookup_insert_eq).
      by rewrite insert_insert_eq.
    + by apply insert_subseteq.
    + by rewrite lookup_insert_eq.
    + split; [repeat constructor; set_solver|]. by intros l ->%list_elem_of_singleton.
Qed.

#[export] Instance plain_ext_ok : ExtTypesOk.
Proof.
  constructor.
  - intros n h h' v x ls. simpl. destruct v as [s| |[p|]| |]; try done.
    destruct (h !! p) as [[[s| | | |]| |]|] eqn:Hp; try done. intros [= <- <-] Heq.
    by rewrite Heq, Hp by apply list_elem_of_here.
  - intros n h v x ls l. simpl. destruct v as [s| |[p|]| |]; try done.
    + intros [= _ <-] Hl. by apply not_elem_of_nil in Hl.
    + destruct (h !! p) as [[[s| | | |]| |]|] eqn:Hp; try done.
      intros [= _ <-] ->%list_elem_of_singleton. by eexists.
  - apply plain_ext_copies.
Qed.

(** A value of each type with nothing set. *)
Fixpoint zero_of (t : ty) : val :=
  match t with
  | TScalar | TExt _ => VScalar (Str "")
  | TStruct fs => VStruct (list_to_map ((λ '(f, t), (f, zero_of t)) <$> fs))
  | TPtr _ => VPtr None
  | TSlice _ => VSlice None
  | TMap _ => VMap None
  end.

Definition with_fields (l : list (string * val)) (v : val) : val :=
  match v with VStruct m => VStruct (list_to_map l ∪ m) | _ => v end.

(** The spec of a driver, at 1, with a node plugin at 2 that has labels at 3
    and the arguments at 4 of one of its containers, and mount options at 3
    as well: the original may use a location twice. *)
Definition example_memory : heap := list_to_map
  [ (1, CVal (with_fields [ ("NodePlugin", VPtr (Some 2)); ("KernelMountOptions", VMap (Some 3)) ]
                (zero_of DriverSpec_type)));
    (2, CVal (with_fields
                [ ("PodCommonSpec", with_fields [ ("Labels", VMap (Some 3)) ] (zero_of PodCommonSpec_type));
                  ("ContainerExtraArgs", VMap (Some 4)) ] (zero_of NodePluginSpec_type)));
    (3, CMap {[ "noshare" := VScalar (Str "") ]});
    (4, CMap {[ "csi-rbdplugin" := VSlice (Some (5, 1, 1)) ]});
    (5, CArr [VScalar (Str "--v=0"); VScalar (Str "--v=5")]) ].

Lemma example_reads :
  ∃ x, reads example_memory (TPtr DriverSpec_type) (VPtr (Some 1)) = Some (x, [1; 2; 3; 4; 5; 3]).
Proof.
  assert (H : ∀ o : option (tree * list loc), snd <$> o = Some [1; 2; 3; 4; 5; 3] →
                ∃ x, o = Some (x, [1; 2; 3; 4; 5; 3])).
  { intros [[x ls]|]; [|done]. intros [= ->]. by exists x. }
  apply H. vm_compute. reflexivity.
Qed.

Lemma deep_copy_independent_witness :
  ∃ x v' h' ls',
    reads example_memory (TPtr DriverSpec_type) (VPtr (Some 1)) = Some (x, [1; 2; 3; 4; 5; 3])
    ∧ DriverSpec_DeepCopy (VPtr (Some 1)) example_memory = Some (v', h')
    ∧ reads h' (TPtr DriverSpec_type) v' = Some (x, ls') ∧ NoDup ls'
    ∧ ∀ l c, l ∈ ls' → reads (<[l := c]> h') (TPtr DriverSpec_type) (VPtr (Some 1)) = Some (x, [1; 2; 3; 4; 5; 3]).
Proof.
  assert (Hin : (TPtr DriverSpec_type, DriverSpec_DeepCopy) ∈ deep_copies)
    by (unfold deep_copies; apply list_elem_of_In; simpl; tauto).
  destruct example_reads as [x Hr].
  destruct (deep_copy_independent _ _ example_memory (VPtr (Some 1)) x _ Hin Hr)
    as (v' & h' & ls' & Hrun & _ & Hv' & Hnd & _ & Hap & _).
  exists x, v', h', ls'. split; [exact Hr|]. split; [exact Hrun|]. split; [exact Hv'|].
  split; [exact Hnd|]. intros l c Hl. apply Hap. intros i Hi. apply lookup_insert_ne. congruence.
Defined.
