(* ===== verification/Sharing.v ===== *)
(** * mergeDriverSpecs over memory

    [mergeDriverSpecs] of driver_controller.go, on the memory of Memory.v: it
    fills the fields that [dest] does not set with those of a deep copy of
    [src], in place.  [dest] is the spec of the driver the iteration is about,
    [src] the defaults of the operator configuration.

    The statements are a list of rules, one per field, in the order of the
    code; [merge] runs them.  [merge_apart] says that [src] is left alone, that
    [dest] afterwards shares no memory with it, and what [dest] reads. *)
From stdpp Require Import functions.
From S2P Require Import Prelude Memory MemoryCopy DeepCopy.

(** [Fill]: [if dest.F == nil { dest.F = src.F }], or [""] or [0] for nil.
    [Within]: the same for fields of the struct [dest.F].
    [Through]: [if src.F != nil { if dest.F == nil { dest.F = src.F } else
    { dest, src := dest.F, src.F; ... } }]. *)
Inductive rule :=
| Fill
| Within (rules : list (string * rule))
| Through (rules : list (string * rule)).

Definition is_nil (v : val) : bool :=
  match v with VPtr None | VSlice None | VMap None => true | _ => false end.

Definition unset (v : val) : bool :=
  match v with
  | VScalar (Str s) => String.eqb s ""
  | VScalar (Int z) => Z.eqb z 0
  | _ => is_nil v
  end.

(** The statements of a struct, given what those of a field do. *)
Definition merge_fields (mg : rule → val → val → mem val) :=
  fix go (rules : list (string * rule)) (d s : val) : mem val :=
    match rules with
    | [] => mret d
    | (f, r) :: rules =>
        w ← field f d;
        w' ← field f s;
        z ← mg r w w';
        d ← set_field f z d;
        go rules d s
    end.

(** The value a rule leaves in a field, from those of [dest] and [src]. *)
Fixpoint merge (r : rule) (d s : val) : mem val :=
  match r with
  | Fill => mret (if unset d then s else d)
  | Within rules => merge_fields merge rules d s
  | Through rules =>
      if is_nil s then mret d
      else if is_nil d then mret s
      else
        match d, s with
        | VPtr (Some p), VPtr (Some q) =>
            dest ← load_val p;
            src ← load_val q;
            dest ← merge_fields merge rules dest src;
            _ ← store p (CVal dest);
            mret d
        | _, _ => stuck
        end
  end.

Definition filled (fs : list string) : list (string * rule) := (λ f, (f, Fill)) <$> fs.

Definition merge_node_rules : list (string * rule) :=
  [ ("PodCommonSpec", Within (filled
       [ "ServiceAccountName"; "PrioritylClassName"; "Labels"; "Annotations"; "Affinity"; "Tolerations";
         "Volumes"; "ImagePullPolicy" ])) ]
  ++ filled [ "UpdateStrategy"; "KubeletDirPath"; "EnableSeLinuxHostMount" ]
  ++ [ ("Resources", Within (filled [ "Registrar"; "Liveness"; "Plugin"; "LogRotator"; "Addons" ])) ]
  ++ filled [ "ContainerExtraArgs" ].

Definition merge_controller_rules : list (string * rule) :=
  [ ("PodCommonSpec", Within (filled
       [ "ServiceAccountName"; "PrioritylClassName"; "Labels"; "Annotations"; "Affinity"; "Tolerations";
         "Volumes"; "ImagePullPolicy" ])) ]
  ++ filled [ "Replicas"; "Privileged" ]
  ++ [ ("Resources", Within (filled
         [ "Attacher"; "Snapshotter"; "Resizer"; "Provisioner"; "OMapGenerator"; "Liveness"; "Plugin";
           "LogRotator"; "Addons" ])) ]
  ++ filled [ "ContainerExtraArgs" ].

Definition merge_driver_rules : list (string * rule) :=
  filled [ "Log"; "ClusterName"; "GRpcTimeout"; "SnapshotPolicy"; "GenerateOMapInfo"; "EnableFencing";
           "FsGroupPolicy"; "Encryption" ]
  ++ [ ("NodePlugin", Through merge_node_rules); ("ControllerPlugin", Through merge_controller_rules) ]
  ++ filled [ "AttachRequired"; "Liveness"; "LeaderElection"; "DeployCsiAddons"; "KernelMountOptions";
              "FuseMountOptions"; "CephFsClientType" ].

Section sharing.
Context `{EX : !ExtTypes}.

(** [dest] and [src] are pointers to specs. *)
Definition merge_specs (dest src : val) : mem unit :=
  src ← DriverSpec_DeepCopy src;
  _ ← merge (Through merge_driver_rules) dest src;
  mret tt.

(** ** What the rules make of immutable values *)

Definition unset_tree (x : tree) : bool :=
  match x with
  | Leaf (Str s) => String.eqb s ""
  | Leaf (Int z) => Z.eqb z 0
  | Nil => true
  | _ => false
  end.

Definition merged_by (md : rule → tree → tree → tree) :=
  fix go (rules : list (string * rule)) (f : string) (x y : tree) : tree :=
    match rules with
    | [] => x
    | (g, r) :: rules => if String.eqb f g then md r x y else go rules f x y
    end.

Definition merged_fields (md : rule → tree → tree → tree) (rules : list (string * rule)) (x y : tree) : tree :=
  match x, y with
  | Node xs, Node ys => Node (zip_with (λ x y, (x.1, merged_by md rules x.1 x.2 y.2)) xs ys)
  | _, _ => x
  end.

Fixpoint merged (r : rule) (x y : tree) : tree :=
  match r with
  | Fill => if unset_tree x then y else x
  | Within rules => merged_fields merged rules x y
  | Through rules =>
      match x, y with
      | _, Nil => x
      | Nil, _ => y
      | Ref x, Ref y => Ref (merged_fields merged rules x y)
      | _, _ => x
      end
  end.

(** The rule is one for fields of the type. *)
Fixpoint fits (r : rule) (t : ty) : bool :=
  match r, t with
  | Fill, TExt _ => false
  | Fill, _ => true
  | Within rules, TStruct fs | Through rules, TPtr (TStruct fs) =>
      bool_decide (NoDup fs.*1) && bool_decide (NoDup rules.*1)
      && forallb (λ fr, existsb (λ ft, String.eqb ft.1 fr.1 && fits fr.2 ft.2) fs) rules
  | _, _ => false
  end.

Lemma rule_nested_ind (P : rule → Prop) :
  P Fill → (∀ rules, Forall (λ fr, P fr.2) rules → P (Within rules)) →
  (∀ rules, Forall (λ fr, P fr.2) rules → P (Through rules)) → ∀ r, P r.
Proof.
  intros Hf Hw Ht. fix IH 1. intros [|rules|rules].
  - exact Hf.
  - apply Hw. induction rules as [|[f r] rules IHr]; constructor; [apply IH|apply IHr].
  - apply Ht. induction rules as [|[f r] rules IHr]; constructor; [apply IH|apply IHr].
Qed.

(** ** Structs, field by field *)

(** The fields of the struct [m] read [X], and occupy [L]. *)
Definition holds (h : heap) (fs : list (string * ty)) (m : gmap string val)
    (X : string → tree) (L : string → list loc) : Prop :=
  ∀ f t, (f, t) ∈ fs → ∃ w, m !! f = Some w ∧ reads h t w = Some (X f, L f).

Lemma holds_reads h fs m X L :
  holds h fs m X L →
  reads h (TStruct fs) (VStruct m) =
    Some (Node ((λ ft, (ft.1, X ft.1)) <$> fs), fs ≫= λ ft, L ft.1).
Proof.
  intros H. rewrite reads_struct.
  assert (mapM (read_field h m) fs = Some ((λ ft, (ft.1, (X ft.1, L ft.1))) <$> fs)) as ->.
  { induction fs as [|[f t] fs IH]; [done|]. apply mapM_cons_Some. split.
    - apply read_field_Some. split; [done|]. apply H, list_elem_of_here.
    - apply IH. intros g u Hg. by apply H, list_elem_of_further. }
  simpl. do 2 f_equal.
  - f_equal. rewrite <-list_fmap_compose. by apply list_fmap_ext.
  - clear H. induction fs as [|ft fs IH]; [done|]. rewrite fmap_cons, !bind_cons. by f_equal.
Qed.

Lemma name_in (fs : list (string * ty)) f t : (f, t) ∈ fs → f ∈ fs.*1.
Proof. intros Hf. apply list_elem_of_fmap. by exists (f, t). Qed.

Lemma reads_holds h fs m x ls :
  NoDup fs.*1 → reads h (TStruct fs) (VStruct m) = Some (x, ls) → ∃ X L, holds h fs m X L.
Proof.
  intros Hnd. rewrite reads_struct. destruct (mapM _ fs) as [rs|] eqn:Hrs; [|done]. intros _.
  revert rs Hrs. induction fs as [|[f t] fs IH]; intros rs Hrs.
  - exists (λ _, Nil), (λ _, []). intros f t Hf. by apply not_elem_of_nil in Hf.
  - apply NoDup_cons in Hnd as [Hf Hnd].
    apply mapM_cons_inv in Hrs as ([f' [y l]] & rs' & -> & (<- & w & Hw & Hy)%read_field_Some & Hrs).
    destruct (IH Hnd rs' Hrs) as (X & L & H). exists (<[f := y]> X), (<[f := l]> L).
    intros g u [[= -> ->]|Hg]%elem_of_cons.
    + exists w. by rewrite !fn_lookup_insert.
    + rewrite !fn_lookup_insert_ne; [by apply H| |]; intros ->; by apply Hf, (name_in fs g u).
Qed.

(** Values that share no memory. *)
Definition apart (ls ls' : list loc) : Prop := ∀ l, l ∈ ls → l ∉ ls'.

Lemma apart_sym ls ls' : apart ls ls' → apart ls' ls.
Proof. intros H l Hl Hl'. by apply (H l Hl'). Qed.

Lemma in_fields (fs : list (string * ty)) (L : string → list loc) f t l :
  (f, t) ∈ fs → l ∈ L f → l ∈ fs ≫= λ ft, L ft.1.
Proof. intros Hf Hl. apply list_elem_of_bind. by exists (f, t). Qed.

(** The fields of a struct that uses its memory once are apart, and back. *)
Definition separate (fs : list (string * ty)) (L : string → list loc) : Prop :=
  (∀ f, f ∈ fs.*1 → NoDup (L f)) ∧ ∀ f g, f ∈ fs.*1 → g ∈ fs.*1 → f ≠ g → apart (L f) (L g).

Lemma separate_iff (fs : list (string * ty)) (L : string → list loc) :
  NoDup fs.*1 → NoDup (fs ≫= λ ft, L ft.1) ↔ separate fs L.
Proof.
  unfold separate. induction fs as [|[f t] fs IH]; intros Hnd.
  - split; [|intros _; constructor].
    intros _. split; [intros f Hf|intros f g Hf]; by apply not_elem_of_nil in Hf.
  - apply NoDup_cons in Hnd as [Hf Hnd]. specialize (IH Hnd).
    rewrite bind_cons, fmap_cons. simpl. rewrite NoDup_app. split.
    + intros (H1 & H2 & [Hs Ha]%IH). split.
      * intros g [->|Hg]%elem_of_cons; [done|by apply Hs].
      * intros g g' [->|Hg]%elem_of_cons [->|Hg']%elem_of_cons Hne; [done| | |by apply Ha].
        -- apply list_elem_of_fmap in Hg' as ([g'' u] & -> & Hg'). intros l Hl Hl'.
           apply (H2 l Hl). by eapply in_fields.
        -- apply list_elem_of_fmap in Hg as ([g'' u] & -> & Hg). intros l Hl Hl'.
           apply (H2 l Hl'). by eapply in_fields.
    + intros [Hs Ha]. split_and!.
      * apply Hs. apply elem_of_cons; by left.
      * intros l Hl ([g u] & Hg & Hgu)%list_elem_of_bind. simpl in Hg.
        pose proof (name_in fs g u Hgu) as Hin.
        refine (Ha f g _ _ _ l Hl Hg); [apply elem_of_cons; by left|apply elem_of_cons; by right|].
        by intros ->.
      * apply IH. split; intros; [apply Hs|apply Ha]; try done; by apply elem_of_cons; right.
Qed.

(** ** The rules do what [merged] says *)

Context {OK : ExtTypesOk}.

(** What the proof knows of [dest] and [src] before a rule runs, and after. *)
Definition merges (r : rule) (t : ty) : Prop := ∀ h d s x ls y lss,
  reads h t d = Some (x, ls) → reads h t s = Some (y, lss) → NoDup ls → NoDup lss → apart ls lss →
  ∃ w h' lz, merge r d s h = Some (w, h') ∧ reads h' t w = Some (merged r x y, lz) ∧ NoDup lz
    ∧ (∀ l, l ∈ lz → l ∈ ls ∨ l ∈ lss) ∧ ∀ l, l ∉ ls → h' !! l = h !! l.

Lemma unset_reads h t v x ls :
  fits Fill t = true → reads h t v = Some (x, ls) → unset v = unset_tree x.
Proof.
  intros Hfit Hv. destruct t; simpl in *; try done.
  - destruct v as [[]| | | |]; by simplify_eq/=.
  - destruct v as [|m| | |]; try done. by destruct (mapM _ _); simplify_eq/=.
  - destruct v as [| |[p|]| |]; simplify_eq/=; [|done].
    destruct (h !! p) as [[w| |]|]; try done. by destruct (reads h t w) as [[]|]; simplify_eq/=.
  - destruct v as [| | |[[[p off] n]|]|]; simplify_eq/=; [|done].
    destruct (h !! p) as [[|a|]|]; try done. destruct (window a off n); [|done]. simpl in Hv.
    by destruct (mapM (reads h t) _); simplify_eq/=.
  - destruct v as [| | | |[p|]]; simplify_eq/=; [|done].
    destruct (h !! p) as [[| |m]|]; try done. simpl in Hv. by destruct (mapM _ _); simplify_eq/=.
Qed.

Lemma merges_fill t : fits Fill t = true → merges Fill t.
Proof.
  intros Hfit h d s x ls y lss Hd Hs Hnd Hnds Hap. simpl.
  rewrite (unset_reads h t d x ls Hfit Hd). destruct (unset_tree x).
  - exists s, h, lss. split_and!; try done. by right.
  - exists d, h, ls. split_and!; try done. by left.
Qed.

(** *** Structs *)

Lemma reads_frame h h' t v x ls (mods : list loc) :
  reads h t v = Some (x, ls) → apart mods ls → (∀ l, l ∉ mods → h' !! l = h !! l) →
  reads h' t v = Some (x, ls).
Proof. intros Hv Hap Hh. by eapply reads_apart. Qed.

Lemma merged_by_skip md rules f x y : f ∉ rules.*1 → merged_by md rules f x y = x.
Proof.
  induction rules as [|[g r] rules IH]; [done|]. rewrite fmap_cons. simpl.
  intros [Hne Hf]%not_elem_of_cons. rewrite (proj2 (String.eqb_neq f g)) by done. by apply IH.
Qed.

Lemma holds_ext h fs m X X' L :
  (∀ f, X f = X' f) → holds h fs m X L → holds h fs m X' L.
Proof. intros HX H f t Hf. destruct (H f t Hf) as (w & Hw & Hr). exists w. by rewrite <-HX. Qed.

Lemma field_type (fs : list (string * ty)) f t u : NoDup fs.*1 → (f, t) ∈ fs → (f, u) ∈ fs → t = u.
Proof.
  intros Hnd Ht Hu. apply (elem_of_list_to_map_1 (M := gmap string)) in Ht, Hu; try done. congruence.
Qed.

(** A field that was merged is apart from what the others are merged with. *)
Lemma separate_insert fs L M f lz :
  separate fs L → (∀ g, g ∈ fs.*1 → apart (L g) (M f)) → f ∈ fs.*1 → NoDup lz →
  (∀ l, l ∈ lz → l ∈ L f ∨ l ∈ M f) → separate fs (<[f := lz]> L).
Proof.
  intros [Hl Hsep] Hap Hf Hnd Hsub.
  assert (Hz : ∀ g, g ∈ fs.*1 → f ≠ g → apart lz (L g)).
  { intros g Hg Hne l Hlz Hlg. destruct (Hsub l Hlz) as [H|H].
    - by apply (Hsep f g Hf Hg Hne l H).
    - by apply (Hap g Hg l Hlg). }
  split.
  - intros g Hg. destruct (decide (f = g)) as [<-|Hne]; [by rewrite fn_lookup_insert|].
    rewrite fn_lookup_insert_ne by done. by apply Hl.
  - intros g g' Hg Hg' Hne. destruct (decide (f = g)) as [<-|Hne1], (decide (f = g')) as [<-|Hne2];
      rewrite ?fn_lookup_insert, ?fn_lookup_insert_ne by done; [done| | |by apply Hsep].
    + by apply Hz.
    + apply apart_sym. by apply Hz.
Qed.

Lemma merge_fields_ok fs rules :
  NoDup fs.*1 → NoDup rules.*1 →
  Forall (λ fr, ∃ t, (fr.1, t) ∈ fs ∧ merges fr.2 t) rules → ∀ h m ms X L Y M,
  holds h fs m X L → separate fs L → separate fs M →
  (∀ f t, (f, t) ∈ fs → f ∈ rules.*1 → ∃ w, ms !! f = Some w ∧ reads h t w = Some (Y f, M f)) →
  (∀ f g, f ∈ fs.*1 → g ∈ rules.*1 → apart (L f) (M g)) →
  ∃ m' h' L', merge_fields merge rules (VStruct m) (VStruct ms) h = Some (VStruct m', h')
    ∧ holds h' fs m' (λ f, merged_by merged rules f (X f) (Y f)) L'
    ∧ (∀ f, f ∈ fs.*1 → NoDup (L' f) ∧ ∀ l, l ∈ L' f → l ∈ L f ∨ l ∈ M f)
    ∧ ∀ l, (∀ f, f ∈ rules.*1 → l ∉ L f) → h' !! l = h !! l.
Proof.
  intros Hnd. induction rules as [|[f r] rules IH]; intros Hndr Hok h m ms X L Y M Hm [Hl Hsep] HM Hms Hap.
  - exists m, h, L. split_and!; try done. intros f Hf. split; [by apply Hl|]. by left.
  - rewrite fmap_cons in Hndr, Hms, Hap. apply NoDup_cons in Hndr as [Hf Hndr].
    apply Forall_cons in Hok as [(t & Hft & Hr) Hok]. simpl in *.
    pose proof (name_in fs f t Hft) as Hfn.
    destruct (Hm f t Hft) as (w & Hw & Hwr).
    destruct (Hms f t Hft) as (w' & Hw' & Hwr'); [apply elem_of_cons; by left|].
    destruct (Hr h w w' _ _ _ _ Hwr Hwr') as (z & h1 & lz & Hrun & Hz & Hndz & Hsub & Hframe);
      [by apply Hl|by apply HM|apply Hap; [done|apply elem_of_cons; by left]|].
    destruct (IH Hndr Hok h1 (<[f := z]> m) ms (<[f := merged r (X f) (Y f)]> X) (<[f := lz]> L) Y M)
      as (m' & h' & L' & Hrest & Hm' & HL' & Hframe').
    + intros g u Hg. destruct (decide (f = g)) as [<-|Hne].
      * exists z. rewrite lookup_insert_eq, !fn_lookup_insert. split; [done|].
        rewrite (field_type fs f u t); done.
      * destruct (Hm g u Hg) as (v & Hv & Hvr). exists v.
        rewrite lookup_insert_ne, !fn_lookup_insert_ne by done. split; [done|].
        eapply reads_frame; [exact Hvr| |exact Hframe]. apply Hsep; [done|by eapply name_in|done].
    + apply (separate_insert fs L M); try done. intros g Hg. by apply Hap; [|apply elem_of_cons; left].
    + done.
    + intros g u Hg Hgr. destruct (Hms g u Hg) as (v & Hv & Hvr); [apply elem_of_cons; by right|].
      exists v. split; [done|]. eapply reads_frame; [exact Hvr| |exact Hframe].
      apply Hap; [done|apply elem_of_cons; by right].
    + intros g g' Hg Hg'. assert (Hg'fs : g' ∈ fs.*1).
      { apply list_elem_of_fmap in Hg' as ([g'' r'] & -> & Hr').
        destruct (proj1 (Forall_forall _ _) Hok _ Hr') as (u & Hu & _). by eapply name_in. }
      assert (Hne' : f ≠ g') by (by intros ->).
      destruct (decide (f = g)) as [<-|Hne].
      * rewrite fn_lookup_insert. intros l Hlz Hlg. destruct (Hsub l Hlz) as [H|H].
        -- refine (Hap f g' Hfn _ l H Hlg). apply elem_of_cons; by right.
        -- by apply (proj2 HM f g' Hfn Hg'fs Hne' l H).
      * rewrite fn_lookup_insert_ne by done. apply Hap; [done|apply elem_of_cons; by right].
    + exists m', h', L'. split_and!.
      * erewrite mem_then by (unfold field; by rewrite Hw).
        erewrite mem_then by (unfold field; by rewrite Hw'). erewrite mem_then by exact Hrun.
        by erewrite mem_then by reflexivity.
      * eapply holds_ext; [|exact Hm']. intros g. simpl. destruct (String.eqb_spec g f) as [->|Hne].
        -- rewrite fn_lookup_insert. by apply merged_by_skip.
        -- by rewrite fn_lookup_insert_ne.
      * intros g Hg. destruct (HL' g Hg) as [Hndg Hsubg]. split; [done|]. intros l Hlg.
        destruct (Hsubg l Hlg) as [H|H]; [|by right]. destruct (decide (f = g)) as [<-|Hne].
        -- rewrite fn_lookup_insert in H. by apply Hsub.
        -- rewrite fn_lookup_insert_ne in H by done. by left.
      * intros l Hout. rewrite Hframe'.
        -- apply Hframe, Hout. apply elem_of_cons; by left.
        -- intros g Hg. rewrite fn_lookup_insert_ne by (by intros ->). apply Hout.
           apply elem_of_cons; by right.
Qed.

Lemma zip_with_same {A B C D} (g : B → C → D) (F : A → B) (G : A → C) l :
  zip_with g (F <$> l) (G <$> l) = (λ a, g (F a) (G a)) <$> l.
Proof. induction l as [|a l IH]; [done|]. rewrite !fmap_cons. simpl. by rewrite IH. Qed.

Lemma merges_struct fs rules :
  NoDup fs.*1 → NoDup rules.*1 →
  Forall (λ fr, ∃ t, (fr.1, t) ∈ fs ∧ merges fr.2 t) rules → ∀ h d s x ls y lss,
  reads h (TStruct fs) d = Some (x, ls) → reads h (TStruct fs) s = Some (y, lss) →
  NoDup ls → NoDup lss → apart ls lss →
  ∃ w h' lz, merge_fields merge rules d s h = Some (w, h')
    ∧ reads h' (TStruct fs) w = Some (merged_fields merged rules x y, lz) ∧ NoDup lz
    ∧ (∀ l, l ∈ lz → l ∈ ls ∨ l ∈ lss) ∧ ∀ l, l ∉ ls → h' !! l = h !! l.
Proof.
  intros Hnd Hndr Hok h d s x ls y lss Hd Hs Hndl Hnds Hap.
  destruct d as [|m| | |]; try done. destruct s as [|ms| | |]; try done.
  destruct (reads_holds h fs m x ls Hnd Hd) as (X & L & Hm).
  destruct (reads_holds h fs ms y lss Hnd Hs) as (Y & M & Hms).
  rewrite (holds_reads h fs m X L Hm) in Hd. rewrite (holds_reads h fs ms Y M Hms) in Hs.
  injection Hd as <- <-. injection Hs as <- <-.
  apply separate_iff in Hndl, Hnds; [|done..].
  assert (Hin : ∀ f, f ∈ rules.*1 → f ∈ fs.*1).
  { intros f ([g r] & -> & Hr)%list_elem_of_fmap.
    destruct (proj1 (Forall_forall _ _) Hok _ Hr) as (u & Hu & _). by eapply name_in. }
  assert (Hapf : ∀ f g, f ∈ fs.*1 → g ∈ fs.*1 → apart (L f) (M g)).
  { intros f g ([f' t] & -> & Hf)%list_elem_of_fmap ([g' u] & -> & Hg)%list_elem_of_fmap l Hl Hl'.
    exact (Hap l (in_fields fs L f' t l Hf Hl) (in_fields fs M g' u l Hg Hl')). }
  destruct (merge_fields_ok fs rules Hnd Hndr Hok h m ms X L Y M Hm Hndl Hnds)
    as (m' & h' & L' & Hrun & Hm' & HL' & Hframe).
  - intros f t Hf _. by apply Hms.
  - intros f g Hf Hg. apply Hapf; [done|by apply Hin].
  - exists (VStruct m'), h', (fs ≫= λ ft, L' ft.1). split_and!.
    + done.
    + rewrite (holds_reads _ _ _ _ _ Hm'). unfold merged_fields. rewrite zip_with_same. reflexivity.
    + apply separate_iff; [done|]. split; [intros f Hf; by apply HL'|].
      intros f g Hf Hg Hne l Hl Hl'.
      destruct (proj2 (HL' f Hf) l Hl) as [H1|H1], (proj2 (HL' g Hg) l Hl') as [H2|H2].
      * by apply (proj2 Hndl f g Hf Hg Hne l).
      * by apply (Hapf f g Hf Hg l).
      * by apply (Hapf g f Hg Hf l).
      * by apply (proj2 Hnds f g Hf Hg Hne l).
    + intros l ([f t] & Hl & Hf)%list_elem_of_bind. simpl in Hl.
      destruct (proj2 (HL' f (name_in _ _ _ Hf)) l Hl); [left|right]; by eapply in_fields.
    + intros l Hl. apply Hframe. intros f ([f' t] & -> & Hf)%Hin%list_elem_of_fmap Hlf.
      apply Hl. by eapply in_fields.
Qed.

(** *** Pointers *)

Lemma reads_nil h t v x ls : reads h (TPtr t) v = Some (x, ls) → is_nil v = match x with Nil => true | _ => false end.
Proof.
  intros Hv. simpl in Hv. destruct v as [| |[p|]| |]; simplify_eq/=; [|done].
  destruct (h !! p) as [[w| |]|]; try done. by destruct (reads h t w) as [[]|]; simplify_eq/=.
Qed.

Lemma reads_pointer h t p x ls :
  reads h (TPtr t) (VPtr (Some p)) = Some (x, ls) →
  ∃ w y l, h !! p = Some (CVal w) ∧ reads h t w = Some (y, l) ∧ x = Ref y ∧ ls = p :: l.
Proof.
  simpl. destruct (h !! p) as [[w| |]|]; try done.
  destruct (reads h t w) as [[y l]|] eqn:Hy; [|done]. simpl. intros [= <- <-]. eauto 10.
Qed.

Lemma pointer_reads h t p w x ls :
  h !! p = Some (CVal w) → reads h t w = Some (x, ls) →
  reads h (TPtr t) (VPtr (Some p)) = Some (Ref x, p :: ls).
Proof. intros Hp Hw. simpl. by rewrite Hp, Hw. Qed.

Lemma merges_through fs rules :
  NoDup fs.*1 → NoDup rules.*1 →
  Forall (λ fr, ∃ t, (fr.1, t) ∈ fs ∧ merges fr.2 t) rules → merges (Through rules) (TPtr (TStruct fs)).
Proof.
  intros Hnd Hndr Hok h d s x ls y lss Hd Hs Hndl Hnds Hap.
  assert (Hds : (∃ p, d = VPtr p) ∧ ∃ q, s = VPtr q) by (simpl in Hd, Hs; by destruct d, s; eauto).
  destruct Hds as [[[p|] ->] [[q|] ->]].
  - apply reads_pointer in Hd as (dv & x' & l & Hp & Hdv & -> & ->).
    apply reads_pointer in Hs as (sv & y' & l' & Hq & Hsv & -> & ->).
    apply NoDup_cons in Hndl as [Hpl Hndl]. apply NoDup_cons in Hnds as [Hql Hnds].
    destruct (merges_struct fs rules Hnd Hndr Hok h dv sv x' l y' l' Hdv Hsv Hndl Hnds)
      as (w & h' & lz & Hrun & Hw & Hndz & Hsub & Hframe).
    { intros i Hi Hi'. apply (Hap i); by apply elem_of_cons; right. }
    assert (Hpz : p ∉ lz).
    { intros Hin. destruct (Hsub p Hin) as [H|H]; [done|].
      apply (Hap p); apply elem_of_cons; [by left|by right]. }
    assert (Hp' : h' !! p = Some (CVal dv)) by (by rewrite Hframe).
    exists (VPtr (Some p)), (<[p := CVal w]> h'), (p :: lz). split_and!.
    + simpl. erewrite mem_then by (by apply load_val_run). erewrite mem_then by (by apply load_val_run).
      erewrite mem_then by exact Hrun. by erewrite mem_then by (by eapply store_run).
    + apply (pointer_reads _ _ p w); [apply lookup_insert_eq|]. by apply reads_insert.
    + by constructor.
    + intros i [->|Hi]%elem_of_cons; [left; apply elem_of_cons; by left|].
      destruct (Hsub i Hi); [left|right]; apply elem_of_cons; by right.
    + intros i [Hne Hi]%not_elem_of_cons. rewrite lookup_insert_ne by done. by apply Hframe.
  - injection Hs as <- <-. exists (VPtr (Some p)), h, ls. split_and!; try done; [|by left].
    rewrite Hd. by destruct x.
  - injection Hd as <- <-. exists (VPtr (Some q)), h, lss. split_and!; try done; [|by right].
    rewrite Hs. by apply reads_pointer in Hs as (sv & y' & l' & Hq & Hsv & -> & ->).
  - injection Hs as <- <-. injection Hd as <- <-. exists (VPtr None), h, [].
    split_and!; try done. by left.
Qed.

(** A pointer that is not nil stays the pointer it is. *)
Lemma merge_in_place rules h t d s x ls w h' :
  reads h (TPtr t) d = Some (x, ls) → x ≠ Nil → merge (Through rules) d s h = Some (w, h') → w = d.
Proof.
  intros Hd Hx. destruct d as [| |[p|]| |]; [done..| |by injection Hd as <- _|done|done].
  simpl. destruct (is_nil s); [by intros [= <- _]|]. destruct s as [| |[q|]| |]; try done.
  unfold mbind, mem_bind. destruct (load_val p h) as [[dv h1]|]; [|done].
  destruct (load_val q h1) as [[sv h2]|]; [|done].
  destruct (merge_fields merge rules dv sv h2) as [[z h3]|]; [|done].
  destruct (store p (CVal z) h3) as [[[] h4]|]; [|done]. by intros [= <- _].
Qed.

Lemma fits_fields fs rules :
  Forall (λ fr, ∀ t, fits fr.2 t = true → merges fr.2 t) rules →
  forallb (λ fr, existsb (λ ft, String.eqb ft.1 fr.1 && fits fr.2 ft.2) fs) rules = true →
  Forall (λ fr, ∃ t, (fr.1, t) ∈ fs ∧ merges fr.2 t) rules.
Proof.
  intros IH Hfit. apply Forall_forall. intros [f r] Hr.
  rewrite forallb_forall in Hfit. specialize (Hfit (f, r) (proj1 (list_elem_of_In _ _) Hr)).
  apply existsb_exists in Hfit as ([g t] & Hg & [Heq Ht]%andb_prop). simpl in *.
  apply String.eqb_eq in Heq as ->. exists t. split; [by apply list_elem_of_In|].
  by apply (proj1 (Forall_forall _ _) IH (f, r) Hr).
Qed.

Lemma merges_fits r : ∀ t, fits r t = true → merges r t.
Proof.
  induction r as [|rules IH|rules IH] using rule_nested_ind; intros t Hfit.
  - by apply merges_fill.
  - destruct t as [|fs| | | |]; try done. simpl in Hfit.
    apply andb_prop in Hfit as [[Hnd Hndr]%andb_prop Hfit].
    apply bool_decide_eq_true_1 in Hnd, Hndr. apply fits_fields in Hfit; [|done].
    intros h d s x ls y lss. by apply merges_struct.
  - destruct t as [| |[|fs| | | |]| | |]; try done. simpl in Hfit.
    apply andb_prop in Hfit as [[Hnd Hndr]%andb_prop Hfit].
    apply bool_decide_eq_true_1 in Hnd, Hndr. apply fits_fields in Hfit; [|done].
    by apply merges_through.
Qed.

(** Merging ends, leaves [src] as it was and makes [dest] what the rules say;
    [dest] afterwards uses each location once and shares none with [src]. *)
Lemma merge_apart (h : heap) (dest src : val) (x y : tree) (ls lss : list loc) :
  reads h (TPtr DriverSpec_type) dest = Some (x, ls) → reads h (TPtr DriverSpec_type) src = Some (y, lss) →
  NoDup ls → apart ls lss → x ≠ Nil →
  ∃ h' lz, merge_specs dest src h = Some (tt, h')
    ∧ reads h' (TPtr DriverSpec_type) dest = Some (merged (Through merge_driver_rules) x y, lz)
    ∧ reads h' (TPtr DriverSpec_type) src = Some (y, lss)
    ∧ NoDup lz ∧ apart lz lss ∧ ∀ l, l ∉ ls → is_Some (h !! l) → h' !! l = h !! l.
Proof.
  intros Hd Hs Hnd Hap Hx.
  assert (Hin : (TPtr DriverSpec_type, DriverSpec_DeepCopy) ∈ deep_copies)
    by (unfold deep_copies; apply list_elem_of_In; simpl; tauto).
  destruct (proj1 (Forall_forall _ _) deep_copies_copy _ Hin h src y lss Hs)
    as (s' & h1 & ls' & Hrun & Hsub & Hs' & Hnds & Hnew).
  pose proof (reads_mono _ _ _ _ _ _ Hsub Hd) as Hd1.
  assert (Hap' : apart ls ls').
  { intros l Hl Hl'. destruct (reads_dom _ _ _ _ _ l Hd Hl) as [c Hc]. by rewrite (Hnew l Hl') in Hc. }
  destruct (merges_fits (Through merge_driver_rules) (TPtr DriverSpec_type) ltac:(vm_compute; reflexivity)
              h1 dest s' x ls y ls' Hd1 Hs' Hnd Hnds Hap')
    as (w & h' & lz & Hrun' & Hw & Hndz & Hlz & Hframe).
  exists h', lz.
  assert (w = dest) as -> by (by eapply merge_in_place).
  split_and!.
  - unfold merge_specs. erewrite mem_then by exact Hrun. by erewrite mem_then by exact Hrun'.
  - done.
  - apply (reads_frame h1 h' _ _ _ _ ls); [by eapply reads_mono|done|done].
  - done.
  - intros l Hl Hl'. destruct (Hlz l Hl) as [H|H]; [by apply (Hap l)|].
    destruct (reads_dom _ _ _ _ _ l Hs Hl') as [c Hc]. by rewrite (Hnew l H) in Hc.
  - intros l Hl [c Hc]. rewrite Hframe by done. rewrite Hc. by eapply lookup_weaken.
Qed.

End sharing.
