(* ===== verification/Prog.v ===== *)
(** * Effectful programs

    A reconciler is Go code that calls out of the program: to the API server
    through the client, to the runtime for the order in which [range] visits
    a map, to a mutex.  Such code is a term of [prog E]: a finite tree whose
    nodes are the outside calls [E T] and whose branches are indexed by the
    answer [T].  A Go panic is a leaf of its own.

    [run] executes a program against a handler of the calls over a state;
    [wp] states what holds of a program for every answer a specification of
    the calls allows; [wp_run] connects the two. *)
From S2P Require Import Prelude.

(** ** Programs *)

Inductive prog (E : Type → Type) (A : Type) : Type :=
| Ret (a : A)
| Panic (msg : string)
| Vis (T : Type) (e : E T) (k : T → prog E A).
Arguments Ret {E A} a.
Arguments Panic {E A} msg.
Arguments Vis {E A T} e k.

Fixpoint bind {E A B} (p : prog E A) (f : A → prog E B) : prog E B :=
  match p with
  | Ret a => f a
  | Panic m => Panic m
  | Vis e k => Vis e (λ t, bind (k t) f)
  end.

Definition trigger {E T} (e : E T) : prog E T := Vis e Ret.

(** Code that calls nothing and may panic, as a program. *)
Definition lift_panic {E A} (x : string + A) : prog E A :=
  match x with inl m => Panic m | inr a => Ret a end.

(** The monadic notations of stdpp: [x ← p; q]. *)
#[export] Instance prog_ret {E} : MRet (prog E) := λ A a, Ret a.
#[export] Instance prog_bind {E} : MBind (prog E) := λ A B f p, bind p f.

(** [defer q()] before [p]: [q] runs when [p] returns and when it panics. *)
Fixpoint finally {E A} (p : prog E A) (q : prog E unit) : prog E A :=
  match p with
  | Ret a => bind q (λ _, Ret a)
  | Panic m => bind q (λ _, Panic m)
  | Vis e k => Vis e (λ t, finally (k t) q)
  end.

(** What a finished program leaves: a value, or the message of a panic. *)
Inductive outcome (A : Type) : Type :=
| Done (a : A)
| Panicked (msg : string).
Arguments Done {A} a.
Arguments Panicked {A} msg.

(** ** Execution *)

Fixpoint run {E W A} (h : ∀ T, E T → W → W * T) (p : prog E A) (w : W) : W * outcome A :=
  match p with
  | Ret a => (w, Done a)
  | Panic m => (w, Panicked m)
  | Vis e k => let r := h _ e w in run h (k r.2) r.1
  end.

(** ** Weakest preconditions over a ghost state *)

Section wp.
Context {E : Type → Type} {S : Type}.

(** [pre e s]: the call [e] is allowed in state [s]; [post e t s s']: the
    call may answer [t] and move the state to [s']. *)
Record spec := Spec {
  pre : ∀ T, E T → S → Prop;
  post : ∀ T, E T → T → S → S → Prop;
}.

Fixpoint wp {A} (sp : spec) (p : prog E A) (Q : S → outcome A → Prop) (s : S) : Prop :=
  match p with
  | Ret a => Q s (Done a)
  | Panic m => Q s (Panicked m)
  | Vis e k => pre sp _ e s ∧ ∀ t s', post sp _ e t s s' → wp sp (k t) Q s'
  end.

Lemma wp_bind {A B} sp (p : prog E A) (f : A → prog E B) Q s :
  wp sp p (λ s' o, match o with
                   | Done a => wp sp (f a) Q s'
                   | Panicked m => Q s' (Panicked m)
                   end) s →
  wp sp (p ≫= f) Q s.
Proof.
  revert s. induction p as [a|m|T e k IH]; simpl; intros s; try done.
  intros [Hpre Hk]. split; [done|]. intros t s' Hp. by apply IH, Hk.
Qed.

Lemma wp_mono {A} sp (p : prog E A) (Q Q' : S → outcome A → Prop) s :
  wp sp p Q s → (∀ s' o, Q s' o → Q' s' o) → wp sp p Q' s.
Proof.
  revert s. induction p as [a|m|T e k IH]; simpl; intros s Hwp HQ; eauto.
  destruct Hwp as [Hpre Hk]. split; [done|]. intros t s' Hp. eauto.
Qed.

Lemma wp_and {A} sp (p : prog E A) (Q Q' : S → outcome A → Prop) s :
  wp sp p Q s → wp sp p Q' s → wp sp p (λ s' o, Q s' o ∧ Q' s' o) s.
Proof.
  revert s. induction p as [a|m|T e k IH]; simpl; intros s; try done.
  intros [Hpre Hk] [_ Hk']. split; [done|]. intros t s' Hp. eauto.
Qed.

(** A specification that allows more calls and promises more of the answers. *)
Lemma wp_spec {A} sp sp' (p : prog E A) (Q : S → outcome A → Prop) s :
  (∀ T (e : E T) s, pre sp _ e s → pre sp' _ e s) →
  (∀ T (e : E T) t s s', post sp' _ e t s s' → post sp _ e t s s') →
  wp sp p Q s → wp sp' p Q s.
Proof.
  intros Hpre Hpost. revert s. induction p as [a|m|T e k IH]; simpl; intros s; try done.
  intros [He Hk]. split; [by apply Hpre|]. intros t s' Hp. by apply IH, Hk, Hpost.
Qed.

Lemma wp_finally {A} sp (p : prog E A) (q : prog E unit) Q s :
  wp sp p (λ s' o, wp sp q (λ s'' o', match o' with
                                      | Done _ => Q s'' o
                                      | Panicked m => Q s'' (Panicked m)
                                      end) s') s →
  wp sp (finally p q) Q s.
Proof.
  revert s. induction p as [a|m|T e k IH]; simpl; intros s H.
  - apply wp_bind. eapply wp_mono; [exact H|]. by intros s' [[]|m'].
  - apply wp_bind. eapply wp_mono; [exact H|]. by intros s' [[]|m'].
  - destruct H as [Hpre Hk]. split; [done|]. intros t s' Hp. by apply IH, Hk.
Qed.

(** A handler whose answers the specification allows gives what [wp] promises. *)
Definition implements (sp : spec) (h : ∀ T, E T → S → S * T) : Prop :=
  ∀ T (e : E T) s, pre sp _ e s → post sp _ e (h _ e s).2 s (h _ e s).1.

Lemma wp_run {A} sp h (p : prog E A) Q s :
  implements sp h → wp sp p Q s → Q (run h p s).1 (run h p s).2.
Proof.
  intros Hh. revert s. induction p as [a|m|T e k IH]; simpl; intros s; try done.
  intros [Hpre Hk]. apply IH, Hk, Hh, Hpre.
Qed.

End wp.
Arguments spec E S : clear implicits.

(** Every call a program can issue satisfies [P], whatever it is answered. *)
Definition call_spec {E : Type → Type} (P : ∀ T, E T → Prop) : spec E unit :=
  {| pre := λ T e _, P T e; post := λ T _ _ _ _, True |}.

Definition all_calls {E A} (P : ∀ T, E T → Prop) (p : prog E A) : Prop :=
  wp (call_spec P) p (λ _ _, True) tt.

Lemma all_calls_bind {E A B} (P : ∀ T, E T → Prop) (p : prog E A) (f : A → prog E B) :
  all_calls P p → (∀ a, all_calls P (f a)) → all_calls P (p ≫= f).
Proof.
  intros Hp Hf. apply wp_bind. eapply wp_mono; [exact Hp|].
  intros [] [a|m] _; [apply Hf|done].
Qed.

Lemma all_calls_ret {E A} (P : ∀ T, E T → Prop) (a : A) : all_calls P (mret a : prog E A).
Proof. done. Qed.

Lemma all_calls_panic {E A} (P : ∀ T, E T → Prop) m : all_calls P (Panic m : prog E A).
Proof. done. Qed.

Lemma all_calls_trigger {E T} (P : ∀ T, E T → Prop) (e : E T) : P T e → all_calls P (trigger e).
Proof. intros H. split; [exact H|done]. Qed.

Lemma all_calls_lift {E A} (P : ∀ T, E T → Prop) (x : string + A) :
  all_calls (E := E) P (lift_panic x).
Proof. by destruct x. Qed.

(** A program whose calls all preserve [I], against any specification. *)
Lemma wp_all_calls {E S A} (P : ∀ T, E T → Prop) (sp : spec E S) (I : S → Prop) (p : prog E A) s :
  all_calls P p →
  (∀ T (e : E T) s, P T e → I s → pre sp _ e s ∧ ∀ t s', post sp _ e t s s' → I s') →
  I s → wp sp p (λ s' _, I s') s.
Proof.
  intros Hp HI. revert s. unfold all_calls in Hp. induction p as [a|m|T e k IH]; simpl; intros s Hs; try done.
  destruct Hp as [He Hk]. destruct (HI T e s He Hs) as [Hpre Hpost]. split; [done|].
  intros t s' Ht. apply IH; [by apply (Hk t tt)|by eapply Hpost].
Qed.

(** Decompose a program into its calls; [tac] proves the predicate of each. *)
Ltac calls_with tac :=
  repeat (intros; cbv beta zeta;
    first
      [ apply all_calls_ret | apply all_calls_panic | apply all_calls_lift
      | apply all_calls_trigger; solve [tac]
      | solve [eauto 2 with calls]
      | apply all_calls_bind
      | assumption
      | match goal with |- all_calls _ (match ?x with _ => _ end) => destruct x end
      | match goal with |- all_calls _ (if ?x then _ else _) => destruct x end ]).

Create HintDb calls.

Lemma run_bind {E W A B} (h : ∀ T, E T → W → W * T) (p : prog E A) (f : A → prog E B) w :
  run h (p ≫= f) w =
  match run h p w with
  | (w', Done a) => run h (f a) w'
  | (w', Panicked m) => (w', Panicked m)
  end.
Proof. revert w. induction p as [a|m|T e k IH]; simpl; intros w; [done|done|apply IH]. Qed.
