(* ===== verification/K8s.v ===== *)
(** * The Kubernetes object types the operator builds and reads

    The types of k8s.io/api and k8s.io/apimachinery that
    internal/controller and internal/utils mention, with the fields the code
    reads, writes or can receive from a user.  A field the operator never
    sets in an object it builds itself (the probes of a container, the
    restart policy of a pod) is left out of that type.  Values the operator
    only passes through, without looking inside, have a type of the
    parameter [ApiLib], which also holds the two methods of
    [resource.Quantity] it calls and what the API server keeps of such a
    value. *)
From S2P Require Import Prelude.

(** ** What the operator does not look into *)
Class ApiLib := {
  Quantity : Type;
  Quantity_IsZero : Quantity → bool;
  Quantity_String : Quantity → string;
  ResourceRequirements : Type;
  zero_ResourceRequirements : ResourceRequirements;
  Toleration : Type;
  NodeAffinity : Type;
  PodAffinity : Type;
  WeightedPodAffinityTerm : Type;
  (** the members of [VolumeSource] other than the four the code sets *)
  OtherVolumeSource : Type;
  zero_OtherVolumeSource : OtherVolumeSource;
  (** the members of [VolumeProjection] other than [ServiceAccountToken] *)
  OtherVolumeProjection : Type;
  zero_OtherVolumeProjection : OtherVolumeProjection;
  (** the members of [CSIDriverSpec] other than the four the code sets *)
  OtherCSIDriverSpec : Type;
  zero_OtherCSIDriverSpec : OtherCSIDriverSpec;
  (** what the API server may store for a submitted value: the value, with
      what it leaves unset filled in *)
  Quantity_kept : Quantity → Quantity → Prop;
  Quantity_kept_refl : Reflexive Quantity_kept;
  ResourceRequirements_kept : ResourceRequirements → ResourceRequirements → Prop;
  ResourceRequirements_kept_refl : Reflexive ResourceRequirements_kept;
  Toleration_kept : Toleration → Toleration → Prop;
  Toleration_kept_refl : Reflexive Toleration_kept;
  NodeAffinity_kept : NodeAffinity → NodeAffinity → Prop;
  NodeAffinity_kept_refl : Reflexive NodeAffinity_kept;
  PodAffinity_kept : PodAffinity → PodAffinity → Prop;
  PodAffinity_kept_refl : Reflexive PodAffinity_kept;
  WeightedPodAffinityTerm_kept : WeightedPodAffinityTerm → WeightedPodAffinityTerm → Prop;
  WeightedPodAffinityTerm_kept_refl : Reflexive WeightedPodAffinityTerm_kept;
  OtherVolumeSource_kept : OtherVolumeSource → OtherVolumeSource → Prop;
  OtherVolumeSource_kept_refl : Reflexive OtherVolumeSource_kept;
  OtherVolumeProjection_kept : OtherVolumeProjection → OtherVolumeProjection → Prop;
  OtherVolumeProjection_kept_refl : Reflexive OtherVolumeProjection_kept;
  OtherCSIDriverSpec_kept : OtherCSIDriverSpec → OtherCSIDriverSpec → Prop;
  OtherCSIDriverSpec_kept_refl : Reflexive OtherCSIDriverSpec_kept;
}.

(** ** metav1 *)

Record NamespacedName := {
  Key_Namespace : string;
  Key_Name : string;
}.
#[export] Instance NamespacedName_eq_dec : EqDecision NamespacedName.
Proof. solve_decision. Defined.

Record OwnerReference := {
  Ref_APIVersion : string;
  Ref_Kind : string;
  Ref_Name : string;
  Ref_UID : string;
  Ref_Controller : option bool;
  Ref_BlockOwnerDeletion : option bool;
}.
#[export] Instance OwnerReference_eq_dec : EqDecision OwnerReference.
Proof. solve_decision. Defined.

(** Times are seconds since the epoch; a nil map and an empty map of labels
    or annotations are one value, since no code tells them apart here. *)
Record ObjectMeta := {
  Meta_Name : string;
  Meta_Namespace : string;
  Meta_UID : string;
  Meta_ResourceVersion : string;
  Meta_Generation : Z;
  Meta_CreationTimestamp : Z;
  Meta_DeletionTimestamp : option Z;
  Meta_Labels : gmap string string;
  Meta_Annotations : gmap string string;
  Meta_OwnerReferences : list OwnerReference;
  Meta_Finalizers : list string;
}.

(** [ObjectMeta{Name: name, Namespace: ns}] *)
Definition new_meta (ns name : string) : ObjectMeta := {|
  Meta_Name := name; Meta_Namespace := ns; Meta_UID := "";
  Meta_ResourceVersion := ""; Meta_Generation := 0; Meta_CreationTimestamp := 0;
  Meta_DeletionTimestamp := None; Meta_Labels := ∅; Meta_Annotations := ∅;
  Meta_OwnerReferences := []; Meta_Finalizers := [];
|}.

Definition meta_key (m : ObjectMeta) : NamespacedName :=
  {| Key_Namespace := Meta_Namespace m; Key_Name := Meta_Name m |}.

Definition SetOwnerReferences (refs : list OwnerReference) (m : ObjectMeta) : ObjectMeta := {|
  Meta_Name := Meta_Name m; Meta_Namespace := Meta_Namespace m; Meta_UID := Meta_UID m;
  Meta_ResourceVersion := Meta_ResourceVersion m; Meta_Generation := Meta_Generation m;
  Meta_CreationTimestamp := Meta_CreationTimestamp m;
  Meta_DeletionTimestamp := Meta_DeletionTimestamp m;
  Meta_Labels := Meta_Labels m; Meta_Annotations := Meta_Annotations m;
  Meta_OwnerReferences := refs; Meta_Finalizers := Meta_Finalizers m;
|}.

Definition SetFinalizers (fs : list string) (m : ObjectMeta) : ObjectMeta := {|
  Meta_Name := Meta_Name m; Meta_Namespace := Meta_Namespace m; Meta_UID := Meta_UID m;
  Meta_ResourceVersion := Meta_ResourceVersion m; Meta_Generation := Meta_Generation m;
  Meta_CreationTimestamp := Meta_CreationTimestamp m;
  Meta_DeletionTimestamp := Meta_DeletionTimestamp m;
  Meta_Labels := Meta_Labels m; Meta_Annotations := Meta_Annotations m;
  Meta_OwnerReferences := Meta_OwnerReferences m; Meta_Finalizers := fs;
|}.

Definition SetAnnotations (a : gmap string string) (m : ObjectMeta) : ObjectMeta := {|
  Meta_Name := Meta_Name m; Meta_Namespace := Meta_Namespace m; Meta_UID := Meta_UID m;
  Meta_ResourceVersion := Meta_ResourceVersion m; Meta_Generation := Meta_Generation m;
  Meta_CreationTimestamp := Meta_CreationTimestamp m;
  Meta_DeletionTimestamp := Meta_DeletionTimestamp m;
  Meta_Labels := Meta_Labels m; Meta_Annotations := a;
  Meta_OwnerReferences := Meta_OwnerReferences m; Meta_Finalizers := Meta_Finalizers m;
|}.

Record LabelSelectorRequirement := {
  Req_Key : string; Req_Operator : string; Req_Values : list string;
}.

Record LabelSelector := {
  MatchLabels : gmap string string;
  MatchExpressions : list LabelSelectorRequirement;
}.

(** [metav1.LabelSelector{MatchLabels: m}] *)
Definition match_labels (m : gmap string string) : LabelSelector :=
  {| MatchLabels := m; MatchExpressions := [] |}.

Inductive IntOrString :=
| FromInt32 (n : Z)
| FromString (s : string).

(** [intstr.FromInt]: the value is converted to [int32]. *)
Definition FromInt (n : Z) : IntOrString := FromInt32 (int32 n).

(** ** corev1: volumes *)
Section corev1.
Context {lib : ApiLib}.

Record EmptyDirVolumeSource := {
  EmptyDir_Medium : string;
  EmptyDir_SizeLimit : option Quantity;
}.

Record HostPathVolumeSource := {
  HostPath_Path : string;
  HostPath_Type : option string;
}.

Record KeyToPath := { KTP_Key : string; KTP_Path : string; KTP_Mode : option Z }.

Record ConfigMapVolumeSource := {
  CMV_Name : string;
  CMV_Items : list KeyToPath;
  CMV_DefaultMode : option Z;
  CMV_Optional : option bool;
}.

Record ServiceAccountTokenProjection := {
  SAT_Path : string;
  SAT_ExpirationSeconds : option Z;
  SAT_Audience : string;
}.

Record VolumeProjection := {
  Proj_ServiceAccountToken : option ServiceAccountTokenProjection;
  Proj_other : OtherVolumeProjection;
}.

Record ProjectedVolumeSource := {
  Projected_Sources : list VolumeProjection;
  Projected_DefaultMode : option Z;
}.

Record VolumeSource := {
  VS_EmptyDir : option EmptyDirVolumeSource;
  VS_HostPath : option HostPathVolumeSource;
  VS_ConfigMap : option ConfigMapVolumeSource;
  VS_Projected : option ProjectedVolumeSource;
  VS_other : OtherVolumeSource;
}.

Record Volume := {
  Volume_Name : string;
  Volume_Source : VolumeSource;
}.

Record VolumeMount := {
  Mount_Name : string;
  Mount_ReadOnly : bool;
  Mount_RecursiveReadOnly : option string;
  Mount_MountPath : string;
  Mount_SubPath : string;
  Mount_MountPropagation : option string;
  Mount_SubPathExpr : string;
}.

(** ** corev1: containers and pods *)

Record EnvVar := {
  Env_Name : string;
  (** [ValueFrom.FieldRef.FieldPath] *)
  Env_FieldPath : string;
}.

Record ContainerPort := { ContainerPort_Port : Z }.

Record Capabilities := { Cap_Add : list string; Cap_Drop : list string }.

Record SecurityContext := {
  SC_Privileged : option bool;
  SC_Capabilities : option Capabilities;
  SC_AllowPrivilegeEscalation : option bool;
}.

Record Container := {
  Container_Name : string;
  Container_Image : string;
  Container_ImagePullPolicy : string;
  Container_SecurityContext : option SecurityContext;
  Container_Command : list string;
  Container_Args : list string;
  Container_Ports : list ContainerPort;
  Container_Env : list EnvVar;
  Container_VolumeMounts : list VolumeMount;
  Container_Resources : ResourceRequirements;
}.

Record PodAffinityTerm := {
  Term_LabelSelector : option LabelSelector;
  Term_Namespaces : list string;
  Term_TopologyKey : string;
  Term_NamespaceSelector : option LabelSelector;
  Term_MatchLabelKeys : list string;
  Term_MismatchLabelKeys : list string;
}.

Record PodAntiAffinity := {
  Anti_Required : list PodAffinityTerm;
  Anti_Preferred : list WeightedPodAffinityTerm;
}.

Record Affinity := {
  Affinity_NodeAffinity : option NodeAffinity;
  Affinity_PodAffinity : option PodAffinity;
  Affinity_PodAntiAffinity : option PodAntiAffinity;
}.

Record PodSpec := {
  Pod_ServiceAccountName : string;
  Pod_PriorityClassName : string;
  Pod_HostNetwork : bool;
  Pod_HostPID : bool;
  Pod_DNSPolicy : string;
  Pod_Affinity : option Affinity;
  Pod_Tolerations : option (list Toleration);
  Pod_Containers : list Container;
  Pod_Volumes : list Volume;
}.

Record PodTemplateSpec := {
  Template_Labels : gmap string string;
  Template_Annotations : option (gmap string string);
  Template_Spec : PodSpec;
}.

(** ** appsv1 *)

Record RollingUpdate := {
  RU_MaxUnavailable : option IntOrString;
  RU_MaxSurge : option IntOrString;
}.

Record DaemonSetUpdateStrategy := {
  DSUS_Type : string;
  DSUS_RollingUpdate : option RollingUpdate;
}.

Record DeploymentStrategy := {
  DS_Type : string;
  DS_RollingUpdate : option RollingUpdate;
}.

Record DeploymentSpec := {
  Deployment_Replicas : option Z;
  Deployment_Selector : option LabelSelector;
  Deployment_Strategy : DeploymentStrategy;
  Deployment_Template : PodTemplateSpec;
}.

Record DaemonSetSpec := {
  DaemonSet_Selector : option LabelSelector;
  DaemonSet_UpdateStrategy : DaemonSetUpdateStrategy;
  DaemonSet_Template : PodTemplateSpec;
}.

(** ** networkingv1, storagev1 and services *)

Record NetworkPolicyPort := {
  NPP_Protocol : option string;
  NPP_Port : option IntOrString;
}.

Record NetworkPolicyPeer := {
  NPPeer_PodSelector : option LabelSelector;
  NPPeer_NamespaceSelector : option LabelSelector;
}.

Record NetworkPolicyIngressRule := {
  Ingress_Ports : list NetworkPolicyPort;
  Ingress_From : list NetworkPolicyPeer;
}.

Record NetworkPolicyEgressRule := {
  Egress_Ports : list NetworkPolicyPort;
  Egress_To : list NetworkPolicyPeer;
}.

Record NetworkPolicySpec := {
  NP_PodSelector : LabelSelector;
  NP_Ingress : list NetworkPolicyIngressRule;
  NP_Egress : list NetworkPolicyEgressRule;
  NP_PolicyTypes : list string;
}.

Record CSIDriverSpec := {
  CSID_AttachRequired : option bool;
  CSID_PodInfoOnMount : option bool;
  CSID_FSGroupPolicy : option string;
  CSID_SELinuxMount : option bool;
  CSID_other : OtherCSIDriverSpec;
}.

Record ServicePort := {
  SP_Name : string;
  SP_Protocol : string;
  SP_Port : Z;
  SP_TargetPort : IntOrString;
}.

Record ServiceSpec := {
  Service_Ports : list ServicePort;
  Service_Selector : gmap string string;
}.

End corev1.

(** The zero [VolumeSource] and the sources the code writes as literals. *)
Definition no_source {lib : ApiLib} : VolumeSource := {|
  VS_EmptyDir := None; VS_HostPath := None; VS_ConfigMap := None;
  VS_Projected := None; VS_other := zero_OtherVolumeSource |}.

Definition emptydir_source {lib : ApiLib} (medium : string) : VolumeSource := {|
  VS_EmptyDir := Some {| EmptyDir_Medium := medium; EmptyDir_SizeLimit := None |};
  VS_HostPath := None; VS_ConfigMap := None;
  VS_Projected := None; VS_other := zero_OtherVolumeSource |}.

Definition hostpath_source {lib : ApiLib} (path : string) (type : option string) : VolumeSource := {|
  VS_EmptyDir := None;
  VS_HostPath := Some {| HostPath_Path := path; HostPath_Type := type |};
  VS_ConfigMap := None; VS_Projected := None; VS_other := zero_OtherVolumeSource |}.

Definition configmap_source {lib : ApiLib} (name : string) (items : list KeyToPath) : VolumeSource := {|
  VS_EmptyDir := None; VS_HostPath := None;
  VS_ConfigMap := Some {| CMV_Name := name; CMV_Items := items;
                          CMV_DefaultMode := None; CMV_Optional := None |};
  VS_Projected := None; VS_other := zero_OtherVolumeSource |}.

Definition projected_source {lib : ApiLib} (sources : list VolumeProjection) : VolumeSource := {|
  VS_EmptyDir := None; VS_HostPath := None; VS_ConfigMap := None;
  VS_Projected := Some {| Projected_Sources := sources; Projected_DefaultMode := None |};
  VS_other := zero_OtherVolumeSource |}.

(** [VolumeMount{Name, MountPath, ReadOnly}] *)
Definition mount (name path : string) (ro : bool) : VolumeMount := {|
  Mount_Name := name; Mount_ReadOnly := ro; Mount_RecursiveReadOnly := None;
  Mount_MountPath := path; Mount_SubPath := ""; Mount_MountPropagation := None;
  Mount_SubPathExpr := "" |}.

(** An instance of [ApiLib] to evaluate definitions at: quantities are byte
    counts, the types passed through carry a label. *)
Definition plain_lib : ApiLib := {|
  Quantity := Z; Quantity_IsZero := Z.eqb 0; Quantity_String := itoa;
  ResourceRequirements := string; zero_ResourceRequirements := "";
  Toleration := string; NodeAffinity := string; PodAffinity := string;
  WeightedPodAffinityTerm := string;
  OtherVolumeSource := string; zero_OtherVolumeSource := "";
  OtherVolumeProjection := string; zero_OtherVolumeProjection := "";
  OtherCSIDriverSpec := string; zero_OtherCSIDriverSpec := "";
  Quantity_kept := eq; Quantity_kept_refl := _;
  ResourceRequirements_kept := eq; ResourceRequirements_kept_refl := _;
  Toleration_kept := eq; Toleration_kept_refl := _;
  NodeAffinity_kept := eq; NodeAffinity_kept_refl := _;
  PodAffinity_kept := eq; PodAffinity_kept_refl := _;
  WeightedPodAffinityTerm_kept := eq; WeightedPodAffinityTerm_kept_refl := _;
  OtherVolumeSource_kept := eq; OtherVolumeSource_kept_refl := _;
  OtherVolumeProjection_kept := eq; OtherVolumeProjection_kept_refl := _;
  OtherCSIDriverSpec_kept := eq; OtherCSIDriverSpec_kept_refl := _ |}.
