(* ===== verification/Defaulting.v ===== *)
(** * What the API server keeps of a submitted spec

    The API server fills in default values before it stores an object:
    the pull policy of a container, the mode of a projected volume, the type
    of a service port's target.  [keeps x y] says that [y] is [x] with fields
    that [x] leaves unset filled in; every field that is set stays as it was
    submitted, and lists keep their length.  It is the contract of the server
    towards the objects the operator builds, the five kinds that have a spec
    here (Cluster.v, [spec_kept]). *)
From S2P Require Import Prelude K8s.

Class Keeps (A : Type) := keeps : A → A → Prop.
#[export] Hint Mode Keeps ! : typeclass_instances.

(** ** Plain fields: the zero value counts as unset *)

#[export] Instance keeps_string : Keeps string := λ x y, x = "" ∨ x = y.
#[export] Instance keeps_Z : Keeps Z := λ x y, x = 0%Z ∨ x = y.
#[export] Instance keeps_bool : Keeps bool := eq.
#[export] Instance keeps_labels : Keeps (gmap string string) := eq.
#[export] Instance keeps_LabelSelector : Keeps LabelSelector := eq.
#[export] Instance keeps_IntOrString : Keeps IntOrString := λ x y, x = FromInt32 0 ∨ x = y.

(** ** Pointers and lists *)

(** A pointer that is set points to a value that is kept.  To a plain value
    it does so exactly, since a pointer to zero is set. *)
Definition keeps_ptr {A} (R : A → A → Prop) (x y : option A) : Prop :=
  match x with None => True | Some a => ∃ b, y = Some b ∧ R a b end.

#[export] Instance keeps_ptr_string : Keeps (option string) := keeps_ptr eq.
#[export] Instance keeps_ptr_Z : Keeps (option Z) := keeps_ptr eq.
#[export] Instance keeps_ptr_bool : Keeps (option bool) := keeps_ptr eq.
#[export] Instance keeps_ptr_IntOrString : Keeps (option IntOrString) := keeps_ptr eq.
#[export] Instance keeps_ptr_struct {A} `{Keeps A} : Keeps (option A) | 10 := keeps_ptr keeps.

(** Strings in a list are values, not fields. *)
#[export] Instance keeps_strings : Keeps (list string) := eq.
#[export] Instance keeps_list {A} `{Keeps A} : Keeps (list A) | 10 := Forall2 keeps.

(** Lists and maps for which nil and empty are the same to the server. *)
Definition keeps_or_empty {A} `{Keeps A} (empty : A) (x y : option A) : Prop :=
  match x with None => True | Some a => a = empty ∨ ∃ b, y = Some b ∧ keeps a b end.

Section structs.
Context {lib : ApiLib}.

#[export] Instance keeps_Quantity : Keeps Quantity := Quantity_kept.
#[export] Instance keeps_ResourceRequirements : Keeps ResourceRequirements := ResourceRequirements_kept.
#[export] Instance keeps_Toleration : Keeps Toleration := Toleration_kept.
#[export] Instance keeps_NodeAffinity : Keeps NodeAffinity := NodeAffinity_kept.
#[export] Instance keeps_PodAffinity : Keeps PodAffinity := PodAffinity_kept.
#[export] Instance keeps_WeightedPodAffinityTerm : Keeps WeightedPodAffinityTerm :=
  WeightedPodAffinityTerm_kept.
#[export] Instance keeps_OtherVolumeSource : Keeps OtherVolumeSource := OtherVolumeSource_kept.
#[export] Instance keeps_OtherVolumeProjection : Keeps OtherVolumeProjection :=
  OtherVolumeProjection_kept.
#[export] Instance keeps_OtherCSIDriverSpec : Keeps OtherCSIDriverSpec := OtherCSIDriverSpec_kept.

(** ** Volumes *)

#[export] Instance keeps_EmptyDir : Keeps EmptyDirVolumeSource := λ x y,
  keeps (EmptyDir_Medium x) (EmptyDir_Medium y)
  ∧ keeps (EmptyDir_SizeLimit x) (EmptyDir_SizeLimit y).

#[export] Instance keeps_HostPath : Keeps HostPathVolumeSource := λ x y,
  keeps (HostPath_Path x) (HostPath_Path y) ∧ keeps (HostPath_Type x) (HostPath_Type y).

#[export] Instance keeps_KeyToPath : Keeps KeyToPath := λ x y,
  keeps (KTP_Key x) (KTP_Key y) ∧ keeps (KTP_Path x) (KTP_Path y) ∧ keeps (KTP_Mode x) (KTP_Mode y).

#[export] Instance keeps_ConfigMapSource : Keeps ConfigMapVolumeSource := λ x y,
  keeps (CMV_Name x) (CMV_Name y) ∧ keeps (CMV_Items x) (CMV_Items y)
  ∧ keeps (CMV_DefaultMode x) (CMV_DefaultMode y) ∧ keeps (CMV_Optional x) (CMV_Optional y).

#[export] Instance keeps_ServiceAccountToken : Keeps ServiceAccountTokenProjection := λ x y,
  keeps (SAT_Path x) (SAT_Path y) ∧ keeps (SAT_ExpirationSeconds x) (SAT_ExpirationSeconds y)
  ∧ keeps (SAT_Audience x) (SAT_Audience y).

#[export] Instance keeps_VolumeProjection : Keeps VolumeProjection := λ x y,
  keeps (Proj_ServiceAccountToken x) (Proj_ServiceAccountToken y)
  ∧ keeps (Proj_other x) (Proj_other y).

#[export] Instance keeps_ProjectedSource : Keeps ProjectedVolumeSource := λ x y,
  keeps (Projected_Sources x) (Projected_Sources y)
  ∧ keeps (Projected_DefaultMode x) (Projected_DefaultMode y).

#[export] Instance keeps_VolumeSource : Keeps VolumeSource := λ x y,
  keeps (VS_EmptyDir x) (VS_EmptyDir y) ∧ keeps (VS_HostPath x) (VS_HostPath y)
  ∧ keeps (VS_ConfigMap x) (VS_ConfigMap y) ∧ keeps (VS_Projected x) (VS_Projected y)
  ∧ keeps (VS_other x) (VS_other y).

#[export] Instance keeps_Volume : Keeps Volume := λ x y,
  keeps (Volume_Name x) (Volume_Name y) ∧ keeps (Volume_Source x) (Volume_Source y).

#[export] Instance keeps_VolumeMount : Keeps VolumeMount := λ x y,
  keeps (Mount_Name x) (Mount_Name y) ∧ keeps (Mount_ReadOnly x) (Mount_ReadOnly y)
  ∧ keeps (Mount_RecursiveReadOnly x) (Mount_RecursiveReadOnly y)
  ∧ keeps (Mount_MountPath x) (Mount_MountPath y) ∧ keeps (Mount_SubPath x) (Mount_SubPath y)
  ∧ keeps (Mount_MountPropagation x) (Mount_MountPropagation y)
  ∧ keeps (Mount_SubPathExpr x) (Mount_SubPathExpr y).

(** ** Containers and pods *)

#[export] Instance keeps_EnvVar : Keeps EnvVar := λ x y,
  keeps (Env_Name x) (Env_Name y) ∧ keeps (Env_FieldPath x) (Env_FieldPath y).

#[export] Instance keeps_ContainerPort : Keeps ContainerPort := λ x y,
  keeps (ContainerPort_Port x) (ContainerPort_Port y).

#[export] Instance keeps_Capabilities : Keeps Capabilities := λ x y,
  keeps (Cap_Add x) (Cap_Add y) ∧ keeps (Cap_Drop x) (Cap_Drop y).

#[export] Instance keeps_SecurityContext : Keeps SecurityContext := λ x y,
  keeps (SC_Privileged x) (SC_Privileged y) ∧ keeps (SC_Capabilities x) (SC_Capabilities y)
  ∧ keeps (SC_AllowPrivilegeEscalation x) (SC_AllowPrivilegeEscalation y).

#[export] Instance keeps_Container : Keeps Container := λ x y,
  keeps (Container_Name x) (Container_Name y) ∧ keeps (Container_Image x) (Container_Image y)
  ∧ keeps (Container_ImagePullPolicy x) (Container_ImagePullPolicy y)
  ∧ keeps (Container_SecurityContext x) (Container_SecurityContext y)
  ∧ keeps (Container_Command x) (Container_Command y)
  ∧ keeps (Container_Args x) (Container_Args y) ∧ keeps (Container_Ports x) (Container_Ports y)
  ∧ keeps (Container_Env x) (Container_Env y)
  ∧ keeps (Container_VolumeMounts x) (Container_VolumeMounts y)
  ∧ keeps (Container_Resources x) (Container_Resources y).

#[export] Instance keeps_PodAffinityTerm : Keeps PodAffinityTerm := λ x y,
  keeps (Term_LabelSelector x) (Term_LabelSelector y)
  ∧ keeps (Term_Namespaces x) (Term_Namespaces y)
  ∧ keeps (Term_TopologyKey x) (Term_TopologyKey y)
  ∧ keeps (Term_NamespaceSelector x) (Term_NamespaceSelector y)
  ∧ keeps (Term_MatchLabelKeys x) (Term_MatchLabelKeys y)
  ∧ keeps (Term_MismatchLabelKeys x) (Term_MismatchLabelKeys y).

#[export] Instance keeps_PodAntiAffinity : Keeps PodAntiAffinity := λ x y,
  keeps (Anti_Required x) (Anti_Required y) ∧ keeps (Anti_Preferred x) (Anti_Preferred y).

#[export] Instance keeps_Affinity : Keeps Affinity := λ x y,
  keeps (Affinity_NodeAffinity x) (Affinity_NodeAffinity y)
  ∧ keeps (Affinity_PodAffinity x) (Affinity_PodAffinity y)
  ∧ keeps (Affinity_PodAntiAffinity x) (Affinity_PodAntiAffinity y).

#[export] Instance keeps_PodSpec : Keeps PodSpec := λ x y,
  keeps (Pod_ServiceAccountName x) (Pod_ServiceAccountName y)
  ∧ keeps (Pod_PriorityClassName x) (Pod_PriorityClassName y)
  ∧ keeps (Pod_HostNetwork x) (Pod_HostNetwork y) ∧ keeps (Pod_HostPID x) (Pod_HostPID y)
  ∧ keeps (Pod_DNSPolicy x) (Pod_DNSPolicy y) ∧ keeps (Pod_Affinity x) (Pod_Affinity y)
  ∧ keeps_or_empty [] (Pod_Tolerations x) (Pod_Tolerations y)
  ∧ keeps (Pod_Containers x) (Pod_Containers y) ∧ keeps (Pod_Volumes x) (Pod_Volumes y).

#[export] Instance keeps_PodTemplateSpec : Keeps PodTemplateSpec := λ x y,
  keeps (Template_Labels x) (Template_Labels y)
  ∧ keeps_or_empty ∅ (Template_Annotations x) (Template_Annotations y)
  ∧ keeps (Template_Spec x) (Template_Spec y).

(** ** The specs of the objects the operator builds *)

#[export] Instance keeps_RollingUpdate : Keeps RollingUpdate := λ x y,
  keeps (RU_MaxUnavailable x) (RU_MaxUnavailable y) ∧ keeps (RU_MaxSurge x) (RU_MaxSurge y).

#[export] Instance keeps_UpdateStrategy : Keeps DaemonSetUpdateStrategy := λ x y,
  keeps (DSUS_Type x) (DSUS_Type y) ∧ keeps (DSUS_RollingUpdate x) (DSUS_RollingUpdate y).

#[export] Instance keeps_DeploymentStrategy : Keeps DeploymentStrategy := λ x y,
  keeps (DS_Type x) (DS_Type y) ∧ keeps (DS_RollingUpdate x) (DS_RollingUpdate y).

#[export] Instance keeps_DeploymentSpec : Keeps DeploymentSpec := λ x y,
  keeps (Deployment_Replicas x) (Deployment_Replicas y)
  ∧ keeps (Deployment_Selector x) (Deployment_Selector y)
  ∧ keeps (Deployment_Strategy x) (Deployment_Strategy y)
  ∧ keeps (Deployment_Template x) (Deployment_Template y).

#[export] Instance keeps_DaemonSetSpec : Keeps DaemonSetSpec := λ x y,
  keeps (DaemonSet_Selector x) (DaemonSet_Selector y)
  ∧ keeps (DaemonSet_UpdateStrategy x) (DaemonSet_UpdateStrategy y)
  ∧ keeps (DaemonSet_Template x) (DaemonSet_Template y).

#[export] Instance keeps_PolicyPort : Keeps NetworkPolicyPort := λ x y,
  keeps (NPP_Protocol x) (NPP_Protocol y) ∧ keeps (NPP_Port x) (NPP_Port y).

#[export] Instance keeps_PolicyPeer : Keeps NetworkPolicyPeer := λ x y,
  keeps (NPPeer_PodSelector x) (NPPeer_PodSelector y)
  ∧ keeps (NPPeer_NamespaceSelector x) (NPPeer_NamespaceSelector y).

#[export] Instance keeps_IngressRule : Keeps NetworkPolicyIngressRule := λ x y,
  keeps (Ingress_Ports x) (Ingress_Ports y) ∧ keeps (Ingress_From x) (Ingress_From y).

#[export] Instance keeps_EgressRule : Keeps NetworkPolicyEgressRule := λ x y,
  keeps (Egress_Ports x) (Egress_Ports y) ∧ keeps (Egress_To x) (Egress_To y).

#[export] Instance keeps_NetworkPolicySpec : Keeps NetworkPolicySpec := λ x y,
  keeps (NP_PodSelector x) (NP_PodSelector y) ∧ keeps (NP_Ingress x) (NP_Ingress y)
  ∧ keeps (NP_Egress x) (NP_Egress y)
  ∧ (NP_PolicyTypes x = [] ∨ keeps (NP_PolicyTypes x) (NP_PolicyTypes y)).

#[export] Instance keeps_CSIDriverSpec : Keeps CSIDriverSpec := λ x y,
  keeps (CSID_AttachRequired x) (CSID_AttachRequired y)
  ∧ keeps (CSID_PodInfoOnMount x) (CSID_PodInfoOnMount y)
  ∧ keeps (CSID_FSGroupPolicy x) (CSID_FSGroupPolicy y)
  ∧ keeps (CSID_SELinuxMount x) (CSID_SELinuxMount y)
  ∧ keeps (CSID_other x) (CSID_other y).

#[export] Instance keeps_ServicePort : Keeps ServicePort := λ x y,
  keeps (SP_Name x) (SP_Name y) ∧ keeps (SP_Protocol x) (SP_Protocol y)
  ∧ keeps (SP_Port x) (SP_Port y) ∧ keeps (SP_TargetPort x) (SP_TargetPort y).

#[export] Instance keeps_ServiceSpec : Keeps ServiceSpec := λ x y,
  keeps (Service_Ports x) (Service_Ports y) ∧ keeps (Service_Selector x) (Service_Selector y).

End structs.

(** ** A spec is kept by a server that changes nothing *)

Class KeepsRefl (A : Type) `{K : Keeps A} := keeps_refl : Reflexive (keeps (A := A)).

#[export] Instance refl_string : KeepsRefl string.
Proof. intros x. by right. Qed.
#[export] Instance refl_Z : KeepsRefl Z.
Proof. intros x. by right. Qed.
#[export] Instance refl_bool : KeepsRefl bool.
Proof. intros x. reflexivity. Qed.
#[export] Instance refl_labels : KeepsRefl (gmap string string).
Proof. intros x. reflexivity. Qed.
#[export] Instance refl_LabelSelector : KeepsRefl LabelSelector.
Proof. intros x. reflexivity. Qed.
#[export] Instance refl_IntOrString : KeepsRefl IntOrString.
Proof. intros x. by right. Qed.
#[export] Instance refl_strings : KeepsRefl (list string).
Proof. intros x. reflexivity. Qed.

Lemma keeps_ptr_refl {A} (R : A → A → Prop) : Reflexive R → Reflexive (keeps_ptr R).
Proof. intros HR [a|]; simpl; [|done]. by exists a. Qed.

#[export] Instance refl_ptr_string : KeepsRefl (option string).
Proof. exact (keeps_ptr_refl eq _). Qed.
#[export] Instance refl_ptr_Z : KeepsRefl (option Z).
Proof. exact (keeps_ptr_refl eq _). Qed.
#[export] Instance refl_ptr_bool : KeepsRefl (option bool).
Proof. exact (keeps_ptr_refl eq _). Qed.
#[export] Instance refl_ptr_IntOrString : KeepsRefl (option IntOrString).
Proof. exact (keeps_ptr_refl eq _). Qed.
#[export] Instance refl_ptr_struct {A} `{KeepsRefl A} : KeepsRefl (option A) | 10.
Proof. exact (keeps_ptr_refl keeps keeps_refl). Qed.
#[export] Instance refl_list {A} `{R : KeepsRefl A} : KeepsRefl (list A) | 10.
Proof. intros l. induction l; constructor; [apply R|done]. Qed.

Lemma keeps_or_empty_refl {A} `{KeepsRefl A} (empty : A) : Reflexive (keeps_or_empty empty).
Proof. intros [a|]; simpl; [|done]. right. exists a. split; [done|]. apply keeps_refl. Qed.

(** A struct is kept when its fields are. *)
Ltac keeps_fields :=
  intros x; hnf; repeat apply conj;
  first [apply keeps_refl|apply keeps_or_empty_refl|right; apply keeps_refl|by right].

Section structs_refl.
Context {lib : ApiLib}.

#[export] Instance refl_Quantity : KeepsRefl Quantity := Quantity_kept_refl.
#[export] Instance refl_ResourceRequirements : KeepsRefl ResourceRequirements :=
  ResourceRequirements_kept_refl.
#[export] Instance refl_Toleration : KeepsRefl Toleration := Toleration_kept_refl.
#[export] Instance refl_NodeAffinity : KeepsRefl NodeAffinity := NodeAffinity_kept_refl.
#[export] Instance refl_PodAffinity : KeepsRefl PodAffinity := PodAffinity_kept_refl.
#[export] Instance refl_WeightedTerm : KeepsRefl WeightedPodAffinityTerm :=
  WeightedPodAffinityTerm_kept_refl.
#[export] Instance refl_OtherVolumeSource : KeepsRefl OtherVolumeSource := OtherVolumeSource_kept_refl.
#[export] Instance refl_OtherVolumeProjection : KeepsRefl OtherVolumeProjection :=
  OtherVolumeProjection_kept_refl.
#[export] Instance refl_OtherCSIDriverSpec : KeepsRefl OtherCSIDriverSpec :=
  OtherCSIDriverSpec_kept_refl.

#[export] Instance refl_EmptyDir : KeepsRefl EmptyDirVolumeSource.
Proof. keeps_fields. Qed.
#[export] Instance refl_HostPath : KeepsRefl HostPathVolumeSource.
Proof. keeps_fields. Qed.
#[export] Instance refl_KeyToPath : KeepsRefl KeyToPath.
Proof. keeps_fields. Qed.
#[export] Instance refl_ConfigMapSource : KeepsRefl ConfigMapVolumeSource.
Proof. keeps_fields. Qed.
#[export] Instance refl_ServiceAccountToken : KeepsRefl ServiceAccountTokenProjection.
Proof. keeps_fields. Qed.
#[export] Instance refl_VolumeProjection : KeepsRefl VolumeProjection.
Proof. keeps_fields. Qed.
#[export] Instance refl_ProjectedSource : KeepsRefl ProjectedVolumeSource.
Proof. keeps_fields. Qed.
#[export] Instance refl_VolumeSource : KeepsRefl VolumeSource.
Proof. keeps_fields. Qed.
#[export] Instance refl_Volume : KeepsRefl Volume.
Proof. keeps_fields. Qed.
#[export] Instance refl_VolumeMount : KeepsRefl VolumeMount.
Proof. keeps_fields. Qed.
#[export] Instance refl_EnvVar : KeepsRefl EnvVar.
Proof. keeps_fields. Qed.
#[export] Instance refl_ContainerPort : KeepsRefl ContainerPort.
Proof. keeps_fields. Qed.
#[export] Instance refl_Capabilities : KeepsRefl Capabilities.
Proof. keeps_fields. Qed.
#[export] Instance refl_SecurityContext : KeepsRefl SecurityContext.
Proof. keeps_fields. Qed.
#[export] Instance refl_Container : KeepsRefl Container.
Proof. keeps_fields. Qed.
#[export] Instance refl_PodAffinityTerm : KeepsRefl PodAffinityTerm.
Proof. keeps_fields. Qed.
#[export] Instance refl_PodAntiAffinity : KeepsRefl PodAntiAffinity.
Proof. keeps_fields. Qed.
#[export] Instance refl_Affinity : KeepsRefl Affinity.
Proof. keeps_fields. Qed.
#[export] Instance refl_PodSpec : KeepsRefl PodSpec.
Proof. keeps_fields. Qed.
#[export] Instance refl_PodTemplateSpec : KeepsRefl PodTemplateSpec.
Proof. keeps_fields. Qed.
#[export] Instance refl_RollingUpdate : KeepsRefl RollingUpdate.
Proof. keeps_fields. Qed.
#[export] Instance refl_UpdateStrategy : KeepsRefl DaemonSetUpdateStrategy.
Proof. keeps_fields. Qed.
#[export] Instance refl_DeploymentStrategy : KeepsRefl DeploymentStrategy.
Proof. keeps_fields. Qed.
#[export] Instance refl_DeploymentSpec : KeepsRefl DeploymentSpec.
Proof. keeps_fields. Qed.
#[export] Instance refl_DaemonSetSpec : KeepsRefl DaemonSetSpec.
Proof. keeps_fields. Qed.
#[export] Instance refl_PolicyPort : KeepsRefl NetworkPolicyPort.
Proof. keeps_fields. Qed.
#[export] Instance refl_PolicyPeer : KeepsRefl NetworkPolicyPeer.
Proof. keeps_fields. Qed.
#[export] Instance refl_IngressRule : KeepsRefl NetworkPolicyIngressRule.
Proof. keeps_fields. Qed.
#[export] Instance refl_EgressRule : KeepsRefl NetworkPolicyEgressRule.
Proof. keeps_fields. Qed.
#[export] Instance refl_NetworkPolicySpec : KeepsRefl NetworkPolicySpec.
Proof. keeps_fields. Qed.
#[export] Instance refl_CSIDriverSpec : KeepsRefl CSIDriverSpec.
Proof. keeps_fields. Qed.
#[export] Instance refl_ServicePort : KeepsRefl ServicePort.
Proof. keeps_fields. Qed.
#[export] Instance refl_ServiceSpec : KeepsRefl ServiceSpec.
Proof. keeps_fields. Qed.

End structs_refl.

(** ** Comparing specs, at the library to evaluate at *)
Section plain.
#[local] Existing Instance plain_lib.

#[export] Instance plain_Quantity_dec : EqDecision (@Quantity plain_lib) := Z.eq_dec.
#[export] Instance plain_ResourceRequirements_dec : EqDecision (@ResourceRequirements plain_lib) := String.string_dec.
#[export] Instance plain_Toleration_dec : EqDecision (@Toleration plain_lib) := String.string_dec.
#[export] Instance plain_NodeAffinity_dec : EqDecision (@NodeAffinity plain_lib) := String.string_dec.
#[export] Instance plain_PodAffinity_dec : EqDecision (@PodAffinity plain_lib) := String.string_dec.
#[export] Instance plain_WeightedPodAffinityTerm_dec : EqDecision (@WeightedPodAffinityTerm plain_lib) := String.string_dec.
#[export] Instance plain_OtherVolumeSource_dec : EqDecision (@OtherVolumeSource plain_lib) := String.string_dec.
#[export] Instance plain_OtherVolumeProjection_dec : EqDecision (@OtherVolumeProjection plain_lib) := String.string_dec.
#[export] Instance plain_OtherCSIDriverSpec_dec : EqDecision (@OtherCSIDriverSpec plain_lib) := String.string_dec.
#[export] Instance LabelSelectorRequirement_eq_dec : EqDecision LabelSelectorRequirement.
Proof. solve_decision. Defined.
#[export] Instance LabelSelector_eq_dec : EqDecision LabelSelector.
Proof. solve_decision. Defined.
#[export] Instance IntOrString_eq_dec : EqDecision IntOrString.
Proof. solve_decision. Defined.
#[export] Instance EmptyDirVolumeSource_eq_dec : EqDecision EmptyDirVolumeSource.
Proof. solve_decision. Defined.
#[export] Instance HostPathVolumeSource_eq_dec : EqDecision HostPathVolumeSource.
Proof. solve_decision. Defined.
#[export] Instance KeyToPath_eq_dec : EqDecision KeyToPath.
Proof. solve_decision. Defined.
#[export] Instance ConfigMapVolumeSource_eq_dec : EqDecision ConfigMapVolumeSource.
Proof. solve_decision. Defined.
#[export] Instance ServiceAccountTokenProjection_eq_dec : EqDecision ServiceAccountTokenProjection.
Proof. solve_decision. Defined.
#[export] Instance VolumeProjection_eq_dec : EqDecision VolumeProjection.
Proof. solve_decision. Defined.
#[export] Instance ProjectedVolumeSource_eq_dec : EqDecision ProjectedVolumeSource.
Proof. solve_decision. Defined.
#[export] Instance VolumeSource_eq_dec : EqDecision VolumeSource.
Proof. solve_decision. Defined.
#[export] Instance Volume_eq_dec : EqDecision Volume.
Proof. solve_decision. Defined.
#[export] Instance VolumeMount_eq_dec : EqDecision VolumeMount.
Proof. solve_decision. Defined.
#[export] Instance EnvVar_eq_dec : EqDecision EnvVar.
Proof. solve_decision. Defined.
#[export] Instance ContainerPort_eq_dec : EqDecision ContainerPort.
Proof. solve_decision. Defined.
#[export] Instance Capabilities_eq_dec : EqDecision Capabilities.
Proof. solve_decision. Defined.
#[export] Instance SecurityContext_eq_dec : EqDecision SecurityContext.
Proof. solve_decision. Defined.
#[export] Instance Container_eq_dec : EqDecision Container.
Proof. solve_decision. Defined.
#[export] Instance PodAffinityTerm_eq_dec : EqDecision PodAffinityTerm.
Proof. solve_decision. Defined.
#[export] Instance PodAntiAffinity_eq_dec : EqDecision PodAntiAffinity.
Proof. solve_decision. Defined.
#[export] Instance Affinity_eq_dec : EqDecision Affinity.
Proof. solve_decision. Defined.
#[export] Instance PodSpec_eq_dec : EqDecision PodSpec.
Proof. solve_decision. Defined.
#[export] Instance PodTemplateSpec_eq_dec : EqDecision PodTemplateSpec.
Proof. solve_decision. Defined.
#[export] Instance RollingUpdate_eq_dec : EqDecision RollingUpdate.
Proof. solve_decision. Defined.
#[export] Instance DaemonSetUpdateStrategy_eq_dec : EqDecision DaemonSetUpdateStrategy.
Proof. solve_decision. Defined.
#[export] Instance DeploymentStrategy_eq_dec : EqDecision DeploymentStrategy.
Proof. solve_decision. Defined.
#[export] Instance DeploymentSpec_eq_dec : EqDecision DeploymentSpec.
Proof. solve_decision. Defined.
#[export] Instance DaemonSetSpec_eq_dec : EqDecision DaemonSetSpec.
Proof. solve_decision. Defined.
#[export] Instance NetworkPolicyPort_eq_dec : EqDecision NetworkPolicyPort.
Proof. solve_decision. Defined.
#[export] Instance NetworkPolicyPeer_eq_dec : EqDecision NetworkPolicyPeer.
Proof. solve_decision. Defined.
#[export] Instance NetworkPolicyIngressRule_eq_dec : EqDecision NetworkPolicyIngressRule.
Proof. solve_decision. Defined.
#[export] Instance NetworkPolicyEgressRule_eq_dec : EqDecision NetworkPolicyEgressRule.
Proof. solve_decision. Defined.
#[export] Instance NetworkPolicySpec_eq_dec : EqDecision NetworkPolicySpec.
Proof. solve_decision. Defined.
#[export] Instance CSIDriverSpec_eq_dec : EqDecision CSIDriverSpec.
Proof. solve_decision. Defined.
#[export] Instance ServicePort_eq_dec : EqDecision ServicePort.
Proof. solve_decision. Defined.
#[export] Instance ServiceSpec_eq_dec : EqDecision ServiceSpec.
Proof. solve_decision. Defined.

End plain.
