(* ===== verification/ApiTypes.v ===== *)
(** * The custom resources (api/v1)

    The specs and statuses of the six custom resource kinds, with the fields
    of the Go structs.  A pointer, map or slice field is an [option] exactly
    where the code compares it with [nil]. *)
From S2P Require Import Prelude K8s.

(** ** Constants (api/v1/driver_types.go and the phase constants) *)
Definition HourlyPeriod : string := "hourly".
Definition DailyPeriod : string := "daily".
Definition WeeklyPeriod : string := "weekly".
Definition MonthlyPeriod : string := "monthly".

Definition NoneSnapshotPolicy : string := "none".
Definition VolumeGroupSnapshotPolicy : string := "volumeGroupSnapshot".
Definition VolumeSnapshotSnapshotPolicy : string := "volumeSnapshot".

Definition AutoDetectCephFsClient : string := "autodetect".
Definition KernelCephFsClient : string := "kernel".

Definition ClientProfilePhaseReady : string := "Ready".
Definition ClientProfilePhaseFailed : string := "Failed".
Definition ClientProfilePhasePending : string := "Pending".

Definition ClientProfileReplicationPhaseReady : string := "Ready".
Definition ClientProfileReplicationPhaseRejected : string := "Rejected".
Definition ClientProfileReplicationPhasePending : string := "Pending".

(** ** Driver (api/v1/driver_types.go) *)
Section driver.
Context {lib : ApiLib}.

Record LogRotationSpec := {
  MaxFiles : Z;
  MaxLogSize : Quantity;
  Periodicity : string;
  LogHostPath : string;
}.

Record LogSpec := {
  Verbosity : Z;
  Rotation : option LogRotationSpec;
}.

(** [EncryptionSpec.ConfigMapRef.Name] *)
Record EncryptionSpec := { ConfigMapRef : string }.

Record VolumeSpec := {
  VolumeSpec_Volume : Volume;
  VolumeSpec_Mount : VolumeMount;
}.

Record PodCommonSpec := {
  ServiceAccountName : option string;
  PrioritylClassName : option string;
  Labels : option (gmap string string);
  Annotations : option (gmap string string);
  PodAffinitySpec : option Affinity;
  Tolerations : option (list Toleration);
  Volumes : option (list VolumeSpec);
  ImagePullPolicy : string;
}.

Record NodePluginResourcesSpec := {
  NR_Registrar : option ResourceRequirements;
  NR_Liveness : option ResourceRequirements;
  NR_Addons : option ResourceRequirements;
  NR_LogRotator : option ResourceRequirements;
  NR_Plugin : option ResourceRequirements;
}.

Record TopologySpec := { DomainLabels : list string }.

Record NodePluginSpec := {
  Node_Common : PodCommonSpec;
  UpdateStrategy : option DaemonSetUpdateStrategy;
  Node_Resources : NodePluginResourcesSpec;
  KubeletDirPath : string;
  EnableSeLinuxHostMount : option bool;
  Topology : option TopologySpec;
  Node_ContainerExtraArgs : option (gmap string (list string));
}.

Record ControllerPluginResourcesSpec := {
  CR_Attacher : option ResourceRequirements;
  CR_Snapshotter : option ResourceRequirements;
  CR_Resizer : option ResourceRequirements;
  CR_Provisioner : option ResourceRequirements;
  CR_OMapGenerator : option ResourceRequirements;
  CR_Liveness : option ResourceRequirements;
  CR_Addons : option ResourceRequirements;
  CR_LogRotator : option ResourceRequirements;
  CR_Plugin : option ResourceRequirements;
}.

Record ControllerPluginSpec := {
  HostNetwork : option bool;
  Ctrl_Common : PodCommonSpec;
  CtrlDeploymentStrategy : option DeploymentStrategy;
  Replicas : option Z;
  Ctrl_Resources : ControllerPluginResourcesSpec;
  Privileged : option bool;
  Ctrl_ContainerExtraArgs : option (gmap string (list string));
}.

Record LivenessSpec := { MetricsPort : Z }.

Record LeaderElectionSpec := {
  LeaseDuration : Z;
  RenewDeadline : Z;
  RetryPeriod : Z;
}.

Record DriverSpec := {
  Log : option LogSpec;
  ImageSet : option string; (* the Name of the LocalObjectReference *)
  ClusterName : option string;
  EnableMetadata : option bool;
  EnableFencing : option bool;
  GRpcTimeout : Z;
  SnapshotPolicy : string;
  GenerateOMapInfo : option bool;
  FsGroupPolicy : string;
  Encryption : option EncryptionSpec;
  NodePlugin : option NodePluginSpec;
  ControllerPlugin : option ControllerPluginSpec;
  AttachRequired : option bool;
  Liveness : option LivenessSpec;
  LeaderElection : option LeaderElectionSpec;
  DeployCsiAddons : option bool;
  CephFsClientType : string;
  KernelMountOptions : option (gmap string string);
  FuseMountOptions : option (gmap string string);
}.

(** [OperatorConfigSpec] (api/v1/operatorconfig_types.go); its [Log] is read
    by no code of the operator. *)
Record OperatorConfigSpec := {
  OperatorLogVerbosity : option Z;
  DriverSpecDefaults : option DriverSpec;
}.

(** The zero values [&csiv1.NodePluginSpec{}], [&csiv1.ControllerPluginSpec{}],
    [csiv1.LogSpec{}] and [csiv1.DriverSpec{}]. *)
Definition zero_PodCommonSpec : PodCommonSpec := {|
  ServiceAccountName := None; PrioritylClassName := None; Labels := None;
  Annotations := None; PodAffinitySpec := None; Tolerations := None;
  Volumes := None; ImagePullPolicy := "" |}.

Definition zero_NodePluginSpec : NodePluginSpec := {|
  Node_Common := zero_PodCommonSpec; UpdateStrategy := None;
  Node_Resources := {| NR_Registrar := None; NR_Liveness := None; NR_Addons := None;
                       NR_LogRotator := None; NR_Plugin := None |};
  KubeletDirPath := ""; EnableSeLinuxHostMount := None; Topology := None;
  Node_ContainerExtraArgs := None |}.

Definition zero_ControllerPluginSpec : ControllerPluginSpec := {|
  HostNetwork := None; Ctrl_Common := zero_PodCommonSpec; CtrlDeploymentStrategy := None;
  Replicas := None;
  Ctrl_Resources := {| CR_Attacher := None; CR_Snapshotter := None; CR_Resizer := None;
                       CR_Provisioner := None; CR_OMapGenerator := None; CR_Liveness := None;
                       CR_Addons := None; CR_LogRotator := None; CR_Plugin := None |};
  Privileged := None; Ctrl_ContainerExtraArgs := None |}.

Definition zero_LogSpec : LogSpec := {| Verbosity := 0; Rotation := None |}.

Definition zero_DriverSpec : DriverSpec := {|
  Log := None; ImageSet := None; ClusterName := None; EnableMetadata := None;
  EnableFencing := None; GRpcTimeout := 0; SnapshotPolicy := ""; GenerateOMapInfo := None;
  FsGroupPolicy := ""; Encryption := None; NodePlugin := None; ControllerPlugin := None;
  AttachRequired := None; Liveness := None; LeaderElection := None; DeployCsiAddons := None;
  CephFsClientType := ""; KernelMountOptions := None; FuseMountOptions := None |}.

End driver.

(** ** CephConnection (api/v1/cephconnection_types.go) *)
Record ReadAffinitySpec := { CrushLocationLabels : list string }.

Record CephConnectionSpec := {
  Monitors : list string;
  ReadAffinity : option ReadAffinitySpec;
  RbdMirrorDaemonCount : Z;
}.

(** ** ClientProfile (api/v1/clientprofile_types.go) *)

(** [corev1.SecretReference] *)
Record SecretReference := { Secret_Name : string; Secret_Namespace : string }.

Record CephCsiSecretsSpec := {
  ControllerPublishSecret : SecretReference;
  NodePublishSecret : SecretReference;
}.

Record CephFsConfigSpec := {
  CephFs_SubVolumeGroup : string;
  CephFs_KernelMountOptions : option (gmap string string);
  CephFs_FuseMountOptions : option (gmap string string);
  CephFs_RadosNamespace : option string;
  CephFs_CephCsiSecrets : option CephCsiSecretsSpec;
}.

Record RbdConfigSpec := {
  Rbd_RadosNamespace : string;
  Rbd_CephCsiSecrets : option CephCsiSecretsSpec;
}.

Record NvmeofConfigSpec := {
  Nvmeof_RadosNamespace : string;
  Nvmeof_CephCsiSecrets : option CephCsiSecretsSpec;
}.

Record ClientProfileSpec := {
  CephConnectionRef : string; (* the Name of the LocalObjectReference *)
  CephFs : option CephFsConfigSpec;
  Rbd : option RbdConfigSpec;
  Nfs : option unit; (* NfsConfigSpec has no field *)
  Nvmeof : option NvmeofConfigSpec;
}.

Record ClientProfileStatus := {
  ClientProfile_Phase : string;
  ClientProfile_Message : string;
}.

(** ** ClientProfileReplication (api/v1/clientprofilereplication_types.go) *)
Record PoolMappingSpec := { Pool_Name : string; Pool_RemoteID : string }.

Record RBDReplicationSpec := { PoolMapping : list PoolMappingSpec }.

Record ClientProfileReplicationSpec := {
  CPR_LocalClientProfile : string;
  CPR_RemoteClientProfile : string;
  CPR_RBD : option RBDReplicationSpec;
}.

Record ClientProfileReplicationStatus := {
  CPR_Phase : string;
  CPR_Message : string;
}.

(** ** ClientProfileMapping (api/v1/clientprofilemapping_types.go) *)

(** [BlockPoolIdPair] is a slice of strings; only the CRD schema bounds its
    length, so the code's [pair[0]] and [pair[1]] can go out of range. *)
Definition BlockPoolIdPair := list string.

Record MappingsSpec := {
  Mapping_LocalClientProfile : string;
  Mapping_RemoteClientProfile : string;
  BlockPoolIdMapping : list BlockPoolIdPair;
}.

Record ClientProfileMappingSpec := { Mappings : list MappingsSpec }.
