(* ===== verification/Cluster.v ===== *)
(** * The cluster: objects, the client, owner references, CreateOrUpdate

    The calls a reconciler makes ([call]) are the operations of
    controller-runtime's [client.Client] on the thirteen kinds the operator
    touches, the iteration order of a Go map, and the operations of a mutex.
    The second half models internal/utils/meta.go and the parts of
    controller-runtime's [controllerutil] (vendored under src/vendor) the
    reconcilers are built on. *)
From S2P Require Import Prelude Prog K8s Defaulting ApiTypes.

(** ** Errors *)

(** The [metav1.StatusReason]s the operator distinguishes. *)
Inductive StatusReason := NotFound | AlreadyExists | Conflict | Invalid | OtherReason.
#[export] Instance StatusReason_eq_dec : EqDecision StatusReason.
Proof. solve_decision. Defined.

(** An API status error, or an error the operator or a library formats. *)
Inductive error :=
| StatusError (reason : StatusReason) (msg : string)
| Errorf (msg : string).
#[export] Instance error_eq_dec : EqDecision error.
Proof. solve_decision. Defined.

(** [err.Error()] *)
Definition Error (e : error) : string :=
  match e with StatusError _ m => m | Errorf m => m end.

Definition IsNotFound (e : error) : bool :=
  match e with StatusError NotFound _ => true | _ => false end.

Definition IsInvalid (e : error) : bool :=
  match e with StatusError Invalid _ => true | _ => false end.

(** [client.IgnoreNotFound], on an error that may be nil. *)
Definition IgnoreNotFound (e : option error) : option error :=
  match e with
  | Some e => if IsNotFound e then None else Some e
  | None => None
  end.

(** [errors.Join] *)
Definition errors_Join (errs : list (option error)) : option error :=
  match omap id errs with
  | [] => None
  | es => Some (Errorf (strings_Join (Error <$> es) nl))
  end.

(** ** Kinds and objects *)

Inductive kind :=
| KConfigMap | KCSIDriver | KDeployment | KDaemonSet | KService | KNetworkPolicy | KNode
| KDriver | KOperatorConfig | KCephConnection
| KClientProfile | KClientProfileMapping | KClientProfileReplication.
#[export] Instance kind_eq_dec : EqDecision kind.
Proof. solve_decision. Defined.

(** The group, version and kind registered for a Go type: [addKnownTypes] of
    api/v1/groupversion_info.go for the custom resources. *)
Definition GroupVersion_Group : string := "csi.ceph.io".
Definition GroupVersion_Version : string := "v1".

Definition APIVersion_of (k : kind) : string :=
  match k with
  | KConfigMap | KService | KNode => "v1"
  | KCSIDriver => "storage.k8s.io/v1"
  | KDeployment | KDaemonSet => "apps/v1"
  | KNetworkPolicy => "networking.k8s.io/v1"
  | _ => (GroupVersion_Group ++ "/" ++ GroupVersion_Version)%string
  end.

Definition Kind_of (k : kind) : string :=
  match k with
  | KConfigMap => "ConfigMap"
  | KCSIDriver => "CSIDriver"
  | KDeployment => "Deployment"
  | KDaemonSet => "DaemonSet"
  | KService => "Service"
  | KNetworkPolicy => "NetworkPolicy"
  | KNode => "Node"
  | KDriver => "Driver"
  | KOperatorConfig => "OperatorConfig"
  | KCephConnection => "CephConnection"
  | KClientProfile => "ClientProfile"
  | KClientProfileMapping => "ClientProfileMapping"
  | KClientProfileReplication => "ClientProfileReplication"
  end.

Record ConfigMap := { CM_Meta : ObjectMeta; CM_Data : gmap string string }.
(** [csiConfigMap.Data[key] = value], with the metadata [m]. *)
Definition set_cm_data (key value : string) (m : ObjectMeta) (cm : ConfigMap) : ConfigMap :=
  {| CM_Meta := m; CM_Data := <[key := value]> (CM_Data cm) |}.
Record Node := { Node_Meta : ObjectMeta }.
Record CephConnection := { Conn_Meta : ObjectMeta; Conn_Spec : CephConnectionSpec }.
Record ClientProfile := {
  Profile_Meta : ObjectMeta;
  Profile_Spec : ClientProfileSpec;
  Profile_Status : ClientProfileStatus;
}.
Record ClientProfileMapping := {
  Mapping_Meta : ObjectMeta;
  Mapping_Spec : ClientProfileMappingSpec;
}.
Record ClientProfileReplication := {
  Repl_Meta : ObjectMeta;
  Repl_Spec : ClientProfileReplicationSpec;
  Repl_Status : ClientProfileReplicationStatus;
}.

Section objects.
Context {lib : ApiLib}.

Record CSIDriver := { CSID_Meta : ObjectMeta; CSID_Spec : CSIDriverSpec }.
Record Deployment := { Dep_Meta : ObjectMeta; Dep_Spec : DeploymentSpec }.
Record DaemonSet := { DSet_Meta : ObjectMeta; DSet_Spec : DaemonSetSpec }.
Record Service := { Svc_Meta : ObjectMeta; Svc_Spec : ServiceSpec }.
Record NetworkPolicy := { NetPol_Meta : ObjectMeta; NetPol_Spec : NetworkPolicySpec }.
Record Driver := { Driver_Meta : ObjectMeta; Driver_Spec : DriverSpec }.
Record OperatorConfig := { OpConf_Meta : ObjectMeta; OpConf_Spec : OperatorConfigSpec }.

Definition obj (k : kind) : Type :=
  match k with
  | KConfigMap => ConfigMap
  | KCSIDriver => CSIDriver
  | KDeployment => Deployment
  | KDaemonSet => DaemonSet
  | KService => Service
  | KNetworkPolicy => NetworkPolicy
  | KNode => Node
  | KDriver => Driver
  | KOperatorConfig => OperatorConfig
  | KCephConnection => CephConnection
  | KClientProfile => ClientProfile
  | KClientProfileMapping => ClientProfileMapping
  | KClientProfileReplication => ClientProfileReplication
  end.

Definition meta_of (k : kind) : obj k → ObjectMeta :=
  match k with
  | KConfigMap => CM_Meta
  | KCSIDriver => CSID_Meta
  | KDeployment => Dep_Meta
  | KDaemonSet => DSet_Meta
  | KService => Svc_Meta
  | KNetworkPolicy => NetPol_Meta
  | KNode => Node_Meta
  | KDriver => Driver_Meta
  | KOperatorConfig => OpConf_Meta
  | KCephConnection => Conn_Meta
  | KClientProfile => Profile_Meta
  | KClientProfileMapping => Mapping_Meta
  | KClientProfileReplication => Repl_Meta
  end.

(** [client.ObjectKeyFromObject] *)
Definition ObjectKeyFromObject (k : kind) (o : obj k) : NamespacedName := meta_key (meta_of k o).

(** ** Calls *)

(** [client.InNamespace] and [client.MatchingFields]. *)
Record ListOptions := {
  InNamespace : option string;
  MatchingFields : option (string * string);
}.

Inductive call : Type → Type :=
| Get (k : kind) (key : NamespacedName) : call (error + obj k)
| ListObjs (k : kind) (opts : ListOptions) : call (error + list (obj k))
| Create (k : kind) (o : obj k) : call (error + obj k)
| Update (k : kind) (o : obj k) : call (error + obj k)
| StatusUpdate (k : kind) (o : obj k) : call (error + obj k)
| Delete (k : kind) (key : NamespacedName) : call (option error)
(** the order in which [range] visits the entries of a Go map *)
| RangeMap (m : gmap string string) : call (list (string * string))
| MutexLock : call unit
| MutexUnlock : call unit.

(** What the API server keeps of the spec of a submitted [o] in the object [o']
    it stores, for the kinds whose spec the operator writes. *)
Definition spec_kept (k : kind) : obj k → obj k → Prop :=
  match k with
  | KCSIDriver => λ o o', keeps (CSID_Spec o) (CSID_Spec o')
  | KDeployment => λ o o', keeps (Dep_Spec o) (Dep_Spec o')
  | KDaemonSet => λ o o', keeps (DSet_Spec o) (DSet_Spec o')
  | KService => λ o o', keeps (Svc_Spec o) (Svc_Spec o')
  | KNetworkPolicy => λ o o', keeps (NetPol_Spec o) (NetPol_Spec o')
  | KConfigMap => λ o o', CM_Data o = CM_Data o'
  | _ => λ _ _, True
  end.

(** [equality.Semantic.DeepEqual] on two objects of a kind: it tells objects
    apart whose metadata differ, or whose specs the server would not store for
    each other. *)
Class SemanticEquality := {
  DeepEqual : ∀ k, obj k → obj k → bool;
  DeepEqual_refl : ∀ k (o : obj k), DeepEqual k o o = true;
  DeepEqual_meta : ∀ k (o o' : obj k), DeepEqual k o o' = true → meta_of k o = meta_of k o';
  DeepEqual_kept : ∀ k (o o' : obj k), DeepEqual k o o' = true → spec_kept k o' o;
  DeepEqual_configmap : ∀ o o' : obj KConfigMap, DeepEqual KConfigMap o o' = true → o = o';
}.

End objects.

Abbreviation M A := (prog call A).

(** ** Owner references (controllerutil.go) *)

Fixpoint count_slash (s : string) : nat :=
  match s with
  | EmptyString => 0
  | String c rest => (if Ascii.eqb c "/"%char then 1 else 0) + count_slash rest
  end.

Fixpoint before_slash (s : string) : string :=
  match s with
  | EmptyString => EmptyString
  | String c rest => if Ascii.eqb c "/"%char then EmptyString else String c (before_slash rest)
  end.

(** The [Group] of [schema.ParseGroupVersion]; [None] is its error. *)
Definition ParseGroup (gv : string) : option string :=
  if String.eqb gv "" || String.eqb gv "/" then Some ""
  else match count_slash gv with
       | 0 => Some ""
       | 1 => Some (before_slash gv)
       | _ => None
       end.

Definition referSameObject (a b : OwnerReference) : bool :=
  match ParseGroup (Ref_APIVersion a), ParseGroup (Ref_APIVersion b) with
  | Some ga, Some gb =>
      String.eqb ga gb && String.eqb (Ref_Kind a) (Ref_Kind b)
        && String.eqb (Ref_Name a) (Ref_Name b)
  | _, _ => false
  end.

Definition indexOwnerRef (refs : list OwnerReference) (ref : OwnerReference) : option nat :=
  IndexFunc (λ r, referSameObject r ref) refs.

Definition upsertOwnerRef (ref : OwnerReference) (m : ObjectMeta) : ObjectMeta :=
  let owners := Meta_OwnerReferences m in
  match indexOwnerRef owners ref with
  | None => SetOwnerReferences (owners ++ [ref]) m
  | Some idx => SetOwnerReferences (<[idx := ref]> owners) m
  end.

Definition validateOwner (owner object : ObjectMeta) : option error :=
  let ownerNs := Meta_Namespace owner in
  let objNs := Meta_Namespace object in
  if negb (String.eqb ownerNs "") then
    if String.eqb objNs "" then
      Some (Errorf ("cluster-scoped resource must not have a namespace-scoped owner, owner's namespace "
                    ++ ownerNs))
    else if negb (String.eqb ownerNs objNs) then
      Some (Errorf ("cross-namespace owner references are disallowed, owner's namespace "
                    ++ ownerNs ++ ", obj's namespace " ++ objNs))
    else None
  else None.

(** [metav1.GetControllerOf]: the first reference that is a controller. *)
Definition GetControllerOf (m : ObjectMeta) : option OwnerReference :=
  let isController r := bool_decide (Ref_Controller r = Some true) in
  match IndexFunc isController (Meta_OwnerReferences m) with
  | Some i => Meta_OwnerReferences m !! i
  | None => None
  end.

Definition newAlreadyOwnedError (object : ObjectMeta) (owner : OwnerReference) : error :=
  Errorf ("Object " ++ Meta_Namespace object ++ "/" ++ Meta_Name object
          ++ " is already owned by another " ++ Ref_Kind owner ++ " controller "
          ++ Ref_Name owner).

(** The reference [SetOwnerReference] writes for an owner of kind [k]. *)
Definition owner_ref (k : kind) (owner : ObjectMeta) : OwnerReference := {|
  Ref_APIVersion := APIVersion_of k; Ref_Kind := Kind_of k;
  Ref_Name := Meta_Name owner; Ref_UID := Meta_UID owner;
  Ref_Controller := None; Ref_BlockOwnerDeletion := None |}.

(** The reference [SetControllerReference] writes. *)
Definition controller_ref (k : kind) (owner : ObjectMeta) : OwnerReference := {|
  Ref_APIVersion := APIVersion_of k; Ref_Kind := Kind_of k;
  Ref_Name := Meta_Name owner; Ref_UID := Meta_UID owner;
  Ref_Controller := Some true; Ref_BlockOwnerDeletion := Some true |}.

(** The object's metadata after the call, or the error, which leaves it as it is. *)
Definition SetControllerReference (k : kind) (owner controlled : ObjectMeta) : error + ObjectMeta :=
  match validateOwner owner controlled with
  | Some err => inl err
  | None =>
      let ref := controller_ref k owner in
      match GetControllerOf controlled with
      | Some existing =>
          if negb (referSameObject existing ref)
          then inl (newAlreadyOwnedError controlled existing)
          else inr (upsertOwnerRef ref controlled)
      | None => inr (upsertOwnerRef ref controlled)
      end
  end.

Definition SetOwnerReference (k : kind) (owner object : ObjectMeta) : error + ObjectMeta :=
  match validateOwner owner object with
  | Some err => inl err
  | None => inr (upsertOwnerRef (owner_ref k owner) object)
  end.

Definition RemoveOwnerReference (k : kind) (owner object : ObjectMeta) : error + ObjectMeta :=
  let owners := Meta_OwnerReferences object in
  if (length owners <? 1)%nat then
    inl (Errorf "object does not have any owner references")
  else
    match indexOwnerRef owners {| Ref_APIVersion := APIVersion_of k; Ref_Kind := Kind_of k;
                                  Ref_Name := Meta_Name owner; Ref_UID := "";
                                  Ref_Controller := None; Ref_BlockOwnerDeletion := None |} with
    | None => inl (Errorf "object does not have an owner reference for owner")
    | Some index =>
        inr (SetOwnerReferences (take index owners ++ drop (S index) owners) object)
    end.

(** ** Finalizers (controllerutil.go) *)

Definition AddFinalizer (m : ObjectMeta) (finalizer : string) : ObjectMeta * bool :=
  let f := Meta_Finalizers m in
  if existsb (String.eqb finalizer) f then (m, false)
  else (SetFinalizers (f ++ [finalizer]) m, true).

Definition RemoveFinalizer (m : ObjectMeta) (finalizer : string) : ObjectMeta * bool :=
  let f := Meta_Finalizers m in
  let kept := List.filter (λ x, negb (String.eqb x finalizer)) f in
  (SetFinalizers kept m, negb (length f =? length kept)%nat).

(** ** internal/utils/meta.go *)

Definition AddAnnotation (m : ObjectMeta) (key value : string) : ObjectMeta * bool :=
  let annotations := Meta_Annotations m in
  match annotations !! key with
  | Some oldValue =>
      if negb (String.eqb oldValue value)
      then (SetAnnotations (<[key := value]> annotations) m, true)
      else (m, false)
  | None => (SetAnnotations (<[key := value]> annotations) m, true)
  end.

Definition IsOwnedBy (o owner : ObjectMeta) : bool :=
  existsb (λ r, String.eqb (Meta_UID owner) (Ref_UID r)) (Meta_OwnerReferences o).

(** The object's metadata after the call, whether it changed, and the error. *)
Definition ToggleOwnerReference (on : bool) (m : ObjectMeta) (k : kind) (owner : ObjectMeta)
    : ObjectMeta * bool * option error :=
  let ownerRefExists := IsOwnedBy m owner in
  if on then
    if negb ownerRefExists then
      match SetOwnerReference k owner m with
      | inl err => (m, false, Some err)
      | inr m' => (m', true, None)
      end
    else (m, false, None)
  else if ownerRefExists then
    match RemoveOwnerReference k owner m with
    | inl err => (m, false, Some err)
    | inr m' => (m', true, None)
    end
  else (m, false, None).

Lemma elem_of_upsertOwnerRef ref m : ref ∈ Meta_OwnerReferences (upsertOwnerRef ref m).
Proof.
  unfold upsertOwnerRef. destruct (indexOwnerRef _ _) as [i|] eqn:Hi; simpl.
  - apply IndexFunc_Some in Hi as (x & Hx & _). apply list_elem_of_lookup. exists i.
    apply list_lookup_insert_eq. by eapply lookup_lt_Some.
  - set_solver.
Qed.

Lemma GetControllerOf_first m i ref :
  Meta_OwnerReferences m !! i = Some ref → Ref_Controller ref = Some true →
  (∀ j y, j < i → Meta_OwnerReferences m !! j = Some y → bool_decide (Ref_Controller y = Some true) = false) →
  GetControllerOf m = Some ref.
Proof.
  intros Hi Hc Hfirst. unfold GetControllerOf.
  by rewrite (IndexFunc_first _ _ i ref Hi) by (by first [apply bool_decide_true|apply Hfirst]).
Qed.

(** A reference put at the position of the first reference to the same
    object, or at the end, is the controller when no controller comes before. *)
Lemma upsert_controls ref m :
  Ref_Controller ref = Some true →
  (∀ j y, Meta_OwnerReferences m !! j = Some y → bool_decide (Ref_Controller y = Some true) = true →
     ∃ i, indexOwnerRef (Meta_OwnerReferences m) ref = Some i ∧ i ≤ j) →
  GetControllerOf (upsertOwnerRef ref m) = Some ref.
Proof.
  intros Hc Hbefore. unfold upsertOwnerRef.
  destruct (indexOwnerRef (Meta_OwnerReferences m) ref) as [i|] eqn:Hi.
  - apply IndexFunc_Some in Hi as (x & Hx & _). apply lookup_lt_Some in Hx.
    apply (GetControllerOf_first _ i); [by apply list_lookup_insert_eq|done|].
    intros j y Hj Hy. simpl in Hy. rewrite list_lookup_insert_ne in Hy by lia.
    apply not_true_iff_false. intros Ht. destruct (Hbefore j y Hy Ht) as (i' & [= <-] & ?). lia.
  - apply (GetControllerOf_first _ (length (Meta_OwnerReferences m)));
      [by simpl; rewrite lookup_app_r, Nat.sub_diag|done|].
    intros j y Hj Hy. simpl in Hy. rewrite lookup_app_l in Hy by done.
    apply not_true_iff_false. intros Ht. by destruct (Hbefore j y Hy Ht) as (i' & ? & _).
Qed.

(** After [SetControllerReference] the owner is the controller. *)
Lemma SetControllerReference_controls k owner m m' :
  SetControllerReference k owner m = inr m' → GetControllerOf m' = Some (controller_ref k owner).
Proof.
  unfold SetControllerReference. destruct (validateOwner owner m); [done|].
  set (ref := controller_ref k owner). unfold GetControllerOf at 1.
  destruct (IndexFunc _ (Meta_OwnerReferences m)) as [c|] eqn:Hc.
  - apply IndexFunc_Some in Hc as (e & He & _ & Hfirst). rewrite He.
    destruct (referSameObject e ref) eqn:Hsame; [|done]. simpl. intros [= <-].
    apply upsert_controls; [done|]. intros j y Hy Ht.
    assert (c ≤ j). { destruct (decide (c ≤ j)); [done|]. rewrite (Hfirst j y) in Ht; [done|lia|done]. }
    destruct (indexOwnerRef (Meta_OwnerReferences m) ref) as [i|] eqn:Hi.
    + exists i. split; [done|]. apply IndexFunc_Some in Hi as (x & _ & _ & Hmin).
      destruct (decide (i ≤ c)); [lia|]. rewrite (Hmin c e) in Hsame; [done|lia|done].
    + unfold indexOwnerRef in Hi. rewrite IndexFunc_None in Hi.
      rewrite Hi in Hsame; [done|]. by eapply list_elem_of_lookup_2.
  - intros [= <-]. rewrite IndexFunc_None in Hc. apply upsert_controls; [done|].
    intros j y Hy Ht. rewrite Hc in Ht; [done|]. by eapply list_elem_of_lookup_2.
Qed.

(** Toggling a reference on makes the owner an owner; it never renames. *)
Lemma ToggleOwnerReference_on m k owner m' c :
  ToggleOwnerReference true m k owner = (m', c, None) → IsOwnedBy m' owner = true.
Proof.
  unfold ToggleOwnerReference. destruct (IsOwnedBy m owner) eqn:Ho; simpl; [by intros [= <- _]|].
  unfold SetOwnerReference. destruct (validateOwner _ _); [done|]. intros [= <- _].
  unfold IsOwnedBy. apply existsb_exists. exists (owner_ref k owner).
  split; [apply list_elem_of_In, elem_of_upsertOwnerRef|]. apply String.eqb_refl.
Qed.

Lemma ToggleOwnerReference_owned m k owner :
  IsOwnedBy m owner = true → ToggleOwnerReference true m k owner = (m, false, None).
Proof. unfold ToggleOwnerReference. by intros ->. Qed.

(** Toggling a reference changes the owner references and nothing else. *)
Lemma ToggleOwnerReference_meta on m k owner :
  ∃ refs, (ToggleOwnerReference on m k owner).1.1 = SetOwnerReferences refs m.
Proof.
  assert (Hm : m = SetOwnerReferences (Meta_OwnerReferences m) m) by (by destruct m).
  unfold ToggleOwnerReference, SetOwnerReference, RemoveOwnerReference, upsertOwnerRef.
  repeat case_match; simplify_eq; simpl; eauto.
Qed.

Lemma ToggleOwnerReference_key on m k owner :
  meta_key (ToggleOwnerReference on m k owner).1.1 = meta_key m.
Proof. by destruct (ToggleOwnerReference_meta on m k owner) as [refs ->]. Qed.

Lemma ToggleOwnerReference_finalizers on m k owner :
  Meta_Finalizers (ToggleOwnerReference on m k owner).1.1 = Meta_Finalizers m.
Proof. by destruct (ToggleOwnerReference_meta on m k owner) as [refs ->]. Qed.

Lemma ToggleOwnerReference_version on m k owner :
  Meta_ResourceVersion (ToggleOwnerReference on m k owner).1.1 = Meta_ResourceVersion m.
Proof. by destruct (ToggleOwnerReference_meta on m k owner) as [refs ->]. Qed.

(** ** CreateOrUpdate (controllerutil.go) *)

Inductive OperationResult := ResultNone | ResultCreated | ResultUpdated.
#[export] Instance OperationResult_eq_dec : EqDecision OperationResult.
Proof. solve_decision. Defined.

Section create_or_update.
Context {lib : ApiLib} `{EQ : !SemanticEquality}.

(** A [MutateFn] closes over the object it mutates: it takes the object and
    returns it, mutated as far as it got, with its error. *)
Definition MutateFn (k : kind) : Type := obj k → M (obj k * option error).

Definition mutate {k} (f : MutateFn k) (key : NamespacedName) (o : obj k)
    : M (obj k * option error) :=
  '(o', err) ← f o;
  match err with
  | Some e => mret (o', Some e)
  | None =>
      if decide (key = ObjectKeyFromObject k o') then mret (o', None)
      else mret (o', Some (Errorf "MutateFn cannot mutate object name and/or object namespace"))
  end.

(** Returns the object as the call leaves it, with the result and the error. *)
Definition CreateOrUpdate {k} (o : obj k) (f : MutateFn k)
    : M (obj k * OperationResult * option error) :=
  let key := ObjectKeyFromObject k o in
  got ← trigger (Get k key);
  match got with
  | inl err =>
      if negb (IsNotFound err) then mret (o, ResultNone, Some err)
      else
        '(o', err) ← mutate f key o;
        match err with
        | Some e => mret (o', ResultNone, Some e)
        | None =>
            created ← trigger (Create k o');
            match created with
            | inl e => mret (o', ResultNone, Some e)
            | inr o'' => mret (o'', ResultCreated, None)
            end
        end
  | inr existing =>
      '(o', err) ← mutate f key existing;
      match err with
      | Some e => mret (o', ResultNone, Some e)
      | None =>
          if DeepEqual k existing o' then mret (o', ResultNone, None)
          else
            updated ← trigger (Update k o');
            match updated with
            | inl e => mret (o', ResultNone, Some e)
            | inr o'' => mret (o'', ResultUpdated, None)
            end
      end
  end.

End create_or_update.
