(* ===== verification/OwnerReferences.v ===== *)
(** * Owner references are well formed

    The API server accepts an object only with at most one controller among
    its owner references, and the garbage collector counts an owner once.
    The operations of Cluster.v that change owner references keep both. *)
From S2P Require Import Prelude Prog K8s ApiTypes Cluster.

(** What two references to the same object agree on. *)
Definition ref_key (r : OwnerReference) : option (string * string * string) :=
  (λ g, (g, Ref_Kind r, Ref_Name r)) <$> ParseGroup (Ref_APIVersion r).

Lemma referSameObject_spec a b :
  referSameObject a b = true ↔ ∃ key, ref_key a = Some key ∧ ref_key b = Some key.
Proof.
  unfold referSameObject, ref_key.
  destruct (ParseGroup (Ref_APIVersion a)) as [ga|], (ParseGroup (Ref_APIVersion b)) as [gb|]; simpl;
    [|split; [done|]; by intros (key & ? & ?)..].
  rewrite !andb_true_iff, !String.eqb_eq. split.
  - intros [[-> ->] ->]. by eexists.
  - intros (key & Ha & Hb). by simplify_eq.
Qed.

Lemma referSameObject_via a b c :
  referSameObject a c = true → referSameObject b c = true → referSameObject a b = true.
Proof. rewrite !referSameObject_spec. intros (key & ? & ?) (key' & ? & ?). exists key. split; congruence. Qed.

Lemma referSameObject_sym a b : referSameObject a b = referSameObject b a.
Proof.
  apply eq_true_iff_eq. rewrite !referSameObject_spec. by split; intros (key & ? & ?); exists key.
Qed.

Definition is_controller (r : OwnerReference) : Prop := Ref_Controller r = Some true.

(** No object is referred to twice, and at most one reference is a
    controller. *)
Record refs_ok (m : ObjectMeta) : Prop := {
  refs_distinct i j a b :
    Meta_OwnerReferences m !! i = Some a → Meta_OwnerReferences m !! j = Some b →
    referSameObject a b = true → i = j;
  refs_one_controller i j a b :
    Meta_OwnerReferences m !! i = Some a → Meta_OwnerReferences m !! j = Some b →
    is_controller a → is_controller b → i = j;
}.

Lemma GetControllerOf_None m r :
  GetControllerOf m = None → r ∈ Meta_OwnerReferences m → ¬ is_controller r.
Proof.
  unfold GetControllerOf. intros H Hin Hc.
  destruct (IndexFunc _ _) as [i|] eqn:Hi.
  - apply IndexFunc_Some in Hi as (x & Hx & _). congruence.
  - rewrite IndexFunc_None in Hi. specialize (Hi r Hin). by rewrite bool_decide_true in Hi.
Qed.

Lemma GetControllerOf_Some m r :
  GetControllerOf m = Some r → r ∈ Meta_OwnerReferences m ∧ is_controller r.
Proof.
  unfold GetControllerOf. intros H. destruct (IndexFunc _ _) as [i|] eqn:Hi; [|done].
  apply IndexFunc_Some in Hi as (x & Hx & Hc & _). rewrite Hx in H. injection H as <-.
  split; [by eapply list_elem_of_lookup_2|by apply bool_decide_eq_true in Hc].
Qed.

(** Inserting a reference: a controller may only replace the one there is. *)
Lemma upsert_refs_ok ref m :
  refs_ok m →
  (is_controller ref → ∀ r, r ∈ Meta_OwnerReferences m → is_controller r → referSameObject r ref = true) →
  refs_ok (upsertOwnerRef ref m).
Proof.
  intros [Hd Hc] Hctrl. unfold upsertOwnerRef, indexOwnerRef.
  destruct (IndexFunc _ _) as [idx|] eqn:Hi.
  - apply IndexFunc_Some in Hi as (x & Hx & Hsame & _).
    assert (Hother : ∀ j b, Meta_OwnerReferences m !! j = Some b → referSameObject b ref = true → j = idx)
      by (intros j b Hj Hb; eapply Hd; [done..|]; by eapply referSameObject_via).
    split; simpl; intros i j a b Hia Hjb;
      apply list_lookup_insert_Some in Hia as [(<- & <- & _)|[Hi Ha]];
      apply list_lookup_insert_Some in Hjb as [(<- & <- & _)|[Hj Hb]]; try done.
    + rewrite referSameObject_sym. intros H. symmetry. by eapply Hother.
    + intros H. by eapply Hother.
    + by eapply Hd.
    + intros H1 H2. symmetry. eapply Hother; [done|]. apply Hctrl; [done| |done].
      by eapply list_elem_of_lookup_2.
    + intros H1 H2. eapply Hother; [done|]. apply Hctrl; [done| |done].
      by eapply list_elem_of_lookup_2.
    + by eapply Hc.
  - rewrite IndexFunc_None in Hi.
    split; simpl; intros i j a b Hia Hjb;
      apply lookup_app_Some in Hia as [Ha|[Hi' Ha]]; apply lookup_app_Some in Hjb as [Hb|[Hj' Hb]];
      try (apply list_lookup_singleton_Some in Ha as [Hz <-]);
      try (apply list_lookup_singleton_Some in Hb as [Hz' <-]).
    + by eapply Hd.
    + intros H. apply list_elem_of_lookup_2 in Ha. by rewrite Hi in H.
    + rewrite referSameObject_sym. intros H. apply list_elem_of_lookup_2 in Hb. by rewrite Hi in H.
    + intros _. lia.
    + by eapply Hc.
    + intros H1 H2. apply list_elem_of_lookup_2 in Ha. pose proof (Hctrl H2 a Ha H1) as H.
      by rewrite Hi in H.
    + intros H1 H2. apply list_elem_of_lookup_2 in Hb. pose proof (Hctrl H1 b Hb H2) as H.
      by rewrite Hi in H.
    + intros _ _. lia.
Qed.

Lemma SetControllerReference_ok k owner m m' :
  refs_ok m → SetControllerReference k owner m = inr m' → refs_ok m'.
Proof.
  intros Hm. unfold SetControllerReference. destruct (validateOwner owner m); [done|].
  destruct (GetControllerOf m) as [existing|] eqn:Hg.
  - destruct (referSameObject existing (controller_ref k owner)) eqn:Hs; simpl; [|done].
    intros [= <-]. apply upsert_refs_ok; [done|]. intros _ r Hr Hc.
    apply GetControllerOf_Some in Hg as [Hin Hce].
    apply list_elem_of_lookup in Hr as [i Hr], Hin as [j Hin].
    assert (i = j) as -> by by eapply (refs_one_controller m Hm). congruence.
  - intros [= <-]. apply upsert_refs_ok; [done|]. intros _ r Hr Hc.
    by destruct (GetControllerOf_None m r Hg Hr).
Qed.

Lemma SetOwnerReference_ok k owner m m' :
  refs_ok m → SetOwnerReference k owner m = inr m' → refs_ok m'.
Proof.
  intros Hm. unfold SetOwnerReference. destruct (validateOwner owner m); [done|].
  intros [= <-]. by apply upsert_refs_ok.
Qed.

(** The place an element of a list with one element cut out had before. *)
Lemma lookup_cut {A} (l : list A) n i x :
  n < length l → (take n l ++ drop (S n) l) !! i = Some x →
  l !! (if decide (i < n) then i else S i) = Some x.
Proof.
  intros Hn Hi. apply lookup_app_Some in Hi as [Hi|[Hge Hi]].
  - apply lookup_take_Some in Hi as [Hi Hlt]. by rewrite decide_True.
  - rewrite length_take in Hge, Hi. rewrite lookup_drop in Hi.
    rewrite decide_False by lia. rewrite <-Hi. f_equal. lia.
Qed.

Lemma cut_inj n i j :
  (if decide (i < n) then i else S i) = (if decide (j < n) then j else S j) → i = j.
Proof. repeat case_decide; lia. Qed.

Lemma RemoveOwnerReference_ok k owner m m' :
  refs_ok m → RemoveOwnerReference k owner m = inr m' → refs_ok m'.
Proof.
  intros [Hd Hc]. unfold RemoveOwnerReference. destruct (_ <? _)%nat; [done|].
  destruct (indexOwnerRef _ _) as [n|] eqn:Hi; [|done]. intros [= <-].
  apply IndexFunc_Some in Hi as (x & Hx & _). apply lookup_lt_Some in Hx.
  split; simpl; intros i j a b Ha%lookup_cut Hb%lookup_cut; try done; intros.
  - apply (cut_inj n). by eapply Hd.
  - apply (cut_inj n). by eapply Hc.
Qed.


Lemma new_meta_refs_ok ns name : refs_ok (new_meta ns name).
Proof. split; intros i j a b Ha; simpl in Ha; by rewrite lookup_nil in Ha. Qed.

