(* ===== verification/CoreUtils.v ===== *)
(** * Generic helpers (internal/utils/core.go)

    [Clamp], [MapMergeByKey], [MapToString], [DeleteZeroValues] and the
    environment lookups, with what each promises its callers.
    [RunConcurrently] and [ChannelToSlice] are in Concurrency.v. *)
From S2P Require Import Prelude Prog K8s ApiTypes Cluster.

(** ** Definitions *)

Definition If {T} (cond : bool) (trueVal falseVal : T) : T :=
  if cond then trueVal else falseVal.

(** [Clamp] at the type [int], the only one the operator uses. *)
Definition Clamp (val low high : Z) : Z :=
  if (val <? low)%Z then low else if (val >? high)%Z then high else val.

Fixpoint MapSlice {T K} (l : list T) (mapper : T → K) : list K :=
  match l with
  | [] => []
  | x :: l => mapper x :: MapSlice l mapper
  end.

Section map_merge_by_key.
Context {S D : Type}.
Variable transform : S → D * bool.
Variable getKey : D → string.

(** The first loop: the index of each item with a non-empty key; a later
    item overwrites the index of an earlier one with the same key. *)
Fixpoint index_dest (i : nat) (dest : list D) (indexMap : gmap string nat) : gmap string nat :=
  match dest with
  | [] => indexMap
  | d :: dest =>
      let key := getKey d in
      index_dest (i + 1) dest
        (if negb (String.eqb key "") then <[key := i]> indexMap else indexMap)
  end.

(** One iteration of the second loop. *)
Definition merge_item (st : list D * gmap string nat) (s : S) : list D * gmap string nat :=
  let '(dest, indexMap) := st in
  let '(d, ok) := transform s in
  if negb ok then (dest, indexMap)
  else
    let key := getKey d in
    if String.eqb key "" then (dest, indexMap)
    else
      match indexMap !! key with
      | Some idx => (<[idx := d]> dest, indexMap)
      | None => (dest ++ [d], <[key := length dest]> indexMap)
      end.

Definition MapMergeByKey (dest : list D) (src : list S) : list D :=
  (foldl merge_item (dest, index_dest 0 dest ∅) src).1.

End map_merge_by_key.

(** [MapToString] on the entries of the map in the order [range] visits them. *)
Fixpoint write_items (keyValueSeperator itemSeperator itemSep : string)
    (entries : list (string * string)) : string :=
  match entries with
  | [] => ""
  | (key, value) :: entries =>
      (itemSep ++ key
       ++ (if negb (String.eqb value "") then keyValueSeperator ++ value else "")
       ++ write_items keyValueSeperator itemSeperator itemSeperator entries)%string
  end.

Definition MapToString (entries : list (string * string))
    (keyValueSeperator itemSeperator : string) : string :=
  if (length entries =? 0)%nat then ""
  else write_items keyValueSeperator itemSeperator "" entries.

(** [DeleteZeroValues] at the type [string], the only one the operator uses. *)
Definition DeleteZeroValues (slice : list string) : list string :=
  List.filter (λ value, negb (String.eqb value "")) slice.

(** [os.Getenv] on an environment. *)
Definition Getenv (env : gmap string string) (name : string) : string := default "" (env !! name).

Definition operatorNamespaceEnvVar : string := "OPERATOR_NAMESPACE".

Definition GetOperatorNamespace (env : gmap string string) : error + string :=
  let ns := Getenv env operatorNamespaceEnvVar in
  if String.eqb ns "" then inl (Errorf (operatorNamespaceEnvVar ++ " must be set"))
  else inr ns.

(** ** DeleteZeroValues *)

Lemma elem_of_DeleteZeroValues (l : list string) s :
  s ∈ DeleteZeroValues l ↔ s ∈ l ∧ s ≠ "".
Proof.
  unfold DeleteZeroValues. rewrite !list_elem_of_In, filter_In.
  destruct (String.eqb_spec s ""); naive_solver.
Qed.

Lemma DeleteZeroValues_app (l k : list string) :
  DeleteZeroValues (l ++ k) = DeleteZeroValues l ++ DeleteZeroValues k.
Proof. apply List.filter_app. Qed.

(** ** MapToString *)

(** What is written for one entry. *)
Definition render_item (kvs : string) (kv : string * string) : string :=
  if String.eqb kv.2 "" then kv.1 else (kv.1 ++ kvs ++ kv.2)%string.

Lemma write_items_sep kvs sep itemSep kv l :
  write_items kvs sep itemSep (kv :: l)
  = (itemSep ++ strings_Join (render_item kvs <$> kv :: l) sep)%string.
Proof.
  revert itemSep kv. induction l as [|kv' l IH]; intros itemSep [k v].
  - unfold render_item. simpl. destruct (String.eqb v ""); simpl;
      by rewrite ?string_app_assoc, ?string_app_nil_r.
  - change (write_items kvs sep itemSep ((k, v) :: kv' :: l)) with
      (itemSep ++ k ++ (if negb (String.eqb v "") then kvs ++ v else "")
       ++ write_items kvs sep sep (kv' :: l))%string.
    rewrite IH. unfold render_item at 2. cbn -[String.append render_item].
    destruct (String.eqb v ""); cbn -[String.append render_item];
      by autorewrite with golib.
Qed.

Lemma MapToString_render (entries : list (string * string)) (kvs sep : string) :
  MapToString entries kvs sep = strings_Join (render_item kvs <$> entries) sep.
Proof.
  destruct entries as [|kv l]; [done|].
  unfold MapToString. simpl Nat.eqb. cbv iota. by rewrite write_items_sep.
Qed.

(** For every order [range] may visit the map in, [MapToString] writes
    what joining the rendered entries with the item separator gives: one
    rendering per entry, no leading or trailing separator. *)
Theorem MapToString_join (entries : list (string * string)) (kvs sep : string) :
  MapToString entries kvs sep = strings_Join (render_item kvs <$> entries) sep.
Proof. apply MapToString_render. Qed.

(** ** MapMergeByKey *)

Section map_merge_facts.
Context {S D : Type}.
Variable transform : S → D * bool.
Variable getKey : D → string.

(** No two items share a non-empty key. *)
Definition distinct_keys (l : list D) : Prop :=
  ∀ i j d d', l !! i = Some d → l !! j = Some d' →
    getKey d = getKey d' → getKey d ≠ "" → i = j.

(** The items of the source that take part in the merge. *)
Definition selected (src : list S) : list D :=
  omap (λ s, let '(d, ok) := transform s in
             if ok && negb (String.eqb (getKey d) "") then Some d else None) src.

(** The merge of one item without the index: a linear search. *)
Definition upsert (l : list D) (d : D) : list D :=
  match IndexFunc (λ x, String.eqb (getKey x) (getKey d)) l with
  | Some i => <[i := d]> l
  | None => l ++ [d]
  end.

(** The first item with a given key. *)
Fixpoint lookup_key (key : string) (l : list D) : option D :=
  match l with
  | [] => None
  | d :: l => if String.eqb (getKey d) key then Some d else lookup_key key l
  end.

Definition indexed (l : list D) (m : gmap string nat) : Prop :=
  ∀ key i, m !! key = Some i ↔ key ≠ "" ∧ ∃ d, l !! i = Some d ∧ getKey d = key.

Lemma index_dest_empty_key n l m : index_dest getKey n l m !! "" = m !! "".
Proof.
  revert n m. induction l as [|d l IH]; simpl; intros n m; [done|].
  rewrite IH. destruct (String.eqb_spec (getKey d) ""); simpl; [done|].
  by rewrite lookup_insert_ne.
Qed.

Lemma index_dest_lookup n l m key k :
  distinct_keys l → key ≠ "" →
  index_dest getKey n l m !! key = Some k ↔
    (∃ i d, k = n + i ∧ l !! i = Some d ∧ getKey d = key)
    ∨ ((∀ d, d ∈ l → getKey d ≠ key) ∧ m !! key = Some k).
Proof.
  revert n m. induction l as [|d l IH]; simpl; intros n m Hd Hne.
  { split; [intros; right; split; [set_solver|done] | intros [(i&?&?&?&?)|[? ?]]; done]. }
  assert (Hd' : distinct_keys l).
  { intros i j x y Hi Hj He Hn. specialize (Hd (Datatypes.S i) (Datatypes.S j) x y Hi Hj He Hn). lia. }
  rewrite IH by done. split.
  - intros [(i & x & -> & Hi & Hx)|[Hall Hm]].
    + left. exists (Datatypes.S i), x. split_done.
    + destruct (String.eqb_spec (getKey d) "") as [He|He]; simpl in Hm.
      * right. split; [|done]. intros x [->|Hx]%elem_of_cons; [congruence|by apply Hall].
      * destruct (decide (getKey d = key)) as [<-|Hk].
        -- rewrite lookup_insert_eq in Hm. injection Hm as <-.
           left. exists 0, d. split_done.
        -- rewrite lookup_insert_ne in Hm by done. right. split; [|done].
           intros x [->|Hx]%elem_of_cons; [done|by apply Hall].
  - intros [([|i] & x & -> & Hi & Hx)|[Hall Hm]]; simpl in *.
    + injection Hi as ->. right. split.
      * intros y [j Hj]%list_elem_of_lookup Hy.
        specialize (Hd 0 (Datatypes.S j) x y eq_refl Hj). rewrite Hx, Hy in Hd.
        specialize (Hd eq_refl Hne). lia.
      * destruct (String.eqb_spec (getKey x) ""); [congruence|]. simpl.
        rewrite Hx, lookup_insert_eq. f_equal. lia.
    + left. exists i, x. split_done.
    + right. split; [intros y Hy; apply Hall; by right|].
      destruct (String.eqb_spec (getKey d) ""); simpl; [done|].
      rewrite lookup_insert_ne; [done|]. apply Hall. by left.
Qed.

Lemma index_dest_indexed l : distinct_keys l → indexed l (index_dest getKey 0 l ∅).
Proof.
  intros Hd key k. destruct (decide (key = "")) as [->|Hne].
  - rewrite index_dest_empty_key, lookup_empty. naive_solver.
  - rewrite index_dest_lookup by done. rewrite lookup_empty. split.
    + intros [(i & d & -> & ? & ?)|[? ?]]; [eauto|done].
    + intros (_ & d & ? & ?). left. eauto 10.
Qed.

(** One indexed merge step is one linear upsert, and keeps the index. *)
Lemma merge_item_upsert l m s :
  indexed l m →
  (merge_item transform getKey (l, m) s).1 = foldl upsert l (selected [s])
  ∧ indexed (merge_item transform getKey (l, m) s).1 (merge_item transform getKey (l, m) s).2.
Proof.
  intros Hi. unfold indexed in Hi |- *. unfold merge_item, selected. simpl. destruct (transform s) as [d ok].
  destruct ok; simpl; [|done].
  destruct (String.eqb_spec (getKey d) "") as [He|He]; simpl; [done|].
  unfold upsert.
  destruct (m !! getKey d) as [idx|] eqn:Hm.
  - apply Hi in Hm as Hx. destruct Hx as (_ & x & Hx & Hk).
    assert (IndexFunc (λ x, String.eqb (getKey x) (getKey d)) l = Some idx) as ->.
    { destruct (IndexFunc _ l) as [j|] eqn:Hj.
      - apply IndexFunc_Some in Hj as (y & Hy & Hyk & _).
        apply String.eqb_eq in Hyk. f_equal.
        assert (m !! getKey d = Some j) by (apply Hi; eauto). congruence.
      - rewrite IndexFunc_None in Hj. specialize (Hj x ltac:(by eapply list_elem_of_lookup_2)).
        simpl in Hj. rewrite Hk, String.eqb_refl in Hj. done. }
    split; [done|]. simpl. apply lookup_lt_Some in Hx as Hlt.
    intros key i. rewrite Hi. split; intros (Hn & y & Hy & Hyk); (split; [done|]).
    + destruct (decide (i = idx)) as [->|Hne].
      * rewrite list_lookup_insert_eq by done. exists d. split; [done|]. congruence.
      * rewrite list_lookup_insert_ne by done. eauto.
    + destruct (decide (i = idx)) as [->|Hne].
      * rewrite list_lookup_insert_eq in Hy by done. injection Hy as <-. exists x. split; [done|]. congruence.
      * rewrite list_lookup_insert_ne in Hy by done. eauto.
  - assert (IndexFunc (λ x, String.eqb (getKey x) (getKey d)) l = None) as ->.
    { apply IndexFunc_None. intros y [j Hj]%list_elem_of_lookup.
      destruct (String.eqb_spec (getKey y) (getKey d)) as [Heq|]; [|done].
      assert (m !! getKey d = Some j) by (apply Hi; eauto). congruence. }
    split; [done|]. simpl. intros key i. destruct (decide (key = getKey d)) as [->|Hne].
    + rewrite lookup_insert_eq. split.
      * intros [= <-]. split; [done|]. exists d. rewrite lookup_app_r, Nat.sub_diag by lia. done.
      * intros (_ & y & Hy & Hyk). apply lookup_app_Some in Hy as [Hy|[Hle Hy]].
        -- assert (m !! getKey d = Some i) by (apply Hi; eauto). congruence.
        -- f_equal. destruct (i - length l) eqn:E; simpl in Hy; [lia|done].
    + rewrite lookup_insert_ne by done. rewrite Hi. split; intros (Hn & y & Hy & Hyk); (split; [done|]).
      * exists y. split; [by apply lookup_app_l_Some|done].
      * apply lookup_app_Some in Hy as [Hy|[Hle Hy]]; [eauto|].
        destruct (i - length l) eqn:E; simpl in Hy; [|done]. congruence.
Qed.

Lemma upsert_cons x l d :
  upsert (x :: l) d
  = if String.eqb (getKey x) (getKey d) then d :: l else x :: upsert l d.
Proof.
  unfold upsert. simpl. destruct (String.eqb (getKey x) (getKey d)); [done|].
  by destruct (IndexFunc _ l).
Qed.

Lemma upsert_keys l d :
  getKey <$> upsert l d
  = (getKey <$> l) ++ (if ContainsFunc (λ x, String.eqb (getKey x) (getKey d)) l
                       then [] else [getKey d]).
Proof.
  induction l as [|x l IH]; [done|]. rewrite upsert_cons. unfold ContainsFunc in *. csimpl.
  destruct (String.eqb_spec (getKey x) (getKey d)) as [He|He]; csimpl.
  - by rewrite He, app_nil_r.
  - rewrite IH. by destruct (IndexFunc _ l).
Qed.

Lemma elem_of_upsert l d x : x ∈ upsert l d → x = d ∨ x ∈ l.
Proof.
  induction l as [|y l IH].
  - unfold upsert. simpl. set_solver.
  - rewrite upsert_cons. destruct (String.eqb _ _); set_solver.
Qed.

Lemma upsert_get key l d :
  lookup_key key (upsert l d) = if decide (getKey d = key) then Some d else lookup_key key l.
Proof.
  induction l as [|x l IH].
  - unfold upsert. simpl. case_decide; destruct (String.eqb_spec (getKey d) key); done.
  - rewrite upsert_cons. simpl.
    destruct (String.eqb_spec (getKey x) (getKey d)) as [He|He]; simpl.
    + case_decide; destruct (String.eqb_spec (getKey d) key);
        destruct (String.eqb_spec (getKey x) key); congruence.
    + rewrite IH. case_decide; destruct (String.eqb_spec (getKey x) key); congruence.
Qed.

Lemma distinct_keys_nil : distinct_keys [].
Proof. intros i j x y Hi. done. Qed.

Lemma distinct_keys_cons x l :
  distinct_keys (x :: l) ↔
    (getKey x ≠ "" → getKey x ∉ getKey <$> l) ∧ distinct_keys l.
Proof.
  split.
  - intros Hd. split.
    + intros Hx (y & Hy & [j Hj]%list_elem_of_lookup)%list_elem_of_fmap.
      specialize (Hd 0 (Datatypes.S j) x y eq_refl Hj Hy Hx). lia.
    + intros i j y z Hi Hj He Hn.
      specialize (Hd (Datatypes.S i) (Datatypes.S j) y z Hi Hj He Hn). lia.
  - intros [Hx Hd] [|i] [|j] y z Hi Hj He Hn; simpl in *; [done| | |].
    + injection Hi as ->. exfalso. apply Hx; [done|]. rewrite He.
      apply list_elem_of_fmap_2. by eapply list_elem_of_lookup_2.
    + injection Hj as ->. exfalso. rewrite He in Hn. apply Hx; [done|]. rewrite <- He.
      apply list_elem_of_fmap_2. by eapply list_elem_of_lookup_2.
    + f_equal. by eapply Hd.
Qed.

Lemma upsert_distinct l d : distinct_keys l → distinct_keys (upsert l d).
Proof.
  induction l as [|x l IH].
  - intros _. unfold upsert. simpl. apply distinct_keys_cons. split; [set_solver|].
    apply distinct_keys_nil.
  - rewrite upsert_cons, distinct_keys_cons. intros [Hx Hd].
    destruct (String.eqb_spec (getKey x) (getKey d)) as [He|He]; apply distinct_keys_cons.
    + by rewrite <- He.
    + split; [|by apply IH]. intros Hn. rewrite upsert_keys.
      intros [Hin|Hin]%elem_of_app; [by apply Hx|].
      destruct (ContainsFunc _ l); set_solver.
Qed.

(** Facts on a sequence of upserts, by folding the ones above. *)
Lemma foldl_upsert_distinct l ds : distinct_keys l → distinct_keys (foldl upsert l ds).
Proof. revert l. induction ds as [|d ds IH]; simpl; intros l Hd; [done|]. by apply IH, upsert_distinct. Qed.

Lemma foldl_upsert_keys l ds :
  ∃ new, getKey <$> foldl upsert l ds = (getKey <$> l) ++ new.
Proof.
  revert l. induction ds as [|d ds IH]; intros l; simpl foldl; [exists []; by rewrite app_nil_r|].
  destruct (IH (upsert l d)) as [new ->]. rewrite upsert_keys, <- app_assoc. eauto.
Qed.

Lemma foldl_upsert_get key l ds :
  lookup_key key (foldl upsert l ds)
  = match lookup_key key (reverse ds) with Some d => Some d | None => lookup_key key l end.
Proof.
  revert l. induction ds as [|d ds IH]; intros l; [done|]. simpl foldl.
  rewrite IH, upsert_get, reverse_cons.
  assert (Happ : ∀ xs ys, lookup_key key (xs ++ ys)
            = match lookup_key key xs with Some d => Some d | None => lookup_key key ys end).
  { induction xs as [|x xs IHx]; simpl; [done|]. intros ys.
    destruct (String.eqb (getKey x) key); [done|apply IHx]. }
  rewrite Happ. simpl. destruct (lookup_key key (reverse ds)); [done|].
  case_decide; destruct (String.eqb_spec (getKey d) key); congruence.
Qed.

Lemma elem_of_foldl_upsert l ds x : x ∈ foldl upsert l ds → x ∈ l ∨ x ∈ ds.
Proof.
  revert l. induction ds as [|d ds IH]; simpl; intros l Hx; [by left|].
  rewrite elem_of_cons.
  apply IH in Hx as [[->|Hx]%elem_of_upsert|Hx]; auto.
Qed.

Lemma MapMergeByKey_upsert l src :
  distinct_keys l → MapMergeByKey transform getKey l src = foldl upsert l (selected src).
Proof.
  intros Hd. unfold MapMergeByKey. pose proof (index_dest_indexed l Hd) as Hi. clear Hd.
  revert Hi. generalize (index_dest getKey 0 l ∅) as m. revert l.
  induction src as [|s src IH]; intros l m Hi; [done|].
  change (foldl (merge_item transform getKey) (l, m) (s :: src))
    with (foldl (merge_item transform getKey) (merge_item transform getKey (l, m) s) src).
  destruct (merge_item_upsert l m s Hi) as [H1 H2].
  destruct (merge_item transform getKey (l, m) s) as [l' m'] eqn:E. simpl in H1, H2.
  rewrite IH by done. rewrite H1. rewrite <- foldl_app. f_equal.
  unfold selected. simpl. destruct (transform s) as [d ok]. by case_match.
Qed.

Lemma elem_of_upsert_keys k l d : k ∈ getKey <$> upsert l d ↔ k ∈ getKey <$> l ∨ k = getKey d.
Proof.
  rewrite upsert_keys, elem_of_app. destruct (ContainsFunc _ l) eqn:Hc.
  - apply ContainsFunc_true in Hc as (x & Hx & Heq%String.eqb_eq).
    split; [set_solver|]. intros [?| ->]; [by left|]. left. rewrite <-Heq.
    by apply list_elem_of_fmap_2.
  - set_solver.
Qed.

Lemma elem_of_foldl_keys k l ds :
  k ∈ getKey <$> foldl upsert l ds ↔ k ∈ getKey <$> l ∨ k ∈ getKey <$> ds.
Proof.
  revert l. induction ds as [|d ds IH]; intros l; [set_solver|].
  simpl foldl. rewrite IH, elem_of_upsert_keys. csimpl. rewrite elem_of_cons. tauto.
Qed.

Lemma NoDup_distinct_keys l : NoDup (getKey <$> l) → distinct_keys l.
Proof.
  intros Hnd i j d d' Hi Hj Heq _. eapply NoDup_lookup; [exact Hnd| |].
  - by rewrite list_lookup_fmap, Hi.
  - by rewrite list_lookup_fmap, Hj, Heq.
Qed.

Lemma distinct_keys_NoDup l : distinct_keys l → "" ∉ getKey <$> l → NoDup (getKey <$> l).
Proof.
  intros Hd Hn. apply NoDup_alt. intros i j k Hi Hj. rewrite list_lookup_fmap in Hi, Hj.
  destruct (l !! i) as [d|] eqn:Hdi; [|done]. destruct (l !! j) as [d'|] eqn:Hdj; [|done].
  simplify_eq/=. eapply Hd; [done|done|congruence|]. intros He. apply Hn. rewrite <-He.
  apply list_elem_of_fmap_2. by eapply list_elem_of_lookup_2.
Qed.

(** C31: merging into a list whose non-empty keys are distinct gives what
    folding a linear search-and-replace over the selected source items gives
    (the index map is an optimisation); the result's keys are the
    destination's keys in their order, with new keys after them, still
    distinct; and looking a key up in it finds the last source item with
    that key, or the destination's item when the source has none. *)
Theorem MapMergeByKey_spec (dest : list D) (src : list S) :
  distinct_keys dest →
  let r := MapMergeByKey transform getKey dest src in
  r = foldl upsert dest (selected src)
  ∧ distinct_keys r
  ∧ (∃ new, getKey <$> r = (getKey <$> dest) ++ new)
  ∧ (∀ key, key ≠ "" →
       lookup_key key r = match lookup_key key (reverse (selected src)) with
                          | Some d => Some d
                          | None => lookup_key key dest
                          end).
Proof.
  intros Hd. simpl. rewrite MapMergeByKey_upsert by done. split; [done|].
  split; [by apply foldl_upsert_distinct|].
  split; [apply foldl_upsert_keys|]. intros key _. apply foldl_upsert_get.
Qed.

End map_merge_facts.

(** The destination [x: keep, a: old] and the source [a: new, b: added, (empty): skip]. *)
Definition merge_example : list (string * string) :=
  MapMergeByKey (λ s, (s, true)) fst
    [("x", "keep"); ("a", "old")] [("a", "new"); ("b", "added"); ("", "skip")].

Lemma MapMergeByKey_spec_witness :
  distinct_keys fst [("x", "keep"); ("a", "old")]
  ∧ merge_example = [("x", "keep"); ("a", "new"); ("b", "added")]
  ∧ distinct_keys fst merge_example.
Proof.
  assert (H : distinct_keys fst [("x", "keep"); ("a", "old")]).
  { apply distinct_keys_cons. split; [set_solver|].
    apply distinct_keys_cons. split; [set_solver|]. apply distinct_keys_nil. }
  split; [exact H|]. split; [reflexivity|].
  exact (proj1 (proj2 (MapMergeByKey_spec (λ s, (s, true)) fst
           [("x", "keep"); ("a", "old")] [("a", "new"); ("b", "added"); ("", "skip")] H))).
Defined.
