(* ===== verification/Concurrency.v ===== *)
(** * RunConcurrently and ChannelToSlice (internal/utils/core.go)

    One goroutine per function, all sending their result on one unbuffered
    channel; one goroutine that closes the channel when every sender is done;
    and the caller, which receives until the channel is closed.  The state of
    such a run is a [pool] and [pstep] interleaves the goroutines, one outside
    call, one rendezvous or one close at a time; a panic in any goroutine
    ends the process.  The calls are answered by any specification. *)
From S2P Require Import Prelude Prog.

Section pool.
Context {E : Type → Type} {W A : Type}.
Variable sp : spec E W.

(** ** Definitions *)

(** A goroutine: still computing [fn()], blocked on [errors <- v], or past
    its [wg.Done()]. *)
Inductive goroutine :=
| Running (p : prog E A)
| Sending (a : A)
| Finished.

Inductive pool :=
| Pool (w : W) (threads : list goroutine) (closed : bool) (received : list A) (returned : bool)
| Crashed (msg : string).

(** [RunConcurrently(fnList...)] followed by [ChannelToSlice]. *)
Definition RunConcurrently (w : W) (fnList : list (prog E A)) : pool :=
  Pool w (Running <$> fnList) false [] false.

Definition finished (g : goroutine) : bool :=
  match g with Finished => true | _ => false end.

Inductive pstep : pool → pool → Prop :=
| step_call w ts c r d i T (e : E T) k t w' :
    ts !! i = Some (Running (Vis e k)) →
    post sp _ e t w w' →
    pstep (Pool w ts c r d) (Pool w' (<[i := Running (k t)]> ts) c r d)
| step_return w ts c r d i a :
    ts !! i = Some (Running (Ret a)) →
    pstep (Pool w ts c r d) (Pool w (<[i := Sending a]> ts) c r d)
| step_panic w ts c r d i m :
    ts !! i = Some (Running (Panic m)) →
    pstep (Pool w ts c r d) (Crashed m)
| step_rendezvous w ts r i a :
    ts !! i = Some (Sending a) →
    pstep (Pool w ts false r false) (Pool w (<[i := Finished]> ts) false (r ++ [a]) false)
| step_send_closed w ts r d i a :
    ts !! i = Some (Sending a) →
    pstep (Pool w ts true r d) (Crashed "send on closed channel")
| step_close w ts r d :
    forallb finished ts = true →
    pstep (Pool w ts false r d) (Pool w ts true r d)
| step_drained w ts r :
    pstep (Pool w ts true r false) (Pool w ts true r true).

(** A function may return [a], or panic with [m], under the specification. *)
Fixpoint returns (p : prog E A) (a : A) : Prop :=
  match p with
  | Ret b => a = b
  | Panic _ => False
  | Vis e k => ∃ t w w', post sp _ e t w w' ∧ returns (k t) a
  end.

Fixpoint panics (p : prog E A) (m : string) : Prop :=
  match p with
  | Ret _ => False
  | Panic m' => m = m'
  | Vis e k => ∃ t w w', post sp _ e t w w' ∧ panics (k t) m
  end.

(** ** Termination *)

(** A goroutine after one more of its own steps. *)
Definition glt (g' g : goroutine) : Prop :=
  match g with
  | Running (Vis e k) => ∃ t, g' = Running (k t)
  | Running (Ret a) => g' = Sending a
  | Running (Panic _) => False
  | Sending _ => g' = Finished
  | Finished => False
  end.

Lemma glt_wf : well_founded glt.
Proof.
  assert (Hf : Acc glt Finished) by (by constructor; intros g' Hg).
  assert (Hs : ∀ a, Acc glt (Sending a)) by (by constructor; intros g' ->).
  intros [p|a|]; [|done|done].
  induction p as [a|m|T e k IH]; constructor; simpl; intros g' Hg; [by subst|done|].
  destruct Hg as [t ->]. apply IH.
Qed.

(** Moving one goroutine of a list is well founded. *)
Definition glts (ts' ts : list goroutine) : Prop :=
  ∃ i g g', ts !! i = Some g ∧ glt g' g ∧ ts' = <[i := g']> ts.

Lemma glts_move ts i g g' : ts !! i = Some g → glt g' g → glts (<[i := g']> ts) ts.
Proof. intros Hi Hg. by exists i, g, g'. Qed.

Lemma glts_wf : well_founded glts.
Proof.
  intros ts. induction ts as [|g ts IH].
  { constructor. intros ts' (i & g & g' & Hi & _). done. }
  revert g. induction IH as [ts _ IHts].
  intros g. induction (glt_wf g) as [g _ IHg].
  constructor. intros ts' ([|i] & x & x' & Hi & Hx & ->); simpl in *.
  - injection Hi as ->. by apply IHg.
  - apply IHts. by exists i, x, x'.
Qed.

Lemma pstep_crashed m s : ¬ pstep (Crashed m) s.
Proof. by inversion 1. Qed.

Lemma crashed_acc m : Acc (flip pstep) (Crashed m).
Proof. constructor. intros s Hs. by apply pstep_crashed in Hs. Qed.

(** The steps that leave the goroutines alone only raise the two flags. *)
Lemma pool_acc ts :
  (∀ ts', glts ts' ts → ∀ w c r d, Acc (flip pstep) (Pool w ts' c r d)) →
  ∀ w c r d, Acc (flip pstep) (Pool w ts c r d).
Proof.
  intros Hts.
  assert (Hmove : ∀ w c r d s, pstep (Pool w ts c r d) s →
            Acc (flip pstep) s ∨ (c = false ∧ s = Pool w ts true r d)
            ∨ (c = true ∧ d = false ∧ s = Pool w ts true r true)).
  { intros w c r d s Hs. inversion Hs; subst; try (left; apply crashed_acc); try (by eauto).
    - left. eapply Hts, glts_move; [done|]. by exists t.
    - left. by eapply Hts, glts_move.
    - left. by eapply Hts, glts_move. }
  assert (H1 : ∀ w r, Acc (flip pstep) (Pool w ts true r true)).
  { intros w r. constructor. intros s [?|[[? ?]|(? & ? & ?)]]%Hmove; done. }
  assert (H2 : ∀ w r d, Acc (flip pstep) (Pool w ts true r d)).
  { intros w r [|]; [done|]. constructor.
    intros s [?|[[? ?]|(? & ? & ->)]]%Hmove; done. }
  intros w [|] r d; [done|]. constructor.
  intros s [?|[[_ ->]|(? & ? & ?)]]%Hmove; done.
Qed.

Lemma pstep_terminates s : Acc (flip pstep) s.
Proof.
  destruct s as [w ts c r d|m]; [|apply crashed_acc].
  revert w c r d. induction (glts_wf ts) as [ts _ IH]. by apply pool_acc.
Qed.

(** ** Invariant *)

Definition goroutine_ok (p : prog E A) (g : goroutine) (v : option A) : Prop :=
  match g with
  | Running q => v = None ∧ (∀ a, returns q a → returns p a) ∧ (∀ m, panics q m → panics p m)
  | Sending a => v = None ∧ returns p a
  | Finished => ∃ a, v = Some a ∧ returns p a
  end.

Definition pool_inv (fns : list (prog E A)) (s : pool) : Prop :=
  match s with
  | Pool w ts c r d =>
      ∃ vs, Forall3 goroutine_ok fns ts vs ∧ r ≡ₚ omap id vs
            ∧ (c = true → forallb finished ts = true) ∧ (d = true → c = true)
  | Crashed m => ∃ p, p ∈ fns ∧ panics p m
  end.

Lemma RunConcurrently_inv w fns : pool_inv fns (RunConcurrently w fns).
Proof.
  exists (replicate (length fns) None). split_and!; [| |done|done].
  - induction fns as [|p fns IH]; csimpl; constructor; [by split_and!|done].
  - by induction (length fns).
Qed.

(** Replacing one goroutine by a state that yields no value. *)
Lemma Forall3_step fns ts vs i g g' :
  Forall3 goroutine_ok fns ts vs → ts !! i = Some g → g ≠ Finished →
  (∀ p, goroutine_ok p g None → goroutine_ok p g' None) →
  Forall3 goroutine_ok fns (<[i := g']> ts) vs.
Proof.
  intros H. revert i. induction H as [|p h v fns ts vs Hh H IH]; intros [|i] Hi Hne Hok;
    simplify_eq/=; constructor; auto.
  destruct g as [q|a|]; simpl in Hh; [| |done]; destruct Hh as [-> Hh]; by apply Hok.
Qed.

Lemma Forall3_send fns ts vs i a :
  Forall3 goroutine_ok fns ts vs → ts !! i = Some (Sending a) →
  ∃ vs', Forall3 goroutine_ok fns (<[i := Finished]> ts) vs' ∧ omap id vs' ≡ₚ omap id vs ++ [a].
Proof.
  intros H. revert i. induction H as [|p h v fns ts vs Hh H IH]; intros [|i] Hi; simplify_eq/=.
  - destruct Hh as [-> Hr]. exists (Some a :: vs).
    split; [by constructor; [exists a|]|].
    apply Permutation_cons_append.
  - destruct (IH i Hi) as (vs' & Hvs & Hp). exists (v :: vs'). split; [by constructor|].
    destruct v as [b|]; simpl; [by apply perm_skip|done].
Qed.

Lemma forallb_finished_lookup ts i g :
  forallb finished ts = true → ts !! i = Some g → g = Finished.
Proof.
  rewrite forallb_forall. intros H Hi%list_elem_of_lookup_2%list_elem_of_In.
  specialize (H g Hi). by destruct g.
Qed.

Lemma goroutine_panics fns ts vs i q m :
  Forall3 goroutine_ok fns ts vs → ts !! i = Some (Running q) → panics q m →
  ∃ p, p ∈ fns ∧ panics p m.
Proof.
  intros H. revert i. induction H as [|p h v fns ts vs Hh H IH]; intros [|i] Hi Hp; simplify_eq/=.
  - destruct Hh as (_ & _ & Hh). exists p. split; [by left|eauto].
  - destruct (IH i Hi Hp) as (p' & Hp' & ?). exists p'. split; [by right|done].
Qed.

Lemma pstep_inv fns s s' : pool_inv fns s → pstep s s' → pool_inv fns s'.
Proof.
  intros Hinv Hs. destruct Hs as [w ts c r d i T e k t w' Hi Hpost|w ts c r d i a Hi
    |w ts c r d i m Hi|w ts r i a Hi|w ts r d i a Hi|w ts r d Hf|w ts r];
    destruct Hinv as (vs & Hvs & Hr & Hc & Hd).
  - exists vs. split_and!; [|done| |done].
    + eapply Forall3_step; [done|done|done|]. simpl. intros p (_ & Hret & Hpan).
      split_and!; [done| |]; intros; [apply Hret|apply Hpan]; simpl; eauto 10.
    + intros ->. pose proof (forallb_finished_lookup _ _ _ (Hc eq_refl) Hi). done.
  - exists vs. split_and!; [|done| |done].
    + eapply Forall3_step; [done|done|done|]. simpl. intros p (_ & Hret & _). eauto.
    + intros ->. pose proof (forallb_finished_lookup _ _ _ (Hc eq_refl) Hi). done.
  - by eapply goroutine_panics.
  - destruct (Forall3_send _ _ _ _ _ Hvs Hi) as (vs' & Hvs' & Hp).
    exists vs'. split_and!; [done| |done|done]. by rewrite Hp, Hr.
  - pose proof (forallb_finished_lookup _ _ _ (Hc eq_refl) Hi). done.
  - exists vs. by split_and!.
  - exists vs. by split_and!.
Qed.

(** Some goroutine, the closer or the receiver can always move. *)
Lemma pool_progress fns s :
  (∀ T (e : E T) w, ∃ t w', post sp _ e t w w') →
  pool_inv fns s →
  (∃ s', pstep s s') ∨ (∃ m, s = Crashed m) ∨ (∃ w ts r, s = Pool w ts true r true).
Proof.
  intros Htot Hinv. destruct s as [w ts c r d|m]; [|eauto].
  destruct Hinv as (vs & _ & _ & Hc & Hd).
  destruct (forallb finished ts) eqn:Hf.
  - destruct c; [destruct d; [eauto 10|left; eexists; apply step_drained]
      |left; eexists; by apply step_close].
  - assert (∃ i g, ts !! i = Some g ∧ g ≠ Finished) as (i & g & Hi & Hg).
    { clear -Hf. induction ts as [|g ts IH]; simpl in Hf; [done|].
      destruct g; [by exists 0, (Running p)|by exists 0, (Sending a)|].
      destruct (IH Hf) as (i & g & ? & ?). by exists (S i), g. }
    destruct c; [by specialize (Hc eq_refl)|]. destruct d; [by specialize (Hd eq_refl)|].
    left. destruct g as [[a|m|T e k]|a|]; [| | | |done].
    + eexists. by eapply step_return.
    + eexists. by eapply step_panic.
    + destruct (Htot T e w) as (t & w' & Hpost). eexists. by eapply step_call.
    + eexists. by eapply step_rendezvous.
Qed.

Lemma RunConcurrently_runs (w : W) (fns : list (prog E A)) :
  (∀ T (e : E T) w, ∃ t w', post sp _ e t w w') →
  Acc (flip pstep) (RunConcurrently w fns)
  ∧ ∀ s, rtc pstep (RunConcurrently w fns) s →
      (∃ s', pstep s s')
      ∨ (∃ m p, s = Crashed m ∧ p ∈ fns ∧ panics p m)
      ∨ (∃ w' ts errs vs, s = Pool w' ts true errs true
           ∧ Forall2 returns fns vs ∧ errs ≡ₚ vs).
Proof.
  intros Htot. split; [apply pstep_terminates|]. intros s Hs.
  assert (Hinv : pool_inv fns s).
  { pose proof (RunConcurrently_inv w fns) as Hi. clear Htot.
    induction Hs as [|x y z Hxy _ IH]; [done|]. apply IH. by eapply pstep_inv. }
  destruct (pool_progress fns s Htot Hinv) as [?|[[m ->]|(w' & ts & r & ->)]]; [by left| |].
  - right; left. destruct Hinv as (p & ? & ?). eauto.
  - right; right. destruct Hinv as (ovs & Hvs & Hr & Hc & _).
    specialize (Hc eq_refl).
    assert (∃ vs, omap id ovs = vs ∧ Forall2 returns fns vs) as (vs & Heq & HF).
    { clear -Hvs Hc. induction Hvs as [|p g v fns ts vs Hg _ IH]; simpl in *; [eauto|].
      apply andb_true_iff in Hc as [Hg' Hc]. destruct g; simpl in *; try done.
      destruct Hg as (a & -> & Ha). destruct (IH Hc) as (vs' & Heq & HF).
      exists (a :: vs'). split; [by rewrite <- Heq|by constructor]. }
    exists w', ts, r, vs. by rewrite Heq in Hr.
Qed.

(** C28: every run of [ChannelToSlice(RunConcurrently(fns...))] ends, however
    the goroutines interleave and whatever their calls are answered; it never
    blocks for ever and never sends on the closed channel; and unless one of
    the functions panics, the slice it returns holds, in some order, exactly
    one result of each function. *)
Theorem RunConcurrently_results (w : W) (fns : list (prog E A)) :
  (∀ T (e : E T) w, ∃ t w', post sp _ e t w w') →
  Acc (flip pstep) (RunConcurrently w fns)
  ∧ ∀ s, rtc pstep (RunConcurrently w fns) s →
      (∃ s', pstep s s')
      ∨ (∃ m p, s = Crashed m ∧ p ∈ fns ∧ panics p m)
      ∨ (∃ w' ts errs vs, s = Pool w' ts true errs true
           ∧ Forall2 returns fns vs ∧ errs ≡ₚ vs).
Proof. apply RunConcurrently_runs. Qed.

End pool.

(** ** Goroutines that stay apart

    When every function sees the state through a view of its own, and no step
    of one changes what another sees, each function can be proved alone: what
    it establishes of its view holds of the final state of every run. *)
Section frame.
Context {E : Type → Type} {W A : Type}.
Variable sp : spec E W.

Record view := View {
  seen : Type;
  see : W → seen;
  local_spec : spec E seen;
  ends : A → seen → Prop;
}.

(** The function of a view, alone. *)
Definition view_wp (v : view) (p : prog E A) (w : W) : Prop :=
  wp (local_spec v) p (λ x o, match o with Done a => ends v a x | Panicked _ => False end) (see v w).

Definition framed (w : W) (v : view) (g : goroutine) (a : option A) : Prop :=
  match g with
  | Running p => a = None ∧ view_wp v p w
  | Sending b => a = None ∧ ends v b (see v w)
  | Finished => ∃ b, a = Some b ∧ ends v b (see v w)
  end.

Lemma framed_see w w' v g a : see v w' = see v w → framed w v g a → framed w' v g a.
Proof. intros Heq. unfold framed, view_wp. by rewrite Heq. Qed.

(** One goroutine moves, the others see nothing of it. *)
Lemma framed_move w w' vws ts vs i v g g' :
  Forall3 (framed w) vws ts vs → vws !! i = Some v → ts !! i = Some g → g ≠ Finished →
  (∀ j v', vws !! j = Some v' → i ≠ j → see v' w' = see v' w) →
  framed w' v g' None →
  Forall3 (framed w') vws (<[i := g']> ts) vs.
Proof.
  intros H. revert i. induction H as [|v0 h a vws ts vs Hh H IH]; intros [|i] Hv Hi Hne Hoth Hg';
    simplify_eq/=; constructor.
  - destruct g; [by destruct Hh as [-> _]..|done].
  - assert (Hall : ∀ j v', vws !! j = Some v' → see v' w' = see v' w)
      by (intros j v' Hj; by apply (Hoth (S j))).
    clear -H Hall. induction H as [|v0 h a vws ts vs Hh H IH]; constructor.
    + eapply framed_see; [by apply (Hall 0)|done].
    + apply IH. intros j. apply (Hall (S j)).
  - eapply framed_see; [by apply (Hoth 0)|done].
  - eapply IH; try done. intros j v' Hj Hij. apply (Hoth (S j)); [done|congruence].
Qed.

Lemma framed_lookup w vws ts vs i g :
  Forall3 (framed w) vws ts vs → ts !! i = Some g →
  ∃ v a, vws !! i = Some v ∧ framed w v g a.
Proof.
  intros H Hi. destruct (Forall3_lookup_m _ _ _ _ _ _ H Hi) as (v & a & ? & ? & ?). by exists v, a.
Qed.

Lemma framed_send w vws ts vs i b :
  Forall3 (framed w) vws ts vs → ts !! i = Some (Sending b) →
  ∃ vs', Forall3 (framed w) vws (<[i := Finished]> ts) vs' ∧ omap id vs' ≡ₚ omap id vs ++ [b].
Proof.
  intros H. revert i. induction H as [|v h a vws ts vs Hh H IH]; intros [|i] Hi; simplify_eq/=.
  - destruct Hh as [-> Hr]. exists (Some b :: vs).
    split; [by constructor; [exists b|]|]. apply Permutation_cons_append.
  - destruct (IH i Hi) as (vs' & Hvs & Hp). exists (a :: vs'). split; [by constructor|].
    destruct a as [c|]; simpl; [by apply perm_skip|done].
Qed.

Variables (views : list view) (I : W → Prop).

(** A call a function of the view may make, and the step it is answered with. *)
Definition allowed (v : view) {T} (e : E T) (t : T) (w w' : W) : Prop :=
  pre (local_spec v) _ e (see v w) ∧ post sp _ e t w w'.

Hypothesis own_step : ∀ v T (e : E T) t w w',
  v ∈ views → allowed v e t w w' → post (local_spec v) _ e t (see v w) (see v w').
Hypothesis other_step : ∀ i j v v' T (e : E T) t w w',
  views !! i = Some v → views !! j = Some v' → i ≠ j → allowed v e t w w' → see v' w' = see v' w.
Hypothesis invariant_step : ∀ v T (e : E T) t w w',
  v ∈ views → allowed v e t w w' → I w → I w'.

Definition frame_inv (s : pool) : Prop :=
  match s with
  | Pool w ts c r d => I w ∧ ∃ vs, Forall3 (framed w) views ts vs ∧ r ≡ₚ omap id vs
                                   ∧ (c = true → forallb finished ts = true) ∧ (d = true → c = true)
  | Crashed _ => False
  end.

Lemma frame_step s s' : frame_inv s → pstep sp s s' → frame_inv s'.
Proof.
  intros Hinv Hs. destruct Hs as [w ts c r d i T e k t w' Hi Hpost|w ts c r d i a Hi
    |w ts c r d i m Hi|w ts r i a Hi|w ts r d i a Hi|w ts r d Hf|w ts r];
    destruct Hinv as (HI & vs & Hvs & Hr & Hc & Hd).
  - destruct (framed_lookup _ _ _ _ _ _ Hvs Hi) as (v & a & Hv & -> & Hpre & Hk).
    assert (Ha : allowed v e t w w') by done.
    pose proof (list_elem_of_lookup_2 _ _ _ Hv) as Hin.
    split; [by apply (invariant_step v T e t w w')|]. exists vs. split_and!; [|done| |done].
    + eapply framed_move; [exact Hvs|exact Hv|exact Hi|done| |].
      * intros j v' Hj Hij. by apply (other_step i j v v' T e t w w').
      * split; [done|]. by apply Hk, own_step.
    + intros ->. pose proof (forallb_finished_lookup _ _ _ (Hc eq_refl) Hi). done.
  - destruct (framed_lookup _ _ _ _ _ _ Hvs Hi) as (v & b & Hv & -> & Hend).
    split; [done|]. exists vs. split_and!; [|done| |done].
    + by eapply framed_move.
    + intros ->. pose proof (forallb_finished_lookup _ _ _ (Hc eq_refl) Hi). done.
  - destruct (framed_lookup _ _ _ _ _ _ Hvs Hi) as (v & b & Hv & _ & []).
  - destruct (framed_send _ _ _ _ _ _ Hvs Hi) as (vs' & Hvs' & Hp).
    split; [done|]. exists vs'. split_and!; [done| |done|done]. by rewrite Hp, Hr.
  - pose proof (forallb_finished_lookup _ _ _ (Hc eq_refl) Hi). done.
  - split; [done|]. by exists vs.
  - split; [done|]. by exists vs.
Qed.

Lemma RunConcurrently_framed (w : W) (fns : list (prog E A)) s :
  Forall2 (λ v p, view_wp v p w) views fns → I w →
  rtc (pstep sp) (RunConcurrently w fns) s →
  match s with
  | Crashed _ => False
  | Pool w' _ _ errs returned =>
      I w' ∧ (returned = true → ∃ vs, Forall2 (λ v a, ends v a (see v w')) views vs ∧ errs ≡ₚ vs)
  end.
Proof.
  intros Hfns HI Hs. assert (Hinv : frame_inv (RunConcurrently w fns)).
  { split; [done|]. exists (replicate (length fns) None). split_and!; [| |done|done].
    - clear -Hfns. induction Hfns; csimpl; constructor; [by split|done].
    - by induction (length fns). }
  assert (Hfin : frame_inv s).
  { clear -Hs Hinv own_step other_step invariant_step.
    induction Hs as [|x y z Hxy _ IH]; [done|]. apply IH. by eapply frame_step. }
  destruct s as [w' ts c r d|m]; [|done]. destruct Hfin as (HI' & ovs & Hvs & Hr & Hc & Hd).
  split; [done|]. intros Hret. specialize (Hc (Hd Hret)). exists (omap id ovs). split; [|done].
  clear -Hvs Hc. induction Hvs as [|v g a vws ts vs Hg _ IH]; simpl in *; [constructor|].
  apply andb_true_iff in Hc as [Hg' Hc]. destruct g; simpl in *; try done.
  destruct Hg as (b & -> & Hb). simpl. constructor; [done|by apply IH].
Qed.

End frame.

(** ** One schedule *)

(** The run in which the functions run one after the other, against a
    handler that keeps to the specification. *)
Section sequential.
Context {E : Type → Type} {W A : Type}.
Variables (sp : spec E W) (h : ∀ T, E T → W → W * T).
Hypothesis keeps : ∀ T (e : E T) w, post sp _ e (h _ e w).2 w (h _ e w).1.

Fixpoint run_all (fns : list (prog E A)) (w : W) : option (W * list A) :=
  match fns with
  | [] => Some (w, [])
  | p :: fns =>
      match run h p w with
      | (w', Done a) => '(w'', l) ← run_all fns w'; Some (w'', a :: l)
      | (_, Panicked _) => None
      end
  end.

Lemma run_thread (p : prog E A) w ts c r d i a :
  ts !! i = Some (Running p) → (run h p w).2 = Done a →
  rtc (pstep sp) (Pool w ts c r d) (Pool (run h p w).1 (<[i := Sending a]> ts) c r d).
Proof.
  revert w ts. induction p as [b|m|T e k IH]; simpl; intros w ts Hi Ha; [|done|].
  - injection Ha as ->. apply rtc_once. by constructor.
  - eapply rtc_l; [by apply step_call with (1 := Hi), keeps|].
    rewrite <-(list_insert_insert_eq ts i (Sending a) (Running (k (h T e w).2))).
    apply IH; [|done]. apply list_lookup_insert_eq. by eapply lookup_lt_Some.
Qed.

Lemma run_threads fns w done r w' l :
  run_all fns w = Some (w', l) →
  rtc (pstep sp) (Pool w (replicate done Finished ++ (Running <$> fns)) false r false)
    (Pool w' (replicate (done + length fns) Finished) false (r ++ l) false).
Proof.
  revert w done r l. induction fns as [|p fns IH]; intros w done r l Hrun.
  - injection Hrun as -> <-. by rewrite !app_nil_r, Nat.add_0_r.
  - simpl in Hrun. destruct (run h p w) as [w1 [a|m]] eqn:Hp; [|done].
    destruct (run_all fns w1) as [[w2 l2]|] eqn:Hrest; [|done]. injection Hrun as -> <-.
    assert (Hi : ∀ g, (replicate done Finished ++ g :: (Running <$> fns)) !! done
                      = Some (g : goroutine (E := E) (A := A))).
    { intros g. by rewrite lookup_app_r, length_replicate, Nat.sub_diag by (by rewrite length_replicate). }
    assert (Hins : ∀ g g', <[done := g']> (replicate done Finished ++ g :: (Running <$> fns))
                           = replicate done Finished ++ (g' : goroutine (E := E) (A := A)) :: (Running <$> fns)).
    { intros g g'. by rewrite insert_app_r_alt, length_replicate, Nat.sub_diag
        by (by rewrite length_replicate). }
    etransitivity; [apply (run_thread p _ _ _ _ _ done a); [apply Hi|by rewrite Hp]|].
    rewrite fmap_cons, Hins, Hp. simpl.
    eapply rtc_l; [by apply (step_rendezvous _ _ _ _ done a), Hi|]. rewrite Hins.
    specialize (IH w1 (S done) (r ++ [a]) l2 Hrest).
    rewrite replicate_S_end, <-!app_assoc in IH. rewrite Nat.add_succ_r. exact IH.
Qed.

Lemma RunConcurrently_sequential fns w w' l :
  run_all fns w = Some (w', l) →
  ∃ ts, rtc (pstep sp) (RunConcurrently w fns) (Pool w' ts true l true).
Proof.
  intros Hrun. exists (replicate (length fns) Finished).
  etransitivity; [apply (run_threads fns w 0 [] w' l Hrun)|]. simpl.
  eapply rtc_l; [apply step_close|apply rtc_once, step_drained].
  by induction (length fns).
Qed.

End sequential.

(** ** Evaluation at a concrete pool *)

(** One call, answered by any number. *)
Inductive tick : Type → Type := Tick : tick nat.

Definition any_answer : spec tick unit := {| pre := λ _ _ _, True; post := λ _ _ _ _ _, True |}.

Definition example_pool : list (prog tick bool) :=
  [mret true; n ← trigger Tick; mret (Nat.even n)].

Lemma RunConcurrently_results_witness :
  (∀ T (e : tick T) (w : unit), ∃ t w', post any_answer _ e t w w') ∧
  Acc (flip (pstep any_answer)) (RunConcurrently tt example_pool).
Proof.
  assert (Htot : ∀ T (e : tick T) (w : unit), ∃ t w', post any_answer _ e t w w')
    by (intros T []; exists 0, tt; exact I).
  split; [exact Htot|].
  exact (proj1 (RunConcurrently_results any_answer tt example_pool Htot)).
Defined.
