(* ===== verification/CsiUtils.v ===== *)
(** * Volumes, mounts, environment and arguments of the Ceph CSI containers
    (internal/utils/csi.go) *)
From S2P Require Import Prelude Prog K8s ApiTypes Cluster CoreUtils.
Local Open Scope string_scope.

(** ** Constants *)
Definition SocketDir : string := "/csi".
Definition csiEndpoint : string := "unix://" ++ SocketDir ++ "/csi.sock".
Definition csiAddonsEndpoint : string := "unix://" ++ SocketDir ++ "/csi-addons.sock".

Definition kmsConfigVolumeName : string := "ceph-csi-kms-config".
Definition csiMountInfoVolumeName : string := "ceph-csi-mountinfo".
Definition registrationVolumeName : string := "registration-dir".
Definition pluginDirVolumeName : string := "plugin-dir".
Definition podsMountDirVolumeName : string := "pods-mount-dir".
Definition pluginMountDirVolumeName : string := "plugin-mount-dir".

Definition CsiConfigMapConfigKey : string := "config.json".
Definition CsiConfigMapMappingKey : string := "cluster-mapping.json".

Definition logsDirVolumeName : string := "logs-dir".
Definition logRotateDirVolumeName : string := "log-rotate-dir".

(** corev1 constants the file mentions *)
Definition StorageMediumMemory : string := "Memory".
Definition HostPathDirectoryOrCreate : string := "DirectoryOrCreate".
Definition HostPathDirectory : string := "Directory".
Definition MountPropagationBidirectional : string := "Bidirectional".

(** The name of [CsiConfigVolume], which names the config map too. *)
Definition CsiConfigVolume_Name : string := "ceph-csi-config".

(** The config map of a namespace the drivers mount. *)
Definition config_key (ns : string) : NamespacedName :=
  {| Key_Namespace := ns; Key_Name := CsiConfigVolume_Name |}.

Definition LogRotateConfigMapName (driverName : string) : string :=
  driverName ++ "-logrotate-config".

(** ** Volumes *)
Section volumes.
Context {lib : ApiLib}.

Definition SocketDirVolume : Volume :=
  {| Volume_Name := "socket-dir"; Volume_Source := emptydir_source StorageMediumMemory |}.

Definition HostDevVolume : Volume :=
  {| Volume_Name := "host-dev"; Volume_Source := hostpath_source "/dev" None |}.

Definition HostSysVolume : Volume :=
  {| Volume_Name := "host-sys"; Volume_Source := hostpath_source "/sys" None |}.

Definition HostRunMountVolume : Volume :=
  {| Volume_Name := "host-run-mount"; Volume_Source := hostpath_source "/run/mount" None |}.

Definition LibModulesVolume : Volume :=
  {| Volume_Name := "lib-modules"; Volume_Source := hostpath_source "/lib/modules" None |}.

Definition KeysTmpDirVolume : Volume :=
  {| Volume_Name := "keys-tmp-dir"; Volume_Source := emptydir_source StorageMediumMemory |}.

Definition OidcTokenVolume : Volume := {|
  Volume_Name := "oidc-token";
  Volume_Source := projected_source
    [{| Proj_ServiceAccountToken := Some {| SAT_Path := "oidc-token";
                                            SAT_ExpirationSeconds := Some 3600%Z;
                                            SAT_Audience := "ceph-csi-kms" |};
        Proj_other := zero_OtherVolumeProjection |}] |}.

Definition CsiConfigVolume : Volume :=
  {| Volume_Name := CsiConfigVolume_Name;
     Volume_Source := configmap_source "ceph-csi-config" [] |}.

Definition EtcSelinuxVolume : Volume :=
  {| Volume_Name := "etc-selinux"; Volume_Source := hostpath_source "/etc/selinux" None |}.

Definition CsiMountInfoVolume (kubeletDirPath driverName : string) : Volume := {|
  Volume_Name := csiMountInfoVolumeName;
  Volume_Source := hostpath_source (kubeletDirPath ++ "/plugins/" ++ driverName ++ "/mountinfo")
                     (Some HostPathDirectoryOrCreate) |}.

Definition KmsConfigVolume (configRef : string) : Volume := {|
  Volume_Name := kmsConfigVolumeName;
  Volume_Source := configmap_source configRef
    [{| KTP_Key := "config.json"; KTP_Path := "config.json"; KTP_Mode := None |}] |}.

Definition PluginMountDirVolume (kubeletDirPath : string) : Volume := {|
  Volume_Name := pluginMountDirVolumeName;
  Volume_Source := hostpath_source (kubeletDirPath ++ "/plugins") (Some HostPathDirectory) |}.

Definition PluginDirVolume (kubeletDirPath driverNamePrefix : string) : Volume := {|
  Volume_Name := pluginDirVolumeName;
  Volume_Source := hostpath_source (kubeletDirPath ++ "/plugins/" ++ driverNamePrefix)
                     (Some HostPathDirectoryOrCreate) |}.

Definition RegistrationDirVolume (kubeletDirPath : string) : Volume := {|
  Volume_Name := registrationVolumeName;
  Volume_Source := hostpath_source (kubeletDirPath ++ "/plugins_registry")
                     (Some HostPathDirectory) |}.

Definition PodsMountDirVolume (kubeletDirPath : string) : Volume := {|
  Volume_Name := podsMountDirVolumeName;
  Volume_Source := hostpath_source (kubeletDirPath ++ "/pods") (Some HostPathDirectory) |}.

Definition LogsDirVolume (logHostPath pluginName : string) : Volume := {|
  Volume_Name := logsDirVolumeName;
  Volume_Source := hostpath_source (logHostPath ++ "/" ++ pluginName)
                     (Some HostPathDirectoryOrCreate) |}.

Definition LogRotateDirVolumeName (driverName : string) : Volume := {|
  Volume_Name := logRotateDirVolumeName;
  Volume_Source := configmap_source (LogRotateConfigMapName driverName) [] |}.

(** ** Volume mounts *)

Definition SocketDirVolumeMount : VolumeMount :=
  mount (Volume_Name SocketDirVolume) SocketDir false.
Definition HostDevVolumeMount : VolumeMount := mount (Volume_Name HostDevVolume) "/dev" false.
Definition HostSysVolumeMount : VolumeMount := mount (Volume_Name HostSysVolume) "/sys" false.
Definition HostRunMountVolumeMount : VolumeMount :=
  mount (Volume_Name HostRunMountVolume) "/run/mount" false.
Definition LibModulesVolumeMount : VolumeMount :=
  mount (Volume_Name LibModulesVolume) "/lib/modules" true.
Definition KeysTmpDirVolumeMount : VolumeMount :=
  mount (Volume_Name KeysTmpDirVolume) "/tmp/csi/keys" false.
Definition OidcTokenVolumeMount : VolumeMount :=
  mount (Volume_Name OidcTokenVolume) "/run/secrets/tokens" true.
Definition CsiConfigVolumeMount : VolumeMount :=
  mount (Volume_Name CsiConfigVolume) "/etc/ceph-csi-config" false.
Definition CsiMountInfoVolumeMount : VolumeMount :=
  mount csiMountInfoVolumeName "/csi/mountinfo" false.
Definition KmsConfigVolumeMount : VolumeMount :=
  mount kmsConfigVolumeName "/etc/ceph-csi-encryption-kms-config/" true.
Definition PluginDirVolumeMount : VolumeMount := mount pluginDirVolumeName "/csi" false.
Definition RegistrationDirVolumeMount : VolumeMount :=
  mount registrationVolumeName "/registration" false.
Definition EtcSelinuxVolumeMount : VolumeMount :=
  mount (Volume_Name EtcSelinuxVolume) "/etc/selinux" true.
Definition LogsDirVolumeMount : VolumeMount := mount logsDirVolumeName "/csi-logs" false.
Definition LogRotateDirVolumeMount : VolumeMount :=
  mount logRotateDirVolumeName "/logrotate-config" false.

End volumes.

Definition PodsMountDirVolumeMount (kubletDirPath : string) : VolumeMount := {|
  Mount_Name := podsMountDirVolumeName; Mount_ReadOnly := false;
  Mount_RecursiveReadOnly := None; Mount_MountPath := kubletDirPath ++ "/pods";
  Mount_SubPath := ""; Mount_MountPropagation := Some MountPropagationBidirectional;
  Mount_SubPathExpr := "" |}.

Definition PluginMountDirVolumeMount (kubletDirPath : string) : VolumeMount := {|
  Mount_Name := pluginMountDirVolumeName; Mount_ReadOnly := false;
  Mount_RecursiveReadOnly := None; Mount_MountPath := kubletDirPath ++ "/plugins";
  Mount_SubPath := ""; Mount_MountPropagation := Some MountPropagationBidirectional;
  Mount_SubPathExpr := "" |}.

(** ** Environment variables *)

Definition PodIpEnvVar : EnvVar := {| Env_Name := "POD_IP"; Env_FieldPath := "status.podIP" |}.
Definition PodNameEnvVar : EnvVar :=
  {| Env_Name := "POD_NAME"; Env_FieldPath := "metadata.name" |}.
Definition PodNamespaceEnvVar : EnvVar :=
  {| Env_Name := "POD_NAMESPACE"; Env_FieldPath := "metadata.namespace" |}.
Definition PodUidEnvVar : EnvVar := {| Env_Name := "POD_UID"; Env_FieldPath := "metadata.uid" |}.
Definition NodeIdEnvVar : EnvVar := {| Env_Name := "NODE_ID"; Env_FieldPath := "spec.nodeName" |}.
Definition DriverNamespaceEnvVar : EnvVar :=
  {| Env_Name := "DRIVER_NAMESPACE"; Env_FieldPath := "metadata.namespace" |}.

(** ** Ports *)

Definition ControllerPluginCsiAddonsContainerRbdPort : ContainerPort :=
  {| ContainerPort_Port := 9070 |}.
Definition ControllerPluginCsiAddonsContainerCephFsPort : ContainerPort :=
  {| ContainerPort_Port := 9080 |}.
Definition NodePluginCsiAddonsContainerPort : ContainerPort := {| ContainerPort_Port := 9071 |}.
Definition SnapshotMetadataGrpcPort : ContainerPort := {| ContainerPort_Port := 50051 |}.

Definition ContainerPortArg (port : ContainerPort) : string :=
  "--controller-port=" ++ itoa (ContainerPort_Port port).

(** ** Arguments *)

Definition CsiAddressContainerArg : string := "--csi-address=" ++ csiEndpoint.
Definition EndpointContainerArg : string := "--endpoint=" ++ csiEndpoint.
Definition CsiAddonsEndpointContainerArg : string := "--csi-addons-endpoint=" ++ csiAddonsEndpoint.
Definition CsiAddonsAddressContainerArg : string := "--csi-addons-address=" ++ csiAddonsEndpoint.
Definition CsiAddonsNodeIdContainerArg : string := "--node-id=$(" ++ Env_Name NodeIdEnvVar ++ ")".
Definition LeaderElectionContainerArg : string := "--leader-election=true".
Definition NodeIdContainerArg : string := "--nodeid=$(" ++ Env_Name NodeIdEnvVar ++ ")".
Definition PidlimitContainerArg : string := "--pidlimit=-1".
Definition ControllerServerContainerArg : string := "--controllerserver=true".
Definition NodeServerContainerArg : string := "--nodeserver=true".
Definition RetryIntervalStartContainerArg : string := "--retry-interval-start=500ms".
Definition DefaultFsTypeContainerArg : string := "--default-fstype=ext4".
Definition HandleVolumeInuseErrorContainerArg : string := "--handle-volume-inuse-error=false".
Definition PodUidContainerArg : string := "--pod-uid=$(" ++ Env_Name PodUidEnvVar ++ ")".
Definition PodContainerArg : string := "--pod=$(" ++ Env_Name PodNameEnvVar ++ ")".
Definition NamespaceContainerArg : string := "--namespace=$(" ++ Env_Name PodNamespaceEnvVar ++ ")".
Definition DriverNamespaceContainerArg : string :=
  "--drivernamespace=$(" ++ Env_Name DriverNamespaceEnvVar ++ ")".
Definition MetricsPathContainerArg : string := "--metricspath=/metrics".
Definition PoolTimeContainerArg : string := "--polltime=60s".
Definition ExtraCreateMetadataContainerArg : string := "--extra-create-metadata=true".
Definition PreventVolumeModeConversionContainerArg : string :=
  "--prevent-volume-mode-conversion=true".
Definition RecoverVolumeExpansionFailureContainerArg : string :=
  "--feature-gates=RecoverVolumeExpansionFailure=true".
Definition EnableVolumeGroupSnapshotsContainerArg : string :=
  "--feature-gates=CSIVolumeGroupSnapshot=true".
Definition ForceCephKernelClientContainerArg : string := "--forcecephkernelclient=true".
Definition LogToStdErrContainerArg : string := "--logtostderr=false".
Definition AlsoLogToStdErrContainerArg : string := "--alsologtostderr=true".
Definition CsiAddonsVolumeConditionArg : string := "--enable-volume-condition=true".
Definition SnapshotMetadataGrpcServicePortArg : string :=
  "--port=" ++ itoa (ContainerPort_Port SnapshotMetadataGrpcPort).
Definition SnapshotMetadataTlsCertArg : string := "--tls-cert=/tmp/certificates/tls.crt".
Definition SnapshotMetadataTlsKeyArg : string := "--tls-key=/tmp/certificates/tls.key".

Definition SnapshotMetadataAudienceArg (driverName : string) : string :=
  "--audience=" ++ driverName.

Definition LogVerbosityContainerArg (level : Z) : string := "--v=" ++ itoa (Clamp level 0 5).

Definition LogFileContainerArg (containerName : string) : string :=
  "--log_file=csi-logs/" ++ containerName ++ ".log".

Definition TypeContainerArg (t : string) : string :=
  if existsb (String.eqb t) ["rbd"; "cephfs"; "nfs"; "nvmeof"; "controller"; "liveness"]
  then "--type=" ++ t else "".

Definition SetFencingContainerArg (on : bool) : string := "--enable-fencing=" ++ fmt_bool on.
Definition TimeoutContainerArg (timeout : Z) : string := "--timeout=" ++ itoa timeout ++ "s".

Definition LeaderElectionNamespaceContainerArg (ns : string) : string :=
  If (negb (String.eqb ns "")) ("--leader-election-namespace=" ++ ns) "".

Definition LeaderElectionLeaseDurationContainerArg (duration : Z) : string :=
  "--leader-election-lease-duration=" ++ itoa duration ++ "s".
Definition LeaderElectionRenewDeadlineContainerArg (deadline : Z) : string :=
  "--leader-election-renew-deadline=" ++ itoa deadline ++ "s".
Definition LeaderElectionRetryPeriodContainerArg (period : Z) : string :=
  "--leader-election-retry-period=" ++ itoa period ++ "s".

Definition DriverNameContainerArg (name : string) : string :=
  If (negb (String.eqb name "")) ("--drivername=" ++ name) "".
Definition ClusterNameContainerArg (name : string) : string :=
  If (negb (String.eqb name "")) ("--clustername=" ++ name) "".
Definition MetricsPortContainerArg (port : Z) : string := "--metricsport=" ++ itoa port.

Definition KubeletRegistrationPathContainerArg (kubeletDirPath driverName : string) : string :=
  "--kubelet-registration-path=" ++ kubeletDirPath ++ "/plugins/" ++ driverName ++ "/csi.sock".
Definition StagingPathContainerArg (kubeletDirPath : string) : string :=
  "--stagingpath=" ++ kubeletDirPath ++ "/plugins/kubernetes.io/csi/".

(** On the entries of the map in the order [range] visits them. *)
Definition KernelMountOptionsContainerArg (options : list (string * string)) : string :=
  If (0 <? length options)%nat ("--kernelmountoptions=" ++ MapToString options "=" ",") "".
Definition FuseMountOptionsContainerArg (options : list (string * string)) : string :=
  If (0 <? length options)%nat ("--fusemountoptions=" ++ MapToString options "=" ",") "".

Definition DomainLabelsContainerArg (options : list string) : string :=
  If (0 <? length options)%nat ("--domainlabels=" ++ strings_Join options ",") "".
Definition TopologyContainerArg (topology : bool) : string :=
  "--feature-gates=Topology=" ++ fmt_bool topology.

(** A nil or empty map and a missing key give a nil slice. *)
Definition GetExtraArgsForContainer (containerName : string)
    (extraArgs : option (gmap string (list string))) : list string :=
  match extraArgs with
  | None => []
  | Some m => default [] (m !! containerName)
  end.
