(* ===== verification/Replication.v ===== *)
(** * The ClientProfileReplication controller
    (internal/controller/clientprofilereplication_controller.go)

    Among the ClientProfileReplication resources that name the same local
    ClientProfile the oldest one is accepted ([Ready]); every other one is
    [Rejected].  The reconciler is a program over the client's calls;
    [winner] is the specification of the choice it makes. *)
From S2P Require Import Prelude Prog K8s ApiTypes Cluster.
Local Open Scope string_scope.

(** ** Definitions *)

Definition clientProfileIndexKey : string := "index:spec.localClientProfile".

(** The function registered with the field indexer. *)
Definition clientProfileIndex (cpr : ClientProfileReplication) : list string :=
  if negb (String.eqb (CPR_LocalClientProfile (Repl_Spec cpr)) "")
  then [CPR_LocalClientProfile (Repl_Spec cpr)] else [].

(** The options of the list calls that go through the index. *)
Definition byClientProfile (ns name : string) : ListOptions :=
  {| InNamespace := Some ns; MatchingFields := Some (clientProfileIndexKey, name) |}.

Definition set_repl_status (phase msg : string) (cpr : ClientProfileReplication)
    : ClientProfileReplication :=
  {| Repl_Meta := Repl_Meta cpr; Repl_Spec := Repl_Spec cpr;
     Repl_Status := {| CPR_Phase := phase; CPR_Message := msg |} |}.

Definition set_repl_phase (phase : string) (cpr : ClientProfileReplication)
    : ClientProfileReplication :=
  set_repl_status phase (CPR_Message (Repl_Status cpr)) cpr.

(** The [less] function of the sort: older first, then by name. *)
Definition less (cprI cprJ : ClientProfileReplication) : bool :=
  let tI := Meta_CreationTimestamp (Repl_Meta cprI) in
  let tJ := Meta_CreationTimestamp (Repl_Meta cprJ) in
  if negb (tI =? tJ)%Z then (tI <? tJ)%Z
  else String.ltb (Meta_Name (Repl_Meta cprI)) (Meta_Name (Repl_Meta cprJ)).

(** [sort.Slice(items, less)].  The items of one namespace have distinct
    names, so [less] orders them totally and every sorting algorithm gives
    the same list; this is insertion sort. *)
Fixpoint insert_item (x : ClientProfileReplication) (l : list ClientProfileReplication)
    : list ClientProfileReplication :=
  match l with
  | [] => [x]
  | y :: l => if less y x then y :: insert_item x l else x :: y :: l
  end.

Definition sort_Slice (items : list ClientProfileReplication) : list ClientProfileReplication :=
  foldr insert_item [] items.

Section reconcile.
Context {lib : ApiLib}.

Definition reconcilePhases (cpr : ClientProfileReplication)
    : M (ClientProfileReplication * option error) :=
  let cpr := set_repl_phase ClientProfileReplicationPhasePending cpr in
  let name := CPR_LocalClientProfile (Repl_Spec cpr) in
  let ns := Meta_Namespace (Repl_Meta cpr) in
  got ← trigger (Get KClientProfile {| Key_Namespace := ns; Key_Name := name |});
  match got with
  | inl err =>
      if IsNotFound err then
        mret (set_repl_status ClientProfileReplicationPhaseRejected
                ("rejected: ClientProfile '" ++ name ++ "' not found") cpr, None)
      else mret (cpr, Some err)
  | inr clientProfile =>
      let profileName := Meta_Name (Profile_Meta clientProfile) in
      listed ← trigger (ListObjs KClientProfileReplication (byClientProfile ns profileName));
      match listed with
      | inl err => mret (cpr, Some err)
      | inr items =>
          match sort_Slice items with
          | [] => Panic (index_panic 0 0)
          | winner :: _ =>
              if String.eqb (Meta_Name (Repl_Meta cpr)) (Meta_Name (Repl_Meta winner))
                 && String.eqb (Meta_Namespace (Repl_Meta cpr)) (Meta_Namespace (Repl_Meta winner))
              then mret (set_repl_status ClientProfileReplicationPhaseReady "accepted" cpr, None)
              else
                mret (set_repl_status ClientProfileReplicationPhaseRejected
                        ("rejected: another ClientProfileReplication '"
                         ++ Meta_Name (Repl_Meta winner)
                         ++ "' is already active for localClientProfile '"
                         ++ profileName ++ "'") cpr, None)
          end
      end
  end.

Definition reconcile (req : NamespacedName) : M (option error) :=
  got ← trigger (Get KClientProfileReplication req);
  match got with
  | inl err => if IsNotFound err then mret None else mret (Some err)
  | inr cpr =>
      '(cpr, reconcileErr) ← reconcilePhases cpr;
      updated ← trigger (StatusUpdate KClientProfileReplication cpr);
      let statusErr := match updated with inl err => Some err | inr _ => None end in
      match reconcileErr with
      | Some err => mret (Some err)
      | None => mret statusErr
      end
  end.

End reconcile.

(** ** The sort *)

Definition age (cpr : ClientProfileReplication) : Z :=
  Meta_CreationTimestamp (Repl_Meta cpr).
Definition repl_name (cpr : ClientProfileReplication) : string := Meta_Name (Repl_Meta cpr).

(** The order of the sort, as a relation. *)
Definition precedes (x y : ClientProfileReplication) : Prop :=
  (age x < age y)%Z ∨ (age x = age y ∧ repl_name x = repl_name y)
  ∨ (age x = age y ∧ String.ltb (repl_name x) (repl_name y) = true).

Lemma string_ltb_total a b : String.ltb a b = true ∨ a = b ∨ String.ltb b a = true.
Proof.
  unfold String.ltb. rewrite (String.compare_antisym b a).
  destruct (String.compare a b) eqn:E; simpl; auto.
  right; left. by apply String.compare_eq_iff.
Qed.

Lemma less_precedes x y : less x y = true → precedes x y.
Proof.
  unfold less, precedes, age, repl_name. destruct (Meta_CreationTimestamp (Repl_Meta x) =? Meta_CreationTimestamp (Repl_Meta y))%Z
    eqn:He; simpl; [apply Z.eqb_eq in He; by auto|].
  intros ?%Z.ltb_lt. by left.
Qed.

Lemma not_less_precedes x y : less y x = false → precedes x y.
Proof.
  unfold less, precedes, age, repl_name. destruct (Meta_CreationTimestamp (Repl_Meta y) =? Meta_CreationTimestamp (Repl_Meta x))%Z
    eqn:He; simpl; [apply Z.eqb_eq in He|apply Z.eqb_neq in He].
  - intros Hl. destruct (string_ltb_total (Meta_Name (Repl_Meta x)) (Meta_Name (Repl_Meta y)))
      as [?|[?|?]]; [auto| |congruence]. auto.
  - intros ?%Z.ltb_ge. left. lia.
Qed.

Lemma ascii_compare_trans a b c :
  Ascii.compare a b = Lt → Ascii.compare b c = Lt → Ascii.compare a c = Lt.
Proof. unfold Ascii.compare. rewrite !N.compare_lt_iff. lia. Qed.

Lemma string_compare_trans a b c :
  String.compare a b = Lt → String.compare b c = Lt → String.compare a c = Lt.
Proof.
  revert b c. induction a as [|x a IH]; intros [|y b] [|z c]; simpl; try done.
  destruct (Ascii.compare x y) eqn:Exy; [| |done].
  - apply Ascii.compare_eq_iff in Exy as ->. destruct (Ascii.compare y z); [|done|done].
    apply IH.
  - intros _. destruct (Ascii.compare y z) eqn:Eyz; [| |done].
    + apply Ascii.compare_eq_iff in Eyz as ->. by rewrite Exy.
    + intros _. by rewrite (ascii_compare_trans _ _ _ Exy Eyz).
Qed.

Lemma string_ltb_trans a b c :
  String.ltb a b = true → String.ltb b c = true → String.ltb a c = true.
Proof.
  unfold String.ltb.
  destruct (String.compare a b) eqn:Eab; try done. destruct (String.compare b c) eqn:Ebc; try done.
  intros _ _. by rewrite (string_compare_trans _ _ _ Eab Ebc).
Qed.

#[export] Instance precedes_trans : Transitive precedes.
Proof.
  intros x y z [?|[[? ?]|[? ?]]] [?|[[? ?]|[? ?]]]; unfold precedes; try (left; lia);
    right; [left| | |]; try (right; split; [lia|]); try (split; [lia|]); try congruence.
  by eapply string_ltb_trans.
Qed.

Lemma elem_of_insert_item x l y : y ∈ insert_item x l ↔ y = x ∨ y ∈ l.
Proof.
  induction l as [|z l IH]; simpl; [set_solver|]. destruct (less z x); set_solver.
Qed.

Lemma insert_item_head x l w r :
  insert_item x l = w :: r → (∀ y, y ∈ l → ∀ h t, l = h :: t → precedes h y) →
  precedes w x ∧ ∀ y, y ∈ l → precedes w y.
Proof.
  assert (Hrefl : ∀ z, precedes z z) by (intros z; right; left; done).
  destruct l as [|z l]; simpl.
  - intros [= <- _] _. split; [apply Hrefl|set_solver].
  - destruct (less z x) eqn:Hl; intros [= <- _] Hh.
    + split; [by apply less_precedes|]. intros y Hy. by eapply Hh.
    + split; [apply Hrefl|]. intros y Hy. transitivity z; [by apply not_less_precedes|].
      by eapply Hh.
Qed.

(** The head of the sorted list precedes every item. *)
Lemma sort_Slice_head items w r :
  sort_Slice items = w :: r → w ∈ items ∧ ∀ y, y ∈ items → precedes w y.
Proof.
  revert w r. induction items as [|x items IH]; simpl; intros w r Hs; [done|].
  assert (Hmem : ∀ y, y ∈ sort_Slice items ↔ y ∈ items).
  { clear. induction items as [|x l IH]; simpl; [done|]. intros y.
    rewrite elem_of_insert_item, IH, elem_of_cons. done. }
  assert (Hw : w = x ∨ w ∈ items).
  { rewrite <- Hmem. apply elem_of_insert_item. rewrite Hs. by left. }
  destruct (insert_item_head _ _ _ _ Hs) as [H1 H2].
  { intros y Hy h t Heq. apply (IH h t Heq). by apply Hmem. }
  split; [rewrite elem_of_cons; done|].
  intros y [->|Hy]%elem_of_cons; [done|]. apply H2, Hmem, Hy.
Qed.

Lemma sort_Slice_nil items : sort_Slice items = [] → items = [].
Proof.
  destruct items as [|x items]; [done|].
  change (sort_Slice (x :: items)) with (insert_item x (sort_Slice items)).
  destruct (sort_Slice items) as [|y l]; simpl; [done|]. by destruct (less y x).
Qed.

(** ** The election *)

Section election.
Context {lib : ApiLib}.

(** The cluster seen by one reconcile iteration: the profile exists and the
    list call answers [items]. *)
Definition snapshot (profile : ClientProfile) (items : list ClientProfileReplication)
    : spec call unit := {|
  pre := λ _ _ _, True;
  post := λ T e t _ _,
    match e in call T return T → Prop with
    | Get KClientProfile _ => λ t, t = inr profile
    | ListObjs KClientProfileReplication _ => λ t, t = inr items
    | _ => λ _, True
    end t |}.

(** The resource that wins among [items]: the oldest, ties broken by name. *)
Definition winner (items : list ClientProfileReplication) (w : ClientProfileReplication) : Prop :=
  w ∈ items ∧ ∀ y, y ∈ items → precedes w y.

Lemma same_name_eq items x y :
  NoDup (repl_name <$> items) → x ∈ items → y ∈ items → repl_name x = repl_name y → x = y.
Proof.
  intros Hnd [i Hi]%list_elem_of_lookup [j Hj]%list_elem_of_lookup He.
  assert (i = j) as ->; [|congruence].
  eapply NoDup_lookup; [exact Hnd| |]; rewrite list_lookup_fmap.
  - by rewrite Hi.
  - rewrite Hj. simpl. by rewrite He.
Qed.

(** C8: when the list call answers a non-empty list of resources of one
    namespace with distinct names, one of them, the oldest (ties broken by
    name), is elected: reconciling any resource of the list ends without an
    error and leaves it [Ready] if it is the elected one and [Rejected]
    otherwise.  So two resources reconciled against the same list are never
    both [Ready], and one of them is. *)
Theorem reconcilePhases_elects (profile : ClientProfile) (items : list ClientProfileReplication)
    (ns : string) :
  items ≠ [] →
  NoDup (repl_name <$> items) →
  (∀ x, x ∈ items → Meta_Namespace (Repl_Meta x) = ns) →
  ∃ w, winner items w ∧
    ∀ cpr, cpr ∈ items →
      wp (snapshot profile items) (reconcilePhases cpr)
        (λ _ o, ∃ cpr', o = Done (cpr', None)
           ∧ (CPR_Phase (Repl_Status cpr') = ClientProfileReplicationPhaseReady ↔ cpr = w)
           ∧ (CPR_Phase (Repl_Status cpr') = ClientProfileReplicationPhaseRejected ↔ cpr ≠ w)
           ∧ Repl_Meta cpr' = Repl_Meta cpr ∧ Repl_Spec cpr' = Repl_Spec cpr) tt.
Proof.
  intros Hne Hnd Hns. destruct (sort_Slice items) as [|w r] eqn:Hs.
  { by apply sort_Slice_nil in Hs. }
  apply sort_Slice_head in Hs as Hw. exists w. split; [exact Hw|].
  intros cpr Hin. simpl. split; [done|]. intros t [] ->. simpl. split; [done|].
  intros t [] ->. rewrite Hs. destruct Hw as [Hw _]. unfold repl_name.
  rewrite (Hns cpr Hin), (Hns w Hw), String.eqb_refl, andb_true_r.
  destruct (String.eqb_spec (Meta_Name (Repl_Meta cpr)) (Meta_Name (Repl_Meta w))) as [He|He];
    simpl; eexists; (split; [done|]); simpl.
  - by rewrite (same_name_eq items cpr w).
  - assert (cpr ≠ w) by congruence. by split_and!.
Qed.

(** C39: the list the winner is taken from is not checked for emptiness: when
    the second read finds no resource for the profile any more, as a cache
    read after a deletion may, the reconcile iteration panics. *)
Theorem reconcilePhases_empty_list_panics (profile : ClientProfile)
    (cpr : ClientProfileReplication) :
  wp (snapshot profile []) (reconcilePhases cpr)
    (λ _ o, o = Panicked (index_panic 0 0)) tt.
Proof.
  simpl. split; [done|]. intros t [] ->. simpl. split; [done|]. by intros t [] ->.
Qed.

(** ** What one iteration writes *)

Definition repl_calls_ok (req : NamespacedName) (T : Type) (e : call T) : Prop :=
  match e with
  | Get KClientProfileReplication key => key = req
  | Get KClientProfile _ => True
  | ListObjs KClientProfileReplication _ => True
  | StatusUpdate KClientProfileReplication cpr =>
      CPR_Phase (Repl_Status cpr) ∈ [ClientProfileReplicationPhasePending;
        ClientProfileReplicationPhaseReady; ClientProfileReplicationPhaseRejected]
  | _ => False
  end.

Lemma repl_calls_reconcile (req : NamespacedName) :
  all_calls (repl_calls_ok req) (reconcile req).
Proof.
  unfold all_calls. simpl. split; [done|]. intros [err|cpr] [] _.
  { destruct (IsNotFound err); done. }
  simpl. split; [done|]. intros [err|profile] [] _.
  { destruct (IsNotFound err); simpl; (split; [set_solver|done]). }
  simpl. split; [done|]. intros [err|items] [] _; [by simpl; split; [set_solver|]|].
  destruct (sort_Slice items) as [|w r]; [done|].
  destruct (_ && _); simpl; (split; [set_solver|done]).
Qed.

(** The calls of an iteration for [req], over the resource it has read: one
    read of that resource, reads of the profile it names and of the resources
    that name that profile, and the update of its status alone. *)
Definition repl_guard (req : NamespacedName) : spec call (option ClientProfileReplication) := {|
  pre := λ T e last,
    match e with
    | Get KClientProfileReplication key => last = None ∧ key = req
    | Get KClientProfile key =>
        ∃ x, last = Some x ∧ key = {| Key_Namespace := Meta_Namespace (Repl_Meta x);
                                      Key_Name := CPR_LocalClientProfile (Repl_Spec x) |}
    | ListObjs KClientProfileReplication opts =>
        ∃ x, last = Some x
             ∧ opts = byClientProfile (Meta_Namespace (Repl_Meta x)) (CPR_LocalClientProfile (Repl_Spec x))
    | StatusUpdate KClientProfileReplication cpr =>
        ∃ x, last = Some x ∧ Repl_Meta cpr = Repl_Meta x ∧ Repl_Spec cpr = Repl_Spec x
             ∧ CPR_Phase (Repl_Status cpr) ∈ [ClientProfileReplicationPhasePending;
                 ClientProfileReplicationPhaseReady; ClientProfileReplicationPhaseRejected]
    | _ => False
    end;
  post := λ T e,
    match e in call T return T → option ClientProfileReplication → option ClientProfileReplication → Prop with
    | Get KClientProfileReplication _ => λ t last last',
        last' = match t with inl _ => last | inr x => Some x end
    | Get KClientProfile key => λ t last last', last' = last ∧
        match t with inl _ => True | inr p => meta_key (Profile_Meta p) = key end
    | _ => λ _ last last', last' = last
    end |}.


End election.

(** ** Evaluation at concrete resources *)

#[local] Existing Instance plain_lib.

(** Two replications of profile [p]: [b] is the older one. *)
Definition example_repl (name : string) (created : Z) : ClientProfileReplication := {|
  Repl_Meta := {| Meta_Name := name; Meta_Namespace := "ns"; Meta_UID := "";
    Meta_ResourceVersion := ""; Meta_Generation := 1; Meta_CreationTimestamp := created;
    Meta_DeletionTimestamp := None; Meta_Labels := ∅; Meta_Annotations := ∅;
    Meta_OwnerReferences := []; Meta_Finalizers := [] |};
  Repl_Spec := {| CPR_LocalClientProfile := "p"; CPR_RemoteClientProfile := "q"; CPR_RBD := None |};
  Repl_Status := {| CPR_Phase := ""; CPR_Message := "" |} |}.

Definition example_profile : ClientProfile := {|
  Profile_Meta := new_meta "ns" "p";
  Profile_Spec := {| CephConnectionRef := "conn"; CephFs := None; Rbd := None; Nfs := None;
                     Nvmeof := None |};
  Profile_Status := {| ClientProfile_Phase := ""; ClientProfile_Message := "" |} |}.

Lemma reconcilePhases_elects_witness :
  let items := [example_repl "a" 20; example_repl "b" 10] in
  NoDup (repl_name <$> items) ∧
  ∃ w, winner items w ∧
    wp (snapshot example_profile items) (reconcilePhases (example_repl "b" 10))
      (λ _ o, ∃ cpr', o = Done (cpr', None)
         ∧ (CPR_Phase (Repl_Status cpr') = ClientProfileReplicationPhaseReady
            ↔ example_repl "b" 10 = w)) tt.
Proof.
  intros items. assert (Hnd : NoDup (repl_name <$> items)) by (by apply (bool_decide_unpack _)).
  split; [exact Hnd|].
  destruct (reconcilePhases_elects example_profile items "ns") as (w & Hw & Hel);
    [discriminate|exact Hnd| |].
  { intros x Hx. apply list_elem_of_In in Hx. destruct Hx as [<-|[<-|[]]]; reflexivity. }
  exists w. split; [exact Hw|].
  eapply wp_mono; [apply Hel; right; left|].
  intros [] o (cpr' & ? & ? & _). exists cpr'. split; assumption.
Defined.
