(* ===== verification/Json.v ===== *)
(** * encoding/json, as far as the operator uses it

    The operator stores its configuration as JSON text in a config map and
    in an annotation: [json.Marshal] writes compact text with the HTML-safe
    escapes, [json.Unmarshal] parses any JSON text.  [json] is the syntax
    tree between the Go values and the text; the encoders and decoders of
    the Go types are with the code that uses them.

    A Go string is a byte sequence.  Both directions work on its UTF-8
    runes and replace a byte that belongs to no rune by U+FFFD
    ([sanitize]). *)
From S2P Require Import Prelude.
From Stdlib Require Import DecimalString DecimalZ ZifyBool ZifyN.

(** ** Syntax trees; a number is kept as its literal *)
Inductive json :=
| JNull
| JBool (b : bool)
| JNum (lit : string)
| JStr (s : string)
| JArr (l : list json)
| JObj (l : list (string * json)).

(** Induction over the nested lists. *)
Section json_ind.
Variable P : json → Prop.
Hypothesis Hnull : P JNull.
Hypothesis Hbool : ∀ b, P (JBool b).
Hypothesis Hnum : ∀ s, P (JNum s).
Hypothesis Hstr : ∀ s, P (JStr s).
Hypothesis Harr : ∀ l, Forall P l → P (JArr l).
Hypothesis Hobj : ∀ l, Forall (λ kv, P kv.2) l → P (JObj l).

Fixpoint json_nested_ind (j : json) : P j :=
  match j with
  | JNull => Hnull
  | JBool b => Hbool b
  | JNum s => Hnum s
  | JStr s => Hstr s
  | JArr l => Harr l ((fix go l : Forall P l :=
                         match l with
                         | [] => List.Forall_nil _
                         | x :: l => List.Forall_cons _ x l (json_nested_ind x) (go l)
                         end) l)
  | JObj l => Hobj l ((fix go l : Forall (λ kv, P kv.2) l :=
                         match l with
                         | [] => List.Forall_nil _
                         | x :: l => List.Forall_cons _ x l (json_nested_ind x.2) (go l)
                         end) l)
  end.
End json_ind.

(** ** Runes *)

Definition byte (c : ascii) : N := N_of_ascii c.
Definition in_range (c : ascii) (lo hi : N) : bool := ((lo <=? byte c) && (byte c <=? hi))%N.
Definition cont (c : ascii) : bool := in_range c 128 191.

(** The well-formed two-, three- and four-byte sequences of UTF-8. *)
Definition rune2 (c0 c1 : ascii) : bool := in_range c0 194 223 && cont c1.
Definition rune3 (c0 c1 c2 : ascii) : bool :=
  ((in_range c0 224 224 && in_range c1 160 191)
   || (in_range c0 225 236 && cont c1)
   || (in_range c0 237 237 && in_range c1 128 159)
   || (in_range c0 238 239 && cont c1)) && cont c2.
Definition rune4 (c0 c1 c2 c3 : ascii) : bool :=
  ((in_range c0 240 240 && in_range c1 144 191)
   || (in_range c0 241 243 && cont c1)
   || (in_range c0 244 244 && in_range c1 128 143)) && cont c2 && cont c3.

Inductive rune :=
| R1 (c : ascii)
| R2 (c0 c1 : ascii)
| R3 (c0 c1 c2 : ascii)
| R4 (c0 c1 c2 c3 : ascii)
| RBad (c : ascii).

(** Decoding with [utf8.DecodeRune], rune by rune. *)
Fixpoint runes (s : string) : list rune :=
  match s with
  | EmptyString => []
  | String c0 s1 =>
      if (byte c0 <? 128)%N then R1 c0 :: runes s1
      else
        match s1 with
        | String c1 s2 =>
            if rune2 c0 c1 then R2 c0 c1 :: runes s2
            else
              match s2 with
              | String c2 s3 =>
                  if rune3 c0 c1 c2 then R3 c0 c1 c2 :: runes s3
                  else
                    match s3 with
                    | String c3 s4 =>
                        if rune4 c0 c1 c2 c3 then R4 c0 c1 c2 c3 :: runes s4
                        else RBad c0 :: runes s1
                    | EmptyString => RBad c0 :: runes s1
                    end
              | EmptyString => RBad c0 :: runes s1
              end
        | EmptyString => RBad c0 :: runes s1
        end
  end.

Definition byte_of (n : N) : ascii := ascii_of_N n.

(** The bytes of a rune, with U+FFFD for a byte that is in no rune, in front
    of [rest]. *)
Definition put_rune (r : rune) (rest : string) : string :=
  match r with
  | R1 c => String c rest
  | R2 c0 c1 => String c0 (String c1 rest)
  | R3 c0 c1 c2 => String c0 (String c1 (String c2 rest))
  | R4 c0 c1 c2 c3 => String c0 (String c1 (String c2 (String c3 rest)))
  | RBad _ => String (byte_of 239) (String (byte_of 191) (String (byte_of 189) rest))
  end.

Definition sanitize (s : string) : string := foldr put_rune EmptyString (runes s).

(** A string without bytes outside runes. *)
Definition valid_utf8 (s : string) : bool :=
  forallb (λ r, match r with RBad _ => false | _ => true end) (runes s).

(** ** Printing: [json.Marshal]; the text goes in front of [rest] *)

Definition dquote : ascii := ascii_of_N 34.
Definition bslash : ascii := ascii_of_N 92.

Definition hex_digit (n : N) : ascii :=
  if (n <? 10)%N then ascii_of_N (48 + n) else ascii_of_N (87 + n).

(** [\u00XY] *)
Definition escape_u (n : N) (rest : string) : string :=
  String bslash (String "u"%char (String "0"%char (String "0"%char
    (String (hex_digit (n / 16)) (String (hex_digit (n mod 16)) rest))))).

Definition escape_byte (c : ascii) (rest : string) : string :=
  let n := byte c in
  if (n =? 34)%N || (n =? 92)%N then String bslash (String c rest)
  else if (n =? 8)%N then String bslash (String "b"%char rest)
  else if (n =? 12)%N then String bslash (String "f"%char rest)
  else if (n =? 10)%N then String bslash (String "n"%char rest)
  else if (n =? 13)%N then String bslash (String "r"%char rest)
  else if (n =? 9)%N then String bslash (String "t"%char rest)
  else if (n <? 32)%N || (n =? 60)%N || (n =? 62)%N || (n =? 38)%N then escape_u n rest
  else String c rest.

(** U+2028 and U+2029, which are written escaped. *)
Definition line_separator (c0 c1 c2 : ascii) : bool :=
  (byte c0 =? 226)%N && (byte c1 =? 128)%N && ((byte c2 =? 168)%N || (byte c2 =? 169)%N).

Definition escape_rune (r : rune) (rest : string) : string :=
  match r with
  | R1 c => escape_byte c rest
  | R3 c0 c1 c2 =>
      if line_separator c0 c1 c2 then
        String bslash (String "u"%char (String "2"%char (String "0"%char (String "2"%char
          (String (hex_digit (byte c2 - 160)) rest)))))
      else put_rune r rest
  | RBad _ =>
      String bslash (String "u"%char (String "f"%char (String "f"%char (String "f"%char
        (String "d"%char rest)))))
  | _ => put_rune r rest
  end.

Definition print_string (s : string) (rest : string) : string :=
  String dquote (foldr escape_rune (String dquote rest) (runes s)).

(** Comma-separated items and the closing bracket. *)
Definition print_seq {X} (f : X → string → string) (close : ascii) :=
  fix go (first : bool) (l : list X) (rest : string) : string :=
    match l with
    | [] => String close rest
    | x :: l =>
        let text := f x (go false l rest) in
        if first then text else String ","%char text
    end.

Fixpoint print (j : json) (rest : string) : string :=
  match j with
  | JNull => ("null" ++ rest)%string
  | JBool true => ("true" ++ rest)%string
  | JBool false => ("false" ++ rest)%string
  | JNum lit => (lit ++ rest)%string
  | JStr s => print_string s rest
  | JArr l => String "["%char (print_seq print "]"%char true l rest)
  | JObj l =>
      String "{"%char
        (print_seq (λ kv r, print_string kv.1 (String ":"%char (print kv.2 r))) "}"%char true l rest)
  end.

Definition json_text (j : json) : string := print j EmptyString.

(** ** Parsing: [json.Unmarshal] up to the syntax tree *)

Definition is_space (c : ascii) : bool :=
  (byte c =? 32)%N || (byte c =? 9)%N || (byte c =? 10)%N || (byte c =? 13)%N.

Fixpoint skip_space (s : string) : string :=
  match s with
  | String c rest => if is_space c then skip_space rest else s
  | EmptyString => s
  end.

Definition digit (c : ascii) : bool := in_range c 48 57.

Fixpoint span_digits (s : string) : string * string :=
  match s with
  | String c rest =>
      if digit c then let r := span_digits rest in (String c r.1, r.2) else (EmptyString, s)
  | EmptyString => (EmptyString, EmptyString)
  end.

(** The integer part: 0, or digits not starting with 0. *)
Definition parse_int (s : string) : option (string * string) :=
  match s with
  | String c rest =>
      if (byte c =? 48)%N then Some (String c EmptyString, rest)
      else if digit c then let r := span_digits rest in Some (String c r.1, r.2)
      else None
  | EmptyString => None
  end.

(** At least one digit. *)
Definition parse_digits1 (s : string) : option (string * string) :=
  match span_digits s with
  | (EmptyString, _) => None
  | r => Some r
  end.

Definition parse_frac (s : string) : option (string * string) :=
  match s with
  | String c rest =>
      if (byte c =? 46)%N then
        match parse_digits1 rest with
        | Some (d, rest) => Some (String c d, rest)
        | None => None
        end
      else Some (EmptyString, s)
  | EmptyString => Some (EmptyString, s)
  end.

Definition parse_exp (s : string) : option (string * string) :=
  match s with
  | String c rest =>
      if (byte c =? 101)%N || (byte c =? 69)%N then
        let '(sign, rest) :=
          match rest with
          | String c' rest' =>
              if (byte c' =? 43)%N || (byte c' =? 45)%N
              then (String c' EmptyString, rest') else (EmptyString, rest)
          | EmptyString => (EmptyString, rest)
          end in
        match parse_digits1 rest with
        | Some (d, rest) => Some (String c (sign ++ d)%string, rest)
        | None => None
        end
      else Some (EmptyString, s)
  | EmptyString => Some (EmptyString, s)
  end.

Definition parse_number (s : string) : option (string * string) :=
  let '(sign, s) :=
    match s with
    | String c rest => if (byte c =? 45)%N then (String c EmptyString, rest) else (EmptyString, s)
    | EmptyString => (EmptyString, s)
    end in
  '(i, s) ← parse_int s;
  '(f, s) ← parse_frac s;
  '(e, s) ← parse_exp s;
  Some ((sign ++ i ++ f ++ e)%string, s).

Definition hex_value (c : ascii) : option N :=
  let n := byte c in
  if in_range c 48 57 then Some (n - 48)%N
  else if in_range c 97 102 then Some (n - 87)%N
  else if in_range c 65 70 then Some (n - 55)%N
  else None.

Definition hex4 (a b c d : ascii) : option N :=
  a ← hex_value a; b ← hex_value b; c ← hex_value c; d ← hex_value d;
  Some (a * 4096 + b * 256 + c * 16 + d)%N.

(** [utf8.AppendRune] for a code point that is not a surrogate. *)
Definition put_code (n : N) (rest : string) : string :=
  if (n <? 128)%N then String (byte_of n) rest
  else if (n <? 2048)%N then
    String (byte_of (192 + n / 64)) (String (byte_of (128 + n mod 64)) rest)
  else if (n <? 65536)%N then
    String (byte_of (224 + n / 4096)) (String (byte_of (128 + n / 64 mod 64))
      (String (byte_of (128 + n mod 64)) rest))
  else
    String (byte_of (240 + n / 262144)) (String (byte_of (128 + n / 4096 mod 64))
      (String (byte_of (128 + n / 64 mod 64)) (String (byte_of (128 + n mod 64)) rest))).

Definition replacement : N := 65533.

Definition simple_escape (c : ascii) : option ascii :=
  let n := byte c in
  if (n =? 34)%N || (n =? 92)%N || (n =? 47)%N then Some c
  else if (n =? 98)%N then Some (ascii_of_N 8)
  else if (n =? 102)%N then Some (ascii_of_N 12)
  else if (n =? 110)%N then Some (ascii_of_N 10)
  else if (n =? 114)%N then Some (ascii_of_N 13)
  else if (n =? 116)%N then Some (ascii_of_N 9)
  else None.

(** The second half of a surrogate pair, when the text goes on with one. *)
Definition low_surrogate (s : string) : option (N * string) :=
  match s with
  | String c (String u (String a (String b (String d (String e rest))))) =>
      if (byte c =? 92)%N && (byte u =? 117)%N then
        n ← hex4 a b d e;
        if ((56320 <=? n) && (n <=? 57343))%N then Some (n, rest) else None
      else None
  | _ => None
  end.

(** The contents of a string up to its closing quote, escapes replaced. *)
Fixpoint unescape (fuel : nat) (s : string) : option (string * string) :=
  match fuel with
  | 0 => None
  | S fuel =>
      match s with
      | EmptyString => None
      | String c s =>
          if (byte c =? 34)%N then Some (EmptyString, s)
          else if (byte c <? 32)%N then None
          else if (byte c =? 92)%N then
            match s with
            | EmptyString => None
            | String e s =>
                if (byte e =? 117)%N then
                  match s with
                  | String a (String b (String d (String f s))) =>
                      n ← hex4 a b d f;
                      if ((55296 <=? n) && (n <=? 57343))%N then
                        match (if (n <=? 56319)%N then low_surrogate s else None) with
                        | Some (m, s) =>
                            '(t, rest) ← unescape fuel s;
                            Some (put_code (65536 + (n - 55296) * 1024 + (m - 56320)) t, rest)
                        | None =>
                            '(t, rest) ← unescape fuel s;
                            Some (put_code replacement t, rest)
                        end
                      else
                        '(t, rest) ← unescape fuel s;
                        Some (put_code n t, rest)
                  | _ => None
                  end
                else
                  x ← simple_escape e;
                  '(t, rest) ← unescape fuel s;
                  Some (String x t, rest)
            end
          else
            '(t, rest) ← unescape fuel s;
            Some (String c t, rest)
      end
  end.

(** A string literal after its opening quote. *)
Definition parse_string (s : string) : option (string * string) :=
  '(t, rest) ← unescape (String.length s) s;
  Some (sanitize t, rest).

Fixpoint strip_prefix (p s : string) : option string :=
  match p, s with
  | EmptyString, _ => Some s
  | String a p, String b s => if Ascii.eqb a b then strip_prefix p s else None
  | _, EmptyString => None
  end.

Definition maxNestingDepth : N := 10000.

(** [depth] is the number of arrays and objects open around the value. *)
Fixpoint parse_value (fuel : nat) (depth : N) (s : string) : option (json * string) :=
  match fuel with
  | 0 => None
  | S fuel =>
      match skip_space s with
      | EmptyString => None
      | String c rest =>
          if (byte c =? 34)%N then
            '(t, rest) ← parse_string rest; Some (JStr t, rest)
          else if (byte c =? 91)%N then
            if (depth <? maxNestingDepth)%N then
              match skip_space rest with
              | String e rest' =>
                  if (byte e =? 93)%N then Some (JArr [], rest')
                  else '(l, rest) ← parse_elements fuel (depth + 1) rest; Some (JArr l, rest)
              | EmptyString => None
              end
            else None
          else if (byte c =? 123)%N then
            if (depth <? maxNestingDepth)%N then
              match skip_space rest with
              | String e rest' =>
                  if (byte e =? 125)%N then Some (JObj [], rest')
                  else '(l, rest) ← parse_members fuel (depth + 1) rest; Some (JObj l, rest)
              | EmptyString => None
              end
            else None
          else if (byte c =? 45)%N || digit c then
            '(lit, rest) ← parse_number (String c rest); Some (JNum lit, rest)
          else
            match strip_prefix "null" (String c rest) with
            | Some rest => Some (JNull, rest)
            | None =>
                match strip_prefix "true" (String c rest) with
                | Some rest => Some (JBool true, rest)
                | None =>
                    rest ← strip_prefix "false" (String c rest); Some (JBool false, rest)
                end
            end
      end
  end
with parse_elements (fuel : nat) (depth : N) (s : string) : option (list json * string) :=
  match fuel with
  | 0 => None
  | S fuel =>
      '(x, rest) ← parse_value fuel depth s;
      match skip_space rest with
      | String c rest =>
          if (byte c =? 44)%N then
            '(l, rest) ← parse_elements fuel depth rest; Some (x :: l, rest)
          else if (byte c =? 93)%N then Some ([x], rest)
          else None
      | EmptyString => None
      end
  end
with parse_members (fuel : nat) (depth : N) (s : string)
    : option (list (string * json) * string) :=
  match fuel with
  | 0 => None
  | S fuel =>
      match skip_space s with
      | String q rest =>
          if (byte q =? 34)%N then
            '(k, rest) ← parse_string rest;
            match skip_space rest with
            | String c rest =>
                if (byte c =? 58)%N then
                  '(x, rest) ← parse_value fuel depth rest;
                  match skip_space rest with
                  | String c rest =>
                      if (byte c =? 44)%N then
                        '(l, rest) ← parse_members fuel depth rest; Some ((k, x) :: l, rest)
                      else if (byte c =? 125)%N then Some ([(k, x)], rest)
                      else None
                  | EmptyString => None
                  end
                else None
            | EmptyString => None
            end
          else None
      | EmptyString => None
      end
  end.

(** Every recursive call has consumed a character or descended from a value
    into its first element, so twice the length is fuel enough. *)
Definition parse_json (s : string) : option json :=
  '(j, rest) ← parse_value (S (2 * String.length s)) 0 s;
  match skip_space rest with
  | EmptyString => Some j
  | _ => None
  end.

(** ** The round trip *)

(** *** Runes *)

Definition rune_ok (r : rune) : Prop :=
  match r with
  | R1 c => (byte c < 128)%N
  | R2 c0 c1 => rune2 c0 c1 = true
  | R3 c0 c1 c2 => rune3 c0 c1 c2 = true
  | R4 c0 c1 c2 c3 => rune4 c0 c1 c2 c3 = true
  | RBad _ => True
  end.

Definition replace_bad (r : rune) : rune :=
  match r with RBad _ => R3 (byte_of 239) (byte_of 191) (byte_of 189) | _ => r end.

Ltac runes_lia := unfold rune2, rune3, rune4, cont, in_range in *; lia.

Lemma runes_ok s : Forall rune_ok (runes s).
Proof.
  assert (H : ∀ n s, String.length s < n → Forall rune_ok (runes s)); [|apply (H (S (String.length s))); lia].
  clear s. induction n as [|n IH]; intros s Hn; [lia|].
  destruct s as [|c0 s1]; simpl in *; [constructor|].
  destruct (N.ltb_spec (byte c0) 128); [constructor; [done|apply IH; lia]|].
  assert (Hbad : Forall rune_ok (RBad c0 :: runes s1)) by (constructor; [done|apply IH; lia]).
  destruct s1 as [|c1 s2]; [done|]. destruct (rune2 c0 c1) eqn:E2.
  { constructor; [done|apply IH; simpl in *; lia]. }
  destruct s2 as [|c2 s3]; [done|]. destruct (rune3 c0 c1 c2) eqn:E3.
  { constructor; [done|apply IH; simpl in *; lia]. }
  destruct s3 as [|c3 s4]; [done|]. destruct (rune4 c0 c1 c2 c3) eqn:E4; [|done].
  constructor; [done|apply IH; simpl in *; lia].
Qed.

Lemma runes_put r s : rune_ok r → runes (put_rune r s) = replace_bad r :: runes s.
Proof.
  destruct r as [c|c0 c1|c0 c1 c2|c0 c1 c2 c3|c]; simpl; intros Hok; [| | | |done].
  - by destruct (N.ltb_spec (byte c) 128); [|lia].
  - destruct (N.ltb_spec (byte c0) 128); [runes_lia|]. by rewrite Hok.
  - destruct (N.ltb_spec (byte c0) 128); [runes_lia|].
    destruct (rune2 c0 c1) eqn:E2; [runes_lia|]. by rewrite Hok.
  - destruct (N.ltb_spec (byte c0) 128); [runes_lia|].
    destruct (rune2 c0 c1) eqn:E2; [runes_lia|].
    destruct (rune3 c0 c1 c2) eqn:E3; [runes_lia|]. by rewrite Hok.
Qed.

Lemma runes_sanitize s : runes (sanitize s) = replace_bad <$> runes s.
Proof.
  unfold sanitize. induction (runes_ok s) as [|r rs Hr Hrs IH]; [done|].
  csimpl. by rewrite runes_put, IH.
Qed.

Lemma sanitize_idemp s : sanitize (sanitize s) = sanitize s.
Proof.
  unfold sanitize at 1. rewrite runes_sanitize. unfold sanitize.
  induction (runes s) as [|r rs IH]; [done|]. csimpl. rewrite IH. by destruct r.
Qed.

(** A string of well-formed runes is its own sanitized form. *)
Lemma sanitize_valid s : valid_utf8 s = true → sanitize s = s.
Proof.
  unfold sanitize, valid_utf8.
  assert (H : ∀ n s, String.length s < n →
    forallb (λ r, match r with RBad _ => false | _ => true end) (runes s) = true →
    foldr put_rune "" (runes s) = s); [|apply (H (S (String.length s))); lia].
  clear s. induction n as [|n IH]; intros s Hn; [lia|].
  destruct s as [|c0 s1]; simpl in *; [done|].
  destruct (N.ltb_spec (byte c0) 128); [intros Hv; simpl; rewrite IH; [done|lia|done]|].
  destruct s1 as [|c1 s2]; [done|]. simpl in Hn. destruct (rune2 c0 c1).
  { intros Hv; simpl; rewrite IH; [done|lia|done]. }
  destruct s2 as [|c2 s3]; [done|]. simpl in Hn. destruct (rune3 c0 c1 c2).
  { intros Hv; simpl; rewrite IH; [done|lia|done]. }
  destruct s3 as [|c3 s4]; [done|]. simpl in Hn. destruct (rune4 c0 c1 c2 c3); [|done].
  intros Hv; simpl; rewrite IH; [done|lia|done].
Qed.

(** UTF-8 strings are closed under concatenation. *)
Lemma put_rune_app r a b : (put_rune r a ++ b)%string = put_rune r (a ++ b)%string.
Proof. destruct r; simpl; by rewrite ?string_app_cons. Qed.

Lemma put_runes_app rs b :
  (foldr put_rune EmptyString rs ++ b)%string = foldr put_rune b rs.
Proof. induction rs as [|r rs IH]; csimpl; [done|]. by rewrite put_rune_app, IH. Qed.

Lemma valid_utf8_app a b : valid_utf8 a = true → valid_utf8 b = true → valid_utf8 (a ++ b) = true.
Proof.
  intros Ha Hb. rewrite <-(sanitize_valid a Ha). unfold sanitize. rewrite put_runes_app.
  unfold valid_utf8 in *. induction (runes_ok a) as [|r rs Hr _ IH]; [done|]. csimpl in *.
  apply andb_true_iff in Ha as [Hr' Ha]. rewrite runes_put by done. csimpl.
  rewrite IH by done. by destruct r.
Qed.

(** *** Strings *)

Lemma unescape_plain f c tl :
  (32 ≤ byte c)%N → byte c ≠ 34%N → byte c ≠ 92%N →
  unescape (S f) (String c tl) = '(t, rest) ← unescape f tl; Some (String c t, rest).
Proof.
  intros H1 H2 H3. cbn [unescape].
  destruct (N.eqb_spec (byte c) 34); [done|]. destruct (N.ltb_spec (byte c) 32); [lia|].
  by destruct (N.eqb_spec (byte c) 92).
Qed.

Lemma unescape_simple f e x tl :
  byte e ≠ 117%N → simple_escape e = Some x →
  unescape (S f) (String bslash (String e tl))
  = '(t, rest) ← unescape f tl; Some (String x t, rest).
Proof.
  intros He Hx. cbn [unescape]. change (byte bslash) with 92%N. simpl.
  destruct (N.eqb_spec (byte e) 117); [done|]. by rewrite Hx.
Qed.

Lemma unescape_u f a b d e n tl :
  hex4 a b d e = Some n → ((55296 <=? n) && (n <=? 57343))%N = false →
  unescape (S f) (String bslash (String "u"%char
    (String a (String b (String d (String e tl))))))
  = '(t, rest) ← unescape f tl; Some (put_code n t, rest).
Proof.
  intros Hx Hn. cbn [unescape]. change (byte bslash) with 92%N.
  change (byte "u"%char) with 117%N. simpl. rewrite Hx. simpl. by rewrite Hn.
Qed.

Lemma byte_inj c c' : byte c = byte c' → c = c'.
Proof. unfold byte. intros H. by rewrite <-(ascii_N_embedding c), H, ascii_N_embedding. Qed.

(** The hexadecimal digits of an escaped byte. *)
Lemma hex4_escape_u c :
  (byte c < 128)%N →
  hex4 "0" "0" (hex_digit (byte c / 16)) (hex_digit (byte c mod 16)) = Some (byte c).
Proof.
  destruct c as [[] [] [] [] [] [] [] []]; vm_compute; intros H; done.
Qed.

Lemma unescape_escape_byte f c tl :
  (byte c < 128)%N →
  unescape (S f) (escape_byte c tl) = '(t, rest) ← unescape f tl; Some (String c t, rest).
Proof.
  intros Hc. unfold escape_byte, escape_u.
  assert (Hsimple : ∀ e x, byte e ≠ 117%N → simple_escape e = Some x → byte c = byte x →
    unescape (S f) (String bslash (String e tl))
    = '(t, rest) ← unescape f tl; Some (String c t, rest)).
  { intros e x H1 H2 H3. rewrite (unescape_simple f e x) by done.
    by rewrite (byte_inj c x H3). }
  case_match eqn:E1; [apply (Hsimple c c); unfold simple_escape; try lia|].
  { by rewrite E1. }
  do 5 (case_match; [eapply Hsimple; [| reflexivity |]; [done | by apply N.eqb_eq]|]).
  case_match eqn:E2; [|apply unescape_plain; lia].
  rewrite (unescape_u _ _ _ _ _ (byte c)) by (by apply hex4_escape_u || lia).
  unfold put_code. destruct (N.ltb_spec (byte c) 128); [|lia].
  unfold byte_of, byte. by rewrite ascii_N_embedding.
Qed.

Lemma unescape_high f c tl :
  (128 ≤ byte c)%N →
  unescape (S f) (String c tl) = '(t, rest) ← unescape f tl; Some (String c t, rest).
Proof.
  intros Hc. apply unescape_plain; lia.
Qed.

Lemma length_escape_rune r tl : String.length tl < String.length (escape_rune r tl).
Proof.
  destruct r; simpl; try lia.
  - unfold escape_byte, escape_u. repeat case_match; simpl; lia.
  - case_match; simpl; lia.
Qed.

Lemma unescape_runes rs rest fuel :
  Forall rune_ok rs →
  String.length (foldr escape_rune (String dquote rest) rs) ≤ fuel →
  unescape fuel (foldr escape_rune (String dquote rest) rs)
  = Some (foldr put_rune EmptyString rs, rest).
Proof.
  intros Hrs. revert fuel. induction Hrs as [|r rs Hr Hrs IH]; intros fuel Hf.
  { simpl in *. by destruct fuel; [lia|]. }
  csimpl in *. remember (foldr escape_rune (String dquote rest) rs) as tl eqn:E.
  pose proof (length_escape_rune r tl) as Hl.
  destruct r as [c|c0 c1|c0 c1 c2|c0 c1 c2 c3|c]; csimpl in *.
  - destruct fuel as [|f]; [lia|]. rewrite unescape_escape_byte, IH; [done|lia|done].
  - destruct fuel as [|[|f]]; try lia.
    rewrite !unescape_high, IH; [done|lia|runes_lia..].
  - case_match eqn:Hsep; csimpl in *.
    + assert (c0 = byte_of 226 ∧ c1 = byte_of 128 ∧ (c2 = byte_of 168 ∨ c2 = byte_of 169))
        as (-> & -> & Hc2).
      { unfold line_separator in Hsep. rewrite !andb_true_iff, orb_true_iff, !N.eqb_eq in Hsep.
        destruct Hsep as [[? ?] [?|?]]; split_and!; try by apply byte_inj.
        - left. by apply byte_inj.
        - right. by apply byte_inj. }
      destruct fuel as [|f]; [lia|]. destruct Hc2 as [-> | ->].
      * rewrite (unescape_u f _ _ _ _ 8232), IH; [done|lia|done..].
      * rewrite (unescape_u f _ _ _ _ 8233), IH; [done|lia|done..].
    + destruct fuel as [|[|[|f]]]; try lia.
      rewrite !unescape_high, IH; [done|lia|runes_lia..].
  - destruct fuel as [|[|[|[|f]]]]; try lia.
    rewrite !unescape_high, IH; [done|lia|runes_lia..].
  - destruct fuel as [|f]; [lia|]. rewrite (unescape_u f _ _ _ _ 65533), IH; [done|lia|done..].
Qed.

Lemma parse_print_string s rest :
  parse_string (foldr escape_rune (String dquote rest) (runes s)) = Some (sanitize s, rest).
Proof.
  unfold parse_string. rewrite unescape_runes by (apply runes_ok || done).
  csimpl. fold (sanitize s). by rewrite sanitize_idemp.
Qed.

(** *** Numbers *)

(** What may follow a value: nothing, a comma or a closing bracket. *)
Definition delimited (rest : string) : bool :=
  match rest with
  | String c _ => (byte c =? 44)%N || (byte c =? 93)%N || (byte c =? 125)%N
  | EmptyString => true
  end.

(** A number literal in the JSON grammar. *)
Definition number_ok (lit : string) : bool :=
  match parse_number lit with
  | Some (lit', EmptyString) => String.eqb lit lit'
  | _ => false
  end.

Lemma span_digits_app s rest d r :
  span_digits s = (d, r) → delimited rest = true →
  span_digits (s ++ rest) = (d, (r ++ rest)%string).
Proof.
  intros H Hrest. revert d r H. induction s as [|c s IH]; simpl; intros d r H.
  - injection H as <- <-. rewrite string_app_nil_l. destruct rest as [|c rest]; [done|].
    simpl in *. destruct (digit c) eqn:Hd; [|done]. unfold digit, in_range in Hd. lia.
  - destruct (digit c).
    + destruct (span_digits s) as [d' r'] eqn:Hs. injection H as <- <-.
      by rewrite (IH d' r').
    + by injection H as <- <-.
Qed.

(** A parser of a part of a number, run in front of a delimiter. *)
Definition extends (p : string → option (string * string)) : Prop :=
  ∀ s rest x r, p s = Some (x, r) → delimited rest = true →
                p (s ++ rest)%string = Some (x, (r ++ rest)%string).

Lemma extends_int : extends parse_int.
Proof.
  intros [|c s] rest x r H Hrest; simpl in H; [done|].
  rewrite string_app_cons. simpl. case_match; [by injection H as <- <-|].
  case_match; [|done]. injection H as <- <-.
  destruct (span_digits s) as [d' r'] eqn:Hs. by rewrite (span_digits_app s rest d' r').
Qed.

Lemma extends_digits1 : extends parse_digits1.
Proof.
  intros s rest x r H Hrest. unfold parse_digits1 in *.
  destruct (span_digits s) as [d' r'] eqn:Hs. rewrite (span_digits_app s rest d' r') by done.
  destruct d'; [done|]. by injection H as <- <-.
Qed.

Lemma extends_frac : extends parse_frac.
Proof.
  intros s rest x r H Hrest. unfold parse_frac in *. destruct s as [|c s].
  - injection H as <- <-. rewrite !string_app_nil_l. destruct rest as [|c rest]; [done|].
    simpl in Hrest. by destruct (N.eqb_spec (byte c) 46); [lia|].
  - rewrite string_app_cons. destruct (byte c =? 46)%N; [|by injection H as <- <-].
    destruct (parse_digits1 s) as [[d' r']|] eqn:Hd; [|done]. injection H as <- <-.
    by rewrite (extends_digits1 s rest d' r').
Qed.

Lemma extends_exp : extends parse_exp.
Proof.
  intros s rest x r H Hrest. unfold parse_exp in *. destruct s as [|c s].
  - injection H as <- <-. rewrite !string_app_nil_l. destruct rest as [|c rest]; [done|].
    simpl in Hrest. destruct (N.eqb_spec (byte c) 101); [lia|].
    by destruct (N.eqb_spec (byte c) 69); [lia|].
  - rewrite string_app_cons. destruct (_ || _); [|by injection H as <- <-].
    assert (Hd : ∀ sg s', (match parse_digits1 s' with
                           | Some (d, rest) => Some (String c (sg ++ d)%string, rest)
                           | None => None end) = Some (x, r) →
      (match parse_digits1 (s' ++ rest) with
       | Some (d, rest) => Some (String c (sg ++ d)%string, rest)
       | None => None end) = Some (x, (r ++ rest)%string)).
    { intros sg s' H'. destruct (parse_digits1 s') as [[d' r']|] eqn:Hp; [|done].
      injection H' as <- <-. by rewrite (extends_digits1 s' rest d' r'). }
    destruct s as [|c' s]; [done|]. rewrite string_app_cons.
    destruct (_ || _); [by apply Hd|]. rewrite <-string_app_cons. by apply Hd.
Qed.

Lemma extends_number : extends parse_number.
Proof.
  intros s rest x r H Hrest. unfold parse_number in *.
  assert (Hd : ∀ sg s', ('(i, s) ← parse_int s'; '(f, s) ← parse_frac s; '(e, s) ← parse_exp s;
                         Some ((sg ++ i ++ f ++ e)%string, s)) = Some (x, r) →
    ('(i, s) ← parse_int (s' ++ rest)%string; '(f, s) ← parse_frac s; '(e, s) ← parse_exp s;
      Some ((sg ++ i ++ f ++ e)%string, s)) = Some (x, (r ++ rest)%string)).
  { intros sg s' H'.
    destruct (parse_int s') as [[i s1]|] eqn:H1; [|done]. csimpl in *.
    destruct (parse_frac s1) as [[f s2]|] eqn:H2; [|done]. csimpl in *.
    destruct (parse_exp s2) as [[e s3]|] eqn:H3; [|done]. csimpl in *.
    injection H' as <- <-.
    rewrite (extends_int s' rest i s1) by done. csimpl.
    rewrite (extends_frac s1 rest f s2) by done. csimpl.
    by rewrite (extends_exp s2 rest e s3). }
  destruct s as [|c s]; [done|]. rewrite string_app_cons.
  destruct (byte c =? 45)%N; [by apply Hd|]. rewrite <-string_app_cons. by apply Hd.
Qed.

Lemma parse_number_ok lit rest :
  number_ok lit = true → delimited rest = true → parse_number (lit ++ rest) = Some (lit, rest).
Proof.
  unfold number_ok. intros H Hrest. destruct (parse_number lit) as [[l r]|] eqn:Hp; [|done].
  destruct r; [|done]. apply String.eqb_eq in H as <-.
  by rewrite (extends_number lit rest lit EmptyString).
Qed.

Lemma number_ok_head lit :
  number_ok lit = true → ∃ c s, lit = String c s ∧ ((byte c =? 45)%N || digit c) = true.
Proof.
  unfold number_ok, parse_number. intros H. destruct lit as [|c s]; [done|].
  exists c, s. split; [done|]. destruct (byte c =? 45)%N; [done|]. simpl in *.
  destruct (N.eqb_spec (byte c) 48) as [Hc|].
  - unfold digit, in_range. lia.
  - by destruct (digit c).
Qed.

(** *** Values *)

(** The tree with the strings the text can carry. *)
Fixpoint sanitize_json (j : json) : json :=
  match j with
  | JStr s => JStr (sanitize s)
  | JArr l => JArr (sanitize_json <$> l)
  | JObj l => JObj ((λ kv, (sanitize kv.1, sanitize_json kv.2)) <$> l)
  | _ => j
  end.

Fixpoint numbers_ok (j : json) : bool :=
  match j with
  | JNum lit => number_ok lit
  | JArr l => forallb numbers_ok l
  | JObj l => forallb (λ kv, numbers_ok kv.2) l
  | _ => true
  end.

(** Arrays and objects nested in the tree. *)
Fixpoint depth_of (j : json) : N :=
  match j with
  | JArr l => 1 + foldr (λ x n, N.max (depth_of x) n) 0 l
  | JObj l => 1 + foldr (λ kv n, N.max (depth_of kv.2) n) 0 l
  | _ => 0
  end%N.

(** The fuel its text takes. *)
Fixpoint fuel_of (j : json) : nat :=
  match j with
  | JArr l => S (foldr (λ x n, S (fuel_of x) + n) 0 l)
  | JObj l => S (foldr (λ kv n, S (fuel_of kv.2) + n) 0 l)
  | _ => 1
  end.

(** [j] is parsed back from its text, whatever follows. *)
Definition parses_back (j : json) : Prop :=
  ∀ fuel depth rest,
    numbers_ok j = true → (depth + depth_of j ≤ maxNestingDepth)%N → fuel_of j ≤ fuel →
    delimited rest = true →
    parse_value fuel depth (print j rest) = Some (sanitize_json j, rest).

Lemma skip_space_cons c s : is_space c = false → skip_space (String c s) = String c s.
Proof. simpl. by intros ->. Qed.

Lemma skip_space_delimited s : delimited s = true → skip_space s = s.
Proof.
  destruct s as [|c s]; [done|]. simpl. unfold is_space. intros H.
  by replace (_ || _) with false by lia.
Qed.

Lemma delimited_seq {X} (f : X → string → string) close l rest :
  close = "]"%char ∨ close = "}"%char →
  delimited (print_seq f close false l rest) = true.
Proof. by destruct l, 1 as [-> | ->]. Qed.

(** Where the text of a value starts with a bracket, the parser looks
    behind it; the text of a value never starts with a closing one. *)
Lemma print_head j rest :
  numbers_ok j = true →
  ∃ c s, print j rest = String c s ∧ is_space c = false ∧ byte c ≠ 93%N.
Proof.
  destruct j as [|[]|lit|s|l|l]; simpl; intros H; try (by eexists _, _).
  apply number_ok_head in H as (c & s & -> & Hc). eexists c, _. split; [done|].
  unfold digit, in_range, is_space in *. lia.
Qed.

Lemma parse_value_array fuel depth s :
  (depth < maxNestingDepth)%N →
  parse_value (S fuel) depth (String "["%char s) =
  match skip_space s with
  | String e rest' =>
      if (byte e =? 93)%N then Some (JArr [], rest')
      else '(l, rest) ← parse_elements fuel (depth + 1) s; Some (JArr l, rest)
  | EmptyString => None
  end.
Proof.
  intros Hd. cbn [parse_value]. rewrite skip_space_cons by done.
  change (byte "["%char) with 91%N. cbv [N.eqb Pos.eqb].
  by destruct (N.ltb_spec depth maxNestingDepth); [|lia].
Qed.

Lemma parse_value_object fuel depth s :
  (depth < maxNestingDepth)%N →
  parse_value (S fuel) depth (String "{"%char s) =
  match skip_space s with
  | String e rest' =>
      if (byte e =? 125)%N then Some (JObj [], rest')
      else '(l, rest) ← parse_members fuel (depth + 1) s; Some (JObj l, rest)
  | EmptyString => None
  end.
Proof.
  intros Hd. cbn [parse_value]. rewrite skip_space_cons by done.
  change (byte "{"%char) with 123%N. cbv [N.eqb Pos.eqb].
  by destruct (N.ltb_spec depth maxNestingDepth); [|lia].
Qed.

Lemma parse_elements_print l depth fuel rest x :
  Forall parses_back (x :: l) → forallb numbers_ok (x :: l) = true →
  (∀ y, y ∈ x :: l → depth + depth_of y ≤ maxNestingDepth)%N →
  foldr (λ x n, S (fuel_of x) + n) 0 (x :: l) ≤ fuel →
  parse_elements fuel depth (print x (print_seq print "]"%char false l rest))
  = Some (sanitize_json <$> x :: l, rest).
Proof.
  revert x fuel. induction l as [|y l IH]; intros x fuel Hl Hok Hdepth Hfuel;
    apply Forall_cons in Hl as [Hx Hl]; apply andb_true_iff in Hok as [Hox Hok];
    (destruct fuel as [|fuel]; [simpl in Hfuel; lia|]); simpl in Hfuel;
    cbn [parse_elements];
    rewrite Hx by (done || lia || (apply Hdepth; left) || (apply delimited_seq; by left));
    csimpl.
  - done.
  - rewrite IH; [done|done|done|intros z Hz; apply Hdepth; by right|simpl; lia].
Qed.

Lemma parse_members_print l depth fuel rest kv :
  Forall (λ kv, parses_back kv.2) (kv :: l) → forallb (λ kv, numbers_ok kv.2) (kv :: l) = true →
  (∀ y, y ∈ kv :: l → depth + depth_of y.2 ≤ maxNestingDepth)%N →
  foldr (λ kv n, S (fuel_of kv.2) + n) 0 (kv :: l) ≤ fuel →
  parse_members fuel depth
    (print_string kv.1 (String ":"%char (print kv.2
      (print_seq (λ kv r, print_string kv.1 (String ":"%char (print kv.2 r))) "}"%char false l rest))))
  = Some ((λ kv, (sanitize kv.1, sanitize_json kv.2)) <$> kv :: l, rest).
Proof.
  revert kv fuel. induction l as [|y l IH]; intros kv fuel Hl Hok Hdepth Hfuel;
    apply Forall_cons in Hl as [Hx Hl]; apply andb_true_iff in Hok as [Hox Hok];
    (destruct fuel as [|fuel]; [simpl in Hfuel; lia|]); simpl in Hfuel;
    unfold print_string at 1; cbn [parse_members];
    rewrite skip_space_cons by done; change (byte dquote =? 34)%N with true; cbv iota;
    rewrite parse_print_string; csimpl;
    rewrite Hx by (done || lia || (apply Hdepth; left) || (apply delimited_seq; by right));
    csimpl.
  - done.
  - rewrite IH; [done|done|done|intros z Hz; apply Hdepth; by right|simpl; lia].
Qed.

Lemma max_depth_in {X} (f : X → N) (l : list X) x :
  x ∈ l → (f x ≤ foldr (λ x n, N.max (f x) n) 0 l)%N.
Proof. induction 1; simpl; lia. Qed.

Lemma parse_print_value j : parses_back j.
Proof.
  induction j as [|[]|lit|s|l IH|l IH] using json_nested_ind;
    intros fuel depth rest Hok Hdepth Hfuel Hrest;
    (destruct fuel as [|fuel]; [simpl in Hfuel; lia|]); try done.
  - simpl in Hok. cbn [parse_value print]. pose proof (number_ok_head lit Hok) as (c & s & -> & Hc).
    rewrite string_app_cons, skip_space_cons
      by (unfold is_space, digit, in_range in *; lia).
    destruct (N.eqb_spec (byte c) 34); [unfold digit, in_range in *; lia|].
    destruct (N.eqb_spec (byte c) 91); [unfold digit, in_range in *; lia|].
    destruct (N.eqb_spec (byte c) 123); [unfold digit, in_range in *; lia|].
    rewrite Hc, <-string_app_cons, parse_number_ok by done. done.
  - cbn [parse_value print]. unfold print_string. rewrite skip_space_cons by done.
    change (byte dquote =? 34)%N with true. cbv iota. by rewrite parse_print_string.
  - cbn [print depth_of fuel_of] in *. rewrite parse_value_array by lia.
    destruct l as [|x l]; [done|]. cbn [print_seq].
    destruct (print_head x (print_seq print "]"%char false l rest)) as (c & s & Hp & Hsp & Hc).
    { by apply andb_true_iff in Hok as [??]. }
    rewrite Hp, skip_space_cons, <-Hp by done. destruct (N.eqb_spec (byte c) 93); [done|].
    rewrite parse_elements_print; [done|done|done| |simpl in *; lia].
    intros y Hy. pose proof (max_depth_in depth_of (x :: l) y Hy). lia.
  - cbn [print depth_of fuel_of] in *. rewrite parse_value_object by lia.
    destruct l as [|x l]; [done|]. cbn [print_seq].
    unfold print_string at 1. rewrite skip_space_cons by done.
    change (byte dquote =? 125)%N with false. cbv iota.
    change (String dquote (foldr escape_rune (String dquote ?t) (runes x.1))) with (print_string x.1 t).
    rewrite parse_members_print; [done|done|done| |simpl in *; lia].
    intros y Hy. pose proof (max_depth_in (λ kv : string * json, depth_of kv.2) (x :: l) y Hy). lia.
Qed.

(** The fuel of [parse_json] covers the tree: a value takes at most one unit
    less than twice its text. *)
Lemma length_print_string s rest :
  String.length rest + 2 ≤ String.length (print_string s rest).
Proof.
  unfold print_string. simpl. induction (runes s) as [|r rs IH]; csimpl; [lia|].
  pose proof (length_escape_rune r (foldr escape_rune (String dquote rest) rs)). lia.
Qed.

Lemma length_print_seq {X} (f : X → string → string) (fuel : X → nat) close b l rest :
  (∀ x r, x ∈ l → fuel x + 2 * String.length r < 2 * String.length (f x r)) →
  foldr (λ x n, S (fuel x) + n) 0 l + 2 * String.length rest + 2
  ≤ 2 * String.length (print_seq f close b l rest).
Proof.
  intros Hf. revert b. induction l as [|x l IH]; intros b; cbn [print_seq foldr]; [simpl; lia|].
  assert (Hl : ∀ y r, y ∈ l → fuel y + 2 * String.length r < 2 * String.length (f y r))
    by (intros; apply Hf; by right).
  pose proof (IH Hl false) as H. pose proof (Hf x (print_seq f close false l rest) ltac:(left)).
  destruct b; cbn [String.length]; lia.
Qed.

Lemma fuel_of_print j rest :
  numbers_ok j = true → fuel_of j + 2 * String.length rest < 2 * String.length (print j rest).
Proof.
  revert rest. induction j as [|[]|lit|s|l IH|l IH] using json_nested_ind; intros rest Hok;
    try (cbn [print fuel_of]; rewrite string_length_app; simpl; lia).
  - apply number_ok_head in Hok as (c & s & -> & _).
    cbn [print fuel_of]. rewrite string_length_app. simpl. lia.
  - cbn [print fuel_of]. pose proof (length_print_string s rest). lia.
  - cbn [print fuel_of].
    enough (foldr (λ x n, S (fuel_of x) + n) 0 l + 2 * String.length rest + 2
            ≤ 2 * String.length (print_seq print "]"%char true l rest)) by (cbn [String.length]; lia).
    apply length_print_seq. intros x r Hx. rewrite Forall_forall in IH. apply IH; [done|].
    simpl in Hok. rewrite forallb_forall in Hok. apply Hok. by apply list_elem_of_In.
  - cbn [print fuel_of].
    enough (foldr (λ (kv : string * json) n, S (fuel_of kv.2) + n) 0 l + 2 * String.length rest + 2
            ≤ 2 * String.length (print_seq (λ kv r, print_string kv.1 (String ":"%char (print kv.2 r)))
                "}"%char true l rest)) by (cbn [String.length]; lia).
    apply (length_print_seq _ (λ kv : string * json, fuel_of kv.2)). intros x r Hx.
    pose proof (length_print_string x.1 (String ":"%char (print x.2 r))) as H1.
    rewrite Forall_forall in IH. simpl in Hok. rewrite forallb_forall in Hok.
    pose proof (IH x Hx r (Hok x ltac:(by apply list_elem_of_In))). cbn [String.length] in *. lia.
Qed.

(** What [json.Marshal] writes, [json.Unmarshal] reads, up to the bytes
    JSON text cannot carry. *)
Lemma parse_json_text j :
  numbers_ok j = true → (depth_of j ≤ maxNestingDepth)%N →
  parse_json (json_text j) = Some (sanitize_json j).
Proof.
  intros Hok Hd. unfold parse_json, json_text.
  pose proof (fuel_of_print j EmptyString Hok). 
  rewrite parse_print_value by (done || lia || (simpl in *; lia)). done.
Qed.

(** *** Trees that are carried exactly *)

Fixpoint strings_ok (j : json) : bool :=
  match j with
  | JStr s => valid_utf8 s
  | JArr l => forallb strings_ok l
  | JObj l => forallb (λ kv, valid_utf8 kv.1 && strings_ok kv.2) l
  | _ => true
  end.

Lemma sanitize_json_ok j : strings_ok j = true → sanitize_json j = j.
Proof.
  induction j as [|[]|lit|s|l IH|l IH] using json_nested_ind; simpl; intros Hok; try done.
  - by rewrite sanitize_valid.
  - f_equal. induction IH as [|x l Hx _ IHl]; [done|]. simpl in Hok.
    apply andb_true_iff in Hok as [??]. csimpl. by rewrite Hx, IHl.
  - f_equal. induction IH as [|[k x] l Hx _ IHl]; [done|]. simpl in Hok, Hx.
    rewrite !andb_true_iff in Hok. destruct Hok as [[??]?]. csimpl.
    by rewrite sanitize_valid, Hx, IHl.
Qed.

(** [carried n j]: the tree nests at most [n] deep, its numbers are literals
    of the grammar and its strings are UTF-8. *)
Inductive carried : nat → json → Prop :=
| carried_null n : carried n JNull
| carried_bool n b : carried n (JBool b)
| carried_num n lit : number_ok lit = true → carried n (JNum lit)
| carried_str n s : valid_utf8 s = true → carried n (JStr s)
| carried_arr n l : Forall (carried n) l → carried (S n) (JArr l)
| carried_obj n l :
    Forall (λ kv, valid_utf8 kv.1 = true ∧ carried n kv.2) l → carried (S n) (JObj l).

Lemma carried_ok n j :
  carried n j → numbers_ok j = true ∧ strings_ok j = true ∧ (depth_of j ≤ N.of_nat n)%N.
Proof.
  revert n. induction j as [|b|lit|s|l IH|l IH] using json_nested_ind; intros n Hc;
    inversion Hc as [| | | |m l' Hl|m l' Hl]; subst; clear Hc; simpl; try (split_and!; (done || lia)).
  - assert (forallb numbers_ok l = true ∧ forallb strings_ok l = true
      ∧ (foldr (λ x n, N.max (depth_of x) n) 0 l ≤ N.of_nat m)%N) as (? & ? & ?);
      [|split_and!; try done; lia].
    induction IH as [|x l Hx _ IHl]; simpl; [split_and!; (done || lia)|].
    apply Forall_cons in Hl as [Hc Hl]. destruct (Hx m Hc) as (-> & -> & ?).
    destruct (IHl Hl) as (-> & -> & ?). split_and!; try done. lia.
  - assert (forallb (λ kv : string * json, numbers_ok kv.2) l = true
      ∧ forallb (λ kv : string * json, valid_utf8 kv.1 && strings_ok kv.2) l = true
      ∧ (foldr (λ (kv : string * json) n, N.max (depth_of kv.2) n) 0 l ≤ N.of_nat m)%N)
      as (? & ? & ?); [|split_and!; try done; lia].
    induction IH as [|x l Hx _ IHl]; simpl; [split_and!; (done || lia)|].
    apply Forall_cons in Hl as [[Hv Hc] Hl]. destruct (Hx m Hc) as (-> & -> & ?). rewrite Hv.
    destruct (IHl Hl) as (-> & -> & ?). split_and!; try done. lia.
Qed.

(** Such a tree is read back from its text as it is. *)
Lemma carried_roundtrip n j :
  carried n j → (N.of_nat n ≤ maxNestingDepth)%N → parse_json (json_text j) = Some j.
Proof.
  intros (Hnum & Hstr & Hd)%carried_ok Hn.
  rewrite parse_json_text by (done || lia). by rewrite sanitize_json_ok.
Qed.

Lemma carried_mono n m j : carried n j → n ≤ m → carried m j.
Proof.
  revert n m. induction j as [|b|lit|s|l IH|l IH] using json_nested_ind; intros n m Hc Hle;
    inversion Hc as [| | | |k l' Hl|k l' Hl]; subst; try (by constructor);
    (destruct m as [|m]; [lia|]); constructor;
    rewrite Forall_forall in IH, Hl |- *; intros x Hx.
  - apply (IH x Hx k); [by apply Hl|lia].
  - destruct (Hl x Hx) as [Hv Hx']. split; [done|]. apply (IH x Hx k); [done|lia].
Qed.
