(* ===== verification/JsonFuel.v ===== *)
(** * The JSON parser never runs out of fuel

    The parser of Json.v is recursive on fuel.  Every recursive call works on
    a shorter text, so the fuel [parse_json] starts with is enough: more
    gives the same answer for every text, and a [None] is a syntax error. *)
From S2P Require Import Prelude Json.

(** ** Every parser consumes what it reads *)

(** At least [n] characters of [s] have been read. *)
Definition reads {A} (n : nat) (s : string) (o : option (A * string)) : Prop :=
  ∀ x rest, o = Some (x, rest) → n + String.length rest ≤ String.length s.


Lemma skip_space_length s : String.length (skip_space s) ≤ String.length s.
Proof. induction s as [|c s IH]; simpl; [lia|]. destruct (is_space c); simpl; lia. Qed.

Lemma skip_space_reads s c rest :
  skip_space s = String c rest → S (String.length rest) ≤ String.length s.
Proof. intros H. pose proof (skip_space_length s) as Hl. rewrite H in Hl. exact Hl. Qed.

Lemma span_digits_length s : String.length (span_digits s).2 ≤ String.length s.
Proof. induction s as [|c s IH]; simpl; [lia|]. destruct (digit c); simpl; lia. Qed.

Lemma parse_int_reads s : reads 1 s (parse_int s).
Proof.
  intros x rest. destruct s as [|c s]; simpl; [done|]. pose proof (span_digits_length s).
  destruct (byte c =? 48)%N; [intros [= <- <-]; lia|]. destruct (digit c); [|done].
  intros [= <- <-]. lia.
Qed.

Lemma parse_digits1_reads s : reads 0 s (parse_digits1 s).
Proof.
  intros x rest. unfold parse_digits1. pose proof (span_digits_length s) as Hl.
  destruct (span_digits s) as [[|c d] r]; [done|]. simpl in Hl. intros [= <- <-]. lia.
Qed.

Lemma parse_frac_reads s : reads 0 s (parse_frac s).
Proof.
  intros x rest. destruct s as [|c s]; simpl; [intros [= <- <-]; simpl; lia|].
  destruct (byte c =? 46)%N; [|intros [= <- <-]; simpl; lia].
  pose proof (parse_digits1_reads s) as Hr. destruct (parse_digits1 s) as [[d r]|]; [|done].
  specialize (Hr d r eq_refl). intros [= <- <-]. simpl in *. lia.
Qed.

Lemma parse_exp_reads s : reads 0 s (parse_exp s).
Proof.
  intros x rest. destruct s as [|c s]; simpl; [intros [= <- <-]; simpl; lia|].
  destruct ((byte c =? 101)%N || (byte c =? 69)%N); [|intros [= <- <-]; simpl; lia].
  set (signed := match s with
                 | EmptyString => _
                 | String c' rest' => if ((byte c' =? 43)%N || (byte c' =? 45)%N)%bool then _ else _
                 end).
  assert (Hs : String.length signed.2 ≤ String.length s).
  { unfold signed. destruct s as [|c' s']; [simpl; lia|].
    destruct ((byte c' =? 43)%N || (byte c' =? 45)%N); simpl; lia. }
  destruct signed as [sign r]. simpl in Hs.
  pose proof (parse_digits1_reads r) as Hr. destruct (parse_digits1 r) as [[d r']|]; [|done].
  specialize (Hr d r' eq_refl). intros [= <- <-]. lia.
Qed.

Lemma parse_number_reads s : reads 1 s (parse_number s).
Proof.
  intros x rest. unfold parse_number.
  set (signed := match s with EmptyString => _ | String c rest => _ end).
  assert (Hs : String.length signed.2 ≤ String.length s).
  { unfold signed. destruct s as [|c s']; [simpl; lia|]. destruct (byte c =? 45)%N; simpl; lia. }
  destruct signed as [sign s0]. simpl in Hs.
  pose proof (parse_int_reads s0) as Hi. destruct (parse_int s0) as [[i s1]|]; [|done].
  specialize (Hi i s1 eq_refl). simpl.
  pose proof (parse_frac_reads s1) as Hf. destruct (parse_frac s1) as [[f s2]|]; [|done].
  specialize (Hf f s2 eq_refl). simpl.
  pose proof (parse_exp_reads s2) as He. destruct (parse_exp s2) as [[e s3]|]; [|done].
  specialize (He e s3 eq_refl). intros [= <- <-]. lia.
Qed.

Lemma low_surrogate_reads s : reads 6 s (low_surrogate s).
Proof.
  intros x rest. unfold low_surrogate.
  do 6 (destruct s as [|? s]; [done|]). destruct (_ && _)%bool; [|done].
  destruct (hex4 _ _ _ _) as [n|]; [|done]. simpl. destruct (_ && _)%bool; [|done].
  intros [= <- <-]. simpl. lia.
Qed.

Lemma strip_prefix_reads p s rest :
  strip_prefix p s = Some rest → String.length p + String.length rest ≤ String.length s.
Proof.
  revert s. induction p as [|a p IH]; intros s; simpl; [intros [= <-]; lia|].
  destruct s as [|b s]; [done|]. destruct (Ascii.eqb a b); [|done]. intros H%IH. simpl. lia.
Qed.

(** ** Strings *)

(** The result of a recursive call after at least [n] characters. *)
Ltac recurse IH s :=
  let Hr := fresh "Hr" in
  pose proof (IH s) as Hr; destruct (unescape _ s) as [[? ?]|]; [|done];
  specialize (Hr _ _ eq_refl); intros [= <- <-]; simpl in *; lia.

Lemma unescape_reads fuel s : reads 1 s (unescape fuel s).
Proof.
  revert s. induction fuel as [|fuel IH]; intros s x rest; [done|].
  cbn [unescape]. destruct s as [|c s]; [done|].
  destruct (byte c =? 34)%N; [intros [= <- <-]; simpl; lia|]. destruct (byte c <? 32)%N; [done|].
  destruct (byte c =? 92)%N; [|simpl; recurse IH s].
  destruct s as [|e s]; [done|]. destruct (byte e =? 117)%N.
  - do 4 (destruct s as [|? s]; [done|]). destruct (hex4 _ _ _ _) as [n|]; [|done]. simpl.
    destruct (_ && _)%bool; [|recurse IH s].
    destruct (if (n <=? 56319)%N then low_surrogate s else None) as [[m s']|] eqn:Hlow; [|recurse IH s].
    destruct (n <=? 56319)%N; [|done]. apply low_surrogate_reads in Hlow. recurse IH s'.
  - destruct (simple_escape e); [|done]. simpl. recurse IH s.
Qed.

(** With fuel for every character, more fuel changes nothing. *)
Lemma unescape_fuel fuel fuel' s :
  String.length s ≤ fuel → String.length s ≤ fuel' → unescape fuel s = unescape fuel' s.
Proof.
  revert fuel' s. induction fuel as [|fuel IH]; intros [|fuel'] [|c s]; simpl; try done; try lia.
  intros Hf Hf'. destruct (byte c =? 34)%N; [done|]. destruct (byte c <? 32)%N; [done|].
  destruct (byte c =? 92)%N; [|by rewrite (IH fuel' s) by lia].
  destruct s as [|e s]; [done|]. simpl in *. destruct (byte e =? 117)%N.
  - do 4 (destruct s as [|? s]; [done|]). simpl in *. destruct (hex4 _ _ _ _) as [n|]; [|done]. simpl.
    rewrite (IH fuel' s) by lia. destruct (_ && _)%bool; [|done].
    destruct (if (n <=? 56319)%N then low_surrogate s else None) as [[m s']|] eqn:Hlow; [|done].
    destruct (n <=? 56319)%N; [|done]. apply low_surrogate_reads in Hlow.
    by rewrite (IH fuel' s') by lia.
  - by rewrite (IH fuel' s) by lia.
Qed.

Lemma parse_string_reads s : reads 1 s (parse_string s).
Proof.
  intros x rest. unfold parse_string. pose proof (unescape_reads (String.length s) s) as Hr.
  destruct (unescape _ s) as [[t r]|]; [|done]. specialize (Hr t r eq_refl). by intros [= <- <-].
Qed.

(** ** Values *)

Section step.
Variable fuel : nat.
Hypothesis IHv : ∀ depth s, reads 1 s (parse_value fuel depth s).
Hypothesis IHe : ∀ depth s, reads 1 s (parse_elements fuel depth s).
Hypothesis IHm : ∀ depth s, reads 1 s (parse_members fuel depth s).

Lemma parse_value_reads depth s : reads 1 s (parse_value (S fuel) depth s).
Proof.
  intros x rest. cbn [parse_value]. destruct (skip_space s) as [|c r] eqn:Hs; [done|].
  apply skip_space_reads in Hs. destruct (byte c =? 34)%N.
  { pose proof (parse_string_reads r) as H. destruct (parse_string r) as [[t r']|]; [|done].
    specialize (H _ _ eq_refl). intros [= <- <-]. lia. }
  destruct (byte c =? 91)%N.
  { destruct (depth <? maxNestingDepth)%N; [|done]. destruct (skip_space r) as [|e r'] eqn:Hr; [done|].
    apply skip_space_reads in Hr. destruct (byte e =? 93)%N; [intros [= <- <-]; lia|].
    pose proof (IHe (depth + 1)%N r) as H. destruct (parse_elements _ _ r) as [[l r'']|]; [|done].
    specialize (H _ _ eq_refl). intros [= <- <-]. lia. }
  destruct (byte c =? 123)%N.
  { destruct (depth <? maxNestingDepth)%N; [|done]. destruct (skip_space r) as [|e r'] eqn:Hr; [done|].
    apply skip_space_reads in Hr. destruct (byte e =? 125)%N; [intros [= <- <-]; lia|].
    pose proof (IHm (depth + 1)%N r) as H. destruct (parse_members _ _ r) as [[l r'']|]; [|done].
    specialize (H _ _ eq_refl). intros [= <- <-]. lia. }
  destruct ((byte c =? 45)%N || digit c).
  { pose proof (parse_number_reads (String c r)) as H.
    destruct (parse_number (String c r)) as [[l r']|]; [|done].
    specialize (H _ _ eq_refl). simpl in H. intros [= <- <-]. lia. }
  destruct (strip_prefix "null" (String c r)) as [r'|] eqn:H1.
  { apply strip_prefix_reads in H1. simpl in H1. intros [= <- <-]. lia. }
  destruct (strip_prefix "true" (String c r)) as [r'|] eqn:H2.
  { apply strip_prefix_reads in H2. simpl in H2. intros [= <- <-]. lia. }
  destruct (strip_prefix "false" (String c r)) as [r'|] eqn:H3; [|done].
  apply strip_prefix_reads in H3. simpl in H3. intros [= <- <-]. lia.
Qed.

Lemma parse_elements_reads depth s : reads 1 s (parse_elements (S fuel) depth s).
Proof.
  intros x rest. cbn [parse_elements].
  pose proof (IHv depth s) as H. destruct (parse_value fuel depth s) as [[y r]|]; [|done].
  specialize (H _ _ eq_refl). cbn [mbind option_bind].
  destruct (skip_space r) as [|c r'] eqn:Hr; [done|]. apply skip_space_reads in Hr.
  destruct (byte c =? 44)%N; [|destruct (byte c =? 93)%N; [intros [= <- <-]; lia|done]].
  pose proof (IHe depth r') as H'. destruct (parse_elements fuel depth r') as [[l r'']|]; [|done].
  specialize (H' _ _ eq_refl). intros [= <- <-]. lia.
Qed.

Lemma parse_members_reads depth s : reads 1 s (parse_members (S fuel) depth s).
Proof.
  intros x rest. cbn [parse_members]. destruct (skip_space s) as [|q r] eqn:Hs; [done|].
  apply skip_space_reads in Hs. destruct (byte q =? 34)%N; [|done].
  pose proof (parse_string_reads r) as H. destruct (parse_string r) as [[k r1]|]; [|done].
  specialize (H _ _ eq_refl). cbn [mbind option_bind].
  destruct (skip_space r1) as [|c r2] eqn:Hr; [done|]. apply skip_space_reads in Hr.
  destruct (byte c =? 58)%N; [|done].
  pose proof (IHv depth r2) as Hv. destruct (parse_value fuel depth r2) as [[y r3]|]; [|done].
  specialize (Hv _ _ eq_refl). cbn [mbind option_bind].
  destruct (skip_space r3) as [|d r4] eqn:Hr3; [done|]. apply skip_space_reads in Hr3.
  destruct (byte d =? 44)%N; [|destruct (byte d =? 125)%N; [intros [= <- <-]; lia|done]].
  pose proof (IHm depth r4) as Hm. destruct (parse_members fuel depth r4) as [[l r5]|]; [|done].
  specialize (Hm _ _ eq_refl). intros [= <- <-]. lia.
Qed.

End step.

Lemma parsers_read fuel :
  (∀ depth s, reads 1 s (parse_value fuel depth s))
  ∧ (∀ depth s, reads 1 s (parse_elements fuel depth s))
  ∧ (∀ depth s, reads 1 s (parse_members fuel depth s)).
Proof.
  induction fuel as [|fuel (IHv & IHe & IHm)]; [done|]. split; [|split]; intros.
  - by apply parse_value_reads.
  - by apply parse_elements_reads.
  - by apply parse_members_reads.
Qed.

(** The fuel each parser needs for a text. *)
Lemma parsers_fuel fuel :
  (∀ fuel' depth s, 2 * String.length s < fuel → 2 * String.length s < fuel' →
     parse_value fuel depth s = parse_value fuel' depth s)
  ∧ (∀ fuel' depth s, S (2 * String.length s) < fuel → S (2 * String.length s) < fuel' →
       parse_elements fuel depth s = parse_elements fuel' depth s)
  ∧ (∀ fuel' depth s, 2 * String.length s < fuel → 2 * String.length s < fuel' →
       parse_members fuel depth s = parse_members fuel' depth s).
Proof.
  induction fuel as [|fuel (IHv & IHe & IHm)].
  { split_and!; intros; lia. }
  destruct (parsers_read fuel) as (Rv & Re & Rm).
  split; [|split]; intros [|fuel'] depth s Hf Hf'; try lia.
  - cbn [parse_value]. destruct (skip_space s) as [|c r] eqn:Hs; [done|]. apply skip_space_reads in Hs.
    by rewrite (IHe fuel' (depth + 1)%N r), (IHm fuel' (depth + 1)%N r) by lia.
  - cbn [parse_elements]. rewrite <-(IHv fuel' depth s) by lia.
    pose proof (Rv depth s) as H. destruct (parse_value fuel depth s) as [[y r]|]; [|done].
    specialize (H _ _ eq_refl). cbn [mbind option_bind].
    destruct (skip_space r) as [|c r'] eqn:Hr; [done|]. apply skip_space_reads in Hr.
    by rewrite (IHe fuel' depth r') by lia.
  - cbn [parse_members]. destruct (skip_space s) as [|q r] eqn:Hs; [done|]. apply skip_space_reads in Hs.
    destruct (byte q =? 34)%N; [|done].
    pose proof (parse_string_reads r) as H. destruct (parse_string r) as [[k r1]|]; [|done].
    specialize (H _ _ eq_refl). cbn [mbind option_bind].
    destruct (skip_space r1) as [|c r2] eqn:Hr; [done|]. apply skip_space_reads in Hr.
    destruct (byte c =? 58)%N; [|done]. rewrite <-(IHv fuel' depth r2) by lia.
    pose proof (Rv depth r2) as Hv. destruct (parse_value fuel depth r2) as [[y r3]|]; [|done].
    specialize (Hv _ _ eq_refl). cbn [mbind option_bind].
    destruct (skip_space r3) as [|d r4] eqn:Hr3; [done|]. apply skip_space_reads in Hr3.
    by rewrite (IHm fuel' depth r4) by lia.
Qed.

(** [parse_json] with more fuel is [parse_json]. *)
Lemma parse_json_fuel fuel s :
  2 * String.length s < fuel →
  parse_json s = ('(j, rest) ← parse_value fuel 0 s;
                  match skip_space rest with EmptyString => Some j | _ => None end).
Proof.
  intros Hf. unfold parse_json.
  destruct (parsers_fuel fuel) as (Hv & _). by rewrite <-(Hv (S (2 * String.length s)) 0%N s) by lia.
Qed.
