(* ===== verification/JsonCodec.v ===== *)
(** * Go values as JSON: the field rules of encoding/json

    How [json.Marshal] writes, and [json.Unmarshal] reads, the Go types the
    operator serializes: strings, integers, booleans, slices, maps with
    string keys (written in the order of their keys), structs with
    [omitempty] fields and pointers.

    A decoder takes the JSON value and the Go value it decodes into.  A type
    mismatch makes [Unmarshal] return an error, and no caller looks at the
    target then: decoders return [None]. *)
From stdpp Require Import sorting.
From S2P Require Import Prelude Json.
From Stdlib Require Import DecimalString DecimalN DecimalZ DecimalFacts ZifyN ZifyBool.

(** The message of the error [Unmarshal] returns for a text. *)
Class JsonErrorText := json_error_text : string → string.

(** ** Field names: the fields of a struct are found by their name, exactly
    or up to case folding *)

Definition fold_rune (r : rune) (rest : string) : string :=
  match r with
  | R1 c => String (lower_ascii c) rest
  | R2 c0 c1 =>  (* U+017F folds to s *)
      if (byte c0 =? 197)%N && (byte c1 =? 191)%N then String "s"%char rest
      else put_rune r rest
  | R3 c0 c1 c2 =>  (* U+212A folds to k *)
      if (byte c0 =? 226)%N && (byte c1 =? 132)%N && (byte c2 =? 170)%N
      then String "k"%char rest else put_rune r rest
  | _ => put_rune r rest
  end.

Definition fold_name (s : string) : string := foldr fold_rune EmptyString (runes s).

Section struct.
Context {A : Type}.

(** A struct type: its fields' names with the decoders into the struct. *)
Definition fields := list (string * (json → A → option A)).

Fixpoint find_field (eq : string → bool) (fs : fields) : option (json → A → option A) :=
  match fs with
  | [] => None
  | (name, d) :: fs => if eq name then Some d else find_field eq fs
  end.

Definition field_decoder (fs : fields) (key : string) : option (json → A → option A) :=
  match find_field (String.eqb key) fs with
  | Some d => Some d
  | None => find_field (λ name, String.eqb (fold_name key) (fold_name name)) fs
  end.

(** Unknown keys are skipped. *)
Fixpoint decode_members (fs : fields) (kvs : list (string * json)) (x : A) : option A :=
  match kvs with
  | [] => Some x
  | (k, v) :: kvs =>
      x ← match field_decoder fs k with Some d => d v x | None => Some x end;
      decode_members fs kvs x
  end.

Definition decode_struct (fs : fields) (j : json) (x : A) : option A :=
  match j with
  | JNull => Some x
  | JObj kvs => decode_members fs kvs x
  | _ => None
  end.

End struct.
Arguments fields A : clear implicits.

(** ** Scalars *)

Definition decode_string (j : json) (old : string) : option string :=
  match j with
  | JNull => Some old
  | JStr s => Some s
  | _ => None
  end.

Definition decode_bool (j : json) (old : bool) : option bool :=
  match j with
  | JNull => Some old
  | JBool b => Some b
  | _ => None
  end.

(** [int], a 64-bit integer: [strconv.ParseInt] on the literal. *)
Definition int_min : Z := - 2 ^ 63.
Definition int_max : Z := 2 ^ 63 - 1.

Definition ParseInt (lit : string) : option Z :=
  d ← NilEmpty.int_of_string lit;
  let z := Z.of_int d in
  if ((int_min <=? z) && (z <=? int_max))%Z then Some z else None.

Definition decode_int (j : json) (old : Z) : option Z :=
  match j with
  | JNull => Some old
  | JNum lit => ParseInt lit
  | _ => None
  end.

(** ** Slices, maps, pointers *)

Fixpoint decode_items {A} (zero : A) (d : json → A → option A) (l : list json) : option (list A) :=
  match l with
  | [] => Some []
  | j :: l => x ← d j zero; xs ← decode_items zero d l; Some (x :: xs)
  end.

(** A slice whose nil and empty values the code does not tell apart. *)
Definition decode_slice {A} (zero : A) (d : json → A → option A) (j : json) (old : list A)
    : option (list A) :=
  match j with
  | JNull => Some []
  | JArr l => decode_items zero d l
  | _ => None
  end.

Fixpoint decode_entries {A} (zero : A) (d : json → A → option A) (kvs : list (string * json))
    (m : gmap string A) : option (gmap string A) :=
  match kvs with
  | [] => Some m
  | (k, v) :: kvs => x ← d v zero; decode_entries zero d kvs (<[k := x]> m)
  end.

Definition decode_map {A} (zero : A) (d : json → A → option A) (j : json) (old : gmap string A)
    : option (gmap string A) :=
  match j with
  | JNull => Some ∅
  | JObj kvs => decode_entries zero d kvs old
  | _ => None
  end.

Definition decode_ptr {A} (zero : A) (d : json → A → option A) (j : json) (old : option A)
    : option (option A) :=
  match j with
  | JNull => Some None
  | _ => Some <$> d j (default zero old)
  end.

(** ** Encoders *)

Definition key_le {A} (a b : string * A) : Prop := String.leb a.1 b.1 = true.
#[export] Instance key_le_dec {A} : RelDecision (@key_le A).
Proof. intros a b. unfold key_le. apply _. Defined.

(** The entries of a map in the order of their keys. *)
Definition sorted_entries {A} (m : gmap string A) : list (string * A) :=
  merge_sort key_le (map_to_list m).

Definition encode_map {A} (enc : A → json) (m : gmap string A) : json :=
  JObj ((λ kv, (kv.1, enc kv.2)) <$> sorted_entries m).

Definition encode_strings (l : list string) : json := JArr (JStr <$> l).

(** A field with [omitempty]: nothing when the value is empty. *)
Definition omitempty (name : string) (empty : bool) (j : json) : list (string * json) :=
  if empty then [] else [(name, j)].

Definition is_empty {A} (l : list A) : bool := match l with [] => true | _ => false end.

(** ** Decoding what was encoded *)

Lemma sorted_entries_permutation {A} (m : gmap string A) : sorted_entries m ≡ₚ map_to_list m.
Proof. apply merge_sort_Permutation. Qed.

Lemma decode_entries_spec {A} (zero : A) enc d (l : list (string * A)) m :
  (∀ x, x ∈ l.*2 → d (enc x) zero = Some x) →
  decode_entries zero d ((λ kv, (kv.1, enc kv.2)) <$> l) m
  = Some (foldl (λ m kv, <[kv.1 := kv.2]> m) m l).
Proof.
  revert m. induction l as [|[k x] l IH]; intros m Hd; [done|]. csimpl in *.
  rewrite Hd by left. csimpl. apply IH. intros y Hy. apply Hd. by right.
Qed.

Lemma foldl_insert {A} (l : list (string * A)) (m : gmap string A) :
  NoDup l.*1 → (∀ k, k ∈ l.*1 → m !! k = None) →
  foldl (λ m kv, <[kv.1 := kv.2]> m) m l = list_to_map l ∪ m.
Proof.
  revert m. induction l as [|[k x] l IH]; intros m Hnd Hm; csimpl in *; [by rewrite (left_id_L ∅ (∪))|].
  apply NoDup_cons in Hnd as [Hk Hnd]. rewrite IH; [|done|].
  - rewrite <-insert_union_r; [by rewrite insert_union_l | by apply not_elem_of_list_to_map_1].
  - intros k' Hk'. rewrite lookup_insert_ne by (intros ->; done). apply Hm. by right.
Qed.

Lemma decode_encode_map {A} (zero : A) enc d (m : gmap string A) :
  map_Forall (λ _ x, d (enc x) zero = Some x) m →
  decode_map zero d (encode_map enc m) ∅ = Some m.
Proof.
  intros Hd. unfold encode_map, decode_map.
  assert (Hp : (sorted_entries m).*1 ≡ₚ (map_to_list m).*1)
    by (by rewrite sorted_entries_permutation).
  assert (Hnd : NoDup (sorted_entries m).*1) by (rewrite Hp; apply NoDup_fst_map_to_list).
  rewrite decode_entries_spec.
  - rewrite foldl_insert by (done || (intros; apply lookup_empty)).
    rewrite (right_id_L ∅ (∪)). f_equal.
    rewrite (list_to_map_proper _ (map_to_list m)); [apply list_to_map_to_list|done|].
    apply sorted_entries_permutation.
  - intros x ([k y] & -> & Hin)%list_elem_of_fmap. rewrite sorted_entries_permutation in Hin.
    apply elem_of_map_to_list in Hin. by apply (Hd k).
Qed.

Lemma decode_encode_strings l :
  decode_items "" decode_string (JStr <$> l) = Some l.
Proof. induction l as [|s l IH]; [done|]. csimpl. by rewrite IH. Qed.

(** ** Integers *)

Lemma int_of_itoa z : NilEmpty.int_of_string (itoa z) = Some (Z.to_int z).
Proof. apply NilEmpty.isi. Qed.

Lemma ParseInt_itoa z : (int_min ≤ z ≤ int_max)%Z → ParseInt (itoa z) = Some z.
Proof.
  intros Hz. unfold ParseInt. rewrite int_of_itoa. csimpl. rewrite DecimalZ.of_to.
  by replace ((int_min <=? z) && (z <=? int_max))%Z with true by lia.
Qed.

Lemma span_digits_uint (d : Decimal.uint) :
  span_digits (NilEmpty.string_of_uint d) = (NilEmpty.string_of_uint d, EmptyString).
Proof. induction d as [|d IH|d IH|d IH|d IH|d IH|d IH|d IH|d IH|d IH|d IH]; simpl; try done; by rewrite IH. Qed.

(** The digits of a number, without leading zeroes, are an integer literal. *)
Lemma parse_int_uint n :
  parse_int (NilEmpty.string_of_uint (N.to_uint n))
  = Some (NilEmpty.string_of_uint (N.to_uint n), EmptyString).
Proof.
  assert (H : N.to_uint n = Decimal.unorm (N.to_uint n)).
  { rewrite <-DecimalN.Unsigned.to_of. by rewrite DecimalN.Unsigned.of_to. }
  rewrite H. unfold Decimal.unorm.
  destruct (Decimal.nzhead (N.to_uint n)) eqn:E; try done;
    try (simpl; by rewrite span_digits_uint).
  exfalso. clear H. revert E. generalize (N.to_uint n). intros d.
  induction d; simpl; intros; try done; auto.
Qed.

Lemma number_ok_itoa z : number_ok (itoa z) = true.
Proof.
  assert (H : ∀ n sg, match ('(i, s) ← parse_int (NilEmpty.string_of_uint (N.to_uint n));
                         '(f, s) ← parse_frac s; '(e, s) ← parse_exp s;
                         Some ((sg ++ i ++ f ++ e)%string, s)) with
    | Some (lit', EmptyString) => String.eqb (sg ++ NilEmpty.string_of_uint (N.to_uint n)) lit'
    | _ => false end = true).
  { intros n sg. rewrite parse_int_uint. csimpl. autorewrite with golib. apply String.eqb_refl. }
  unfold number_ok, itoa, parse_number. destruct z as [|p|p]; [done| |].
  - pose proof (H (N.pos p) EmptyString) as Hp. pose proof (parse_int_uint (N.pos p)) as Hi.
    change (Z.to_int (Z.pos p)) with (Decimal.Pos (Pos.to_uint p)).
    change (N.to_uint (N.pos p)) with (Pos.to_uint p) in *. cbn [NilEmpty.string_of_int].
    destruct (NilEmpty.string_of_uint (Pos.to_uint p)) as [|c s] eqn:E; [done|].
    destruct (N.eqb_spec (byte c) 45) as [Hc|]; [|exact Hp].
    exfalso. simpl in Hi. destruct (N.eqb_spec (byte c) 48); [lia|].
    unfold digit, in_range in Hi. by replace (_ && _) with false in Hi by lia.
  - exact (H (N.pos p) (String "-"%char EmptyString)).
Qed.
