(* ===== verification/Server.v ===== *)
(** * The API server the reconcilers talk to

    An abstract specification of the calls of Cluster.v over the objects the
    server stores ([store]): reads answer what is stored, writes store what
    was submitted up to the fields the server owns, and every call may fail.
    The theorems about whole reconcile iterations are proved against
    [api_spec], so they hold of every server that implements it;
    [memory_server] is one, to evaluate iterations at. *)
From S2P Require Import Prelude Prog K8s Defaulting ApiTypes Cluster Replication.
Local Open Scope string_scope.

#[export] Instance NamespacedName_countable : Countable NamespacedName.
Proof.
  refine (inj_countable' (λ n, (Key_Namespace n, Key_Name n))
            (λ p, {| Key_Namespace := p.1; Key_Name := p.2 |}) _).
  by intros [].
Defined.

Section server.
Context {lib : ApiLib}.

(** ** Stored objects *)

Definition store : Type := ∀ k, gmap NamespacedName (obj k).

Definition stored (s : store) (k : kind) (key : NamespacedName) : option (obj k) := s k !! key.

Definition set_kind (s : store) (k : kind) (m : gmap NamespacedName (obj k)) : store :=
  λ k', match decide (k = k') with
        | left e => match e in _ = k' return gmap NamespacedName (obj k') with eq_refl => m end
        | right _ => s k'
        end.

Definition put (k : kind) (o : obj k) (s : store) : store :=
  set_kind s k (<[ObjectKeyFromObject k o := o]> (s k)).

Definition remove (k : kind) (key : NamespacedName) (s : store) : store :=
  set_kind s k (delete key (s k)).

Definition empty_store : store := λ _, ∅.

(** An object with finalizers outlives its deletion: the server marks it, and
    removes it with the update that takes the last finalizer off. *)
Definition being_deleted (k : kind) (o : obj k) : bool :=
  match Meta_DeletionTimestamp (meta_of k o) with Some _ => true | None => false end.

Definition finalized (k : kind) (o : obj k) : bool :=
  match Meta_Finalizers (meta_of k o) with [] => true | _ :: _ => false end.

(** Does storing [o] over the object stored so far release that one? *)
Definition releases (k : kind) (o : obj k) (s : store) : bool :=
  match stored s k (ObjectKeyFromObject k o) with
  | Some x => being_deleted k x && negb (finalized k x) && finalized k o
  | None => false
  end.

Definition update (k : kind) (o : obj k) (s : store) : store :=
  if releases k o s then remove k (ObjectKeyFromObject k o) s else put k o s.

(** The stores a deletion that succeeds may leave. *)
Definition deleted (k : kind) (key : NamespacedName) (s s' : store) : Prop :=
  match stored s k key with
  | Some o =>
      if finalized k o then s' = remove k key s
      else ∃ o', being_deleted k o' = true ∧ ObjectKeyFromObject k o' = key ∧ s' = put k o' s
  | None => False
  end.

(** ** What the server may change in an object it stores *)

(** The fields of the metadata that belong to the client. *)
Definition client_fields (m : ObjectMeta)
    : string * string * gmap string string * gmap string string * list OwnerReference * list string :=
  (Meta_Name m, Meta_Namespace m, Meta_Labels m, Meta_Annotations m,
   Meta_OwnerReferences m, Meta_Finalizers m).

(** [accepted k o o']: [o'] is what the server may store, and answer, for a
    submitted [o].  A config map's data is stored as it is, and so is the spec
    of the custom resources the operator updates, whose defaults were filled
    in when they were created.  In the other objects the server fills in
    default values, and keeps every field that is set (Defaulting.v). *)
Definition accepted (k : kind) : obj k → obj k → Prop :=
  match k with
  | KConfigMap => λ o o', client_fields (CM_Meta o) = client_fields (CM_Meta o')
                          ∧ CM_Data o = CM_Data o'
  | KClientProfile => λ o o', client_fields (Profile_Meta o) = client_fields (Profile_Meta o')
                              ∧ Profile_Spec o = Profile_Spec o'
  | KCephConnection => λ o o', client_fields (Conn_Meta o) = client_fields (Conn_Meta o')
                               ∧ Conn_Spec o = Conn_Spec o'
  | k => λ o o', client_fields (meta_of k o) = client_fields (meta_of k o') ∧ spec_kept k o o'
  end.

(** A status update changes nothing but the status. *)
Definition status_accepted (k : kind) (x o o' : obj k) : Prop :=
  client_fields (meta_of k o') = client_fields (meta_of k x)
  ∧ match k return obj k → obj k → obj k → Prop with
    | KClientProfile => λ x o o', Profile_Spec o' = Profile_Spec x ∧ Profile_Status o' = Profile_Status o
    | KClientProfileReplication => λ x o o', Repl_Spec o' = Repl_Spec x ∧ Repl_Status o' = Repl_Status o
    | _ => λ _ _ _, True
    end x o o'.

(** The fields of an object an update never changes. *)
Definition same_identity (k : kind) (x o : obj k) : Prop :=
  Meta_UID (meta_of k o) = Meta_UID (meta_of k x)
  ∧ Meta_CreationTimestamp (meta_of k o) = Meta_CreationTimestamp (meta_of k x)
  ∧ Meta_DeletionTimestamp (meta_of k o) = Meta_DeletionTimestamp (meta_of k x).

(** The values an object has in a field index. *)
Definition field_index (k : kind) (field : string) : obj k → list string :=
  match k with
  | KClientProfileReplication => λ o,
      if String.eqb field clientProfileIndexKey then clientProfileIndex o else []
  | _ => λ _, []
  end.

Definition matches (k : kind) (opts : ListOptions) (o : obj k) : bool :=
  match InNamespace opts with
  | Some ns => String.eqb (Meta_Namespace (meta_of k o)) ns
  | None => true
  end
  && match MatchingFields opts with
     | Some (field, value) => existsb (String.eqb value) (field_index k field o)
     | None => true
     end.

(** The objects a list call asks for.  A server may answer them in any order. *)
Definition listing (k : kind) (m : gmap NamespacedName (obj k)) (opts : ListOptions) : list (obj k) :=
  List.filter (matches k opts) (map_to_list m).*2.

(** ** The specification of the calls *)

Definition api_post (T : Type) (e : call T) : T → store → store → Prop :=
  match e in call T return T → store → store → Prop with
  | Get k key => λ t s s', s' = s ∧
      match t with
      | inl err => IsNotFound err = true → stored s k key = None
      | inr o => stored s k key = Some o
      end
  | ListObjs k opts => λ t s s', s' = s ∧
      match t with inl _ => True | inr l => l ≡ₚ listing k (s k) opts end
  | Create k o => λ t s s',
      match t with
      | inl _ => s' = s
      | inr o' => stored s k (ObjectKeyFromObject k o) = None ∧ accepted k o o' ∧ s' = put k o' s
      end
  | Update k o => λ t s s',
      match t with
      | inl _ => s' = s
      | inr o' => ∃ x, stored s k (ObjectKeyFromObject k o) = Some x ∧ same_identity k x o'
                       ∧ accepted k o o' ∧ s' = update k o' s
      end
  | StatusUpdate k o => λ t s s',
      match t with
      | inl _ => s' = s
      | inr o' => ∃ x, stored s k (ObjectKeyFromObject k o) = Some x ∧ same_identity k x o'
                       ∧ ObjectKeyFromObject k o' = ObjectKeyFromObject k o
                       ∧ status_accepted k x o o' ∧ s' = put k o' s
      end
  | Delete k key => λ t s s',
      match t with
      | Some err => s' = s ∧ (IsNotFound err = true → stored s k key = None)
      | None => deleted k key s s'
      end
  | RangeMap m => λ t s s', s' = s ∧ t ≡ₚ map_to_list m
  | MutexLock => λ _ s s', s' = s
  | MutexUnlock => λ _ s s', s' = s
  end.

Definition api_spec : spec call store :=
  {| pre := λ _ _ _, True; post := λ T e t s s', api_post T e t s s' |}.

(** The same server, for a client that must not write. *)
Definition is_read (T : Type) (e : call T) : Prop :=
  match e with
  | Create _ _ | Update _ _ | StatusUpdate _ _ | Delete _ _ => False
  | _ => True
  end.

Definition read_spec : spec call store :=
  {| pre := λ T e _, is_read T e; post := λ T e t s s', api_post T e t s s' |}.

(** ** Lemmas *)

Lemma listing_spec k m opts o :
  o ∈ listing k m opts ↔ (∃ key, m !! key = Some o) ∧ matches k opts o = true.
Proof.
  unfold listing. rewrite list_elem_of_In, filter_In, <-list_elem_of_In.
  f_equiv. rewrite list_elem_of_fmap. split.
  - intros ([key o'] & -> & H). exists key. by apply elem_of_map_to_list.
  - intros [key H]. exists (key, o). split; [done|]. by apply elem_of_map_to_list.
Qed.

(** The index on the profile a replication names answers those that name it. *)
Lemma replication_matches ns name (cpr : obj KClientProfileReplication) :
  name ≠ "" →
  matches KClientProfileReplication (byClientProfile ns name) cpr = true
  ↔ Meta_Namespace (Repl_Meta cpr) = ns ∧ CPR_LocalClientProfile (Repl_Spec cpr) = name.
Proof.
  intros Hne. unfold matches, byClientProfile. simpl. unfold clientProfileIndex.
  rewrite andb_true_iff, String.eqb_eq.
  destruct (String.eqb_spec (CPR_LocalClientProfile (Repl_Spec cpr)) ""); simpl.
  - split; [by intros []|]. intros [_ ?]. congruence.
  - rewrite orb_false_r, String.eqb_eq. naive_solver.
Qed.

Lemma set_kind_eq s k m : set_kind s k m k = m.
Proof.
  unfold set_kind. destruct (decide (k = k)) as [e|]; [|done].
  by rewrite (proof_irrel e eq_refl).
Qed.

Lemma set_kind_ne s k k' m : k ≠ k' → set_kind s k m k' = s k'.
Proof. intros H. unfold set_kind. by destruct (decide (k = k')). Qed.

Lemma stored_put_eq k o s : stored (put k o s) k (ObjectKeyFromObject k o) = Some o.
Proof. unfold stored, put. by rewrite set_kind_eq, lookup_insert_eq. Qed.

Lemma put_other_kind k k' o s : k ≠ k' → put k o s k' = s k'.
Proof. apply set_kind_ne. Qed.

Lemma stored_put_ne k k' o s key :
  k ≠ k' ∨ key ≠ ObjectKeyFromObject k o → stored (put k o s) k' key = stored s k' key.
Proof.
  intros Hne. unfold stored, put. destruct (decide (k = k')) as [<-|Hk].
  - rewrite set_kind_eq, lookup_insert_ne; [done|]. naive_solver.
  - by rewrite set_kind_ne.
Qed.

Lemma stored_single k (o x : obj k) key s :
  stored (put k o s) k key = Some x →
  (key = ObjectKeyFromObject k o ∧ x = o) ∨ stored s k key = Some x.
Proof.
  destruct (decide (key = ObjectKeyFromObject k o)) as [->|Hne].
  - rewrite stored_put_eq. intros [= ->]. by left.
  - rewrite (stored_put_ne k k) by (by right). by right.
Qed.

Lemma stored_remove_eq k key s : stored (remove k key s) k key = None.
Proof. unfold stored, remove. by rewrite set_kind_eq, lookup_delete_eq. Qed.

Lemma stored_remove_ne k k' key key' s :
  k ≠ k' ∨ key ≠ key' → stored (remove k key s) k' key' = stored s k' key'.
Proof.
  intros Hne. unfold stored, remove. destruct (decide (k = k')) as [<-|Hk].
  - rewrite set_kind_eq, lookup_delete_ne; [done|]. naive_solver.
  - by rewrite set_kind_ne.
Qed.

Lemma remove_other_kind k k' key s : k ≠ k' → remove k key s k' = s k'.
Proof. apply set_kind_ne. Qed.

Lemma update_other_kind k k' (o : obj k) s : k ≠ k' → update k o s k' = s k'.
Proof. intros H. unfold update. destruct (releases k o s); [by apply remove_other_kind|by apply put_other_kind]. Qed.

(** An update that keeps the finalizers releases nothing. *)
Lemma update_put k (o : obj k) s :
  (∀ x, stored s k (ObjectKeyFromObject k o) = Some x →
        Meta_Finalizers (meta_of k o) = Meta_Finalizers (meta_of k x)) →
  update k o s = put k o s.
Proof.
  intros Hf. unfold update, releases. destruct (stored s k _) as [x|]; [|done].
  unfold finalized. rewrite (Hf x eq_refl).
  destruct (Meta_Finalizers (meta_of k x)), (being_deleted k x); reflexivity.
Qed.

Lemma accepted_fields k (o o' : obj k) :
  accepted k o o' → client_fields (meta_of k o) = client_fields (meta_of k o').
Proof. intros H. destruct k; first [exact H|by destruct H]. Qed.

Lemma spec_kept_refl k (o : obj k) : spec_kept k o o.
Proof. destruct k; try done; apply keeps_refl. Qed.

Lemma accepted_refl k (o : obj k) : accepted k o o.
Proof. pose proof (spec_kept_refl k o). by destruct k. Qed.

Lemma accepted_kept k (o o' : obj k) : accepted k o o' → spec_kept k o o'.
Proof. intros H. destruct k; first [done|apply H]. Qed.

Lemma accepted_key k (o o' : obj k) :
  accepted k o o' → ObjectKeyFromObject k o = ObjectKeyFromObject k o'.
Proof.
  unfold ObjectKeyFromObject, meta_key. intros Hf%accepted_fields.
  unfold client_fields in Hf. by injection Hf as -> ->.
Qed.

End server.

(** ** CreateOrUpdate against the server *)
Section create_or_update.
Context {lib : ApiLib} `{EQ : !SemanticEquality}.

(** The object a mutate function is applied to. *)
Definition base {k} (s : store) (o x : obj k) : Prop :=
  match stored s k (ObjectKeyFromObject k o) with
  | Some x' => x = x'
  | None => x = o
  end.

(** What the store holds after a [CreateOrUpdate] that succeeded, when the
    mutate function took [x] to [y]: [y] as the server accepts it, or what
    was there when that equals [y] already. *)
Definition written {k} (s s' : store) (o x y o' : obj k) : Prop :=
  ObjectKeyFromObject k y = ObjectKeyFromObject k o
  ∧ ((accepted k y o' ∧ s' = put k o' s)
     ∨ (s' = s ∧ o' = y ∧ DeepEqual k x y = true
        ∧ stored s k (ObjectKeyFromObject k o) = Some x)).

Lemma wp_CreateOrUpdate {k} (o : obj k) (f : MutateFn k) (G : obj k → obj k → Prop) s :
  (∀ x y, G x y → Meta_Finalizers (meta_of k y) = Meta_Finalizers (meta_of k x)) →
  (∀ x, base s o x →
     wp api_spec (f x) (λ s' r, s' = s ∧ ∃ y err, r = Done (y, err) ∧ (err = None → G x y)) s) →
  wp api_spec (CreateOrUpdate o f)
    (λ s' r, match r with
             | Done (o', _, None) => ∃ x y, base s o x ∧ G x y ∧ written s s' o x y o'
             | Done (_, _, Some _) => s' = s
             | Panicked _ => False
             end) s.
Proof.
  intros Hfin Hf. unfold CreateOrUpdate. cbn [wp bind trigger mbind prog_bind]. split; [done|].
  intros [err|existing] s' [-> Hgot].
  - destruct (IsNotFound err) eqn:Hnf; simpl; [|done].
    assert (Hbase : base s o o) by (unfold base; by rewrite Hgot).
    unfold mutate. apply wp_bind, wp_bind. eapply wp_mono; [by apply Hf|].
    intros ? ? (-> & y & err' & -> & HG). cbv beta iota.
    destruct err' as [e|]; simpl; [done|]. specialize (HG eq_refl).
    destruct (decide _) as [Hkey|]; simpl; [|done]. split; [done|].
    intros [e|o'] s'; simpl; [done|]. intros (Hnone & Hacc & ->).
    exists o, y. split_and!; [done|done|]. split; [done|]. by left.
  - assert (Hbase : base s o existing) by (unfold base; by rewrite Hgot).
    simpl. unfold mutate. apply wp_bind, wp_bind. eapply wp_mono; [by apply Hf|].
    intros ? ? (-> & y & err' & -> & HG). cbv beta iota.
    destruct err' as [e|]; simpl; [done|]. specialize (HG eq_refl).
    destruct (decide _) as [Hkey|]; simpl; [|done].
    destruct (DeepEqual k existing y) eqn:Heq; simpl.
    + exists existing, y. split_and!; [done|done|]. split; [done|]. by right.
    + split; [done|]. intros [e|o'] s'; simpl; [done|]. intros (x & Hx & _ & Hacc & ->).
      exists existing, y. split_and!; [done|done|]. split; [done|]. left. split; [done|].
      apply update_put. intros x'. pose proof (accepted_key _ _ _ Hacc) as <-.
      rewrite <-Hkey, Hgot. intros [= <-]. rewrite <-(Hfin _ _ HG).
      apply accepted_fields in Hacc. unfold client_fields in Hacc. by injection Hacc.
Qed.

(** When the mutate function leaves the stored object as it is, nothing is
    written. *)
Lemma wp_CreateOrUpdate_settled {k} (o x : obj k) (f : MutateFn k) s :
  stored s k (ObjectKeyFromObject k o) = Some x →
  ObjectKeyFromObject k x = ObjectKeyFromObject k o →
  wp read_spec (f x) (λ s' r, s' = s ∧ r = Done (x, None)) s →
  wp read_spec (CreateOrUpdate o f) (λ s' r, s' = s ∧ ∃ a, r = Done a) s.
Proof.
  intros Hx Hkey Hf. unfold CreateOrUpdate. cbn [wp bind trigger mbind prog_bind]. split; [done|].
  intros [err|existing] s' [-> Hgot].
  - destruct (IsNotFound err) eqn:Hnf; simpl; [|by eauto]. specialize (Hgot eq_refl). congruence.
  - assert (existing = x) as -> by congruence.
    simpl. unfold mutate. apply wp_bind, wp_bind. eapply wp_mono; [exact Hf|].
    intros ? ? [-> ->]. cbv beta iota. rewrite decide_True by done. simpl.
    rewrite DeepEqual_refl. simpl. eauto.
Qed.

(** The config map a successful [CreateOrUpdate] leaves. *)
Lemma written_configmap s s' (o x y o' : obj KConfigMap) :
  base s o x → written s s' o x y o' →
  ∃ cm : obj KConfigMap,
    stored s' KConfigMap (ObjectKeyFromObject KConfigMap o) = Some cm
    ∧ accepted KConfigMap y cm
    ∧ (∀ k, k ≠ KConfigMap → s' k = s k)
    ∧ (∀ key, key ≠ ObjectKeyFromObject KConfigMap o →
         stored s' KConfigMap key = stored s KConfigMap key).
Proof.
  intros Hbase [Hkey [[Hacc ->]|(-> & -> & Heq & Hx)]].
  - exists o'. pose proof (accepted_key _ _ _ Hacc) as Hkey'.
    rewrite <-Hkey, Hkey'. split_and!; [apply stored_put_eq|done| |].
    + intros k Hk. by apply put_other_kind.
    + intros key Hk. apply stored_put_ne. by right.
  - exists x. apply DeepEqual_configmap in Heq as <-. by split_and!.
Qed.

End create_or_update.

(** ** A server in memory *)
Section memory.
Context {lib : ApiLib}.

Definition not_found (k : kind) (key : NamespacedName) : error :=
  StatusError NotFound (Kind_of k ++ " " ++ Key_Name key ++ " not found").

(** An object with other metadata. *)
Definition with_meta (k : kind) (m : ObjectMeta) : obj k → obj k :=
  match k return obj k → obj k with
  | KConfigMap => λ o, {| CM_Meta := m; CM_Data := CM_Data o |}
  | KCSIDriver => λ o, {| CSID_Meta := m; CSID_Spec := CSID_Spec o |}
  | KDeployment => λ o, {| Dep_Meta := m; Dep_Spec := Dep_Spec o |}
  | KDaemonSet => λ o, {| DSet_Meta := m; DSet_Spec := DSet_Spec o |}
  | KService => λ o, {| Svc_Meta := m; Svc_Spec := Svc_Spec o |}
  | KNetworkPolicy => λ o, {| NetPol_Meta := m; NetPol_Spec := NetPol_Spec o |}
  | KNode => λ o, {| Node_Meta := m |}
  | KDriver => λ o, {| Driver_Meta := m; Driver_Spec := Driver_Spec o |}
  | KOperatorConfig => λ o, {| OpConf_Meta := m; OpConf_Spec := OpConf_Spec o |}
  | KCephConnection => λ o, {| Conn_Meta := m; Conn_Spec := Conn_Spec o |}
  | KClientProfile => λ o,
      {| Profile_Meta := m; Profile_Spec := Profile_Spec o; Profile_Status := Profile_Status o |}
  | KClientProfileMapping => λ o, {| Mapping_Meta := m; Mapping_Spec := Mapping_Spec o |}
  | KClientProfileReplication => λ o,
      {| Repl_Meta := m; Repl_Spec := Repl_Spec o; Repl_Status := Repl_Status o |}
  end.

(** The metadata [m] with the UID and the timestamps given. *)
Definition stamp (uid : string) (created : Z) (deleted : option Z) (m : ObjectMeta) : ObjectMeta := {|
  Meta_Name := Meta_Name m; Meta_Namespace := Meta_Namespace m; Meta_UID := uid;
  Meta_ResourceVersion := Meta_ResourceVersion m; Meta_Generation := Meta_Generation m;
  Meta_CreationTimestamp := created; Meta_DeletionTimestamp := deleted;
  Meta_Labels := Meta_Labels m; Meta_Annotations := Meta_Annotations m;
  Meta_OwnerReferences := Meta_OwnerReferences m; Meta_Finalizers := Meta_Finalizers m;
|}.

(** What an update stores for [o] over [x]: the identity of [x] is kept. *)
Definition kept_identity (k : kind) (x o : obj k) : obj k :=
  let m := meta_of k x in
  with_meta k (stamp (Meta_UID m) (Meta_CreationTimestamp m) (Meta_DeletionTimestamp m) (meta_of k o)) o.

(** What a status update stores. *)
Definition with_status (k : kind) : obj k → obj k → obj k :=
  match k return obj k → obj k → obj k with
  | KClientProfile => λ x o,
      {| Profile_Meta := Profile_Meta x; Profile_Spec := Profile_Spec x;
         Profile_Status := Profile_Status o |}
  | KClientProfileReplication => λ x o,
      {| Repl_Meta := Repl_Meta x; Repl_Spec := Repl_Spec x; Repl_Status := Repl_Status o |}
  | k => λ x o, with_meta k (meta_of k x) o
  end.

Definition marked (k : kind) (o : obj k) : obj k :=
  let m := meta_of k o in
  with_meta k (stamp (Meta_UID m) (Meta_CreationTimestamp m) (Some 1%Z) m) o.

Definition memory_server (T : Type) (e : call T) : store → store * T :=
  match e in call T return store → store * T with
  | Get k key => λ s,
      (s, match stored s k key with Some o => inr o | None => inl (not_found k key) end)
  | ListObjs k opts => λ s, (s, inr (listing k (s k) opts))
  | Create k o => λ s,
      match stored s k (ObjectKeyFromObject k o) with
      | Some _ => (s, inl (StatusError AlreadyExists "already exists"))
      | None => (put k o s, inr o)
      end
  | Update k o => λ s,
      match stored s k (ObjectKeyFromObject k o) with
      | Some x => (update k (kept_identity k x o) s, inr (kept_identity k x o))
      | None => (s, inl (not_found k (ObjectKeyFromObject k o)))
      end
  | StatusUpdate k o => λ s,
      match stored s k (ObjectKeyFromObject k o) with
      | Some x =>
          if decide (ObjectKeyFromObject k x = ObjectKeyFromObject k o)
          then (put k (with_status k x o) s, inr (with_status k x o))
          else (s, inl (not_found k (ObjectKeyFromObject k o)))
      | None => (s, inl (not_found k (ObjectKeyFromObject k o)))
      end
  | Delete k key => λ s,
      match stored s k key with
      | Some o =>
          if finalized k o then (remove k key s, None)
          else if decide (ObjectKeyFromObject k o = key)
               then (put k (marked k o) s, None)
               else (s, Some (Errorf "stored under another key"))
      | None => (s, Some (not_found k key))
      end
  | RangeMap m => λ s, (s, map_to_list m)
  | MutexLock => λ s, (s, tt)
  | MutexUnlock => λ s, (s, tt)
  end.

Lemma meta_of_with_meta k m o : meta_of k (with_meta k m o) = m.
Proof. by destruct k. Qed.

Lemma kept_identity_accepted k (x o : obj k) : accepted k o (kept_identity k x o).
Proof.
  assert (Hk : spec_kept k o (kept_identity k x o)) by (pose proof (spec_kept_refl k o); by destruct k).
  by destruct k.
Qed.

Lemma kept_identity_same k (x o : obj k) : same_identity k x (kept_identity k x o).
Proof. unfold same_identity, kept_identity. by rewrite !meta_of_with_meta. Qed.

Lemma with_status_meta k (x o : obj k) : meta_of k (with_status k x o) = meta_of k x.
Proof. by destruct k. Qed.

Lemma with_status_accepted k (x o : obj k) : status_accepted k x o (with_status k x o).
Proof. unfold status_accepted. rewrite with_status_meta. by destruct k. Qed.

Lemma memory_server_implements : implements api_spec memory_server.
Proof.
  intros T e s _. destruct e as [k key|k opts|k o|k o|k o|k key|m| |]; simpl.
  - by destruct (stored s k key) eqn:E.
  - done.
  - destruct (stored s k _) eqn:E; simpl; [done|]. split_and!; [done|apply accepted_refl|done].
  - destruct (stored s k _) as [x|] eqn:E; simpl; [|done].
    exists x. split_and!; [done|apply kept_identity_same|apply kept_identity_accepted|done].
  - destruct (stored s k _) as [x|] eqn:E; simpl; [|done]. destruct (decide _) as [Hk|]; [|done].
    exists x. split_and!; [done|..|apply with_status_accepted|done].
    + unfold same_identity. by rewrite with_status_meta.
    + unfold ObjectKeyFromObject in *. by rewrite with_status_meta.
  - unfold deleted. destruct (stored s k key) as [o|] eqn:E; [|done].
    destruct (finalized k o) eqn:Hf; simpl; [done|].
    destruct (decide _) as [Hk|]; [|done]. simpl. exists (marked k o).
    unfold being_deleted, ObjectKeyFromObject in *. unfold marked. by rewrite meta_of_with_meta.
  - done.
  - done.
  - done.
Qed.

End memory.

(** A comparison of objects to evaluate iterations at: exact on the metadata,
    and on the data or the spec of the kinds the operator builds. *)
#[export] Instance ObjectMeta_eq_dec : EqDecision ObjectMeta.
Proof. solve_decision. Defined.

Definition same_spec (k : kind) : @obj plain_lib k → @obj plain_lib k → bool :=
  match k return @obj plain_lib k → @obj plain_lib k → bool with
  | KConfigMap => λ o o', bool_decide (CM_Data o = CM_Data o')
  | KCSIDriver => λ o o', bool_decide (CSID_Spec o = CSID_Spec o')
  | KDeployment => λ o o', bool_decide (Dep_Spec o = Dep_Spec o')
  | KDaemonSet => λ o o', bool_decide (DSet_Spec o = DSet_Spec o')
  | KService => λ o o', bool_decide (Svc_Spec o = Svc_Spec o')
  | KNetworkPolicy => λ o o', bool_decide (NetPol_Spec o = NetPol_Spec o')
  | _ => λ _ _, true
  end.

Definition example_equality : @SemanticEquality plain_lib.
Proof.
  refine {| DeepEqual := λ k o o', bool_decide (meta_of k o = meta_of k o') && same_spec k o o' |}.
  - intros k o. rewrite bool_decide_true by done. destruct k; simpl; try done; by apply bool_decide_true.
  - intros k o o' [H _]%andb_prop. by apply bool_decide_eq_true in H.
  - intros k o o' [_ H]%andb_prop.
    destruct k; try done; simpl in *; apply bool_decide_eq_true in H;
      first [done|rewrite H; apply keeps_refl].
  - intros [m d] [m' d'] [Hm Hd]%andb_prop. apply bool_decide_eq_true in Hm.
    apply bool_decide_eq_true in Hd. simpl in *. by subst.
Defined.
