(* ===== verification/Mapping.v ===== *)
(** * The ClientProfileMapping controller
    (internal/controller/clientprofilemapping_controller.go)

    The pool mappings of every ClientProfileMapping of a namespace are
    gathered into one list of records, one record per pair of local and
    remote profile, and stored as JSON in the Ceph CSI config map.
    [grouped] is the specification of the list. *)
From S2P Require Import Prelude Prog K8s ApiTypes Cluster CsiUtils Json JsonCodec Server.

(** ** Definitions *)

Record csiClusterMappingRecord := {
  ClusterIdMapping : gmap string string;
  RbdPoolIdMapping : list (gmap string string);
}.

(** [mappingKey] and [duplicationKey]. *)
Definition mappingKey : Type := string * string.
Definition duplicationKey : Type := mappingKey * (string * string).

(** The variables the scan of the resources updates. *)
Record scan := {
  indexByPair : gmap mappingKey nat;
  csiClusterMappingsList : list csiClusterMappingRecord;
  alreadySeen : gset duplicationKey;
}.

Definition start_scan : scan :=
  {| indexByPair := ∅; csiClusterMappingsList := []; alreadySeen := ∅ |}.

(** The body of the innermost loop. *)
Definition add_pair (key : mappingKey) (st : list (gmap string string) * gset duplicationKey)
    (pair : BlockPoolIdPair) : string + (list (gmap string string) * gset duplicationKey) :=
  p0 ← go_index pair 0;
  p1 ← go_index pair 1;
  let dupKey : duplicationKey := (key, (p0, p1)) in
  (* skip adding identical items *)
  inr (if bool_decide (dupKey ∈ st.2) then st
       else (st.1 ++ [{[p0 := p1]}], {[dupKey]} ∪ st.2)).

(** The index of the record of a pair of profiles; a new pair gets a record
    at the end. *)
Definition record_index (st : scan) (key : mappingKey)
    : nat * gmap mappingKey nat * list csiClusterMappingRecord :=
  match indexByPair st !! key with
  | Some index => (index, indexByPair st, csiClusterMappingsList st)
  | None =>
      let index := length (csiClusterMappingsList st) in
      (index, <[key := index]> (indexByPair st),
       csiClusterMappingsList st ++
         [{| ClusterIdMapping := {[key.1 := key.2]}; RbdPoolIdMapping := [] |}])
  end.

(** The body of the loop over the mappings of one resource. *)
Definition add_mapping (st : scan) (mapping : MappingsSpec) : string + scan :=
  let key := (Mapping_LocalClientProfile mapping, Mapping_RemoteClientProfile mapping) in
  let '(index, indexByPair, list) := record_index st key in
  record ← go_index list index;
  '(rbdPoolIdMapping, alreadySeen) ←
    for_range (add_pair key) (BlockPoolIdMapping mapping) (RbdPoolIdMapping record, alreadySeen st);
  inr {| indexByPair := indexByPair;
          csiClusterMappingsList :=
            <[index := {| ClusterIdMapping := ClusterIdMapping record;
                          RbdPoolIdMapping := rbdPoolIdMapping |}]> list;
          alreadySeen := alreadySeen |}.

Definition scan_item (st : scan) (item : ClientProfileMapping) : string + scan :=
  for_range add_mapping (Mappings (Mapping_Spec item)) st.

Definition build_mappings (items : list ClientProfileMapping)
    : string + list csiClusterMappingRecord :=
  st ← for_range scan_item items start_scan;
  inr (csiClusterMappingsList st).

(** [json.Marshal] of the list. *)
Definition encode_mapping_record (r : csiClusterMappingRecord) : json :=
  JObj (omitempty "clusterIdMapping" (bool_decide (ClusterIdMapping r = ∅))
          (encode_map JStr (ClusterIdMapping r))
        ++ omitempty "RBDPoolIDMapping" (is_empty (RbdPoolIdMapping r))
             (JArr (encode_map JStr <$> RbdPoolIdMapping r))).

Definition mappings_text (l : list csiClusterMappingRecord) : string :=
  json_text (JArr (encode_mapping_record <$> l)).

Section reconcile.
Context {lib : ApiLib} `{EQ : !SemanticEquality}.

(** The first item that is the resource of the request. *)
Definition is_request (req : NamespacedName) (item : ClientProfileMapping) : bool :=
  String.eqb (Meta_Name (Mapping_Meta item)) (Key_Name req)
  && String.eqb (Meta_Namespace (Mapping_Meta item)) (Key_Namespace req).

(** The function that fills in the config map. *)
Definition mutate_mapping (req : NamespacedName) (items : list ClientProfileMapping)
    : MutateFn KConfigMap := λ csiConfigMap,
  let '(m, _, err) :=
    match List.find (is_request req) items with
    | Some owner =>
        ToggleOwnerReference true (CM_Meta csiConfigMap) KClientProfileMapping (Mapping_Meta owner)
    | None => (CM_Meta csiConfigMap, false, None)
    end in
  match err with
  | Some err => mret ({| CM_Meta := m; CM_Data := CM_Data csiConfigMap |}, Some err)
  | None =>
      list ← lift_panic (build_mappings items);
      mret (set_cm_data CsiConfigMapMappingKey (mappings_text list) m csiConfigMap, None)
  end.

Definition reconcileCephCsiBlockPoolMapping (req : NamespacedName)
    (items : list ClientProfileMapping) : M (option error) :=
  let csiConfigMap := {| CM_Meta := new_meta (Key_Namespace req) CsiConfigVolume_Name;
                         CM_Data := ∅ |} in
  '(_, _, err) ← CreateOrUpdate (csiConfigMap : obj KConfigMap) (mutate_mapping req items);
  mret err.

Definition mapping_reconcile (req : NamespacedName) : M (option error) :=
  listed ← trigger (ListObjs KClientProfileMapping
                      {| InNamespace := Some (Key_Namespace req); MatchingFields := None |});
  match listed with
  | inl err => mret (Some err)
  | inr items =>
      err ← reconcileCephCsiBlockPoolMapping req items;
      match err with
      | Some err => mret (Some err)
      | None => mret None
      end
  end.

End reconcile.

(** ** The list the scan builds *)

Definition pair_of (m : MappingsSpec) : mappingKey :=
  (Mapping_LocalClientProfile m, Mapping_RemoteClientProfile m).

(** The pool pairs of a mapping; a pair of fewer than two strings is none. *)
Definition pool_pairs (m : MappingsSpec) : list (string * string) :=
  omap (λ p, match p with p0 :: p1 :: _ => Some (p0, p1) | _ => None end) (BlockPoolIdMapping m).

Definition pools_of (ms : list MappingsSpec) (key : mappingKey) : list (string * string) :=
  concat (pool_pairs <$> List.filter (λ m, bool_decide (pair_of m = key)) ms).

Definition record_of (ms : list MappingsSpec) (key : mappingKey) : csiClusterMappingRecord :=
  {| ClusterIdMapping := {[key.1 := key.2]};
     RbdPoolIdMapping := (λ p, {[p.1 := p.2]}) <$> first_occurrences (pools_of ms key) |}.

(** One record per pair of profiles, in the order the pairs first appear,
    with the pool pairs of every mapping of the pair, each once. *)
Definition grouped (ms : list MappingsSpec) : list csiClusterMappingRecord :=
  record_of ms <$> first_occurrences (pair_of <$> ms).

Definition all_mappings (items : list ClientProfileMapping) : list MappingsSpec :=
  concat ((λ i, Mappings (Mapping_Spec i)) <$> items).

Definition pair_ok (p : BlockPoolIdPair) : bool := (2 <=? length p)%nat.
Definition pairs_ok (ms : list MappingsSpec) : bool :=
  forallb (λ m, forallb pair_ok (BlockPoolIdMapping m)) ms.

(** The scan after the mappings [ms]. *)
Record scanned (ms : list MappingsSpec) (st : scan) : Prop := {
  scanned_index : ∀ key i,
    indexByPair st !! key = Some i ↔ first_occurrences (pair_of <$> ms) !! i = Some key;
  scanned_list : csiClusterMappingsList st = grouped ms;
  scanned_seen : ∀ key p, (key, p) ∈ alreadySeen st ↔ p ∈ pools_of ms key;
}.

Lemma for_range_concat {A B S} (body : S → B → string + S) (f : A → list B) (l : list A) s :
  for_range (λ s x, for_range body (f x) s) l s = for_range body (concat (f <$> l)) s.
Proof.
  revert s. induction l as [|x l IH]; intros s; csimpl; [done|].
  rewrite for_range_app. destruct (for_range body (f x) s); [done|apply IH].
Qed.

Lemma add_pair_spec key rbd seen p :
  add_pair key (rbd, seen) p =
  match p with
  | p0 :: p1 :: _ =>
      inr (if bool_decide ((key, (p0, p1)) ∈ seen) then (rbd, seen)
           else (rbd ++ [{[p0 := p1]}], {[(key, (p0, p1))]} ∪ seen))
  | _ => inl (index_panic (length p) (length p))
  end.
Proof. by destruct p as [|p0 [|p1 p]]. Qed.

(** The innermost loop, from a state where the pool pairs [ps] of the key
    have been added. *)
Lemma add_pairs_spec key pairs ps seen :
  (∀ p, (key, p) ∈ seen ↔ p ∈ ps) →
  match for_range (add_pair key) pairs ((λ p, {[p.1 := p.2]}) <$> first_occurrences ps, seen) with
  | inr (rbd, seen') =>
      let qs := omap (λ p, match p with p0 :: p1 :: _ => Some (p0, p1) | _ => None end) pairs in
      forallb pair_ok pairs = true
      ∧ rbd = (λ p, {[p.1 := p.2]}) <$> first_occurrences (ps ++ qs)
      ∧ (∀ p, (key, p) ∈ seen' ↔ p ∈ ps ++ qs)
      ∧ (∀ key' p, key' ≠ key → (key', p) ∈ seen' ↔ (key', p) ∈ seen)
  | inl _ => forallb pair_ok pairs = false
  end.
Proof.
  revert ps seen. induction pairs as [|p pairs IH]; intros ps seen Hseen.
  { simpl. by rewrite app_nil_r. }
  cbn [for_range]. rewrite add_pair_spec.
  destruct p as [|p0 [|p1 p]]; [done..|]. csimpl.
  replace (ps ++ (p0, p1) :: _) with ((ps ++ [(p0, p1)]) ++
    omap (λ p, match p with p0 :: p1 :: _ => Some (p0, p1) | _ => None end) pairs)
    by (by rewrite <-app_assoc).
  case_bool_decide as Hin.
  - specialize (IH (ps ++ [(p0, p1)]) seen). rewrite first_occurrences_snoc in IH.
    unfold add_new in IH. rewrite decide_True in IH
      by (by apply elem_of_first_occurrences, Hseen).
    apply IH. intros q. rewrite Hseen in Hin |- *. set_solver.
  - specialize (IH (ps ++ [(p0, p1)]) ({[(key, (p0, p1))]} ∪ seen)).
    rewrite first_occurrences_snoc in IH. unfold add_new in IH.
    rewrite decide_False in IH by (rewrite elem_of_first_occurrences, <-Hseen; done).
    rewrite fmap_app in IH. destruct (for_range _ _ _) as [|[rbd seen']]; [apply IH|].
    + intros q. set_solver.
    + destruct IH as (? & ? & ? & Hother); [intros q; set_solver|]. split_and!; try done.
      intros key' q Hne. rewrite Hother by done. set_solver.
Qed.

Lemma pools_of_snoc ms m key :
  pools_of (ms ++ [m]) key
  = pools_of ms key ++ (if bool_decide (pair_of m = key) then pool_pairs m else []).
Proof.
  unfold pools_of. rewrite List.filter_app, fmap_app, concat_app. f_equal. simpl.
  case_bool_decide; simpl; [by rewrite app_nil_r|done].
Qed.

Lemma pools_of_new ms key : key ∉ pair_of <$> ms → pools_of ms key = [].
Proof.
  intros Hk. unfold pools_of. induction ms as [|m ms IH]; [done|]. csimpl in *.
  rewrite bool_decide_false by set_solver. apply IH. set_solver.
Qed.

(** Changing the entry of one key of a list built from distinct keys. *)
Lemma fmap_insert_key {K B} (f f' : K → B) (keys : list K) i key :
  NoDup keys → keys !! i = Some key → (∀ k, k ≠ key → f k = f' k) →
  <[i := f' key]> (f <$> keys) = f' <$> keys.
Proof.
  intros Hnd Hi Hf. apply list_eq. intros j. destruct (decide (i = j)) as [<-|Hne].
  - rewrite list_lookup_insert_eq, list_lookup_fmap, Hi; [done|].
    rewrite length_fmap. by eapply lookup_lt_Some.
  - rewrite list_lookup_insert_ne by done. rewrite !list_lookup_fmap.
    destruct (keys !! j) as [k|] eqn:Hj; [|done]. simpl. f_equal. apply Hf. intros ->.
    apply Hne. by eapply NoDup_lookup.
Qed.

(** The index and the list after the pair of a mapping has been looked up. *)
Lemma scanned_lookup ms st m :
  scanned ms st →
  let key := pair_of m in
  let keys := first_occurrences (pair_of <$> ms ++ [m]) in
  ∃ index ibp l,
    record_index st key = (index, ibp, l)
    ∧ keys !! index = Some key
    ∧ l = record_of ms <$> keys
    ∧ (∀ key i, ibp !! key = Some i ↔ keys !! i = Some key).
Proof.
  intros [Hidx Hlist _] key keys.
  assert (Hkeys : keys = add_new (first_occurrences (pair_of <$> ms)) key)
    by (unfold keys; rewrite fmap_app; apply (first_occurrences_snoc _ key)).
  unfold record_index. unfold add_new in Hkeys. destruct (indexByPair st !! key) as [i|] eqn:Hk.
  - assert (key ∈ first_occurrences (pair_of <$> ms)) as Hin
      by (apply Hidx in Hk; by eapply list_elem_of_lookup_2).
    rewrite decide_True in Hkeys by done. rewrite Hkeys.
    exists i, (indexByPair st), (csiClusterMappingsList st). split_and!; [done|by apply Hidx|done|done].
  - assert (key ∉ first_occurrences (pair_of <$> ms)) as Hnin.
    { intros [i Hi]%list_elem_of_lookup. apply Hidx in Hi. congruence. }
    rewrite decide_False in Hkeys by done. rewrite Hkeys.
    assert (Hlen : length (csiClusterMappingsList st) = length (first_occurrences (pair_of <$> ms)))
      by (rewrite Hlist; apply length_fmap).
    eexists _, _, _. split; [done|]. split_and!.
    + rewrite Hlen. by apply list_lookup_middle.
    + rewrite Hlist, fmap_app. unfold grouped. f_equal. simpl. unfold record_of.
      rewrite pools_of_new; [done|]. by rewrite <-elem_of_first_occurrences.
    + intros k i. destruct (decide (key = k)) as [<-|Hne].
      * rewrite lookup_insert_eq, Hlen. split.
        -- intros [= <-]. by apply list_lookup_middle.
        -- intros [Hi|[Hle Hi]]%lookup_app_Some.
           ++ by apply list_elem_of_lookup_2 in Hi.
           ++ f_equal. destruct (i - _) eqn:E; [lia|done].
      * rewrite lookup_insert_ne by done. rewrite Hidx, lookup_app_Some. split; [by left|].
        intros [Hi|[Hle Hi]]; [done|]. destruct (i - _) eqn:E; simplify_eq/=.
Qed.

Lemma add_mapping_scanned ms st m :
  scanned ms st →
  match add_mapping st m with
  | inr st' => forallb pair_ok (BlockPoolIdMapping m) = true ∧ scanned (ms ++ [m]) st'
  | inl _ => forallb pair_ok (BlockPoolIdMapping m) = false
  end.
Proof.
  intros Hst. unfold add_mapping. fold (pair_of m).
  destruct (scanned_lookup ms st m Hst) as (index & ibp & l & Heq & Hi & -> & Hibp).
  rewrite Heq. clear Heq.
  set (keys := first_occurrences (pair_of <$> ms ++ [m])) in *.
  unfold go_index. rewrite list_lookup_fmap, Hi. simpl.
  pose proof (add_pairs_spec (pair_of m) (BlockPoolIdMapping m) (pools_of ms (pair_of m))
                (alreadySeen st) (λ p, scanned_seen ms st Hst (pair_of m) p)) as Hloop.
  destruct (for_range _ _ _) as [|[rbd seen]]; [done|]. simpl in *.
  destruct Hloop as (Hok & -> & Hseen & Hother). split; [done|]. fold (pool_pairs m) in Hseen |- *.
  split; simpl; [done| |].
  - unfold grouped. fold keys.
    rewrite <-(fmap_insert_key (record_of ms) (record_of (ms ++ [m])) keys index (pair_of m));
      [|apply NoDup_first_occurrences|done|].
    + unfold record_of. rewrite pools_of_snoc, bool_decide_true by done. done.
    + intros k Hne. unfold record_of. rewrite pools_of_snoc, bool_decide_false by done.
      by rewrite app_nil_r.
  - intros key p. rewrite pools_of_snoc. case_bool_decide as Hk.
    + by rewrite <-Hk, Hseen.
    + rewrite app_nil_r, Hother by done. apply (scanned_seen ms st Hst).
Qed.

Lemma add_mappings_scanned ms' ms st :
  scanned ms st →
  match for_range add_mapping ms' st with
  | inr st' => pairs_ok ms' = true ∧ scanned (ms ++ ms') st'
  | inl _ => pairs_ok ms' = false
  end.
Proof.
  revert ms st. induction ms' as [|m ms' IH]; intros ms st Hst; [by simpl; rewrite app_nil_r|].
  simpl. pose proof (add_mapping_scanned ms st m Hst) as Hm.
  destruct (add_mapping st m) as [|st']; [by rewrite Hm|]. destruct Hm as [-> Hst'].
  specialize (IH (ms ++ [m]) st' Hst'). by rewrite <-app_assoc in IH.
Qed.

Lemma build_mappings_grouped_aux (items : list ClientProfileMapping) :
  match build_mappings items with
  | inr l => pairs_ok (all_mappings items) = true ∧ l = grouped (all_mappings items)
  | inl _ => pairs_ok (all_mappings items) = false
  end.
Proof.
  unfold build_mappings, scan_item. rewrite for_range_concat. fold (all_mappings items).
  pose proof (add_mappings_scanned (all_mappings items) [] start_scan) as H.
  destruct (for_range _ _ _) as [|st]; simpl in *.
  - apply H. split; [|done|]; simpl; intros; [by rewrite lookup_empty|]; set_solver.
  - destruct H as [Hok [_ Hl _]].
    { split; [|done|]; simpl; intros; [by rewrite lookup_empty|]; set_solver. }
    by split.
Qed.

(** C25: scanning the resources of a namespace groups their mappings by pair
    of profiles in the order the pairs first appear, each pool pair listed
    once; the scan panics exactly when some pool pair holds fewer than two
    strings. *)
Theorem build_mappings_grouped (items : list ClientProfileMapping) :
  match build_mappings items with
  | inr l => pairs_ok (all_mappings items) = true ∧ l = grouped (all_mappings items)
  | inl _ => pairs_ok (all_mappings items) = false
  end.
Proof. apply build_mappings_grouped_aux. Qed.

(** *** The order of the resources *)

(** Two lists of records that agree up to the order of the records and the
    order of the pool pairs in each. *)
Definition same_groups (l l' : list csiClusterMappingRecord) : Prop :=
  ∃ l'', l ≡ₚ l''
    ∧ Forall2 (λ r r', ClusterIdMapping r = ClusterIdMapping r'
                       ∧ RbdPoolIdMapping r ≡ₚ RbdPoolIdMapping r') l'' l'.

Lemma pools_of_perm ms ms' key : ms ≡ₚ ms' → pools_of ms key ≡ₚ pools_of ms' key.
Proof.
  intros Hp. unfold pools_of. by rewrite (filter_perm _ _ _ Hp).
Qed.

Lemma all_mappings_perm items items' : items ≡ₚ items' → all_mappings items ≡ₚ all_mappings items'.
Proof. intros Hp. unfold all_mappings. by rewrite Hp. Qed.

Lemma pairs_ok_perm ms ms' : ms ≡ₚ ms' → pairs_ok ms = true → pairs_ok ms' = true.
Proof.
  intros Hp. unfold pairs_ok. rewrite !forallb_forall. intros H x Hx.
  apply H, list_elem_of_In. rewrite Hp. by apply list_elem_of_In.
Qed.

(** The order of the resources decides nothing but the order in the list. *)
Lemma grouped_perm ms ms' : ms ≡ₚ ms' → same_groups (grouped ms) (grouped ms').
Proof.
  intros Hp. exists (record_of ms <$> first_occurrences (pair_of <$> ms')). split.
  - unfold grouped. apply Permutation_map. apply first_occurrences_perm. by rewrite Hp.
  - unfold grouped. apply Forall2_fmap_2, Forall_Forall2_diag, Forall_true. intros key.
    split; [done|]. simpl. apply Permutation_map, first_occurrences_perm, pools_of_perm, Hp.
Qed.

(** ** One iteration against the API server *)
Section iteration.
Context {lib : ApiLib} `{EQ : !SemanticEquality}.

(** What the list call of an iteration for [req] answers. *)
Definition listed_mappings (s : store) (req : NamespacedName) : list ClientProfileMapping :=
  listing KClientProfileMapping (s KClientProfileMapping)
    {| InNamespace := Some (Key_Namespace req); MatchingFields := None |}.

(** The config map a successful iteration leaves: the mapping text of the
    listed resources, and the resource of the request among the owners. *)
Definition settled (items : list ClientProfileMapping) (req : NamespacedName) (cm : ConfigMap) : Prop :=
  CM_Data cm !! CsiConfigMapMappingKey = Some (mappings_text (grouped (all_mappings items)))
  ∧ ∀ owner, List.find (is_request req) items = Some owner →
             IsOwnedBy (CM_Meta cm) (Mapping_Meta owner) = true.

Lemma build_mappings_ok items :
  pairs_ok (all_mappings items) = true → build_mappings items = inr (grouped (all_mappings items)).
Proof.
  intros Hok. pose proof (build_mappings_grouped_aux items) as H.
  destruct (build_mappings items); [congruence|]. by destruct H as [_ ->].
Qed.

Lemma mutate_mapping_spec (sp : spec call store) req items (cm : obj KConfigMap) s :
  pairs_ok (all_mappings items) = true →
  wp sp (mutate_mapping req items cm)
    (λ s' r, s' = s ∧ ∃ (y : obj KConfigMap) err, r = Done (y, err) ∧
       (err = None → settled items req y
                     ∧ (∀ k, k ≠ CsiConfigMapMappingKey → CM_Data y !! k = CM_Data cm !! k)
                     ∧ Meta_Finalizers (CM_Meta y) = Meta_Finalizers (CM_Meta cm))) s.
Proof.
  intros Hok. unfold mutate_mapping. destruct (List.find _ _) as [owner|] eqn:Hfind.
  - pose proof (ToggleOwnerReference_finalizers true (CM_Meta cm) KClientProfileMapping
                  (Mapping_Meta owner)) as Hf.
    destruct (ToggleOwnerReference _ _ _ _) as [[m c] [err|]] eqn:Ht.
    { simpl. split; [done|]. by eexists _, (Some err). }
    rewrite build_mappings_ok by done. simpl. split; [done|]. eexists _, None. split; [done|].
    intros _. unfold settled. simpl. rewrite Hfind. split_and!.
    + apply lookup_insert_eq.
    + intros ? [= <-]. by eapply ToggleOwnerReference_on.
    + intros k Hk. by apply lookup_insert_ne.
    + exact Hf.
  - rewrite build_mappings_ok by done. simpl. split; [done|]. eexists _, None. split; [done|].
    intros _. unfold settled. simpl. rewrite Hfind. split_and!; [apply lookup_insert_eq|done| |done].
    intros k Hk. by apply lookup_insert_ne.
Qed.

(** Applied to a settled config map, the mutate function changes nothing. *)
Lemma mutate_mapping_settled (sp : spec call store) req items (cm : obj KConfigMap) s :
  pairs_ok (all_mappings items) = true → settled items req cm →
  wp sp (mutate_mapping req items cm) (λ s' r, s' = s ∧ r = Done (cm, None)) s.
Proof.
  intros Hok [Hdata Howner]. unfold mutate_mapping.
  assert (Hcm : set_cm_data CsiConfigMapMappingKey (mappings_text (grouped (all_mappings items)))
                  (CM_Meta cm) cm = cm).
  { unfold set_cm_data. rewrite insert_id by done. by destruct cm. }
  destruct (List.find _ _) as [owner|] eqn:Hfind.
  - rewrite ToggleOwnerReference_owned by (by apply Howner).
    rewrite build_mappings_ok by done. simpl. by rewrite Hcm.
  - rewrite build_mappings_ok by done. simpl. by rewrite Hcm.
Qed.

Lemma settled_accepted items req (y cm : obj KConfigMap) :
  accepted KConfigMap y cm → settled items req y → settled items req cm.
Proof.
  intros [Hm Hd] [H1 H2]. unfold settled. rewrite <-Hd. split; [done|].
  intros owner Ho. rewrite <-(H2 owner Ho). unfold IsOwnedBy. f_equal.
  unfold client_fields in Hm. congruence.
Qed.

(** A server whose list call answers the mapping resources in the order
    [items], for a client that must not write. *)
Definition repeat_spec (items : list ClientProfileMapping) : spec call store := {|
  pre := λ T e _, is_read T e;
  post := λ T e t s s', api_post T e t s s' ∧
    match e in call T return T → Prop with
    | ListObjs k _ =>
        match k return error + list (obj k) → Prop with
        | KClientProfileMapping => λ t, match t with inl _ => True | inr l => l = items end
        | _ => λ _, True
        end
    | _ => λ _, True
    end t |}.

Lemma mapping_reconcile_settled req items s (cm : ConfigMap) :
  pairs_ok (all_mappings items) = true →
  stored s KConfigMap (config_key (Key_Namespace req)) = Some cm →
  ObjectKeyFromObject KConfigMap cm = config_key (Key_Namespace req) →
  settled items req cm →
  wp (repeat_spec items) (mapping_reconcile req) (λ s' r, s' = s ∧ ∃ a, r = Done a) s.
Proof.
  intros Hok Hcm Hkey Hset. unfold mapping_reconcile. cbn [wp bind trigger mbind prog_bind].
  split; [done|]. intros [err|items'] s' [[-> _] Hl]; [simpl; eauto|]. simpl in Hl. subst items'.
  unfold reconcileCephCsiBlockPoolMapping. apply wp_bind, wp_bind.
  eapply wp_mono.
  { apply (wp_spec read_spec); [done|by intros T e t s0 s1 []|].
    apply (wp_CreateOrUpdate_settled _ (cm : obj KConfigMap)); [done|done|].
    by apply mutate_mapping_settled. }
  intros ? ? [-> [[[? ?] err] ->]]. simpl. destruct err; simpl; eauto.
Qed.

(** What an iteration for [req] that succeeded, having listed [items], leaves
    of the store [s]: the other keys of the config map's data and all other
    objects as they were. *)
Definition converged (req : NamespacedName) (items : list ClientProfileMapping) (s s' : store) : Prop :=
  let key := config_key (Key_Namespace req) in
  (∃ cm, stored s' KConfigMap key = Some cm ∧ ObjectKeyFromObject KConfigMap cm = key
     ∧ settled items req cm
     ∧ ∀ k, k ≠ CsiConfigMapMappingKey →
         CM_Data cm !! k = stored s KConfigMap key ≫= λ old : ConfigMap, CM_Data old !! k)
  ∧ ∀ k key', (k, key') ≠ (KConfigMap, key) → stored s' k key' = stored s k key'.

Lemma wp_reconcile_mapping req items s :
  pairs_ok (all_mappings items) = true →
  wp api_spec (reconcileCephCsiBlockPoolMapping req items)
    (λ s' r, ∃ err, r = Done err ∧ (err = None → converged req items s s')) s.
Proof.
  intros Hok. unfold reconcileCephCsiBlockPoolMapping. apply wp_bind. eapply wp_mono.
  { apply (wp_CreateOrUpdate _ _ (λ x y : obj KConfigMap, settled items req y
      ∧ (∀ k, k ≠ CsiConfigMapMappingKey → CM_Data (y : ConfigMap) !! k = CM_Data (x : ConfigMap) !! k)
      ∧ Meta_Finalizers (CM_Meta y) = Meta_Finalizers (CM_Meta x))).
    { by intros x y (_ & _ & ?). }
    intros x _. by apply mutate_mapping_spec. }
  intros s' [[[o' res] [err|]]|m] H; simpl in *; [subst; by eexists| |done].
  exists None. split; [done|]. intros _.
  destruct H as (x & y & Hbase & (Hset & Hother & _) & Hw).
  destruct (written_configmap s s' _ x y o' Hbase Hw) as (cm & Hcm & Hacc & Hkinds & Hkeys).
  split.
  - exists cm. split; [done|]. split.
    { rewrite <-(accepted_key _ _ _ Hacc). by destruct Hw as [-> _]. }
    split; [by eapply settled_accepted|]. intros k Hk. destruct Hacc as [_ <-]. rewrite Hother by done.
    unfold base in Hbase.
    change (ObjectKeyFromObject KConfigMap _) with (config_key (Key_Namespace req)) in Hbase.
    destruct (stored s KConfigMap _) as [old|]; by subst.
  - intros k key' Hne. destruct (decide (k = KConfigMap)) as [->|Hk].
    + apply Hkeys. intros ->. by apply Hne.
    + unfold stored. by rewrite Hkinds.
Qed.

(** C12: when every pool pair of the listed resources holds two strings, an
    iteration does not panic, and one that succeeds leaves, under the name of
    the config map of its namespace, a config map with the text of the grouped
    mappings of the resources in the order they were listed in, and the
    resource of the request, when it is listed, among its owners; the other
    keys of its data and every other object are as they were.  A second iteration that is answered
    in the same order makes no write at all.  Another order changes nothing
    but the order of the records and of the pool pairs in the text: the cache
    behind the client lists in no fixed order. *)
Theorem mapping_reconcile_converges (req : NamespacedName) (s : store) :
  pairs_ok (all_mappings (listed_mappings s req)) = true →
  wp api_spec (mapping_reconcile req)
    (λ s' r, ∃ err, r = Done err ∧ (err = None →
       ∃ items, items ≡ₚ listed_mappings s req ∧ converged req items s s'
         ∧ wp (repeat_spec items) (mapping_reconcile req) (λ s'' r, s'' = s' ∧ ∃ a, r = Done a) s'
         ∧ ∀ items', items' ≡ₚ listed_mappings s req →
             same_groups (grouped (all_mappings items)) (grouped (all_mappings items')))) s.
Proof.
  intros Hok. unfold mapping_reconcile at 1. cbn [wp bind trigger mbind prog_bind].
  split; [done|]. intros [err|items] s' [-> Hl]; [simpl; by eexists|].
  assert (Hperm : items ≡ₚ listed_mappings s req) by exact Hl.
  assert (Hok' : pairs_ok (all_mappings items) = true)
    by (eapply pairs_ok_perm; [apply all_mappings_perm; symmetry; exact Hperm|done]).
  apply wp_bind. eapply wp_mono; [by apply wp_reconcile_mapping|].
  intros s' ? (err & -> & H). destruct err as [err|]; simpl; [by eexists|].
  exists None. split; [done|]. intros _. specialize (H eq_refl). exists items.
  split; [done|]. split; [done|]. split.
  - destruct H as [(cm & Hcm & Hkey & Hset & _) _]. by eapply mapping_reconcile_settled.
  - intros items' Hp. apply grouped_perm, all_mappings_perm. by rewrite Hperm, Hp.
Qed.

End iteration.

(** ** Evaluation at concrete resources *)

#[local] Existing Instance plain_lib.
#[local] Existing Instance example_equality.

Definition example_mapping (name : string) (pairs : list BlockPoolIdPair) : ClientProfileMapping := {|
  Mapping_Meta := new_meta "ns" name;
  Mapping_Spec := {| Mappings := [{| Mapping_LocalClientProfile := "local";
                                     Mapping_RemoteClientProfile := "remote";
                                     BlockPoolIdMapping := pairs |}] |} |}.

(** Two resources for one pair of profiles, sharing a pool pair. *)
Definition example_mappings_store : store :=
  put KClientProfileMapping (example_mapping "a" [["1"; "4"]; ["2"; "5"]])
    (put KClientProfileMapping (example_mapping "b" [["2"; "5"]]) empty_store).

Example example_mappings_text :
  mappings_text (grouped (all_mappings (listed_mappings example_mappings_store
    {| Key_Namespace := "ns"; Key_Name := "a" |})))
  = json_text (JArr [JObj [("clusterIdMapping", JObj [("local", JStr "remote")]);
      ("RBDPoolIDMapping", JArr [JObj [("1", JStr "4")]; JObj [("2", JStr "5")]])]]).
Proof. vm_compute. reflexivity. Qed.

(** The text follows the order of the list, though nothing else changes. *)
Example example_mappings_order :
  mappings_text (grouped (all_mappings [example_mapping "a" [["1"; "4"]]; example_mapping "b" [["2"; "5"]]]))
  ≠ mappings_text (grouped (all_mappings [example_mapping "b" [["2"; "5"]]; example_mapping "a" [["1"; "4"]]])).
Proof. vm_compute. discriminate. Qed.

Lemma mapping_reconcile_converges_witness :
  let req := {| Key_Namespace := "ns"; Key_Name := "a" |} in
  pairs_ok (all_mappings (listed_mappings example_mappings_store req)) = true ∧
  (run memory_server (mapping_reconcile req) example_mappings_store).2 = Done None ∧
  wp api_spec (mapping_reconcile req)
    (λ s' r, ∃ err, r = Done err ∧ (err = None →
       ∃ items, items ≡ₚ listed_mappings example_mappings_store req
         ∧ converged req items example_mappings_store s')) example_mappings_store.
Proof.
  intros req. assert (Hok : pairs_ok (all_mappings (listed_mappings example_mappings_store req)) = true)
    by (vm_compute; reflexivity).
  split; [exact Hok|]. split; [vm_compute; reflexivity|]. eapply wp_mono.
  - exact (mapping_reconcile_converges req example_mappings_store Hok).
  - intros s' r (err & Hr & H). exists err. split; [exact Hr|]. intros He.
    destruct (H He) as (items & Hp & Hc & _). exists items. split; [exact Hp|exact Hc].
Defined.
