(* ===== verification/Profile.v ===== *)
(** * The ClientProfile controller
    (internal/controller/clientprofile_controller.go)

    A ClientProfile becomes one record of the JSON list stored in the Ceph
    CSI config map.  This file models the record, its JSON form and the
    update of the list; ProfileReconcile.v models the iteration. *)
From S2P Require Import Prelude Prog K8s ApiTypes Cluster CoreUtils CsiUtils Json JsonCodec.

(** ** Records *)

(** The anonymous structs of the secret references. *)
Record secretRef := { ref_Name : string; ref_Namespace : string }.

Record cephFsInfo := {
  cephFs_SubvolumeGroup : string;
  cephFs_KernelMountOptions : string;
  cephFs_FuseMountOptions : string;
  cephFs_RadosNamespace : string;
  cephFs_ControllerPublishSecretRef : secretRef;
}.

Record rbdInfo := {
  rbd_RadosNamespace : string;
  rbd_MirrorCount : Z;
  rbd_ControllerPublishSecretRef : secretRef;
  rbd_NodePublishSecretRef : secretRef;
}.

Record nvmeofInfo := {
  nvmeof_RadosNamespace : string;
  nvmeof_ControllerPublishSecretRef : secretRef;
}.

Record readAffinityInfo := {
  affinity_Enabled : bool;
  affinity_CrushLocationLabels : list string;
}.

Record remotePoolDetails := { PoolID : string }.
Record remoteRbdDetails := { RemotePoolMapping : gmap string remotePoolDetails }.
Record replicationDestinationInfo := {
  RemoteClusterID : string;
  destination_Rbd : option remoteRbdDetails;
}.

(** [Nfs] has type [struct{}]. *)
Record csiClusterInfoRecord := {
  ClusterId : string;
  info_Monitors : list string;
  info_CephFs : cephFsInfo;
  info_Rbd : rbdInfo;
  info_Nfs : unit;
  info_Nvmeof : nvmeofInfo;
  info_ReadAffinity : readAffinityInfo;
  ReplicationDestination : option replicationDestinationInfo;
}.

(** Zero values. *)
Definition zero_ref : secretRef := {| ref_Name := ""; ref_Namespace := "" |}.
Definition zero_cephFs : cephFsInfo :=
  {| cephFs_SubvolumeGroup := ""; cephFs_KernelMountOptions := ""; cephFs_FuseMountOptions := "";
     cephFs_RadosNamespace := ""; cephFs_ControllerPublishSecretRef := zero_ref |}.
Definition zero_rbd : rbdInfo :=
  {| rbd_RadosNamespace := ""; rbd_MirrorCount := 0; rbd_ControllerPublishSecretRef := zero_ref;
     rbd_NodePublishSecretRef := zero_ref |}.
Definition zero_nvmeof : nvmeofInfo :=
  {| nvmeof_RadosNamespace := ""; nvmeof_ControllerPublishSecretRef := zero_ref |}.
Definition zero_affinity : readAffinityInfo :=
  {| affinity_Enabled := false; affinity_CrushLocationLabels := [] |}.
Definition zero_destination : replicationDestinationInfo :=
  {| RemoteClusterID := ""; destination_Rbd := None |}.
Definition zero_record : csiClusterInfoRecord :=
  {| ClusterId := ""; info_Monitors := []; info_CephFs := zero_cephFs; info_Rbd := zero_rbd;
     info_Nfs := tt; info_Nvmeof := zero_nvmeof; info_ReadAffinity := zero_affinity;
     ReplicationDestination := None |}.

(** ** [json.Marshal]: the struct tags; [omitempty] has no effect on a field
    of struct type *)

Definition string_field (name value : string) : list (string * json) :=
  omitempty name (String.eqb value "") (JStr value).

Definition encode_ref (r : secretRef) : json :=
  JObj (string_field "name" (ref_Name r) ++ string_field "namespace" (ref_Namespace r)).

Definition encode_cephFs (c : cephFsInfo) : json :=
  JObj (string_field "subvolumeGroup" (cephFs_SubvolumeGroup c)
        ++ [("kernelMountOptions", JStr (cephFs_KernelMountOptions c));
            ("fuseMountOptions", JStr (cephFs_FuseMountOptions c))]
        ++ string_field "radosNamespace" (cephFs_RadosNamespace c)
        ++ [("controllerPublishSecretRef", encode_ref (cephFs_ControllerPublishSecretRef c))]).

Definition encode_rbd (r : rbdInfo) : json :=
  JObj (string_field "radosNamespace" (rbd_RadosNamespace r)
        ++ omitempty "mirrorCount" (rbd_MirrorCount r =? 0)%Z (JNum (itoa (rbd_MirrorCount r)))
        ++ [("controllerPublishSecretRef", encode_ref (rbd_ControllerPublishSecretRef r));
            ("nodePublishSecretRef", encode_ref (rbd_NodePublishSecretRef r))]).

Definition encode_nvmeof (n : nvmeofInfo) : json :=
  JObj (string_field "radosNamespace" (nvmeof_RadosNamespace n)
        ++ [("controllerPublishSecretRef", encode_ref (nvmeof_ControllerPublishSecretRef n))]).

Definition encode_affinity (a : readAffinityInfo) : json :=
  JObj (omitempty "enabled" (negb (affinity_Enabled a)) (JBool (affinity_Enabled a))
        ++ omitempty "crushLocationLabels" (is_empty (affinity_CrushLocationLabels a))
             (encode_strings (affinity_CrushLocationLabels a))).

Definition encode_pool (p : remotePoolDetails) : json := JObj [("poolID", JStr (PoolID p))].

Definition encode_remote (r : remoteRbdDetails) : json :=
  JObj (omitempty "remotePoolMapping" (bool_decide (RemotePoolMapping r = ∅))
          (encode_map encode_pool (RemotePoolMapping r))).

Definition encode_destination (d : replicationDestinationInfo) : json :=
  JObj (("remoteClusterID", JStr (RemoteClusterID d))
        :: match destination_Rbd d with Some r => [("rbd", encode_remote r)] | None => [] end).

Definition encode_record (r : csiClusterInfoRecord) : json :=
  JObj (string_field "clusterID" (ClusterId r)
        ++ omitempty "monitors" (is_empty (info_Monitors r)) (encode_strings (info_Monitors r))
        ++ [("cephFS", encode_cephFs (info_CephFs r));
            ("rbd", encode_rbd (info_Rbd r));
            ("nfs", JObj []);
            ("nvmeof", encode_nvmeof (info_Nvmeof r));
            ("readAffinity", encode_affinity (info_ReadAffinity r))]
        ++ match ReplicationDestination r with
           | Some d => [("replicationDestination", encode_destination d)]
           | None => []
           end).

(** A slice of pointers; [None] is the nil slice. *)
Definition recordList : Type := option (list (option csiClusterInfoRecord)).

Definition encode_list (l : recordList) : json :=
  match l with
  | None => JNull
  | Some l => JArr ((λ r, match r with Some r => encode_record r | None => JNull end) <$> l)
  end.
#[export] Instance remotePoolDetails_eq_dec : EqDecision remotePoolDetails.
Proof. solve_decision. Defined.

(** ** [json.Unmarshal] *)

(** A field: decode into the value the struct holds, and put it back. *)
Definition field {A B} (get : A → B) (put : B → A → A) (d : json → B → option B)
    : json → A → option A :=
  λ j r, x ← d j (get r); Some (put x r).

Definition ref_fields : fields secretRef :=
  [("name", field ref_Name
      (λ x r, {| ref_Name := x; ref_Namespace := ref_Namespace r |}) decode_string);
   ("namespace", field ref_Namespace
      (λ x r, {| ref_Name := ref_Name r; ref_Namespace := x |}) decode_string)].

Definition cephFs_fields : fields cephFsInfo :=
  [("subvolumeGroup", field cephFs_SubvolumeGroup
      (λ x c, {| cephFs_SubvolumeGroup := x;
                 cephFs_KernelMountOptions := cephFs_KernelMountOptions c;
                 cephFs_FuseMountOptions := cephFs_FuseMountOptions c;
                 cephFs_RadosNamespace := cephFs_RadosNamespace c;
                 cephFs_ControllerPublishSecretRef := cephFs_ControllerPublishSecretRef c |})
      decode_string);
   ("kernelMountOptions", field cephFs_KernelMountOptions
      (λ x c, {| cephFs_SubvolumeGroup := cephFs_SubvolumeGroup c;
                 cephFs_KernelMountOptions := x;
                 cephFs_FuseMountOptions := cephFs_FuseMountOptions c;
                 cephFs_RadosNamespace := cephFs_RadosNamespace c;
                 cephFs_ControllerPublishSecretRef := cephFs_ControllerPublishSecretRef c |})
      decode_string);
   ("fuseMountOptions", field cephFs_FuseMountOptions
      (λ x c, {| cephFs_SubvolumeGroup := cephFs_SubvolumeGroup c;
                 cephFs_KernelMountOptions := cephFs_KernelMountOptions c;
                 cephFs_FuseMountOptions := x;
                 cephFs_RadosNamespace := cephFs_RadosNamespace c;
                 cephFs_ControllerPublishSecretRef := cephFs_ControllerPublishSecretRef c |})
      decode_string);
   ("radosNamespace", field cephFs_RadosNamespace
      (λ x c, {| cephFs_SubvolumeGroup := cephFs_SubvolumeGroup c;
                 cephFs_KernelMountOptions := cephFs_KernelMountOptions c;
                 cephFs_FuseMountOptions := cephFs_FuseMountOptions c;
                 cephFs_RadosNamespace := x;
                 cephFs_ControllerPublishSecretRef := cephFs_ControllerPublishSecretRef c |})
      decode_string);
   ("controllerPublishSecretRef", field cephFs_ControllerPublishSecretRef
      (λ x c, {| cephFs_SubvolumeGroup := cephFs_SubvolumeGroup c;
                 cephFs_KernelMountOptions := cephFs_KernelMountOptions c;
                 cephFs_FuseMountOptions := cephFs_FuseMountOptions c;
                 cephFs_RadosNamespace := cephFs_RadosNamespace c;
                 cephFs_ControllerPublishSecretRef := x |})
      (decode_struct ref_fields))].

Definition rbd_fields : fields rbdInfo :=
  [("radosNamespace", field rbd_RadosNamespace
      (λ x r, {| rbd_RadosNamespace := x; rbd_MirrorCount := rbd_MirrorCount r;
                 rbd_ControllerPublishSecretRef := rbd_ControllerPublishSecretRef r;
                 rbd_NodePublishSecretRef := rbd_NodePublishSecretRef r |})
      decode_string);
   ("mirrorCount", field rbd_MirrorCount
      (λ x r, {| rbd_RadosNamespace := rbd_RadosNamespace r; rbd_MirrorCount := x;
                 rbd_ControllerPublishSecretRef := rbd_ControllerPublishSecretRef r;
                 rbd_NodePublishSecretRef := rbd_NodePublishSecretRef r |})
      decode_int);
   ("controllerPublishSecretRef", field rbd_ControllerPublishSecretRef
      (λ x r, {| rbd_RadosNamespace := rbd_RadosNamespace r; rbd_MirrorCount := rbd_MirrorCount r;
                 rbd_ControllerPublishSecretRef := x;
                 rbd_NodePublishSecretRef := rbd_NodePublishSecretRef r |})
      (decode_struct ref_fields));
   ("nodePublishSecretRef", field rbd_NodePublishSecretRef
      (λ x r, {| rbd_RadosNamespace := rbd_RadosNamespace r; rbd_MirrorCount := rbd_MirrorCount r;
                 rbd_ControllerPublishSecretRef := rbd_ControllerPublishSecretRef r;
                 rbd_NodePublishSecretRef := x |})
      (decode_struct ref_fields))].

Definition nvmeof_fields : fields nvmeofInfo :=
  [("radosNamespace", field nvmeof_RadosNamespace
      (λ x n, {| nvmeof_RadosNamespace := x;
                 nvmeof_ControllerPublishSecretRef := nvmeof_ControllerPublishSecretRef n |})
      decode_string);
   ("controllerPublishSecretRef", field nvmeof_ControllerPublishSecretRef
      (λ x n, {| nvmeof_RadosNamespace := nvmeof_RadosNamespace n;
                 nvmeof_ControllerPublishSecretRef := x |})
      (decode_struct ref_fields))].

Definition affinity_fields : fields readAffinityInfo :=
  [("enabled", field affinity_Enabled
      (λ x a, {| affinity_Enabled := x;
                 affinity_CrushLocationLabels := affinity_CrushLocationLabels a |})
      decode_bool);
   ("crushLocationLabels", field affinity_CrushLocationLabels
      (λ x a, {| affinity_Enabled := affinity_Enabled a; affinity_CrushLocationLabels := x |})
      (decode_slice "" decode_string))].

Definition pool_fields : fields remotePoolDetails :=
  [("poolID", field PoolID (λ x _, {| PoolID := x |}) decode_string)].

Definition remote_fields : fields remoteRbdDetails :=
  [("remotePoolMapping", field RemotePoolMapping (λ x _, {| RemotePoolMapping := x |})
      (decode_map {| PoolID := "" |} (decode_struct pool_fields)))].

Definition destination_fields : fields replicationDestinationInfo :=
  [("remoteClusterID", field RemoteClusterID
      (λ x d, {| RemoteClusterID := x; destination_Rbd := destination_Rbd d |}) decode_string);
   ("rbd", field destination_Rbd
      (λ x d, {| RemoteClusterID := RemoteClusterID d; destination_Rbd := x |})
      (decode_ptr {| RemotePoolMapping := ∅ |} (decode_struct remote_fields)))].

Definition record_fields : fields csiClusterInfoRecord :=
  [("clusterID", field ClusterId
      (λ x r, {| ClusterId := x; info_Monitors := info_Monitors r;
                 info_CephFs := info_CephFs r; info_Rbd := info_Rbd r;
                 info_Nfs := info_Nfs r; info_Nvmeof := info_Nvmeof r;
                 info_ReadAffinity := info_ReadAffinity r;
                 ReplicationDestination := ReplicationDestination r |})
      decode_string);
   ("monitors", field info_Monitors
      (λ x r, {| ClusterId := ClusterId r; info_Monitors := x;
                 info_CephFs := info_CephFs r; info_Rbd := info_Rbd r;
                 info_Nfs := info_Nfs r; info_Nvmeof := info_Nvmeof r;
                 info_ReadAffinity := info_ReadAffinity r;
                 ReplicationDestination := ReplicationDestination r |})
      (decode_slice "" decode_string));
   ("cephFS", field info_CephFs
      (λ x r, {| ClusterId := ClusterId r; info_Monitors := info_Monitors r;
                 info_CephFs := x; info_Rbd := info_Rbd r;
                 info_Nfs := info_Nfs r; info_Nvmeof := info_Nvmeof r;
                 info_ReadAffinity := info_ReadAffinity r;
                 ReplicationDestination := ReplicationDestination r |})
      (decode_struct cephFs_fields));
   ("rbd", field info_Rbd
      (λ x r, {| ClusterId := ClusterId r; info_Monitors := info_Monitors r;
                 info_CephFs := info_CephFs r; info_Rbd := x;
                 info_Nfs := info_Nfs r; info_Nvmeof := info_Nvmeof r;
                 info_ReadAffinity := info_ReadAffinity r;
                 ReplicationDestination := ReplicationDestination r |})
      (decode_struct rbd_fields));
   ("nfs", field info_Nfs
      (λ x r, {| ClusterId := ClusterId r; info_Monitors := info_Monitors r;
                 info_CephFs := info_CephFs r; info_Rbd := info_Rbd r;
                 info_Nfs := x; info_Nvmeof := info_Nvmeof r;
                 info_ReadAffinity := info_ReadAffinity r;
                 ReplicationDestination := ReplicationDestination r |})
      (decode_struct []));
   ("nvmeof", field info_Nvmeof
      (λ x r, {| ClusterId := ClusterId r; info_Monitors := info_Monitors r;
                 info_CephFs := info_CephFs r; info_Rbd := info_Rbd r;
                 info_Nfs := info_Nfs r; info_Nvmeof := x;
                 info_ReadAffinity := info_ReadAffinity r;
                 ReplicationDestination := ReplicationDestination r |})
      (decode_struct nvmeof_fields));
   ("readAffinity", field info_ReadAffinity
      (λ x r, {| ClusterId := ClusterId r; info_Monitors := info_Monitors r;
                 info_CephFs := info_CephFs r; info_Rbd := info_Rbd r;
                 info_Nfs := info_Nfs r; info_Nvmeof := info_Nvmeof r;
                 info_ReadAffinity := x;
                 ReplicationDestination := ReplicationDestination r |})
      (decode_struct affinity_fields));
   ("replicationDestination", field ReplicationDestination
      (λ x r, {| ClusterId := ClusterId r; info_Monitors := info_Monitors r;
                 info_CephFs := info_CephFs r; info_Rbd := info_Rbd r;
                 info_Nfs := info_Nfs r; info_Nvmeof := info_Nvmeof r;
                 info_ReadAffinity := info_ReadAffinity r;
                 ReplicationDestination := x |})
      (decode_ptr zero_destination (decode_struct destination_fields)))].

Definition decode_list (j : json) : option recordList :=
  match j with
  | JNull => Some None
  | JArr l => Some <$> decode_items None (decode_ptr zero_record (decode_struct record_fields)) l
  | _ => None
  end.

(** The text under [config.json], read and written. *)
Definition Unmarshal_list (text : string) : option recordList :=
  j ← parse_json text; decode_list j.
Definition Marshal_list (l : recordList) : string := json_text (encode_list l).

(** ** The round trip *)

(** What Go holds in a record and JSON text can carry. *)
Definition ref_ok (r : secretRef) : bool := valid_utf8 (ref_Name r) && valid_utf8 (ref_Namespace r).

Definition pools_ok (m : gmap string remotePoolDetails) : bool :=
  forallb (λ kv, valid_utf8 kv.1 && valid_utf8 (PoolID kv.2)) (map_to_list m).

Definition record_ok (r : csiClusterInfoRecord) : bool :=
  valid_utf8 (ClusterId r) && forallb valid_utf8 (info_Monitors r)
  && (let c := info_CephFs r in
      valid_utf8 (cephFs_SubvolumeGroup c) && valid_utf8 (cephFs_KernelMountOptions c)
      && valid_utf8 (cephFs_FuseMountOptions c) && valid_utf8 (cephFs_RadosNamespace c)
      && ref_ok (cephFs_ControllerPublishSecretRef c))
  && (let b := info_Rbd r in
      valid_utf8 (rbd_RadosNamespace b)
      && ((int_min <=? rbd_MirrorCount b) && (rbd_MirrorCount b <=? int_max))%Z
      && ref_ok (rbd_ControllerPublishSecretRef b) && ref_ok (rbd_NodePublishSecretRef b))
  && (let n := info_Nvmeof r in
      valid_utf8 (nvmeof_RadosNamespace n) && ref_ok (nvmeof_ControllerPublishSecretRef n))
  && forallb valid_utf8 (affinity_CrushLocationLabels (info_ReadAffinity r))
  && match ReplicationDestination r with
     | Some d => valid_utf8 (RemoteClusterID d)
                 && match destination_Rbd d with Some m => pools_ok (RemotePoolMapping m) | None => true end
     | None => true
     end.

Definition list_ok (l : recordList) : bool :=
  match l with
  | None => true
  | Some l => forallb (λ r, match r with Some r => record_ok r | None => true end) l
  end.

(** *** Decoding what was encoded *)

Lemma decode_ref r : decode_struct ref_fields (encode_ref r) zero_ref = Some r.
Proof.
  destruct r as [n ns]. unfold encode_ref, string_field, omitempty. simpl.
  destruct (String.eqb_spec n ""), (String.eqb_spec ns ""); by subst.
Qed.

(** Evaluate the decoding of the fields of one struct. *)
Ltac decode_step :=
  cbn -[decode_struct encode_ref encode_cephFs encode_rbd encode_nvmeof encode_affinity
        encode_remote encode_destination encode_strings encode_map decode_map decode_slice
        decode_ptr ParseInt itoa zero_ref zero_cephFs zero_rbd zero_nvmeof zero_affinity].
Ltac decode_fields :=
  unfold zero_cephFs, zero_rbd, zero_nvmeof, zero_affinity;
  decode_step; unfold field; decode_step.

Lemma decode_nvmeof n : decode_struct nvmeof_fields (encode_nvmeof n) zero_nvmeof = Some n.
Proof.
  destruct n as [ns r]. unfold encode_nvmeof, string_field, omitempty. cbn [decode_struct]. decode_step.
  destruct (String.eqb_spec ns ""); subst; decode_fields; by rewrite decode_ref.
Qed.

Lemma decode_cephFs c : decode_struct cephFs_fields (encode_cephFs c) zero_cephFs = Some c.
Proof.
  destruct c as [v k f ns r]. unfold encode_cephFs, string_field, omitempty. cbn [decode_struct]. decode_step.
  destruct (String.eqb_spec v ""), (String.eqb_spec ns ""); subst; decode_fields;
    by rewrite decode_ref.
Qed.

Lemma decode_rbd r :
  (int_min ≤ rbd_MirrorCount r ≤ int_max)%Z →
  decode_struct rbd_fields (encode_rbd r) zero_rbd = Some r.
Proof.
  destruct r as [ns n c d]. unfold encode_rbd, string_field, omitempty. cbn [decode_struct]. decode_step.
  intros Hn. simpl in Hn.
  destruct (String.eqb_spec ns ""), (Z.eqb_spec n 0); subst; decode_fields;
    rewrite ?ParseInt_itoa by done; decode_fields; rewrite !decode_ref; decode_fields;
    by rewrite decode_ref.
Qed.

Lemma decode_affinity a : decode_struct affinity_fields (encode_affinity a) zero_affinity = Some a.
Proof.
  destruct a as [e l]. unfold encode_affinity, omitempty. cbn [decode_struct]. decode_step.
  destruct e, l as [|x l]; try done; decode_fields;
    unfold encode_strings, decode_slice; by rewrite decode_encode_strings.
Qed.

Lemma decode_remote r :
  decode_struct remote_fields (encode_remote r) {| RemotePoolMapping := ∅ |} = Some r.
Proof.
  destruct r as [m]. unfold encode_remote, omitempty. cbn [decode_struct]. decode_step.
  simpl. case_bool_decide; [by subst|]. decode_fields.
  rewrite decode_encode_map; [done|]. by intros k [p] _.
Qed.

Lemma decode_ptr_struct {A} (zero : A) fs j x :
  decode_struct fs j zero = Some x → j ≠ JNull →
  decode_ptr zero (decode_struct fs) j None = Some (Some x).
Proof. intros Hd Hj. destruct j; try done; unfold decode_ptr; simpl default; by rewrite Hd. Qed.

Lemma decode_destination d :
  decode_struct destination_fields (encode_destination d) zero_destination = Some d.
Proof.
  destruct d as [id [r|]]; [|done]. unfold encode_destination. cbn [decode_struct].
  cbn -[decode_struct encode_remote decode_ptr]. unfold field.
  cbn -[decode_struct encode_remote decode_ptr].
  by rewrite (decode_ptr_struct _ _ _ r) by (apply decode_remote || done).
Qed.

Lemma decode_nothing {A} (fs : fields A) x : decode_struct fs (JObj []) x = Some x.
Proof. done. Qed.

Lemma decode_record r :
  (int_min ≤ rbd_MirrorCount (info_Rbd r) ≤ int_max)%Z →
  decode_struct record_fields (encode_record r) zero_record = Some r.
Proof.
  destruct r as [id ms c b [] n a d]. unfold encode_record, string_field, omitempty.
  cbn [decode_struct]. decode_step. intros Hn. simpl in Hn.
  assert (Hms : ∀ l old, decode_slice "" decode_string (encode_strings l) old = Some l)
    by (intros; unfold encode_strings, decode_slice; apply decode_encode_strings).
  unfold zero_record.
  destruct (String.eqb_spec id ""), ms as [|m ms], d as [d|]; subst; decode_step;
    unfold field; decode_step; rewrite ?Hms; decode_step; rewrite decode_cephFs; decode_step; rewrite decode_rbd by done;
    decode_step; rewrite decode_nothing; decode_step; rewrite decode_nvmeof; decode_step; rewrite decode_affinity; decode_step; try done;
    by rewrite (decode_ptr_struct _ _ _ d) by (apply decode_destination || done).
Qed.

Lemma decode_encode_list l :
  list_ok l = true → decode_list (encode_list l) = Some l.
Proof.
  destruct l as [l|]; [|done]. simpl. intros Hok.
  enough (decode_items None (decode_ptr zero_record (decode_struct record_fields))
    ((λ r, match r with Some r => encode_record r | None => JNull end) <$> l) = Some l) as -> by done.
  induction l as [|r l IH]; [done|]. simpl in Hok. apply andb_true_iff in Hok as [Hr Hok].
  csimpl. destruct r as [r|]; [|by rewrite IH].
  rewrite (decode_ptr_struct _ _ _ r); [|clear IH|discriminate].
  { cbn [mbind option_bind]. by rewrite IH. }
  apply decode_record. unfold record_ok in Hr. rewrite !andb_true_iff, !Z.leb_le in Hr.
  destruct_and! Hr. by split.
Qed.

(** *** The text carries every acceptable list *)

Definition members_carried (n : nat) (l : list (string * json)) : Prop :=
  Forall (λ kv, valid_utf8 kv.1 = true ∧ carried n kv.2) l.

Lemma members_app n l1 l2 :
  members_carried n l1 → members_carried n l2 → members_carried n (l1 ++ l2).
Proof. apply Forall_app_2. Qed.

Lemma members_cons n k j l :
  valid_utf8 k = true → carried n j → members_carried n l → members_carried n ((k, j) :: l).
Proof. by constructor. Qed.

Lemma members_omitempty n k b j :
  valid_utf8 k = true → (b = false → carried n j) → members_carried n (omitempty k b j).
Proof. unfold omitempty. destruct b; intros; [constructor|]. constructor; [|constructor]. by auto. Qed.

Lemma members_nil n : members_carried n [].
Proof. constructor. Qed.

Lemma members_string n k v :
  valid_utf8 k = true → valid_utf8 v = true → members_carried n (string_field k v).
Proof. intros. apply members_omitempty; [done|]. intros _. by constructor. Qed.

Lemma carried_strings n l : forallb valid_utf8 l = true → carried (S n) (encode_strings l).
Proof.
  intros Hl. constructor. apply Forall_fmap, Forall_forall. intros s Hs. constructor.
  rewrite forallb_forall in Hl. by apply Hl, list_elem_of_In.
Qed.

(** Split the members of one struct. *)
Ltac members :=
  repeat first [ apply members_app | apply members_string | apply members_nil
               | apply members_cons; [reflexivity| |] | apply members_omitempty; [reflexivity|intros _] ];
  try done.

Lemma carried_ref n r : ref_ok r = true → carried (S n) (encode_ref r).
Proof. intros [??]%andb_true_iff. constructor. members. Qed.

Lemma carried_map {A} n (enc : A → json) (m : gmap string A) :
  (∀ k x, m !! k = Some x → valid_utf8 k = true ∧ carried n (enc x)) →
  carried (S n) (encode_map enc m).
Proof.
  intros Hm. constructor. apply Forall_fmap, Forall_forall. intros [k x] Hx.
  rewrite sorted_entries_permutation in Hx. apply elem_of_map_to_list in Hx. by apply Hm.
Qed.

Lemma carried_destination d :
  valid_utf8 (RemoteClusterID d) = true →
  (∀ m, destination_Rbd d = Some m → pools_ok (RemotePoolMapping m) = true) →
  carried 4 (encode_destination d).
Proof.
  intros Hid Hm. constructor. apply members_cons; [done|by constructor|].
  destruct (destination_Rbd d) as [m|]; [|apply members_nil].
  apply members_cons; [done| |apply members_nil]. constructor. members.
  apply carried_map. intros k [p] Hk. specialize (Hm m eq_refl). unfold pools_ok in Hm.
  rewrite forallb_forall in Hm. specialize (Hm (k, {| PoolID := p |})). simpl in Hm.
  rewrite andb_true_iff in Hm. destruct Hm as [Hk' Hp].
  { by apply list_elem_of_In, elem_of_map_to_list. }
  split; [done|]. constructor. apply members_cons; [done|by constructor|apply members_nil].
Qed.

Ltac carried_values :=
  repeat match goal with
  | |- carried _ (encode_strings _) => apply carried_strings; assumption
  | |- carried _ (encode_ref _) => apply carried_ref; assumption
  | |- carried _ (JStr _) => constructor; assumption
  | |- carried _ (JNum _) => constructor; apply number_ok_itoa
  | |- carried _ (JBool _) => constructor
  | |- carried _ (JObj []) => constructor; apply members_nil
  | |- carried _ (encode_cephFs _) => constructor
  | |- carried _ (encode_rbd _) => constructor
  | |- carried _ (encode_nvmeof _) => constructor
  | |- carried _ (encode_affinity _) => constructor
  end.

Lemma carried_record r : record_ok r = true → carried 5 (encode_record r).
Proof.
  unfold record_ok. intros H. rewrite !andb_true_iff in H. destruct_and! H.
  constructor. repeat (members; carried_values).
  destruct (ReplicationDestination r) as [d|]; [|apply members_nil].
  apply members_cons; [done| |apply members_nil].
  match goal with H : _ && _ = true |- _ => apply andb_true_iff in H as [Hid Hm] end.
  apply carried_destination; [done|]. intros m Hd. by rewrite Hd in Hm.
Qed.

Lemma carried_list l : list_ok l = true → carried 6 (encode_list l).
Proof.
  destruct l as [l|]; [|intros; constructor]. simpl. intros Hok. constructor.
  apply Forall_fmap, Forall_forall. intros r Hr. rewrite forallb_forall in Hok.
  specialize (Hok r). rewrite <-list_elem_of_In in Hok. specialize (Hok Hr).
  destruct r as [r|]; simpl; [by apply carried_record|constructor].
Qed.

Lemma Unmarshal_Marshal l : list_ok l = true → Unmarshal_list (Marshal_list l) = Some l.
Proof.
  intros Hl. unfold Unmarshal_list, Marshal_list.
  rewrite (carried_roundtrip 6) by (by apply carried_list || done).
  by apply decode_encode_list.
Qed.

(** C23: a list of cluster records whose strings are UTF-8 and whose mirror
    counts are 64-bit integers is read back, by the parser of JSON text and
    the decoders of the record types, exactly as it was stored: what one
    iteration writes into the config map is what the next one starts from. *)
Theorem cluster_info_roundtrip (l : recordList) :
  list_ok l = true → Unmarshal_list (Marshal_list l) = Some l.
Proof. apply Unmarshal_Marshal. Qed.

Definition example_record : csiClusterInfoRecord :=
  {| ClusterId := "c"; info_Monitors := ["10.0.0.1:6789"]; info_CephFs := zero_cephFs;
     info_Rbd := {| rbd_RadosNamespace := "a<b"; rbd_MirrorCount := 12;
                    rbd_ControllerPublishSecretRef := zero_ref;
                    rbd_NodePublishSecretRef := zero_ref |};
     info_Nfs := tt; info_Nvmeof := zero_nvmeof; info_ReadAffinity := zero_affinity;
     ReplicationDestination := Some {| RemoteClusterID := "r";
       destination_Rbd := Some {| RemotePoolMapping := {["p" := {| PoolID := "7" |}]} |} |} |}.

Lemma cluster_info_roundtrip_witness :
  list_ok (Some [Some example_record; None]) = true ∧
  Unmarshal_list (Marshal_list (Some [Some example_record; None]))
  = Some (Some [Some example_record; None]).
Proof.
  split; [vm_compute; reflexivity|]. apply cluster_info_roundtrip. vm_compute. reflexivity.
Defined.
