(* ===== verification/ProfileReconcile.v ===== *)
(** * One iteration of the ClientProfile controller
    (internal/controller/clientprofile_controller.go)

    The reconcile functions as programs over the client's calls.  The fields
    of the Go reconcile object that change during an iteration are a record
    passed from one function to the next; a function returns the record as it
    leaves it, and its error.

    The text of a JSON error is a parameter, [json_error_text]. *)
From S2P Require Import Prelude Prog K8s ApiTypes Cluster CoreUtils CsiUtils Replication Json.
From S2P Require Import JsonCodec Profile Server.

(** ** Definitions *)

Definition cleanupFinalizer : string := "csi.ceph.com/cleanup".

Definition nil_dereference : string := "invalid memory address or nil pointer dereference".

Record ClientProfileReconcile := {
  clientProfile : ClientProfile;
  cephConn : CephConnection;
  clientProfileReplication : ClientProfileReplication;
  cleanUp : bool;
}.

(** The zero values of the custom resources, with a name. *)
Definition zero_profile (ns name : string) : ClientProfile := {|
  Profile_Meta := new_meta ns name;
  Profile_Spec := {| CephConnectionRef := ""; CephFs := None; Rbd := None; Nfs := None;
                     Nvmeof := None |};
  Profile_Status := {| ClientProfile_Phase := ""; ClientProfile_Message := "" |} |}.

Definition zero_conn (ns name : string) : CephConnection := {|
  Conn_Meta := new_meta ns name;
  Conn_Spec := {| Monitors := []; ReadAffinity := None; RbdMirrorDaemonCount := 0 |} |}.

Definition zero_repl : ClientProfileReplication := {|
  Repl_Meta := new_meta "" "";
  Repl_Spec := {| CPR_LocalClientProfile := ""; CPR_RemoteClientProfile := ""; CPR_RBD := None |};
  Repl_Status := {| CPR_Phase := ""; CPR_Message := "" |} |}.

Definition set_profile (p : ClientProfile) (r : ClientProfileReconcile) : ClientProfileReconcile :=
  {| clientProfile := p; cephConn := cephConn r;
     clientProfileReplication := clientProfileReplication r; cleanUp := cleanUp r |}.
Definition set_conn (c : CephConnection) (r : ClientProfileReconcile) : ClientProfileReconcile :=
  {| clientProfile := clientProfile r; cephConn := c;
     clientProfileReplication := clientProfileReplication r; cleanUp := cleanUp r |}.
Definition set_repl (c : ClientProfileReplication) (r : ClientProfileReconcile) : ClientProfileReconcile :=
  {| clientProfile := clientProfile r; cephConn := cephConn r;
     clientProfileReplication := c; cleanUp := cleanUp r |}.

Definition set_profile_meta (m : ObjectMeta) (p : ClientProfile) : ClientProfile :=
  {| Profile_Meta := m; Profile_Spec := Profile_Spec p; Profile_Status := Profile_Status p |}.
Definition set_conn_meta (m : ObjectMeta) (c : CephConnection) : CephConnection :=
  {| Conn_Meta := m; Conn_Spec := Conn_Spec c |}.
Definition set_repl_meta (m : ObjectMeta) (c : ClientProfileReplication) : ClientProfileReplication :=
  {| Repl_Meta := m; Repl_Spec := Repl_Spec c; Repl_Status := Repl_Status c |}.

(** [r.clientProfile.Status.Phase = phase], and with the message. *)
Definition set_phase (phase : string) (r : ClientProfileReconcile) : ClientProfileReconcile :=
  let p := clientProfile r in
  set_profile {| Profile_Meta := Profile_Meta p; Profile_Spec := Profile_Spec p;
                 Profile_Status := {| ClientProfile_Phase := phase;
                   ClientProfile_Message := ClientProfile_Message (Profile_Status p) |} |} r.
Definition set_status (phase msg : string) (r : ClientProfileReconcile) : ClientProfileReconcile :=
  let p := clientProfile r in
  set_profile {| Profile_Meta := Profile_Meta p; Profile_Spec := Profile_Spec p;
                 Profile_Status := {| ClientProfile_Phase := phase;
                                      ClientProfile_Message := msg |} |} r.

(** *** The list of records *)

(** [slices.IndexFunc] with a function that dereferences each element. *)
Fixpoint index_record (name : string) (l : list (option csiClusterInfoRecord))
    : string + option nat :=
  match l with
  | [] => inr None
  | None :: _ => inl nil_dereference
  | Some record :: l =>
      if String.eqb (ClusterId record) name then inr (Some 0)
      else match index_record name l with
           | inl m => inl m
           | inr i => inr (S <$> i)
           end
  end.

(** Overwrite an existing entry or append a new one. *)
Definition overwrite_or_append (record : csiClusterInfoRecord) (index : option nat)
    (l : recordList) : recordList :=
  match index with
  | Some index => Some (<[index := Some record]> (default [] l))
  | None => Some (default [] l ++ [Some record])
  end.

(** The unordered in-place delete. *)
Definition swap_delete (index : nat) (l : recordList) : recordList :=
  (λ l, let length := length l in
        match l !! (length - 1) with
        | Some last => take (length - 1) (<[index := last]> l)
        | None => l
        end) <$> l.

Section controller.
Context {lib : ApiLib} `{EQ : !SemanticEquality} `{JT : !JsonErrorText}.

(** *** composeCsiClusterInfoRecord *)

Definition mount_options (options : option (gmap string string)) : M string :=
  match options with
  | Some mountOpt =>
      entries ← trigger (RangeMap mountOpt);
      mret (MapToString entries "=" ",")
  | None => mret ""
  end.

Definition secret_ref (s : SecretReference) : secretRef :=
  {| ref_Name := Secret_Name s; ref_Namespace := Secret_Namespace s |}.

Definition compose_cephFs (cephFs : CephFsConfigSpec) : M cephFsInfo :=
  kernel ← mount_options (CephFs_KernelMountOptions cephFs);
  fuse ← mount_options (CephFs_FuseMountOptions cephFs);
  mret {| cephFs_SubvolumeGroup := CephFs_SubVolumeGroup cephFs;
          cephFs_KernelMountOptions := kernel;
          cephFs_FuseMountOptions := fuse;
          cephFs_RadosNamespace := default "" (CephFs_RadosNamespace cephFs);
          cephFs_ControllerPublishSecretRef :=
            match CephFs_CephCsiSecrets cephFs with
            | Some secrets => secret_ref (ControllerPublishSecret secrets)
            | None => zero_ref
            end |}.

Definition compose_rbd (rbd : RbdConfigSpec) (conn : CephConnection) : rbdInfo :=
  let refs :=
    match Rbd_CephCsiSecrets rbd with
    | Some secrets => (secret_ref (ControllerPublishSecret secrets),
                       secret_ref (NodePublishSecret secrets))
    | None => (zero_ref, zero_ref)
    end in
  {| rbd_RadosNamespace := Rbd_RadosNamespace rbd;
     rbd_MirrorCount := RbdMirrorDaemonCount (Conn_Spec conn);
     rbd_ControllerPublishSecretRef := refs.1;
     rbd_NodePublishSecretRef := refs.2 |}.

Definition compose_nvmeof (nvmeof : NvmeofConfigSpec) : nvmeofInfo :=
  {| nvmeof_RadosNamespace := Nvmeof_RadosNamespace nvmeof;
     nvmeof_ControllerPublishSecretRef :=
       match Nvmeof_CephCsiSecrets nvmeof with
       | Some secrets => secret_ref (ControllerPublishSecret secrets)
       | None => zero_ref
       end |}.

(** The map the loop over the pool mappings fills. *)
Definition remote_pools (pools : list PoolMappingSpec) : gmap string remotePoolDetails :=
  foldl (λ m poolMapping,
           <[Pool_Name poolMapping := {| PoolID := Pool_RemoteID poolMapping |}]> m) ∅ pools.

Definition compose_destination (repl : ClientProfileReplication)
    : option replicationDestinationInfo :=
  if String.eqb (CPR_Phase (Repl_Status repl)) ClientProfileReplicationPhaseReady then
    Some {| RemoteClusterID := CPR_RemoteClientProfile (Repl_Spec repl);
            destination_Rbd :=
              match CPR_RBD (Repl_Spec repl) with
              | Some rbd =>
                  if (0 <? length (PoolMapping rbd))%nat
                  then Some {| RemotePoolMapping := remote_pools (PoolMapping rbd) |}
                  else None
              | None => None
              end |}
  else None.

Definition composeCsiClusterInfoRecord (profile : ClientProfile) (conn : CephConnection)
    (repl : ClientProfileReplication) : M csiClusterInfoRecord :=
  cephFs ← match CephFs (Profile_Spec profile) with
           | Some cephFs => compose_cephFs cephFs
           | None => mret zero_cephFs
           end;
  mret {| ClusterId := Meta_Name (Profile_Meta profile);
          info_Monitors := Monitors (Conn_Spec conn);
          info_CephFs := cephFs;
          info_Rbd := match Rbd (Profile_Spec profile) with
                      | Some rbd => compose_rbd rbd conn
                      | None => zero_rbd
                      end;
          info_Nfs := tt;
          info_Nvmeof := match Nvmeof (Profile_Spec profile) with
                         | Some nvmeof => compose_nvmeof nvmeof
                         | None => zero_nvmeof
                         end;
          info_ReadAffinity := match ReadAffinity (Conn_Spec conn) with
                               | Some readAffinity =>
                                   {| affinity_Enabled := true;
                                      affinity_CrushLocationLabels := CrushLocationLabels readAffinity |}
                               | None => zero_affinity
                               end;
          ReplicationDestination := compose_destination repl |}.

(** *** reconcileCephCsiClusterInfo *)

(** The value read from the text; an absent text is the empty list. *)
Definition parse_list (configsAsJson : string) : option recordList :=
  if String.eqb configsAsJson "" then Some (Some []) else Unmarshal_list configsAsJson.

Definition update_list (r : ClientProfileReconcile) (clusterInfoList : recordList) : M recordList :=
  index ← lift_panic (index_record (Meta_Name (Profile_Meta (clientProfile r)))
                        (default [] clusterInfoList));
  if negb (cleanUp r) then
    record ← composeCsiClusterInfoRecord (clientProfile r) (cephConn r) (clientProfileReplication r);
    mret (overwrite_or_append record index clusterInfoList)
  else
    match index with
    | Some index => mret (swap_delete index clusterInfoList)
    | None => mret clusterInfoList
    end.

Definition mutate_cluster_info (r : ClientProfileReconcile) : MutateFn KConfigMap := λ csiConfigMap,
  let '(m, _, err) :=
    ToggleOwnerReference (negb (cleanUp r)) (CM_Meta csiConfigMap) KClientProfile
      (Profile_Meta (clientProfile r)) in
  let csiConfigMap := {| CM_Meta := m; CM_Data := CM_Data csiConfigMap |} in
  match err with
  | Some err => mret (csiConfigMap, Some err)
  | None =>
      let configsAsJson := default "" (CM_Data csiConfigMap !! CsiConfigMapConfigKey) in
      match parse_list configsAsJson with
      | None => mret (csiConfigMap, Some (Errorf (json_error_text configsAsJson)))
      | Some clusterInfoList =>
          clusterInfoList ← update_list r clusterInfoList;
          mret (set_cm_data CsiConfigMapConfigKey (Marshal_list clusterInfoList) m csiConfigMap, None)
      end
  end.

(** The variable [configMapUpdateLock] is held around the update. *)
Definition reconcileCephCsiClusterInfo (r : ClientProfileReconcile) : M (option error) :=
  let csiConfigMap := {| CM_Meta := new_meta (Meta_Namespace (Profile_Meta (clientProfile r)))
                                      CsiConfigVolume_Name;
                         CM_Data := ∅ |} in
  _ ← trigger MutexLock;
  finally
    ('(_, _, err) ← CreateOrUpdate (csiConfigMap : obj KConfigMap) (mutate_cluster_info r);
     mret err)
    (trigger MutexUnlock).

(** *** reconcileClientProfileReplication *)

Definition cpr_names (items : list ClientProfileReplication) : list string :=
  (λ item, Meta_Name (Repl_Meta item)) <$> items.

(** [List] through the field index, of the resources that name the profile. *)
Definition list_replications (r : ClientProfileReconcile)
    : M (error + list ClientProfileReplication) :=
  trigger (ListObjs KClientProfileReplication
             (byClientProfile (Meta_Namespace (Profile_Meta (clientProfile r)))
                              (Meta_Name (Profile_Meta (clientProfile r))))).

Definition check_no_replications (r : ClientProfileReconcile)
    : M (ClientProfileReconcile * option error) :=
  if cleanUp r then
    listed ← list_replications r;
    match listed with
    | inl err => mret (r, Some err)
    | inr items =>
        if (0 <? length items)%nat then
          mret (r, Some (Errorf
            ("cannot delete: ClientProfileReplication CRs still reference this profile: "
             ++ fmt_strings (cpr_names items))%string))
        else mret (r, None)
    end
  else mret (r, None).

(** The update after a toggle of the replication's owner reference writes the
    Ceph connection. *)
Definition reconcileClientProfileReplication (r : ClientProfileReconcile)
    : M (ClientProfileReconcile * option error) :=
  let repl := clientProfileReplication r in
  if negb (String.eqb (Meta_UID (Repl_Meta repl)) "") then
    let '(m, needsUpdate, err) :=
      ToggleOwnerReference (negb (cleanUp r)) (Repl_Meta repl) KClientProfile
        (Profile_Meta (clientProfile r)) in
    let r := set_repl (set_repl_meta m repl) r in
    match err with
    | Some err => mret (r, Some err)
    | None =>
        if needsUpdate then
          updated ← trigger (Update KCephConnection (cephConn r));
          match updated with
          | inl err => mret (r, Some err)
          | inr conn => check_no_replications (set_conn conn r)
          end
        else check_no_replications r
    end
  else check_no_replications r.

(** *** reconcileCephConnection *)
Definition reconcileCephConnection (r : ClientProfileReconcile)
    : M (ClientProfileReconcile * option error) :=
  let '(m, needsUpdate, err) :=
    ToggleOwnerReference (negb (cleanUp r)) (Conn_Meta (cephConn r)) KClientProfile
      (Profile_Meta (clientProfile r)) in
  let r := set_conn (set_conn_meta m (cephConn r)) r in
  match err with
  | Some err => mret (r, Some err)
  | None =>
      if needsUpdate then
        updated ← trigger (Update KCephConnection (cephConn r));
        match updated with
        | inl err => mret (r, Some err)
        | inr conn => mret (set_conn conn r, None)
        end
      else mret (r, None)
  end.

(** *** loadAndValidate *)

(** The replication used: the only [Ready] one, if any. *)
Definition select_ready (items : list ClientProfileReplication) (r : ClientProfileReconcile)
    : ClientProfileReconcile * option error :=
  let readyCRs :=
    List.filter (λ item, String.eqb (CPR_Phase (Repl_Status item)) ClientProfileReplicationPhaseReady)
      items in
  if (1 <? length readyCRs)%nat then
    (r, Some (Errorf ("multiple Ready ClientProfileReplication CRs found: "
                      ++ fmt_strings (cpr_names readyCRs))%string))
  else
    match readyCRs with
    | [ready] => (set_repl ready r, None)
    | _ => (r, None)
    end.

(** Ensure the connection has an owner reference for the profile. *)
Definition ensure_conn_owner (r : ClientProfileReconcile)
    : M (ClientProfileReconcile * option error) :=
  let cephConnHasOwnerRef :=
    existsb (λ ownerRef, String.eqb (Ref_UID ownerRef) (Meta_UID (Profile_Meta (clientProfile r))))
      (Meta_OwnerReferences (Conn_Meta (cephConn r))) in
  if negb cephConnHasOwnerRef then
    match SetOwnerReference KClientProfile (Profile_Meta (clientProfile r)) (Conn_Meta (cephConn r)) with
    | inl err => mret (r, Some err)
    | inr m =>
        let r := set_conn (set_conn_meta m (cephConn r)) r in
        updated ← trigger (Update KCephConnection (cephConn r));
        match updated with
        | inl err => mret (r, Some err)
        | inr conn => mret (set_conn conn r, None)
        end
    end
  else mret (r, None).

Definition loadAndValidate (r : ClientProfileReconcile) : M (ClientProfileReconcile * option error) :=
  got ← trigger (Get KClientProfile (meta_key (Profile_Meta (clientProfile r))));
  match got with
  | inl err => mret (r, Some err)
  | inr profile =>
      let r := {| clientProfile := profile; cephConn := cephConn r;
                  clientProfileReplication := clientProfileReplication r;
                  cleanUp := match Meta_DeletionTimestamp (Profile_Meta profile) with
                             | Some _ => true | None => false end |} in
      if String.eqb (CephConnectionRef (Profile_Spec profile)) "" then
        mret (r, Some (Errorf "validation error"))
      else
        let r := set_conn (zero_conn (Meta_Namespace (Profile_Meta profile))
                             (CephConnectionRef (Profile_Spec profile))) r in
        got ← trigger (Get KCephConnection (meta_key (Conn_Meta (cephConn r))));
        match got with
        | inl err => mret (r, Some err)
        | inr conn =>
            '(r, err) ← ensure_conn_owner (set_conn conn r);
            match err with
            | Some err => mret (r, Some err)
            | None =>
                listed ← list_replications r;
                match listed with
                | inl err => mret (r, Some err)
                | inr items => mret (select_ready items r)
                end
            end
        end
  end.

(** *** reconcilePhases and reconcile *)

(** Ensure a finalizer on the profile, to allow proper clean up. *)
Definition ensure_finalizer (r : ClientProfileReconcile) : M (ClientProfileReconcile * option error) :=
  if negb (cleanUp r) then
    let '(m, added) := AddFinalizer (Profile_Meta (clientProfile r)) cleanupFinalizer in
    let r := set_profile (set_profile_meta m (clientProfile r)) r in
    if added then
      updated ← trigger (Update KClientProfile (clientProfile r));
      match updated with
      | inl err => mret (r, Some err)
      | inr profile => mret (set_profile profile r, None)
      end
    else mret (r, None)
  else mret (r, None).

Definition failed (what : string) (r : ClientProfileReconcile) (err : error)
    : ClientProfileReconcile * option error :=
  (set_status ClientProfilePhaseFailed ("failed to " ++ what ++ ": " ++ Error err)%string r, Some err).

(** The steps after the config map has been updated. *)
Definition finish (r : ClientProfileReconcile) : M (ClientProfileReconcile * option error) :=
  if cleanUp r then
    let r := set_profile (set_profile_meta
               (RemoveFinalizer (Profile_Meta (clientProfile r)) cleanupFinalizer).1
               (clientProfile r)) r in
    updated ← trigger (Update KClientProfile (clientProfile r));
    match updated with
    | inl err => mret (failed "remove finalizer" r err)
    | inr profile => mret (set_profile profile r, None)
    end
  else
    mret (set_status ClientProfilePhaseReady "ClientProfile reconciled successfully" r, None).

Definition profile_reconcilePhases (r : ClientProfileReconcile)
    : M (ClientProfileReconcile * option error) :=
  '(r, err) ← ensure_finalizer (set_phase ClientProfilePhasePending r);
  match err with
  | Some err => mret (r, Some err)
  | None =>
      '(r, err) ← reconcileCephConnection r;
      match err with
      | Some err => mret (failed "reconcile CephConnection" r err)
      | None =>
          '(r, err) ← reconcileClientProfileReplication r;
          match err with
          | Some err => mret (failed "reconcile ClientProfileReplication" r err)
          | None =>
              err ← reconcileCephCsiClusterInfo r;
              match err with
              | Some err => mret (failed "reconcile ConfigMap" r err)
              | None => finish r
              end
          end
      end
  end.

Definition profile_reconcile (req : NamespacedName) : M (option error) :=
  '(r, err) ← loadAndValidate
                {| clientProfile := zero_profile (Key_Namespace req) (Key_Name req);
                   cephConn := zero_conn "" ""; clientProfileReplication := zero_repl;
                   cleanUp := false |};
  match err with
  | Some err => mret (Some err)
  | None =>
      '(r, reconcileErr) ← profile_reconcilePhases r;
      updated ← trigger (StatusUpdate KClientProfile (clientProfile r));
      let statusErr := match updated with inl err => Some err | inr _ => None end in
      match reconcileErr with
      | Some err => mret (Some err)
      | None => mret statusErr
      end
  end.

End controller.
