(* ===== verification/ClusterInfo.v ===== *)
(** * The cluster list in the config map: properties

    The list of records implements a finite map from cluster identifiers to
    records.  [describes] says what the record of a profile holds; an
    iteration inserts the record that describes its profile, or deletes the
    profile's key, and leaves everything else in the config map alone. *)
From S2P Require Import Prelude Prog K8s ApiTypes Cluster CoreUtils CsiUtils Replication Json.
From S2P Require Import JsonCodec Profile Server ProfileReconcile.

(** ** The list as a map *)

(** No nil element, and no two records of one cluster. *)
Definition unique_ids (l : recordList) : Prop :=
  (∀ x, x ∈ default [] l → x ≠ None) ∧ NoDup (ClusterId <$> omap id (default [] l)).

(** The record of each cluster. *)
Definition record_map (l : recordList) : gmap string csiClusterInfoRecord :=
  list_to_map ((λ r, (ClusterId r, r)) <$> omap id (default [] l)).

Lemma omap_all_some {A} (l : list (option A)) :
  (∀ x, x ∈ l → x ≠ None) → l = Some <$> omap id l.
Proof.
  induction l as [|[x|] l IH]; intros H; [done| |].
  - csimpl. f_equal. apply IH. intros y Hy. apply H. by right.
  - exfalso. by apply (H None); [left|].
Qed.

Lemma omap_id_fmap {A} (l : list A) : omap id (Some <$> l) = l.
Proof. induction l as [|x l IH]; [done|]. change (x :: omap id (Some <$> l) = x :: l). by rewrite IH. Qed.

Lemma index_record_spec name (l : list csiClusterInfoRecord) :
  index_record name (Some <$> l) = inr (IndexFunc (λ r, String.eqb (ClusterId r) name) l).
Proof. induction l as [|r l IH]; [done|]. csimpl. by destruct (String.eqb _ _); rewrite ?IH. Qed.

Lemma record_map_fst (l : list csiClusterInfoRecord) :
  ((λ r, (ClusterId r, r)) <$> l).*1 = ClusterId <$> l.
Proof. by rewrite <-list_fmap_compose. Qed.

(** Overwriting the record found, or appending, is an insertion. *)
Lemma overwrite_or_append_map l record index :
  unique_ids l →
  index_record (ClusterId record) (default [] l) = inr index →
  unique_ids (overwrite_or_append record index l)
  ∧ record_map (overwrite_or_append record index l) = <[ClusterId record := record]> (record_map l).
Proof.
  unfold unique_ids, record_map. intros [Hsome Hnd].
  replace (default [] (overwrite_or_append record index l)) with
    (match index with Some i => <[i := Some record]> (default [] l)
                    | None => default [] l ++ [Some record] end) by (by destruct index).
  generalize dependent (default [] l). intros l' Hsome Hnd. apply omap_all_some in Hsome as ->.
  generalize dependent (omap id l'). clear l'. intros rs.
  pose proof (@omap_id_fmap csiClusterInfoRecord) as Hid.
  rewrite Hid, index_record_spec. intros Hnd [= <-].
  destruct (IndexFunc _ rs) as [i|] eqn:Hi; simpl.
  - apply IndexFunc_Some in Hi as (x & Hx & Heq%String.eqb_eq & _).
    rewrite <-(list_fmap_insert Some), Hid.
    assert (Hkeys : ClusterId <$> <[i:=record]> rs = ClusterId <$> rs).
    { rewrite list_fmap_insert. apply list_insert_id. by rewrite list_lookup_fmap, Hx, <-Heq. }
    split; [split; [|by rewrite Hkeys]|].
    { by intros ? (y & -> & _)%list_elem_of_fmap. }
    apply map_eq. intros k. apply option_eq. intros y.
    rewrite <-elem_of_list_to_map by (by rewrite record_map_fst, Hkeys).
    rewrite lookup_insert_Some, <-elem_of_list_to_map by (by rewrite record_map_fst).
    rewrite !list_elem_of_fmap. apply lookup_lt_Some in Hx as Hlt. split.
    + intros (z & [= -> ->] & [j Hj]%list_elem_of_lookup).
      destruct (decide (i = j)) as [<-|Hne].
      * rewrite list_lookup_insert_eq in Hj by done. left. by simplify_eq.
      * rewrite list_lookup_insert_ne in Hj by done. right. split.
        -- intros Heq'. apply Hne. eapply (NoDup_lookup (ClusterId <$> rs)); [done| |].
           ++ by rewrite list_lookup_fmap, Hx.
           ++ rewrite list_lookup_fmap, Hj. simpl. congruence.
        -- exists z. split; [done|]. by eapply list_elem_of_lookup_2.
    + intros [[<- <-]|[Hne (z & [= -> ->] & [j Hj]%list_elem_of_lookup)]].
      * exists record. split; [done|]. apply list_elem_of_lookup. exists i.
        by apply list_lookup_insert_eq.
      * exists z. split; [done|]. apply list_elem_of_lookup. exists j.
        rewrite list_lookup_insert_ne; [done|]. intros <-. congruence.
  - rewrite IndexFunc_None in Hi. change [Some record] with (Some <$> [record]). rewrite <-fmap_app, Hid.
    assert (Hnin : ClusterId record ∉ ClusterId <$> rs).
    { intros (y & Hy & Hin)%list_elem_of_fmap. specialize (Hi y Hin).
      by rewrite <-Hy, String.eqb_refl in Hi. }
    split; [split|].
    + by intros ? (y & -> & _)%list_elem_of_fmap.
    + rewrite fmap_app. apply NoDup_app. split_and!; [done|set_solver|apply NoDup_singleton].
    + rewrite fmap_app, list_to_map_app. simpl.
      rewrite insert_empty, insert_union_singleton_r; [done|]. apply not_elem_of_list_to_map_1.
      by rewrite record_map_fst.
Qed.

(** Deleting in place the record found is a deletion. *)
Lemma take_insert_last {A} (l : list A) i x last :
  l !! i = Some x → l !! (length l - 1) = Some last →
  x :: take (length l - 1) (<[i := last]> l) ≡ₚ l.
Proof.
  intros Hi Hl. apply lookup_lt_Some in Hi as Hlt.
  destruct (list_elem_of_split_length l (length l - 1) last Hl) as (l1 & l2 & Heq & Hlen).
  assert (l2 = []) as ->.
  { apply (f_equal length) in Heq. rewrite length_app in Heq. simpl in Heq.
    destruct l2; [done|]. simpl in *. lia. }
  destruct (decide (i = length l1)) as [->|Hne].
  - rewrite Heq in *. assert (x = last) as ->.
    { rewrite list_lookup_middle in Hi by done. congruence. }
    rewrite length_app. simpl. replace (length l1 + 1 - 1) with (length l1) by lia.
    rewrite list_insert_id by (by apply list_lookup_middle).
    rewrite take_app_length. apply Permutation_cons_append.
  - rewrite Heq in *. rewrite length_app in *. simpl in *.
    assert (i < length l1) as Hlt' by lia.
    rewrite insert_app_l by done. rewrite lookup_app_l in Hi by done.
    replace (length l1 + 1 - 1) with (length (<[i:=last]> l1)) by (rewrite length_insert; lia).
    rewrite take_app_length.
    rewrite <-(take_drop_middle _ _ _ Hi) at 2. rewrite insert_take_drop by done.
    rewrite <-Permutation_middle, perm_swap. rewrite (Permutation_app_comm _ [last]). simpl.
    apply perm_skip. by rewrite Permutation_middle.
Qed.

Lemma swap_delete_map l name i :
  unique_ids l →
  index_record name (default [] l) = inr (Some i) →
  unique_ids (swap_delete i l) ∧ record_map (swap_delete i l) = delete name (record_map l).
Proof.
  unfold unique_ids, record_map. intros [Hsome Hnd] Hi.
  apply omap_all_some in Hsome as Heq. rewrite Heq, index_record_spec in Hi.
  injection Hi as (x & Hx & Hname%String.eqb_eq & _)%IndexFunc_Some.
  assert (Hxi : default [] l !! i = Some (Some x)) by (by rewrite Heq, list_lookup_fmap, Hx).
  destruct l as [l|]; [|done]. simpl in *.
  assert (is_Some (l !! (length l - 1))) as [last Hlast]
    by (apply lookup_lt_is_Some; apply lookup_lt_Some in Hxi; lia).
  rewrite Hlast. pose proof (take_insert_last l i (Some x) last Hxi Hlast) as Hperm.
  set (l' := take (length l - 1) (<[i:=last]> l)) in *.
  assert (Hperm' : x :: omap id l' ≡ₚ omap id l)
    by (rewrite <-Hperm; done).
  assert (Hnd' : NoDup (ClusterId <$> x :: omap id l')) by (by rewrite Hperm').
  csimpl in Hnd'. apply NoDup_cons in Hnd' as [Hnin Hnd'].
  split; [split; [|done]|].
  - intros y Hy. apply Hsome. rewrite <-Hperm. by right.
  - assert (Hmap : list_to_map (M := gmap string _) ((λ r, (ClusterId r, r)) <$> x :: omap id l')
                   = list_to_map ((λ r, (ClusterId r, r)) <$> omap id l)).
    { apply list_to_map_proper; [by rewrite record_map_fst, Hperm'|by rewrite Hperm']. }
    rewrite <-Hmap, fmap_cons, list_to_map_cons. simpl.
    rewrite Hname, delete_insert_id; [done|]. subst name. apply not_elem_of_list_to_map_1.
    by rewrite record_map_fst.
Qed.

Section controller.
Context {lib : ApiLib} `{EQ : !SemanticEquality} `{JT : !JsonErrorText}.

(** ** The record of a profile *)

(** A string that renders mount options, in some order. *)
Definition rendered (options : option (gmap string string)) (s : string) : Prop :=
  match options with
  | Some m => ∃ l, l ≡ₚ map_to_list m ∧ s = strings_Join (render_item "=" <$> l) ","
  | None => s = ""
  end.

(** The remote pool a list of mappings gives a pool: that of its last entry. *)
Definition remote_pool (pools : list PoolMappingSpec) (name : string) : option string :=
  Pool_RemoteID <$> last (filter (λ p, Pool_Name p = name) pools).

(** The publish secrets of a profile section; without one, no name. *)
Definition publish_refs (s : option CephCsiSecretsSpec) : secretRef * secretRef :=
  match s with
  | Some s => (secret_ref (ControllerPublishSecret s), secret_ref (NodePublishSecret s))
  | None => (zero_ref, zero_ref)
  end.

(** What the record holds for the CephFS section. *)
Definition describes_fs (fs : option CephFsConfigSpec) (info : cephFsInfo) : Prop :=
  match fs with
  | Some f =>
      cephFs_SubvolumeGroup info = CephFs_SubVolumeGroup f
      ∧ rendered (CephFs_KernelMountOptions f) (cephFs_KernelMountOptions info)
      ∧ rendered (CephFs_FuseMountOptions f) (cephFs_FuseMountOptions info)
      ∧ cephFs_RadosNamespace info = default "" (CephFs_RadosNamespace f)
      ∧ cephFs_ControllerPublishSecretRef info = (publish_refs (CephFs_CephCsiSecrets f)).1
  | None => info = zero_cephFs
  end.

(** What the record of a profile holds, given its Ceph connection and the
    replication elected for it. *)
Record describes (p : ClientProfile) (c : CephConnection) (repl : ClientProfileReplication)
    (rec : csiClusterInfoRecord) : Prop := {
  describes_id : ClusterId rec = Meta_Name (Profile_Meta p);
  describes_monitors : info_Monitors rec = Monitors (Conn_Spec c);
  describes_cephFs : describes_fs (CephFs (Profile_Spec p)) (info_CephFs rec);
  describes_rbd :
    match Rbd (Profile_Spec p) with
    | Some b =>
        rbd_RadosNamespace (info_Rbd rec) = Rbd_RadosNamespace b
        ∧ rbd_MirrorCount (info_Rbd rec) = RbdMirrorDaemonCount (Conn_Spec c)
        ∧ (rbd_ControllerPublishSecretRef (info_Rbd rec), rbd_NodePublishSecretRef (info_Rbd rec))
          = publish_refs (Rbd_CephCsiSecrets b)
    | None => info_Rbd rec = zero_rbd
    end;
  describes_nvmeof :
    match Nvmeof (Profile_Spec p) with
    | Some n =>
        nvmeof_RadosNamespace (info_Nvmeof rec) = Nvmeof_RadosNamespace n
        ∧ nvmeof_ControllerPublishSecretRef (info_Nvmeof rec)
          = (publish_refs (Nvmeof_CephCsiSecrets n)).1
    | None => info_Nvmeof rec = zero_nvmeof
    end;
  describes_affinity :
    (affinity_Enabled (info_ReadAffinity rec) = true ↔ ReadAffinity (Conn_Spec c) ≠ None)
    ∧ affinity_CrushLocationLabels (info_ReadAffinity rec)
      = default [] (CrushLocationLabels <$> ReadAffinity (Conn_Spec c));
  describes_destination :
    match ReplicationDestination rec with
    | Some d =>
        CPR_Phase (Repl_Status repl) = ClientProfileReplicationPhaseReady
        ∧ RemoteClusterID d = CPR_RemoteClientProfile (Repl_Spec repl)
        ∧ ∀ pool, (rbd ← destination_Rbd d; PoolID <$> RemotePoolMapping rbd !! pool)
                  = remote_pool (default [] (PoolMapping <$> CPR_RBD (Repl_Spec repl))) pool
    | None => CPR_Phase (Repl_Status repl) ≠ ClientProfileReplicationPhaseReady
    end;
}.

Lemma remote_pools_lookup pools name :
  PoolID <$> remote_pools pools !! name = remote_pool pools name.
Proof.
  unfold remote_pools, remote_pool. induction pools as [|p pools IH] using rev_ind; [done|].
  rewrite foldl_app, filter_app. simpl. destruct (decide (Pool_Name p = name)) as [<-|Hne].
  - by rewrite lookup_insert_eq, filter_cons_True, filter_nil, last_snoc by done.
  - by rewrite lookup_insert_ne, filter_cons_False, filter_nil, app_nil_r by done.
Qed.

(** *** Records of UTF-8 strings *)

Definition option_ok {A} (f : A → bool) (o : option A) : bool :=
  match o with Some x => f x | None => true end.

Definition options_ok (m : gmap string string) : bool :=
  forallb (λ kv, valid_utf8 kv.1 && valid_utf8 kv.2) (map_to_list m).

Definition secrets_ok (s : CephCsiSecretsSpec) : bool :=
  ref_ok (secret_ref (ControllerPublishSecret s)) && ref_ok (secret_ref (NodePublishSecret s)).

(** Objects whose strings are UTF-8, as the API server hands them out. *)
Definition profile_ok (p : ClientProfile) : bool :=
  valid_utf8 (Meta_Name (Profile_Meta p))
  && option_ok (λ c, valid_utf8 (CephFs_SubVolumeGroup c)
       && option_ok options_ok (CephFs_KernelMountOptions c)
       && option_ok options_ok (CephFs_FuseMountOptions c)
       && option_ok valid_utf8 (CephFs_RadosNamespace c)
       && option_ok secrets_ok (CephFs_CephCsiSecrets c)) (CephFs (Profile_Spec p))
  && option_ok (λ c, valid_utf8 (Rbd_RadosNamespace c)
       && option_ok secrets_ok (Rbd_CephCsiSecrets c)) (Rbd (Profile_Spec p))
  && option_ok (λ c, valid_utf8 (Nvmeof_RadosNamespace c)
       && option_ok secrets_ok (Nvmeof_CephCsiSecrets c)) (Nvmeof (Profile_Spec p)).

Definition conn_ok (c : CephConnection) : bool :=
  forallb valid_utf8 (Monitors (Conn_Spec c))
  && option_ok (λ a, forallb valid_utf8 (CrushLocationLabels a)) (ReadAffinity (Conn_Spec c))
  && ((int_min <=? RbdMirrorDaemonCount (Conn_Spec c))
      && (RbdMirrorDaemonCount (Conn_Spec c) <=? int_max))%Z.

Definition repl_ok (c : ClientProfileReplication) : bool :=
  valid_utf8 (CPR_RemoteClientProfile (Repl_Spec c))
  && option_ok (λ r, forallb (λ p, valid_utf8 (Pool_Name p) && valid_utf8 (Pool_RemoteID p))
                       (PoolMapping r)) (CPR_RBD (Repl_Spec c)).

Lemma valid_utf8_Join l sep :
  Forall (λ s, valid_utf8 s = true) l → valid_utf8 sep = true →
  valid_utf8 (strings_Join l sep) = true.
Proof.
  intros Hl Hsep. induction Hl as [|s l Hs Hl IH]; [done|]. destruct l as [|s' l]; [done|].
  change (strings_Join (s :: s' :: l) sep) with (s ++ sep ++ strings_Join (s' :: l) sep)%string.
  by apply valid_utf8_app, valid_utf8_app.
Qed.

Lemma valid_utf8_MapToString m entries :
  options_ok m = true → entries ≡ₚ map_to_list m →
  valid_utf8 (MapToString entries "=" ",") = true.
Proof.
  intros Hm Hp. rewrite MapToString_render. apply valid_utf8_Join; [|done].
  apply Forall_fmap, Forall_forall. intros [k v] Hin. rewrite Hp in Hin.
  unfold options_ok in Hm. rewrite forallb_forall in Hm.
  specialize (Hm (k, v)). rewrite <-list_elem_of_In in Hm.
  apply Hm, andb_true_iff in Hin as [Hk Hv]. simpl in *. unfold render_item. simpl.
  destruct (String.eqb v ""); [done|]. by apply valid_utf8_app, valid_utf8_app.
Qed.

Lemma pools_ok_insert m k p :
  pools_ok m = true → valid_utf8 k = true → valid_utf8 (PoolID p) = true →
  pools_ok (<[k := p]> m) = true.
Proof.
  unfold pools_ok. rewrite !forallb_forall. intros Hm Hk Hp [k' p'] Hin.
  apply list_elem_of_In, elem_of_map_to_list, lookup_insert_Some in Hin as [[<- <-]|[_ Hin]].
  - simpl. by rewrite Hk, Hp.
  - apply Hm. by apply list_elem_of_In, elem_of_map_to_list.
Qed.

Lemma pools_ok_remote_pools l :
  forallb (λ p, valid_utf8 (Pool_Name p) && valid_utf8 (Pool_RemoteID p)) l = true →
  pools_ok (remote_pools l) = true.
Proof.
  unfold remote_pools. assert (H0 : pools_ok ∅ = true) by done. revert H0.
  generalize (∅ : gmap string remotePoolDetails) as m.
  induction l as [|p l IH]; simpl; intros m Hm Hl; [done|].
  rewrite !andb_true_iff in Hl. destruct Hl as [[Hk Hv] Hl]. apply IH; [|done].
  by apply pools_ok_insert.
Qed.

Definition cm_list (cm : ConfigMap) : option recordList :=
  parse_list (default "" (CM_Data cm !! CsiConfigMapConfigKey)).

(** A config map whose text is a list with one record per cluster. *)
Definition cm_ok (cm : ConfigMap) : Prop :=
  ∃ l, cm_list cm = Some l ∧ unique_ids l ∧ list_ok l = true.


(** ** Composing a record *)

(** The specifications under which ranging over a map visits its entries, in
    some order, and has no effect. *)
Class Ranges {W} (sp : spec call W) : Prop := {
  ranges_pre m w : pre sp _ (RangeMap m) w;
  ranges_post m t w w' : post sp _ (RangeMap m) t w w' → w' = w ∧ t ≡ₚ map_to_list m;
}.

#[export] Instance ranges_api : Ranges api_spec.
Proof. by split. Qed.

Section ranges.
Context {W : Type} (sp : spec call W) `{RG : !Ranges sp}.

Lemma wp_mount_options o w :
  option_ok options_ok o = true →
  wp sp (mount_options o)
    (λ w' r, w' = w ∧ ∃ s, r = Done s ∧ valid_utf8 s = true ∧ rendered o s) w.
Proof.
  destruct o as [m|]; simpl; intros Hm; [|by eauto].
  split; [apply ranges_pre|]. intros t w' [-> Hp]%ranges_post. split; [done|]. eexists.
  split; [done|]. split; [by apply (valid_utf8_MapToString m)|].
  exists t. by rewrite MapToString_render.
Qed.

(** The strings of the CephFS section are UTF-8. *)
Definition fs_ok (info : cephFsInfo) : Prop :=
  valid_utf8 (cephFs_SubvolumeGroup info) = true
  ∧ valid_utf8 (cephFs_KernelMountOptions info) = true
  ∧ valid_utf8 (cephFs_FuseMountOptions info) = true
  ∧ valid_utf8 (cephFs_RadosNamespace info) = true
  ∧ ref_ok (cephFs_ControllerPublishSecretRef info) = true.

Lemma wp_compose_cephFs fs w :
  option_ok (λ c, valid_utf8 (CephFs_SubVolumeGroup c)
       && option_ok options_ok (CephFs_KernelMountOptions c)
       && option_ok options_ok (CephFs_FuseMountOptions c)
       && option_ok valid_utf8 (CephFs_RadosNamespace c)
       && option_ok secrets_ok (CephFs_CephCsiSecrets c)) fs = true →
  wp sp (match fs with Some f => compose_cephFs f | None => mret zero_cephFs end)
    (λ w' r, w' = w ∧ ∃ info, r = Done info ∧ fs_ok info ∧ describes_fs fs info) w.
Proof.
  destruct fs as [f|]; simpl; [|by intros _; split; [|eexists]].
  rewrite !andb_true_iff. intros Hf. destruct_and! Hf.
  unfold compose_cephFs. apply wp_bind. eapply wp_mono; [by apply wp_mount_options|].
  intros ? ? (-> & s & -> & Hs & Hk). apply wp_bind. eapply wp_mono; [by apply wp_mount_options|].
  intros ? ? (-> & s' & -> & Hs' & Hu). simpl. split; [done|]. eexists. split; [done|].
  unfold fs_ok, publish_refs. simpl. split; split_and!; try done.
  - by destruct (CephFs_RadosNamespace f).
  - destruct (CephFs_CephCsiSecrets f) as [x|]; [|done]. simpl in *.
    match goal with H : secrets_ok _ = true |- _ => by apply andb_true_iff in H as [??] end.
  - by destruct (CephFs_CephCsiSecrets f).
Qed.

Lemma compose_destination_spec repl :
  match compose_destination repl with
  | Some d =>
      CPR_Phase (Repl_Status repl) = ClientProfileReplicationPhaseReady
      ∧ RemoteClusterID d = CPR_RemoteClientProfile (Repl_Spec repl)
      ∧ ∀ pool, (rbd ← destination_Rbd d; PoolID <$> RemotePoolMapping rbd !! pool)
                = remote_pool (default [] (PoolMapping <$> CPR_RBD (Repl_Spec repl))) pool
  | None => CPR_Phase (Repl_Status repl) ≠ ClientProfileReplicationPhaseReady
  end.
Proof.
  unfold compose_destination. destruct (String.eqb_spec (CPR_Phase (Repl_Status repl))
    ClientProfileReplicationPhaseReady); [|done]. simpl. split; [done|]. split; [done|]. intros pool.
  destruct (CPR_RBD (Repl_Spec repl)) as [b|]; [|done]. simpl.
  destruct (PoolMapping b) as [|x l] eqn:Hl; [done|]. rewrite <-Hl.
  replace (0 <? length (PoolMapping b))%nat with true by (by rewrite Hl). simpl.
  apply remote_pools_lookup.
Qed.

Lemma wp_compose p c repl w :
  profile_ok p = true → conn_ok c = true → repl_ok repl = true →
  wp sp (composeCsiClusterInfoRecord p c repl)
    (λ w' r, w' = w ∧ ∃ rec, r = Done rec ∧ record_ok rec = true ∧ describes p c repl rec) w.
Proof.
  unfold profile_ok, conn_ok, repl_ok. intros Hp Hc Hr.
  rewrite !andb_true_iff in Hp. rewrite !andb_true_iff in Hc. rewrite !andb_true_iff in Hr.
  destruct Hp as [[[Hname Hcephfs] Hrbd] Hnvme], Hc as [[Hmon Hlab] [Hlo Hhi]], Hr as [Hremote Hpools].
  unfold composeCsiClusterInfoRecord. apply wp_bind. eapply wp_mono; [by apply wp_compose_cephFs|].
  intros ? ? (-> & f & -> & Hf & Hd). simpl. split; [done|]. eexists. split; [done|]. split.
  - unfold fs_ok in Hf. destruct_and! Hf. unfold record_ok. simpl. rewrite !andb_true_iff. split_and!; try done.
    all: try (destruct (Rbd (Profile_Spec p)) as [b|]; [|done]; simpl in *;
      apply andb_true_iff in Hrbd as [Hb Hsec]; first [done |
      destruct (Rbd_CephCsiSecrets b) as [x|]; [|done]; simpl in *;
      by apply andb_true_iff in Hsec as [??]]).
    all: try (destruct (Nvmeof (Profile_Spec p)) as [b|]; [|done]; simpl in *;
      apply andb_true_iff in Hnvme as [Hb Hsec]; first [done |
      destruct (Nvmeof_CephCsiSecrets b) as [x|]; [|done]; simpl in *;
      by apply andb_true_iff in Hsec as [??]]).
    + by destruct (ReadAffinity (Conn_Spec c)).
    + unfold compose_destination. destruct (String.eqb _ _); [|done]. simpl. rewrite Hremote. simpl.
      destruct (CPR_RBD (Repl_Spec repl)) as [b|]; [|done]. destruct (_ <? _)%nat; [|done].
      by apply pools_ok_remote_pools.
  - split; simpl; try done.
    + destruct (Rbd (Profile_Spec p)) as [b|]; [|done]. unfold compose_rbd, publish_refs. by destruct (Rbd_CephCsiSecrets b).
    + destruct (Nvmeof (Profile_Spec p)) as [b|]; [|done]. unfold compose_nvmeof, publish_refs. by destruct (Nvmeof_CephCsiSecrets b).
    + by destruct (ReadAffinity (Conn_Spec c)).
    + apply compose_destination_spec.
Qed.

End ranges.

(** ** The config map an iteration leaves *)

Lemma list_ok_spec l :
  list_ok l = true ↔ ∀ r, Some r ∈ default [] l → record_ok r = true.
Proof.
  destruct l as [l|]; simpl; [|split; [intros _ r Hr; by apply not_elem_of_nil in Hr|done]].
  rewrite forallb_forall. split.
  - intros H r Hr. apply (H (Some r)). by apply list_elem_of_In.
  - intros H [r|] Hr; [|done]. apply H. by apply list_elem_of_In.
Qed.

Lemma list_ok_overwrite l record index :
  list_ok l = true → record_ok record = true →
  list_ok (overwrite_or_append record index l) = true.
Proof.
  rewrite !list_ok_spec. intros Hl Hr x Hx. destruct index as [i|]; simpl in Hx.
  - apply list_elem_of_lookup in Hx as [j Hj]. apply list_lookup_insert_Some in Hj
      as [(_ & Heq & _)|[_ Hj]]; [by injection Heq as <-|]. apply Hl. by eapply list_elem_of_lookup_2.
  - apply elem_of_app in Hx as [Hx|Hx]; [by apply Hl|].
    apply list_elem_of_singleton in Hx. by injection Hx as ->.
Qed.

Lemma list_ok_swap_delete l index : list_ok l = true → list_ok (swap_delete index l) = true.
Proof.
  rewrite !list_ok_spec. intros Hl x Hx. destruct l as [l|]; [|by apply not_elem_of_nil in Hx]. simpl in *.
  destruct (l !! (length l - 1)) as [last|] eqn:Hlast; [|by apply Hl].
  apply list_elem_of_lookup in Hx as [j Hj]. apply lookup_take_Some in Hj as [Hj _].
  apply list_lookup_insert_Some in Hj as [(_ & Heq & _)|[_ Hj]];
    [rewrite Heq in Hlast|]; apply Hl; by eapply list_elem_of_lookup_2.
Qed.

(** The list an iteration makes of a list: as maps, its profile's record is
    inserted, or deleted when the profile is. *)
Definition iterates (r : ClientProfileReconcile) (l l' : recordList) : Prop :=
  let name := Meta_Name (Profile_Meta (clientProfile r)) in
  if cleanUp r then record_map l' = delete name (record_map l)
  else ∃ rec, describes (clientProfile r) (cephConn r) (clientProfileReplication r) rec
              ∧ record_map l' = <[name := rec]> (record_map l).

Lemma index_record_total name l :
  unique_ids l → ∃ i, index_record name (default [] l) = inr i.
Proof.
  intros [Hsome _]. apply omap_all_some in Hsome as ->. rewrite index_record_spec. eauto.
Qed.

Lemma index_record_absent name l :
  unique_ids l → index_record name (default [] l) = inr None → record_map l !! name = None.
Proof.
  intros [Hsome _]. unfold record_map. apply omap_all_some in Hsome as Heq.
  rewrite Heq at 1. rewrite index_record_spec. intros [= Hi]. rewrite IndexFunc_None in Hi.
  apply not_elem_of_list_to_map_1. rewrite record_map_fst.
  intros (y & -> & Hin)%list_elem_of_fmap. specialize (Hi y Hin). by rewrite String.eqb_refl in Hi.
Qed.

Definition inputs_ok (r : ClientProfileReconcile) : Prop :=
  profile_ok (clientProfile r) = true ∧ conn_ok (cephConn r) = true
  ∧ repl_ok (clientProfileReplication r) = true.

Lemma wp_update_list {W} (sp : spec call W) `{RG : !Ranges sp} r l w :
  inputs_ok r → unique_ids l → list_ok l = true →
  wp sp (update_list r l)
    (λ w' o, w' = w ∧ ∃ l', o = Done l' ∧ unique_ids l' ∧ list_ok l' = true ∧ iterates r l l') w.
Proof.
  intros (Hp & Hc & Hr) Hu Hok. unfold update_list, iterates.
  destruct (index_record_total (Meta_Name (Profile_Meta (clientProfile r))) l Hu) as [i Hi].
  rewrite Hi. simpl. destruct (cleanUp r); simpl.
  - destruct i as [i|]; simpl; (split; [done|]); eexists; (split; [done|]).
    + destruct (swap_delete_map l _ i Hu Hi) as [? Hm].
      split; [done|]. split; [by apply list_ok_swap_delete|done].
    + split; [done|]. split; [done|]. by rewrite delete_id by (by apply index_record_absent).
  - apply wp_bind. eapply wp_mono; [by apply wp_compose|].
    intros ? ? (-> & rec & -> & Hrec & Hd). simpl. split; [done|]. eexists. split; [done|].
    rewrite <-(describes_id _ _ _ _ Hd) in Hi |- *.
    destruct (overwrite_or_append_map l rec i Hu Hi) as [? Hm].
    split; [done|]. split; [by apply list_ok_overwrite|]. by exists rec.
Qed.

Lemma parse_list_Marshal l : list_ok l = true → parse_list (Marshal_list l) = Some l.
Proof.
  intros Hl. unfold parse_list. rewrite Unmarshal_Marshal by done.
  by destruct l as [l|].
Qed.


(** The config map [y] is what the mutate function makes of [x]. *)
Definition mutated (r : ClientProfileReconcile) (x y : ConfigMap) : Prop :=
  (∃ l l', cm_list x = Some l ∧ cm_list y = Some l' ∧ unique_ids l' ∧ list_ok l' = true
           ∧ iterates r l l')
  ∧ (∀ key, key ≠ CsiConfigMapConfigKey → CM_Data y !! key = CM_Data x !! key)
  ∧ (cleanUp r = false → IsOwnedBy (CM_Meta y) (Profile_Meta (clientProfile r)) = true)
  ∧ Meta_Finalizers (CM_Meta y) = Meta_Finalizers (CM_Meta x).

Definition same_version (x y : ConfigMap) : Prop :=
  Meta_ResourceVersion (CM_Meta y) = Meta_ResourceVersion (CM_Meta x).

Lemma wp_mutate_cluster_info {W} (sp : spec call W) `{RG : !Ranges sp} r (cm : obj KConfigMap) w :
  inputs_ok r → cm_ok cm →
  wp sp (mutate_cluster_info r cm)
    (λ w' o, w' = w ∧ ∃ y err, o = Done (y, err) ∧ (err = None → mutated r cm y ∧ same_version cm y)) w.
Proof.
  intros Hin (l & Hl & Hu & Hok). unfold mutate_cluster_info.
  pose proof (ToggleOwnerReference_finalizers (negb (cleanUp r)) (CM_Meta cm) KClientProfile
                (Profile_Meta (clientProfile r))) as Hf.
  pose proof (ToggleOwnerReference_version (negb (cleanUp r)) (CM_Meta cm) KClientProfile
                (Profile_Meta (clientProfile r))) as Hv.
  destruct (ToggleOwnerReference _ _ _ _) as [[m c] [err|]] eqn:Ht.
  { simpl. split; [done|]. by eexists _, (Some err). }
  cbn [CM_Data]. pose proof Hl as Hl'. unfold cm_list in Hl'. rewrite Hl'. apply wp_bind.
  eapply wp_mono; [by apply wp_update_list|]. intros ? ? (-> & l' & -> & Hu' & Hok' & Hit).
  simpl. split; [done|]. eexists _, None. split; [done|]. intros _. split; [|exact Hv].
  split_and!; [|..|exact Hf].
  - exists l, l'. split; [done|]. split; [|done].
    unfold cm_list. simpl. rewrite lookup_insert_eq. by apply parse_list_Marshal.
  - intros key Hkey. by apply lookup_insert_ne.
  - intros Hcl. rewrite Hcl in Ht. by apply ToggleOwnerReference_on in Ht.
Qed.

Lemma mutated_accepted r (x y cm : obj KConfigMap) :
  accepted KConfigMap y cm → mutated r x y → mutated r x cm.
Proof.
  intros [Hm Hd] (H1 & H2 & H3 & H4). unfold mutated, cm_list in *. rewrite <-Hd.
  unfold client_fields in Hm. split_and!; [done..| |congruence].
  intros Hcl. rewrite <-(H3 Hcl). unfold IsOwnedBy. f_equal. congruence.
Qed.

(** ** The update of the config map *)

(** The config map the code starts from when there is none. *)
Definition new_config (r : ClientProfileReconcile) : ConfigMap :=
  {| CM_Meta := new_meta (Meta_Namespace (Profile_Meta (clientProfile r))) CsiConfigVolume_Name;
     CM_Data := ∅ |}.

Lemma new_config_ok r : cm_ok (new_config r).
Proof.
  exists (Some []). split; [done|]. split; [|done]. split; [by intros x Hx%not_elem_of_nil|apply NoDup_nil_2].
Qed.

Lemma wp_cluster_info (r : ClientProfileReconcile) (s : store) :
  let key := ObjectKeyFromObject KConfigMap (new_config r) in
  inputs_ok r →
  (∀ cm, stored s KConfigMap key = Some cm → cm_ok cm) →
  wp api_spec (reconcileCephCsiClusterInfo r)
    (λ s' o, ∃ err, o = Done err ∧
       match err with
       | Some _ => s' = s
       | None => ∃ cm, stored s' KConfigMap key = Some cm
           ∧ mutated r (default (new_config r) (stored s KConfigMap key)) cm
           ∧ (∀ k, k ≠ KConfigMap → s' k = s k)
           ∧ ∀ key', key' ≠ key → stored s' KConfigMap key' = stored s KConfigMap key'
       end) s.
Proof.
  intros key Hin Hs. unfold reconcileCephCsiClusterInfo. apply wp_bind. split; [done|].
  intros [] ? ->. apply wp_finally, wp_bind. eapply wp_mono.
  { apply (wp_CreateOrUpdate (new_config r : obj KConfigMap) _ (λ x y, mutated r x y)).
    { by intros x y (_ & _ & _ & ?). }
    intros x Hx. eapply wp_mono; [apply wp_mutate_cluster_info; [apply _|done|]|]; cycle 1.
    { intros s' o (-> & y & err & -> & H). split; [done|]. exists y, err. split; [done|]. intros He.
      by apply H. }
    unfold base in Hx.
    destruct (stored s KConfigMap _) as [x'|] eqn:Hx'; subst; [by apply Hs|apply new_config_ok]. }
  intros s' [[[o' res] err]|m] H; [|done]. simpl. split; [done|]. intros [] ? ->.
  exists err. split; [done|]. destruct err as [err|]; [done|].
  destruct H as (x & y & Hbase & Hm & Hw).
  destruct (written_configmap s s' _ x y o' Hbase Hw) as (cm & Hcm & Hacc & Hkinds & Hkeys).
  exists cm. split; [done|]. split; [|done]. apply (mutated_accepted r _ y); [done|].
  unfold base in Hbase. fold key in Hbase. destruct (stored s KConfigMap key); by subst.
Qed.

(** C11: against a server whose config map, if there is one, holds one record
    per cluster, updating it either fails and changes nothing, or makes, as
    finite maps, exactly one change to the list: the record that describes
    the profile is inserted under its name, or the name is deleted when the
    profile is.  The other keys of the config map's data, the other config
    maps and all other objects stay as they were, and the profile is among
    the config map's owners unless it is deleted. *)
Theorem cluster_info_stored (r : ClientProfileReconcile) (s : store) :
  let key := ObjectKeyFromObject KConfigMap (new_config r) in
  inputs_ok r →
  (∀ cm, stored s KConfigMap key = Some cm → cm_ok cm) →
  wp api_spec (reconcileCephCsiClusterInfo r)
    (λ s' o, ∃ err, o = Done err ∧
       match err with
       | Some _ => s' = s
       | None => ∃ cm, stored s' KConfigMap key = Some cm
           ∧ mutated r (default (new_config r) (stored s KConfigMap key)) cm
           ∧ (∀ k, k ≠ KConfigMap → s' k = s k)
           ∧ ∀ key', key' ≠ key → stored s' KConfigMap key' = stored s KConfigMap key'
       end) s.
Proof. apply wp_cluster_info. Qed.

End controller.

(** C24: the list of records implements a finite map from cluster
    identifiers: the search of an entry does not fail, overwriting the entry
    found or appending inserts the record, the unordered in-place delete of
    the entry found deletes it, and both keep the identifiers distinct. *)
Theorem record_list_refines_map (record : csiClusterInfoRecord) (l : recordList) :
  unique_ids l →
  ∃ index, index_record (ClusterId record) (default [] l) = inr index
    ∧ unique_ids (overwrite_or_append record index l)
    ∧ record_map (overwrite_or_append record index l) = <[ClusterId record := record]> (record_map l)
    ∧ let deleted := match index with Some i => swap_delete i l | None => l end in
      unique_ids deleted ∧ record_map deleted = delete (ClusterId record) (record_map l).
Proof.
  intros Hu. destruct (index_record_total (ClusterId record) l Hu) as [i Hi]. exists i.
  destruct (overwrite_or_append_map l record i Hu Hi) as [H1 H2].
  split; [done|]. split; [done|]. split; [done|]. destruct i as [i|]; simpl.
  - by apply swap_delete_map.
  - split; [done|]. rewrite delete_id; [done|]. by apply index_record_absent.
Qed.

Lemma record_list_refines_map_witness :
  unique_ids (Some [Some example_record]) ∧
  ∃ index, index_record "c" [Some example_record] = inr index
    ∧ record_map (overwrite_or_append example_record index (Some [Some example_record]))
      = <["c" := example_record]> (record_map (Some [Some example_record])).
Proof.
  assert (Hu : unique_ids (Some [Some example_record])).
  { split; [|simpl; apply NoDup_singleton]. intros x Hx.
    apply list_elem_of_singleton in Hx. rewrite Hx. discriminate. }
  split; [exact Hu|].
  destruct (record_list_refines_map example_record _ Hu) as (i & H1 & _ & H2 & _).
  exists i. split; [exact H1|exact H2].
Defined.


#[local] Existing Instance plain_lib.
#[local] Existing Instance example_equality.
#[local] Instance example_error_text : JsonErrorText := λ text, "invalid JSON".

(** An iteration for profile [p] that found no replication. *)
Definition example_reconcile : ClientProfileReconcile := {|
  clientProfile := example_profile; cephConn := zero_conn "ns" "conn";
  clientProfileReplication := zero_repl; cleanUp := false |}.

Lemma cluster_info_stored_witness :
  let key := ObjectKeyFromObject KConfigMap (new_config example_reconcile) in
  wp api_spec (reconcileCephCsiClusterInfo example_reconcile)
    (λ s' o, ∃ err, o = Done err ∧ (err = None → ∃ cm, stored s' KConfigMap key = Some cm
       ∧ mutated example_reconcile (new_config example_reconcile) cm)) empty_store.
Proof.
  intros key. eapply wp_mono.
  - apply (cluster_info_stored example_reconcile empty_store).
    + split; [reflexivity|]. split; reflexivity.
    + intros cm Hcm. exfalso. vm_compute in Hcm. discriminate Hcm.
  - intros s' o (err & Ho & H). exists err. split; [exact Ho|]. intros He. rewrite He in H.
    destruct H as (cm & Hcm & Hm & _). exists cm. split; [exact Hcm|exact Hm].
Defined.
