(* ===== verification/ProfileTheorems.v ===== *)
(** * What the ClientProfile controller guarantees

    The finalizer of a profile is removed only when nothing
    refers to it any more, the status [Ready] is only written once the record
    is stored, and the lock is held around every access to the config map. *)
From S2P Require Import Prelude Prog K8s ApiTypes Cluster CoreUtils CsiUtils Replication Json.
From S2P Require Import JsonCodec Profile Server ProfileReconcile ClusterInfo.

Section controller.
Context {lib : ApiLib} `{EQ : !SemanticEquality} `{JT : !JsonErrorText}.

(** ** The lock *)

(** The calls other than those of the mutex and those on config maps. *)
Definition quiet (T : Type) (e : call T) : Prop :=
  match e with
  | Get KConfigMap _ | Create KConfigMap _ | Update KConfigMap _ | StatusUpdate KConfigMap _
  | Delete KConfigMap _ | MutexLock | MutexUnlock => False
  | _ => True
  end.

(** The state is whether this iteration holds the lock: a config map is only
    read or written while it does, and the lock is not taken twice. *)
Definition lock_spec : spec call bool := {|
  pre := λ T e held,
    match e with
    | MutexLock => held = false
    | MutexUnlock => held = true
    | Get KConfigMap _ | Create KConfigMap _ | Update KConfigMap _ | StatusUpdate KConfigMap _
    | Delete KConfigMap _ => held = true
    | _ => True
    end;
  post := λ T e _ held held',
    match e with
    | MutexLock => held' = true
    | MutexUnlock => held' = false
    | _ => held' = held
    end |}.

Lemma wp_quiet {A} (p : M A) held :
  all_calls quiet p → wp lock_spec p (λ held' _, held' = held) held.
Proof.
  intros Hp. apply (wp_all_calls quiet lock_spec (λ h, h = held)); [done| |done].
  intros T e h Hq ->. split.
  - destruct e as [[]|[]|[]|[]|[]|[]| | |]; simpl in *; done.
  - intros t h' Hpost. destruct e as [[]|[]|[]|[]|[]|[]| | |]; simpl in *; done.
Qed.

Lemma quiet_ensure_conn_owner r : all_calls quiet (ensure_conn_owner r).
Proof. unfold ensure_conn_owner. calls_with done. Qed.
#[local] Hint Resolve quiet_ensure_conn_owner : calls.

Lemma quiet_loadAndValidate r : all_calls quiet (loadAndValidate r).
Proof. unfold loadAndValidate, list_replications. calls_with done. Qed.

Lemma quiet_ensure_finalizer r : all_calls quiet (ensure_finalizer r).
Proof. unfold ensure_finalizer. calls_with done. Qed.

Lemma quiet_reconcileCephConnection r : all_calls quiet (reconcileCephConnection r).
Proof. unfold reconcileCephConnection. calls_with done. Qed.

Lemma quiet_check_no_replications r : all_calls quiet (check_no_replications r).
Proof. unfold check_no_replications, list_replications. calls_with done. Qed.
#[local] Hint Resolve quiet_check_no_replications : calls.

Lemma quiet_reconcileClientProfileReplication r :
  all_calls quiet (reconcileClientProfileReplication r).
Proof. unfold reconcileClientProfileReplication. calls_with done. Qed.

Lemma quiet_finish r : all_calls quiet (finish r).
Proof. unfold finish. calls_with done. Qed.

Lemma quiet_mount_options o : all_calls quiet (mount_options o).
Proof. unfold mount_options. calls_with done. Qed.
#[local] Hint Resolve quiet_mount_options : calls.

Lemma quiet_mutate r cm : all_calls quiet (mutate_cluster_info r cm).
Proof.
  unfold mutate_cluster_info, update_list, composeCsiClusterInfoRecord, compose_cephFs.
  calls_with done.
Qed.

Lemma wp_bind_quiet {A B} (p : M A) (f : A → M B) Q held :
  all_calls quiet p → (∀ a, wp lock_spec (f a) Q held) → (∀ m, Q held (Panicked m)) →
  wp lock_spec (p ≫= f) Q held.
Proof.
  intros Hp Hf HQ. apply wp_bind. eapply wp_mono; [by apply wp_quiet|].
  intros held' [a|m] ->; [apply Hf|apply HQ].
Qed.

(** While the lock is held every call but those of the mutex is allowed. *)
Definition no_mutex (T : Type) (e : call T) : Prop :=
  match e with MutexLock | MutexUnlock => False | _ => True end.

Lemma wp_no_mutex {A} (p : M A) :
  all_calls no_mutex p → wp lock_spec p (λ held _, held = true) true.
Proof.
  intros Hp. apply (wp_all_calls no_mutex lock_spec (λ h, h = true)); [done| |done].
  intros T e h Hq ->. split.
  - destruct e as [[]|[]|[]|[]|[]|[]| | |]; simpl in *; done.
  - intros t h' Hpost. destruct e as [[]|[]|[]|[]|[]|[]| | |]; simpl in *; done.
Qed.

Lemma all_calls_mono {A} (P P' : ∀ T, call T → Prop) (p : M A) :
  all_calls P p → (∀ T e, P T e → P' T e) → all_calls P' p.
Proof.
  intros Hp HP. eapply wp_mono; [|done].
  apply (wp_all_calls P _ (λ _, True)); [done| |done]. intros T e [] He _. split; [by apply HP|done].
Qed.

Lemma no_mutex_CreateOrUpdate {k} (o : obj k) f :
  (∀ x, all_calls no_mutex (f x)) → all_calls no_mutex (CreateOrUpdate o f).
Proof.
  intros Hf. unfold CreateOrUpdate, mutate. calls_with done; by apply Hf.
Qed.

Lemma lock_reconcileCephCsiClusterInfo r :
  wp lock_spec (reconcileCephCsiClusterInfo r) (λ held _, held = false) false.
Proof.
  unfold reconcileCephCsiClusterInfo. apply wp_bind. split; [done|]. intros [] held ->.
  apply wp_finally. apply wp_bind. eapply wp_mono.
  { apply wp_no_mutex, no_mutex_CreateOrUpdate. intros x.
    eapply all_calls_mono; [apply quiet_mutate|]. intros T e. by destruct e. }
  intros held [[[o res] err]|m] ->; simpl; (split; [done|]); by intros [] held ->.
Qed.

Lemma lock_profile_reconcile (req : NamespacedName) :
  wp lock_spec (profile_reconcile req) (λ held _, held = false) false.
Proof.
  unfold profile_reconcile. apply wp_bind_quiet; [apply quiet_loadAndValidate| |done].
  intros [r [err|]]; [done|]. unfold profile_reconcilePhases. apply wp_bind.
  apply wp_bind_quiet; [apply quiet_ensure_finalizer| |done].
  assert (Hstatus : ∀ r (e : option error), wp lock_spec
    (updated ← trigger (StatusUpdate KClientProfile (clientProfile r));
     match e with
     | Some err => mret (Some err)
     | None => mret (match updated with inl err => Some err | inr _ => None end)
     end) (λ held _, held = false) false).
  { intros r' e. simpl. split; [done|]. intros t held ->. by destruct e. }
  intros [r1 [err|]]; [apply Hstatus|].
  apply wp_bind_quiet; [apply quiet_reconcileCephConnection| |done].
  intros [r2 [err|]]; [apply Hstatus|].
  apply wp_bind_quiet; [apply quiet_reconcileClientProfileReplication| |done].
  intros [r3 [err|]]; [apply Hstatus|].
  apply wp_bind. eapply wp_mono; [apply lock_reconcileCephCsiClusterInfo|].
  intros held [[err|]|m] ->; [apply Hstatus| |done].
  eapply wp_mono; [apply wp_quiet, quiet_finish|].
  intros held [[r4 err]|m] ->; [apply Hstatus|done].
Qed.

(** C21: whatever the API server answers, an iteration reads and writes config
    maps only while it holds [configMapUpdateLock], never takes the lock
    twice, and has released it when it ends, also when it ends in a panic. *)
Theorem profile_reconcile_locks (req : NamespacedName) :
  wp lock_spec (profile_reconcile req) (λ held _, held = false) false.
Proof. apply lock_profile_reconcile. Qed.

(** ** What guards the finalizer and the status *)

Section guard.
Variable req : NamespacedName.

(** What an iteration knows: the config map as it last read or stored it,
    whether its last listing of replications was empty, and whether the
    profile it loaded is being deleted. *)
Record knowledge := {
  known_cm : option ConfigMap;
  listed_none : bool;
  cleaning : bool;
}.

(** The record the config map has for a profile. *)
Definition known_record (k : knowledge) (p : ClientProfile) (r : option csiClusterInfoRecord) : Prop :=
  ∃ cm l, known_cm k = Some cm ∧ cm_list cm = Some l
          ∧ record_map l !! Meta_Name (Profile_Meta p) = r.

(** The config map [y] is what an iteration for the profile of the request
    makes of [x], of the same version. *)
Definition submits_for (x y : ConfigMap) : Prop :=
  ∃ r, meta_key (Profile_Meta (clientProfile r)) = req ∧ mutated r x y ∧ same_version x y.

Definition no_config : ConfigMap :=
  {| CM_Meta := new_meta (Key_Namespace req) CsiConfigVolume_Name; CM_Data := ∅ |}.

(** Listing asks for the replications of the namespace that name the profile. *)
Definition lists_naming (opts : ListOptions) : Prop :=
  opts = byClientProfile (Key_Namespace req) (Key_Name req)
  ∧ (Key_Name req ≠ "" → ∀ cpr : ClientProfileReplication,
      matches KClientProfileReplication opts (cpr : obj KClientProfileReplication) = true
      ↔ Meta_Namespace (Repl_Meta cpr) = Key_Namespace req
        ∧ CPR_LocalClientProfile (Repl_Spec cpr) = Key_Name req).

(** The calls an iteration may make: of the config maps it reads and writes
    only that of its namespace, and stores there what it makes of the config
    map it last read, or of none, with one record per cluster.  The profile it
    reads and updates is the one of the request, and the replications it lists
    are those of its namespace that name it; it takes the finalizer off only
    when its last such listing found none and the config map it knows has no
    record for the profile, and reports [Ready] only when the config map it
    knows has a record for it. *)
Definition guard_pre (T : Type) (e : call T) (k : knowledge) : Prop :=
  match e with
  | Get KConfigMap key => key = config_key (Key_Namespace req)
  | Get KClientProfile key => key = req
  | ListObjs k opts =>
      k = KClientProfileReplication ∧ lists_naming opts
  | Create KConfigMap cm =>
      ObjectKeyFromObject KConfigMap cm = config_key (Key_Namespace req)
      ∧ cm_ok cm ∧ submits_for no_config cm
  | Update KConfigMap cm =>
      ObjectKeyFromObject KConfigMap cm = config_key (Key_Namespace req)
      ∧ cm_ok cm ∧ ∃ x, known_cm k = Some x ∧ submits_for x cm
  | StatusUpdate KConfigMap _ | Delete _ _ => False
  | Update KClientProfile p =>
      meta_key (Profile_Meta p) = req
      ∧ (cleanupFinalizer ∈ Meta_Finalizers (Profile_Meta p)
         ∨ (cleaning k = true ∧ listed_none k = true ∧ known_record k p None))
  | StatusUpdate KClientProfile p =>
      cleaning k = true
      ∨ (ClientProfile_Phase (Profile_Status p) = ClientProfilePhaseReady →
         meta_key (Profile_Meta p) = req ∧ ∃ r, known_record k p (Some r))
  | _ => True
  end.

Definition learn_cm (cm : option ConfigMap) (k : knowledge) : knowledge :=
  {| known_cm := cm; listed_none := listed_none k; cleaning := cleaning k |}.

(** What the server answers: objects whose strings are UTF-8, config maps
    with one record per cluster, and what was written. *)
Definition guard_post (T : Type) (e : call T) : T → knowledge → knowledge → Prop :=
  match e in call T return T → knowledge → knowledge → Prop with
  | Get KConfigMap _ => λ t k k',
      match t with inl _ => k' = k | inr cm => cm_ok cm ∧ k' = learn_cm (Some cm) k end
  | Create KConfigMap o => λ t k k',
      match t with
      | inl _ => k' = learn_cm None k
      | inr o' => accepted KConfigMap o o' ∧ k' = learn_cm (Some o') k
      end
  | Update KConfigMap o => λ t k k',
      match t with
      | inl _ => k' = learn_cm None k
      | inr o' => accepted KConfigMap o o' ∧ k' = learn_cm (Some o') k
      end
  | Get KClientProfile key => λ t k k',
      match t with
      | inl _ => k' = k
      | inr p => profile_ok p = true ∧ meta_key (Profile_Meta p) = key
                 ∧ k' = {| known_cm := known_cm k; listed_none := listed_none k;
                           cleaning := match Meta_DeletionTimestamp (Profile_Meta p) with
                                       | Some _ => true | None => false end |}
      end
  | Update KClientProfile o => λ t k k', k' = k ∧
      match t with
      | inl _ => True
      | inr p => profile_ok p = true ∧ accepted KClientProfile o p
      end
  | Get KCephConnection _ => λ t k k', k' = k ∧
      match t with inl _ => True | inr c => conn_ok c = true end
  | Update KCephConnection _ => λ t k k', k' = k ∧
      match t with inl _ => True | inr c => conn_ok c = true end
  | ListObjs KClientProfileReplication _ => λ t k k',
      match t with
      | inl _ => k' = k
      | inr l => forallb repl_ok l = true
                 ∧ k' = {| known_cm := known_cm k; listed_none := is_empty l; cleaning := cleaning k |}
      end
  | RangeMap m => λ t k k', k' = k ∧ t ≡ₚ map_to_list m
  | _ => λ _ k k', k' = k
  end.

Definition guard_spec : spec call knowledge :=
  {| pre := guard_pre; post := λ T e t k k', guard_post T e t k k' |}.

#[export] Instance ranges_guard : Ranges guard_spec.
Proof. by split. Qed.

(** The list an iteration stores: its profile's record, or none. *)
Definition target (r : ClientProfileReconcile) (l : recordList) : Prop :=
  let found := record_map l !! Meta_Name (Profile_Meta (clientProfile r)) in
  if cleanUp r then found = None else ∃ rec, found = Some rec.

Lemma iterates_target r l l' : iterates r l l' → target r l'.
Proof.
  unfold iterates, target. destruct (cleanUp r).
  - intros ->. apply lookup_delete_eq.
  - intros (rec & _ & ->). exists rec. apply lookup_insert_eq.
Qed.

(** The config map [y] holds the target of the iteration. *)
Definition reached (r : ClientProfileReconcile) (y : ConfigMap) : Prop :=
  ∃ l, cm_list y = Some l ∧ unique_ids l ∧ list_ok l = true ∧ target r l.

(** The iteration works for the request, on UTF-8 inputs. *)
Definition ready (r : ClientProfileReconcile) : Prop :=
  inputs_ok r ∧ meta_key (Profile_Meta (clientProfile r)) = req.

Lemma guard_mutate r (cm : obj KConfigMap) k :
  ready r → cm_ok cm →
  wp guard_spec (mutate_cluster_info r cm)
    (λ k' o, k' = k ∧ ∃ y err, o = Done (y, err) ∧ (err = None → reached r y ∧ submits_for cm y)) k.
Proof.
  intros [Hin Hkey] Hcm. eapply wp_mono; [apply wp_mutate_cluster_info; [apply _|done..]|].
  intros ? ? (-> & y & err & -> & H). split; [done|]. exists y, err. split; [done|]. intros He.
  destruct (H He) as [Hm Hv]. split; [|by exists r].
  destruct Hm as [(l & l' & _ & Hl' & Hu & Hok & Hit) _].
  exists l'. split_and!; try done. by apply iterates_target in Hit.
Qed.

Lemma reached_accepted r (y o : obj KConfigMap) :
  accepted KConfigMap y o → reached r y → reached r o.
Proof. intros [_ Hd] (l & Hl & H). exists l. unfold cm_list. by rewrite <-Hd. Qed.

Lemma reached_ok r y : reached r y → cm_ok y.
Proof. intros (l & ? & ? & ? & _). by exists l. Qed.

(** The knowledge after the config map has been reconciled. *)
Definition cm_done (r : ClientProfileReconcile) (k k' : knowledge) : Prop :=
  listed_none k' = listed_none k ∧ cleaning k' = cleaning k
  ∧ ∃ cm, known_cm k' = Some cm ∧ reached r cm.

Lemma no_config_ok : cm_ok no_config.
Proof.
  exists (Some []). split; [done|]. split; [|done].
  split; [by intros x Hx%not_elem_of_nil|apply NoDup_nil_2].
Qed.

(** Config maps created or updated with [y] answer what was submitted. *)
Lemma cm_stored r (y o' : obj KConfigMap) k :
  reached r y → accepted KConfigMap y o' → cm_done r k (learn_cm (Some o') k).
Proof.
  intros Hy Hacc. split; [done|]. split; [done|]. eexists. split; [done|]. by eapply reached_accepted.
Qed.

Lemma guard_CreateOrUpdate r k :
  ready r →
  wp guard_spec (CreateOrUpdate (no_config : obj KConfigMap) (mutate_cluster_info r))
    (λ k' res, ∃ o' c err, res = Done (o', c, err) ∧ cleaning k' = cleaning k
                           ∧ (err = None → cm_done r k k')) k.
Proof.
  intros Hin. unfold CreateOrUpdate. cbn [wp bind trigger mbind prog_bind]. split; [done|].
  intros [e|existing] k1 Hget; simpl in Hget.
  - subst k1. destruct (IsNotFound e); simpl; [|by eexists _, _, _].
    apply wp_bind. unfold mutate. apply wp_bind. eapply wp_mono; [apply guard_mutate, no_config_ok; done|].
    intros ? ? (-> & y & err & -> & Hy). destruct err as [e'|]; simpl; [by eexists _, _, _|].
    destruct (Hy eq_refl) as [Hr Hs]. destruct (decide _) as [Hk|]; simpl; [|by eexists _, _, _].
    split; [split_and!; [by rewrite <-Hk|by eapply reached_ok|done]|]. intros [e'|o'] k1; simpl.
    + intros ->. by eexists _, _, _.
    + intros [Hacc ->]. eexists _, _, _. split; [done|]. split; [done|]. intros _. by eapply cm_stored.
  - destruct Hget as [Hcm ->]. simpl. apply wp_bind. unfold mutate. apply wp_bind.
    eapply wp_mono; [by apply guard_mutate|].
    intros ? ? (-> & y & err & -> & Hy). destruct err as [e'|]; simpl; [by eexists _, _, _|].
    destruct (Hy eq_refl) as [Hr Hs]. destruct (decide _) as [Hk|]; simpl; [|by eexists _, _, _].
    destruct (DeepEqual KConfigMap existing y) eqn:Heq; simpl.
    + apply DeepEqual_configmap in Heq as ->. eexists _, _, _. split; [done|]. split; [done|].
      intros _. split; [done|]. split; [done|]. by exists y.
    + split; [split_and!; [by rewrite <-Hk|by eapply reached_ok|by exists existing]|].
      intros [e'|o'] k1; simpl.
      * intros ->. by eexists _, _, _.
      * intros [Hacc ->]. eexists _, _, _. split; [done|]. split; [done|]. intros _.
        exact (cm_stored r y o' (learn_cm (Some existing) k) Hr Hacc).
Qed.

Lemma guard_reconcileCephCsiClusterInfo r k :
  ready r →
  wp guard_spec (reconcileCephCsiClusterInfo r)
    (λ k' o, cleaning k' = cleaning k ∧ ∃ err, o = Done err ∧ (err = None → cm_done r k k')) k.
Proof.
  intros Hin. unfold reconcileCephCsiClusterInfo. apply wp_bind. split; [done|].
  intros [] k' ->. apply wp_finally, wp_bind.
  assert (Heq : no_config = new_config r) by (unfold no_config; by rewrite <-(proj2 Hin)).
  pose proof (guard_CreateOrUpdate r k Hin) as Hwp. rewrite Heq in Hwp. eapply wp_mono; [exact Hwp|].
  intros k1 ? (o' & c & err & -> & Hcl & Hk). simpl. split; [done|]. intros [] k2 ->. eauto.
Qed.

(** ** The whole iteration *)

(** Results of the functions before the config map: the inputs stay UTF-8,
    and the knowledge of the deletion is kept. *)
Definition step_ok (r : ClientProfileReconcile) (k : knowledge)
    (k' : knowledge) (o : outcome (ClientProfileReconcile * option error)) : Prop :=
  cleaning k' = cleaning k
  ∧ ∃ r' err, o = Done (r', err) ∧ cleanUp r' = cleanUp r ∧ (err = None → ready r').

Lemma guard_ensure_conn_owner r k :
  ready r → wp guard_spec (ensure_conn_owner r) (step_ok r k) k.
Proof.
  intros ((Hp & Hc & Hr) & Hkey). unfold ensure_conn_owner.
  destruct (negb _); [|split; [done|]; by exists r, None].
  destruct (SetOwnerReference _ _ _) as [err|m]; [split; [done|]; by exists r, (Some err)|].
  simpl. split; [done|]. intros [err|c] k' [-> H]; simpl; (split; [done|]).
  - by eexists _, (Some err).
  - by eexists _, None.
Qed.

Lemma guard_select_ready items r :
  ready r → forallb repl_ok items = true → ready (select_ready items r).1
  ∧ cleanUp (select_ready items r).1 = cleanUp r.
Proof.
  intros ((Hp & Hc & Hr) & Hkey) Hit. unfold select_ready. destruct (_ <? _)%nat; [by split_and!|].
  destruct (List.filter _ items) as [|x [|y l]] eqn:Hf; [by split_and!| |by split_and!].
  split; [|done]. split; [|done]. split; [done|]. split; [done|]. simpl. rewrite forallb_forall in Hit. apply Hit.
  assert (In x (List.filter (λ item, String.eqb (CPR_Phase (Repl_Status item))
                                       ClientProfileReplicationPhaseReady) items))
    as Hx by (rewrite Hf; by left). by apply filter_In in Hx as [? _].
Qed.

(** An iteration that works for the request lists what it may list. *)
Lemma ready_listing r k :
  ready r →
  guard_pre _ (ListObjs KClientProfileReplication
                 (byClientProfile (Meta_Namespace (Profile_Meta (clientProfile r)))
                                  (Meta_Name (Profile_Meta (clientProfile r))))) k.
Proof.
  intros [_ Hkey]. split; [done|]. unfold lists_naming. rewrite <-Hkey. split; [done|]. intros Hne cpr.
  by apply replication_matches.
Qed.

Lemma guard_loadAndValidate r k :
  ready r →
  wp guard_spec (loadAndValidate r)
    (λ k' o, ∃ r' err, o = Done (r', err) ∧ (err = None → ready r' ∧ cleanUp r' = cleaning k')) k.
Proof.
  intros ((_ & _ & Hr) & Hkey). unfold loadAndValidate. cbn [wp bind trigger mbind prog_bind].
  split; [exact Hkey|]. intros [err|p] k1 Hget; simpl in Hget; [by eexists _, (Some err)|].
  destruct Hget as (Hp & Hpk & ->). destruct (String.eqb _ ""); [by eexists _, (Some _)|].
  cbn [wp bind trigger mbind prog_bind]. split; [done|]. intros [err|c] k2 [-> Hc];
    [by eexists _, (Some err)|]. apply wp_bind.
  eapply wp_mono; [apply guard_ensure_conn_owner; split; [done|by rewrite <-Hkey]|].
  intros k3 o (Hk & r' & err & -> & Hcl & Hin). destruct err as [err|]; [by eexists _, (Some err)|].
  specialize (Hin eq_refl). unfold list_replications. cbn [wp bind trigger mbind prog_bind].
  split; [by apply ready_listing|]. intros [err|items] k4 Hl; [by eexists _, (Some err)|].
  destruct Hl as [Hit ->]. simpl.
  destruct (guard_select_ready items r' Hin Hit) as [Hin' Hcl'].
  destruct (select_ready items r') as [r'' err]. exists r'', err. split; [done|].
  intros _. split; [done|]. simpl in *. by rewrite Hcl', Hcl.
Qed.

Lemma ready_phase phase r : ready r → ready (set_phase phase r).
Proof. done. Qed.

Lemma AddFinalizer_elem m f : f ∈ Meta_Finalizers (AddFinalizer m f).1.
Proof.
  unfold AddFinalizer. destruct (existsb _ _) eqn:E; simpl; [|set_solver].
  apply existsb_exists in E as (x & Hx & ->%String.eqb_eq). by apply list_elem_of_In.
Qed.

Lemma guard_ensure_finalizer r k :
  ready r → wp guard_spec (ensure_finalizer r)
    (λ k' o, k' = k ∧ ∃ r' err, o = Done (r', err) ∧ cleanUp r' = cleanUp r
       ∧ (err = None → ready r')
       ∧ (err ≠ None → Profile_Status (clientProfile r') = Profile_Status (clientProfile r))) k.
Proof.
  intros ((Hp & Hc & Hr) & Hkey). unfold ensure_finalizer. destruct (negb _) eqn:Hn; [|split; [done|]; by exists r, None].
  pose proof (AddFinalizer_elem (Profile_Meta (clientProfile r)) cleanupFinalizer) as Hf.
  assert (Hname : meta_key (AddFinalizer (Profile_Meta (clientProfile r)) cleanupFinalizer).1
                  = meta_key (Profile_Meta (clientProfile r)))
    by (unfold AddFinalizer; by destruct (existsb _ _)).
  destruct (AddFinalizer _ _) as [m added]. simpl in *.
  destruct added; simpl.
  - split; [split; [congruence|by left]|]. intros [err|p] k' [-> H]; simpl; (split; [done|]).
    + by eexists _, (Some err).
    + destruct H as [Hp' Hacc]. eexists _, None. do 2 (split; [done|]). split; [intros _|done].
      split; [done|]. rewrite <-Hkey, <-Hname. symmetry.
      exact (accepted_key KClientProfile (set_profile_meta m (clientProfile r)) p Hacc).
  - split; [done|]. eexists _, None. split; [done|]. split; [done|]. split; [|done]. intros _.
    split; [|by rewrite <-Hkey]. split; [|done]. injection Hname as _ Hname. unfold profile_ok in *.
    simpl. by rewrite Hname.
Qed.

Lemma guard_reconcileCephConnection r k :
  ready r → wp guard_spec (reconcileCephConnection r) (step_ok r k) k.
Proof.
  intros ((Hp & Hc & Hr) & Hkey). unfold reconcileCephConnection.
  destruct (ToggleOwnerReference _ _ _ _) as [[m b] [err|]]; [split; [done|]; by eexists _, (Some err)|].
  destruct b; [|split; [done|]; by eexists _, None].
  simpl. split; [done|]. intros [err|c] k' [-> H]; simpl; (split; [done|]).
  - by eexists _, (Some err).
  - by eexists _, None.
Qed.

(** Past the replications, a profile being deleted is referred to by none. *)
Definition none_left (r : ClientProfileReconcile) (k : knowledge) : Prop :=
  cleanUp r = true → listed_none k = true.

Lemma guard_check_no_replications r k :
  ready r → wp guard_spec (check_no_replications r)
    (λ k' o, step_ok r k k' o ∧ ∀ r', o = Done (r', None) → none_left r' k') k.
Proof.
  intros Hin. unfold check_no_replications. destruct (cleanUp r) eqn:Hcl; simpl.
  - split; [by apply ready_listing|]. intros [err|items] k' Hk; simpl in *.
    + subst. split; [split; [done|]; by eexists _, (Some err)|done].
    + destruct Hk as [Hit ->]. destruct items as [|x items]; simpl.
      * split; [split; [done|]; by eexists _, None|]. intros r' [= <-]. by intros _.
      * split; [split; [done|]; by eexists _, (Some _)|done].
  - split; [split; [done|]; by eexists _, None|]. intros r' [= <-]. unfold none_left. by rewrite Hcl.
Qed.

Lemma guard_reconcileClientProfileReplication r k :
  ready r → wp guard_spec (reconcileClientProfileReplication r)
    (λ k' o, step_ok r k k' o ∧ ∀ r', o = Done (r', None) → none_left r' k') k.
Proof.
  intros Hin. pose proof Hin as ((Hp & Hc & Hr) & Hkey). unfold reconcileClientProfileReplication.
  destruct (negb _); [|by apply guard_check_no_replications].
  destruct (ToggleOwnerReference _ _ _ _) as [[m b] [err|]].
  { split; [split; [done|]; by eexists _, (Some err)|done]. }
  destruct b.
  - simpl. split; [done|]. intros [err|c] k' [-> H].
    + split; [split; [done|]; by eexists _, (Some err)|done].
    + eapply wp_mono; [by apply guard_check_no_replications|]. by intros.
  - eapply wp_mono; [by apply guard_check_no_replications|]. by intros.
Qed.

(** What the status written at the end may say. *)
Definition status_ok (r : ClientProfileReconcile) (k : knowledge) : Prop :=
  cleaning k = true
  ∨ (ClientProfile_Phase (Profile_Status (clientProfile r)) = ClientProfilePhaseReady →
     meta_key (Profile_Meta (clientProfile r)) = req
     ∧ ∃ rec, known_record k (clientProfile r) (Some rec)).

Lemma status_ok_failed what r e k : status_ok (failed what r e).1 k.
Proof. right. done. Qed.

Lemma guard_finish r k k' :
  ready r → cleanUp r = cleaning k → none_left r k → cm_done r k k' →
  wp guard_spec (finish r) (λ k' o, ∃ r' err, o = Done (r', err) ∧ status_ok r' k') k'.
Proof.
  intros ((Hp & Hc & Hr) & Hkey) Hcl Hnone (Hl & Hclk & cm & Hcm & l & Hlist & _ & _ & Ht).
  unfold finish, none_left in *. unfold target in Ht. destruct (cleanUp r) eqn:Hup.
  - cbn [wp bind trigger mbind prog_bind]. split.
    + split; [exact Hkey|]. right. split; [congruence|]. split; [by rewrite Hl, Hnone|]. by exists cm, l.
    + intros [err|p] k1 [-> H]; simpl; eexists _, _; (split; [done|]).
      * apply status_ok_failed.
      * left. congruence.
  - simpl. eexists _, _. split; [done|]. right. intros _. split; [exact Hkey|].
    destruct Ht as [rec Ht]. exists rec, cm, l. by split_and!.
Qed.

Lemma guard_reconcilePhases r k :
  ready r → cleanUp r = cleaning k →
  wp guard_spec (profile_reconcilePhases r) (λ k' o, ∃ r' err, o = Done (r', err) ∧ status_ok r' k') k.
Proof.
  intros Hin Hcl. unfold profile_reconcilePhases. apply wp_bind.
  eapply wp_mono; [by apply guard_ensure_finalizer|].
  intros ? ? (-> & r1 & err & -> & Hcl1 & Hin1 & Hst). destruct err as [e|].
  { simpl. eexists _, _. split; [done|]. right. by rewrite Hst. }
  specialize (Hin1 eq_refl). clear Hst. apply wp_bind.
  eapply wp_mono; [by apply guard_reconcileCephConnection|].
  intros k2 ? (Hk2 & r2 & err & -> & Hcl2 & Hin2). destruct err as [e|].
  { simpl. eexists _, _. split; [done|]. apply status_ok_failed. }
  specialize (Hin2 eq_refl). apply wp_bind.
  eapply wp_mono; [by apply guard_reconcileClientProfileReplication|].
  intros k3 ? ((Hk3 & r3 & err & -> & Hcl3 & Hin3) & Hnone). destruct err as [e|].
  { simpl. eexists _, _. split; [done|]. apply status_ok_failed. }
  specialize (Hin3 eq_refl). specialize (Hnone r3 eq_refl). apply wp_bind.
  eapply wp_mono; [by apply guard_reconcileCephCsiClusterInfo|].
  intros k4 ? (Hk4 & err & -> & Hdone). destruct err as [e|].
  { simpl. eexists _, _. split; [done|]. apply status_ok_failed. }
  apply (guard_finish r3 k3 k4); try done; [|by apply Hdone].
  rewrite Hcl3, Hcl2, Hcl1. simpl. congruence.
Qed.

Lemma guard_profile_reconcile k :
  valid_utf8 (Key_Name req) = true →
  wp guard_spec (profile_reconcile req) (λ _ o, ∃ err, o = Done err) k.
Proof.
  intros Hname. unfold profile_reconcile. apply wp_bind. eapply wp_mono.
  { apply guard_loadAndValidate. split; [split; [|done]|by destruct req].
    unfold profile_ok. simpl. by rewrite Hname. }
  intros k1 ? (r & err & -> & Hin). destruct err as [e|]; [by simpl; eexists|].
  destruct (Hin eq_refl) as [Hin' Hcl]. apply wp_bind.
  eapply wp_mono; [by apply guard_reconcilePhases|].
  intros k2 ? (r2 & err & -> & Hst). cbn [wp bind trigger mbind prog_bind]. split; [exact Hst|].
  intros t k3 _. destruct err; by eexists.
Qed.

End guard.


(** ** Calls *)

(** The objects an iteration writes. *)
Definition profile_footprint (T : Type) (e : call T) : Prop :=
  match e with
  | Create k _ => k = KConfigMap
  | Update k _ => k = KConfigMap ∨ k = KCephConnection ∨ k = KClientProfile
  | StatusUpdate k _ => k = KClientProfile
  | Delete _ _ => False
  | _ => True
  end.

Ltac footprint := first [done | by left | by right; left | by right; right].

Lemma footprint_mutate r cm : all_calls profile_footprint (mutate_cluster_info r cm).
Proof.
  unfold mutate_cluster_info, update_list, composeCsiClusterInfoRecord, compose_cephFs, mount_options.
  calls_with footprint.
Qed.

Lemma all_calls_finally {A} (P : ∀ T, call T → Prop) (p : M A) q :
  all_calls P p → all_calls P q → all_calls P (finally p q).
Proof.
  intros Hp Hq. apply wp_finally. eapply wp_mono; [exact Hp|].
  intros [] o _. eapply wp_mono; [exact Hq|]. by intros [] [] _; destruct o.
Qed.

Lemma footprint_reconcileCephCsiClusterInfo r :
  all_calls profile_footprint (reconcileCephCsiClusterInfo r).
Proof.
  unfold reconcileCephCsiClusterInfo. apply all_calls_bind; [by apply all_calls_trigger|].
  intros _. apply all_calls_finally; [|by apply all_calls_trigger].
  unfold CreateOrUpdate, mutate. calls_with footprint; apply footprint_mutate.
Qed.
#[local] Hint Resolve footprint_reconcileCephCsiClusterInfo : calls.

(** C37: an iteration creates and updates the config map, updates the profile
    and the Ceph connection, writes the status of the profile, and nothing
    else: it deletes nothing and never writes a ClientProfileReplication, so
    the owner reference it toggles on one is not stored. *)
Theorem profile_reconcile_footprint (req : NamespacedName) :
  all_calls profile_footprint (profile_reconcile req).
Proof.
  unfold profile_reconcile, loadAndValidate, ensure_conn_owner, profile_reconcilePhases,
    ensure_finalizer, reconcileCephConnection, reconcileClientProfileReplication,
    check_no_replications, list_replications, finish.
  calls_with footprint.
Qed.

(** The server does not have the profile of a request. *)
Definition missing_spec (err : error) : spec call unit := {|
  pre := λ T e _, match e with Get KClientProfile _ => True | _ => False end;
  post := λ T e t _ _,
    match e in call T return T → Prop with
    | Get KClientProfile _ => λ t, t = inl err
    | _ => λ _, True
    end t |}.

(** An iteration for a profile that does not exist reads the profile and
    nothing else, and ends with the error of that read, also when the error
    says that the profile was not found. *)
Theorem profile_reconcile_missing (req : NamespacedName) (err : error) :
  wp (missing_spec err) (profile_reconcile req) (λ _ o, o = Done (Some err)) tt.
Proof. simpl. split; [done|]. by intros t [] ->. Qed.

End controller.

(** ** Evaluation at concrete resources *)

#[local] Existing Instance plain_lib.
#[local] Existing Instance example_equality.
#[local] Instance example_error_text : JsonErrorText := λ text, "invalid JSON".


(** An iteration for profile [p], against a server with the profile and its
    connection: it ends without an error and stores the record. *)
Definition example_profile_store : store :=
  put KClientProfile example_profile (put KCephConnection
    {| Conn_Meta := new_meta "ns" "conn";
       Conn_Spec := {| Monitors := ["10.0.0.1:6789"]; ReadAffinity := None;
                       RbdMirrorDaemonCount := 1 |} |} empty_store).

Example example_profile_run :
  let r := run memory_server (profile_reconcile {| Key_Namespace := "ns"; Key_Name := "p" |})
             example_profile_store in
  r.2 = Done None ∧
  (stored r.1 KConfigMap {| Key_Namespace := "ns"; Key_Name := "ceph-csi-config" |}
   ≫= λ cm : ConfigMap, cm_list cm ≫= λ l, record_map l !! "p" ≫= λ rec, Some (info_Monitors rec))
  = Some ["10.0.0.1:6789"].
Proof. vm_compute. split; reflexivity. Qed.
