(* ===== verification/ProfileLifecycle.v ===== *)
(** * One iteration of the ClientProfile controller, end to end

    What a whole iteration leaves in the store, when the server keeps to
    [api_spec]: from the loaded resources to the record in the config map, the
    finalizer and the status.  And what happens at the end of a profile's
    life: the iteration that takes its last finalizer off removes the object
    whose status it then reports, so it fails, as every later one does. *)
From S2P Require Import Prelude Prog K8s ApiTypes Cluster CoreUtils CsiUtils Replication Json.
From S2P Require Import JsonCodec Profile Server ProfileReconcile ClusterInfo ProfileTheorems.

Section lifecycle.
Context {lib : ApiLib} `{EQ : !SemanticEquality} `{JT : !JsonErrorText}.

(** ** The store an iteration starts from *)

(** The objects an iteration reads hold UTF-8 strings, and the config map one
    record per cluster. *)
Record healthy (req : NamespacedName) (s : store) : Prop := {
  healthy_profile x : stored s KClientProfile req = Some x →
                      ObjectKeyFromObject KClientProfile x = req ∧ profile_ok x = true;
  healthy_conn key x : stored s KCephConnection key = Some x → conn_ok x = true;
  healthy_repl key x : stored s KClientProfileReplication key = Some x → repl_ok x = true;
  healthy_cm cm : stored s KConfigMap (config_key (Key_Namespace req)) = Some cm → cm_ok cm;
}.

Definition conn_key (p : ClientProfile) : NamespacedName :=
  {| Key_Namespace := Meta_Namespace (Profile_Meta p); Key_Name := CephConnectionRef (Profile_Spec p) |}.

(** The replications that name the profile, and the one used for its record. *)
Definition replications (s : store) (p : ClientProfile) : list ClientProfileReplication :=
  listing KClientProfileReplication (s KClientProfileReplication)
    (byClientProfile (Meta_Namespace (Profile_Meta p)) (Meta_Name (Profile_Meta p))).

Definition is_ready (item : ClientProfileReplication) : bool :=
  String.eqb (CPR_Phase (Repl_Status item)) ClientProfileReplicationPhaseReady.

Definition elected (s : store) (p : ClientProfile) : ClientProfileReplication :=
  match List.filter is_ready (replications s p) with
  | [ready] => ready
  | _ => zero_repl
  end.

(** The order of the answer does not decide which one is used. *)
Lemma elected_listed items s p :
  items ≡ₚ replications s p →
  match List.filter is_ready items with [ready] => ready | _ => zero_repl end = elected s p.
Proof.
  intros Hl. unfold elected. pose proof (filter_perm is_ready _ _ Hl) as Hf.
  destruct (List.filter is_ready items) as [|x [|y l]].
  - by apply Permutation_nil in Hf as ->.
  - by apply Permutation_singleton_l in Hf as <-.
  - apply Permutation_length in Hf. by destruct (List.filter is_ready (replications s p)) as [|? [|? ?]].
Qed.

(** ** What the pieces depend on *)

Lemma profile_ok_same p p' :
  Meta_Name (Profile_Meta p') = Meta_Name (Profile_Meta p) → Profile_Spec p' = Profile_Spec p →
  profile_ok p = true → profile_ok p' = true.
Proof. unfold profile_ok. by intros -> ->. Qed.

Lemma conn_ok_same c c' : Conn_Spec c' = Conn_Spec c → conn_ok c = true → conn_ok c' = true.
Proof. unfold conn_ok. by intros ->. Qed.

Lemma repl_ok_same x x' : Repl_Spec x' = Repl_Spec x → repl_ok x = true → repl_ok x' = true.
Proof. unfold repl_ok. by intros ->. Qed.

Lemma describes_same p p' c c' x x' rec :
  Meta_Name (Profile_Meta p') = Meta_Name (Profile_Meta p) → Profile_Spec p' = Profile_Spec p →
  Conn_Spec c' = Conn_Spec c → Repl_Spec x' = Repl_Spec x → Repl_Status x' = Repl_Status x →
  describes p c x rec → describes p' c' x' rec.
Proof.
  intros Hn Hp Hc Hs Ht []. split; rewrite ?Hn, ?Hp, ?Hc, ?Hs, ?Ht; done.
Qed.

Lemma elected_ok req s p : healthy req s → repl_ok (elected s p) = true.
Proof.
  intros H. unfold elected. destruct (List.filter _ _) as [|x [|y l]] eqn:Hf; [done| |done].
  assert (In x (List.filter is_ready (replications s p))) as Hx by (rewrite Hf; by left).
  apply filter_In in Hx as [Hx _]. apply list_elem_of_In in Hx.
  apply (listing_spec KClientProfileReplication) in Hx as [[key Hkey] _].
  by apply (healthy_repl req s H key).
Qed.

(** ** Before the config map *)
Section before.
Variables (req : NamespacedName) (s0 : store) (p0 : ClientProfile) (c0 : CephConnection).

(** The iteration works with what the store [s0] holds of the profile [p0],
    its connection [c0] and its replication; the store still has the profile,
    config maps and replications as they were. *)
Record tracks (r : ClientProfileReconcile) (s : store) : Prop := {
  tracks_key : meta_key (Profile_Meta (clientProfile r)) = req;
  tracks_spec : Profile_Spec (clientProfile r) = Profile_Spec p0;
  tracks_uid : Meta_UID (Profile_Meta (clientProfile r)) = Meta_UID (Profile_Meta p0);
  tracks_conn : Conn_Spec (cephConn r) = Conn_Spec c0;
  tracks_repl_spec : Repl_Spec (clientProfileReplication r) = Repl_Spec (elected s0 p0);
  tracks_repl_status : Repl_Status (clientProfileReplication r) = Repl_Status (elected s0 p0);
  tracks_cleanUp : cleanUp r = being_deleted KClientProfile p0;
  tracks_stored : ∃ x, stored s KClientProfile req = Some x
    ∧ Profile_Spec x = Profile_Spec p0
    ∧ Meta_UID (Profile_Meta x) = Meta_UID (Profile_Meta p0)
    ∧ Meta_Finalizers (Profile_Meta x) = Meta_Finalizers (Profile_Meta (clientProfile r))
    ∧ being_deleted KClientProfile x = being_deleted KClientProfile p0;
  tracks_fin : cleanUp r = true →
    Meta_Finalizers (Profile_Meta (clientProfile r)) = Meta_Finalizers (Profile_Meta p0);
  tracks_profiles : cleanUp r = true → s KClientProfile = s0 KClientProfile;
  tracks_cms : s KConfigMap = s0 KConfigMap;
  tracks_repls : s KClientProfileReplication = s0 KClientProfileReplication;
}.

(** The connection of the iteration is replaced, in the store too. *)
Lemma tracks_set_conn r s s' c :
  tracks r s → Conn_Spec c = Conn_Spec c0 → (∀ k, k ≠ KCephConnection → s' k = s k) →
  tracks (set_conn c r) s'.
Proof.
  intros [] Hc Hs. split; simpl; rewrite ?Hs by done; try done.
  unfold stored in *. by rewrite Hs.
Qed.

Lemma tracks_set_repl r s m :
  tracks r s → tracks (set_repl (set_repl_meta m (clientProfileReplication r)) r) s.
Proof. intros []. by split. Qed.

Lemma tracks_phase r s phase : tracks r s → tracks (set_phase phase r) s.
Proof. intros []. by split. Qed.

(** The outcome of a function that changes at most the connection. *)
Definition tracked (r : ClientProfileReconcile) (s' : store)
    (o : outcome (ClientProfileReconcile * option error)) : Prop :=
  ∃ r' err, o = Done (r', err) ∧ clientProfile r' = clientProfile r ∧ tracks r' s'.

(** An update of the connection keeps its spec and changes nothing else. *)
Lemma wp_update_conn {A} r s (f : error + obj KCephConnection → M A) Q :
  tracks r s →
  (∀ err, wp api_spec (f (inl err)) Q s) →
  (∀ c s', tracks (set_conn c r) s' → wp api_spec (f (inr c)) Q s') →
  wp api_spec (updated ← trigger (Update KCephConnection (cephConn r)); f updated) Q s.
Proof.
  intros Ht Herr Hok. simpl. split; [done|]. intros [err|c] s' Hpost; [by subst|].
  destruct Hpost as (x & _ & _ & [_ Hspec] & ->). apply Hok.
  apply (tracks_set_conn _ s); [done|by rewrite <-Hspec; apply (tracks_conn r s Ht)|].
  intros k Hk. by apply update_other_kind.
Qed.

Lemma wp_reconcileCephConnection r s :
  tracks r s → wp api_spec (reconcileCephConnection r) (tracked r) s.
Proof.
  intros Ht. unfold reconcileCephConnection.
  destruct (ToggleOwnerReference _ _ _ _) as [[m b] err].
  assert (Ht' : tracks (set_conn (set_conn_meta m (cephConn r)) r) s)
    by (apply (tracks_set_conn r s); [done|apply (tracks_conn r s Ht)|done]).
  destruct err as [err|]; [by eexists _, (Some err)|]. destruct b; [|by eexists _, None].
  apply wp_update_conn; [done|by intros err; eexists _, (Some err)|].
  intros c s' H. by eexists _, None.
Qed.

(** Past this point a profile being deleted has no replication. *)
Definition unreferenced (r : ClientProfileReconcile) : Prop :=
  cleanUp r = true → replications s0 p0 = [].

Hypothesis key0 : ObjectKeyFromObject KClientProfile p0 = req.

Lemma replications_same r s :
  tracks r s → listing KClientProfileReplication (s KClientProfileReplication)
    (byClientProfile (Meta_Namespace (Profile_Meta (clientProfile r)))
                     (Meta_Name (Profile_Meta (clientProfile r)))) = replications s0 p0.
Proof.
  intros Ht. unfold replications. rewrite (tracks_repls r s Ht).
  pose proof (tracks_key r s Ht) as Hk. rewrite <-key0 in Hk. by injection Hk as -> ->.
Qed.

Lemma wp_check_no_replications r s :
  tracks r s →
  wp api_spec (check_no_replications r)
    (λ s' o, tracked r s' o ∧ ∀ r', o = Done (r', None) → unreferenced r') s.
Proof.
  intros Ht. unfold check_no_replications, unreferenced. destruct (cleanUp r) eqn:Hc.
  - simpl. split; [done|]. intros [err|items] s' [-> Hl]; [split; [by eexists _, (Some err)|done]|].
    rewrite (replications_same r s Ht) in Hl. destruct items as [|x items]; simpl.
    + split; [by eexists _, None|]. intros ? _ _. by apply Permutation_nil.
    + split; [by eexists _, (Some _)|done].
  - split; [by eexists _, None|]. intros r' [= <-]. by rewrite Hc.
Qed.

Lemma wp_reconcileClientProfileReplication r s :
  tracks r s →
  wp api_spec (reconcileClientProfileReplication r)
    (λ s' o, tracked r s' o ∧ ∀ r', o = Done (r', None) → unreferenced r') s.
Proof.
  intros Ht. unfold reconcileClientProfileReplication.
  destruct (negb _); [|by apply wp_check_no_replications].
  destruct (ToggleOwnerReference _ _ _ _) as [[m b] err].
  apply (tracks_set_repl r s m) in Ht.
  destruct err as [err|]; [split; [by eexists _, (Some err)|done]|].
  destruct b; [|exact (wp_check_no_replications _ s Ht)].
  apply (wp_update_conn (set_repl (set_repl_meta m (clientProfileReplication r)) r)); [done| |].
  - intros err. split; [by eexists _, (Some err)|done].
  - intros c s' H. exact (wp_check_no_replications _ s' H).
Qed.

(** Adding the finalizer: the server stores the profile with it. *)
Lemma wp_ensure_finalizer r s :
  tracks r s →
  wp api_spec (ensure_finalizer r)
    (λ s' o, ∃ r' err, o = Done (r', err)
       ∧ (err = None → tracks r' s'
                       ∧ (cleanUp r' = false → cleanupFinalizer ∈ Meta_Finalizers (Profile_Meta (clientProfile r'))))
       ∧ (cleanUp r = true → err = None)) s.
Proof.
  intros Ht. unfold ensure_finalizer. destruct (cleanUp r) eqn:Hc; cbn [negb].
  { eexists _, None. split; [done|]. split; [|done]. intros _. split; [done|]. by rewrite Hc. }
  pose proof (AddFinalizer_elem (Profile_Meta (clientProfile r)) cleanupFinalizer) as Hfin.
  assert (Hkey : meta_key (AddFinalizer (Profile_Meta (clientProfile r)) cleanupFinalizer).1 = req)
    by (rewrite <-(tracks_key r s Ht); unfold AddFinalizer; by destruct (existsb _ _)).
  destruct (AddFinalizer _ _) as [m added] eqn:Ha. cbn [fst] in *. destruct added.
  - simpl. split; [done|]. intros [err|p] s' Hpost.
    { simpl in Hpost |- *. subst. eexists _, (Some err). by repeat split. }
    destruct Hpost as (x & Hx & (Huid & _ & Hdel) & [Hm Hspec] & ->).
    change (ObjectKeyFromObject KClientProfile _) with (meta_key m) in Hx. rewrite Hkey in Hx.
    destruct (tracks_stored r s Ht) as (x' & Hx' & Hs & Hu & Hf & Hd). rewrite Hx in Hx'. injection Hx' as <-.
    unfold client_fields in Hm. simpl in Hm, Hspec, Hdel, Huid. injection Hm as Hn Hns _ _ _ Hfs.
    assert (Hpkey : ObjectKeyFromObject KClientProfile p = req)
      by (rewrite <-Hkey; unfold ObjectKeyFromObject, meta_key; simpl; congruence).
    assert (Hbd : being_deleted KClientProfile p = being_deleted KClientProfile p0)
      by (rewrite <-Hd; unfold being_deleted; simpl; by rewrite Hdel).
    assert (Hrel : releases KClientProfile p s = false).
    { unfold releases. rewrite Hpkey, Hx. rewrite (tracks_cleanUp r s Ht), <-Hd in Hc. by rewrite Hc. }
    unfold update. rewrite Hrel.
    eexists _, None. split; [done|]. split; [|done]. intros _. split; [|by intros _; simpl; rewrite <-Hfs].
    destruct Ht. split; simpl; try done; try (by rewrite put_other_kind); try congruence.
    exists p. rewrite <-Hpkey. split; [apply (stored_put_eq KClientProfile p)|]. split_and!; congruence.
  - simpl. eexists _, None. split; [done|]. split; [|done]. intros _. split; [|done].
    assert (m = Profile_Meta (clientProfile r)) as ->
      by (unfold AddFinalizer in Ha; destruct (existsb _ _); by simplify_eq).
    destruct Ht. by split.
Qed.

(** ** Loading *)

Lemma wp_ensure_conn_owner e r s :
  tracks (set_repl e r) s →
  wp api_spec (ensure_conn_owner r)
    (λ s' o, ∃ r' err, o = Done (r', err) ∧ clientProfileReplication r' = clientProfileReplication r
                       ∧ tracks (set_repl e r') s') s.
Proof.
  intros Ht. unfold ensure_conn_owner. destruct (negb _); [|by eexists _, None].
  destruct (SetOwnerReference _ _ _) as [err|m]; [by eexists _, (Some err)|].
  assert (Ht' : tracks (set_conn (set_conn_meta m (cephConn r)) (set_repl e r)) s)
    by (apply (tracks_set_conn _ s); [done|apply (tracks_conn _ s Ht)|done]).
  apply (wp_update_conn (set_conn (set_conn_meta m (cephConn r)) (set_repl e r))); [done| |].
  - intros err. by eexists _, (Some err).
  - intros c s' H. by eexists _, None.
Qed.

Lemma select_elected items r s :
  items ≡ₚ replications s0 p0 →
  clientProfileReplication r = zero_repl → tracks (set_repl (elected s0 p0) r) s →
  let res := select_ready items r in
  res.2 = None → tracks res.1 s.
Proof.
  intros Hl Hz Ht. rewrite <-(elected_listed items) in Ht by done. unfold select_ready.
  change (λ item : ClientProfileReplication, String.eqb (CPR_Phase (Repl_Status item)) _) with is_ready.
  destruct (List.filter is_ready _) as [|x [|y l]]; simpl; [|done|done].
  intros _. destruct r. simpl in Hz. by subst.
Qed.

End before.

Definition load_start (req : NamespacedName) : ClientProfileReconcile := {|
  clientProfile := zero_profile (Key_Namespace req) (Key_Name req);
  cephConn := zero_conn "" ""; clientProfileReplication := zero_repl; cleanUp := false |}.

(** The resources of the iteration, in the store it starts from. *)
Definition inputs (req : NamespacedName) (s : store) (p : ClientProfile) (c : CephConnection) : Prop :=
  stored s KClientProfile req = Some p ∧ stored s KCephConnection (conn_key p) = Some c.

(** An iteration for a profile being deleted leaves the profiles alone
    before its last steps. *)
Definition kept (req : NamespacedName) (s0 s : store) : Prop :=
  (∀ x, stored s0 KClientProfile req = Some x → being_deleted KClientProfile x = true) →
  s KClientProfile = s0 KClientProfile.

Lemma kept_refl req s : kept req s s.
Proof. by intros _. Qed.

Lemma tracks_kept req s0 p0 c0 r s :
  inputs req s0 p0 c0 → tracks req s0 p0 c0 r s → kept req s0 s.
Proof.
  intros [Hp _] Ht Hd. apply (tracks_profiles _ _ _ _ _ _ Ht).
  rewrite (tracks_cleanUp _ _ _ _ _ _ Ht). by apply Hd.
Qed.

Definition loaded (req : NamespacedName) (s0 s : store)
    (o : outcome (ClientProfileReconcile * option error)) : Prop :=
  kept req s0 s ∧ ∃ r err, o = Done (r, err)
    ∧ (err = None → ∃ p0 c0, inputs req s0 p0 c0 ∧ tracks req s0 p0 c0 r s).

Lemma loaded_error req s0 s r err : kept req s0 s → loaded req s0 s (Done (r, Some err)).
Proof. intros H. split; [done|]. by exists r, (Some err). Qed.
#[local] Hint Resolve kept_refl : core.

Lemma wp_load req s0 :
  healthy req s0 → wp api_spec (loadAndValidate (load_start req)) (loaded req s0) s0.
Proof.
  intros Hh. unfold loadAndValidate. cbn [wp bind trigger mbind prog_bind]. split; [done|].
  assert (Hkey : meta_key (Profile_Meta (clientProfile (load_start req))) = req) by (by destruct req).
  rewrite Hkey. intros [err|p] s [-> Hp]; [by apply loaded_error|].
  destruct (healthy_profile _ _ Hh p Hp) as [Hpk _].
  destruct (String.eqb _ ""); [by apply loaded_error|].
  cbn [wp bind trigger mbind prog_bind]. split; [done|].
  change (meta_key (Conn_Meta _)) with (conn_key p).
  intros [err|c] s [-> Hc]; [by apply loaded_error|].
  apply wp_bind. eapply wp_mono.
  { apply (wp_ensure_conn_owner req s0 p c (elected s0 p)). split; simpl; try done. by exists p. }
  intros s ? (r & err & -> & Hz & Ht). simpl in Hz.
  assert (Hres : inputs req s0 p c) by done. pose proof (tracks_kept _ _ _ _ _ _ Hres Ht) as Hkept.
  destruct err as [err|]; [by apply loaded_error|].
  unfold list_replications. cbn [wp bind trigger mbind prog_bind]. split; [done|].
  intros [err|items] s' [-> Hl]; [by apply loaded_error|].
  pose proof (replications_same req s0 p c Hpk _ _ Ht) as Hsame. simpl in Hsame, Hl.
  rewrite Hsame in Hl. pose proof (select_elected req s0 p c items r s Hl Hz Ht) as Hsel.
  destruct (select_ready items r) as [r' err]. split; [done|].
  exists r', err. split; [done|]. intros He. exists p, c. auto.
Qed.

(** ** From the config map to the end *)
Section after.
Variables (req : NamespacedName) (s0 : store) (p0 : ClientProfile) (c0 : CephConnection).
Hypothesis Hres : inputs req s0 p0 c0.
Hypothesis Hhealthy : healthy req s0.

Lemma key0 : ObjectKeyFromObject KClientProfile p0 = req.
Proof. destruct Hres as [Hp _]. by apply (healthy_profile _ _ Hhealthy p0 Hp). Qed.

Lemma tracks_name r s :
  tracks req s0 p0 c0 r s → Meta_Name (Profile_Meta (clientProfile r)) = Meta_Name (Profile_Meta p0).
Proof. intros Ht. pose proof (tracks_key _ _ _ _ _ _ Ht) as Hk. rewrite <-key0 in Hk. by injection Hk. Qed.

Lemma tracks_inputs r s : tracks req s0 p0 c0 r s → inputs_ok r.
Proof.
  intros Ht. destruct Hres as [Hp Hc]. split; [|split].
  - apply (profile_ok_same p0); [by apply (tracks_name r s)|by destruct Ht|].
    by apply (healthy_profile _ _ Hhealthy).
  - apply (conn_ok_same c0); [by destruct Ht|]. by apply (healthy_conn _ _ Hhealthy (conn_key p0)).
  - apply (repl_ok_same (elected s0 p0)); [by destruct Ht|]. by eapply elected_ok.
Qed.

(** What the config map holds. *)
Definition config_of (s : store) : ConfigMap :=
  default {| CM_Meta := new_meta (Key_Namespace req) CsiConfigVolume_Name; CM_Data := ∅ |}
    (stored s KConfigMap (config_key (Key_Namespace req))).

(** The config map a successful update leaves. *)
Definition recorded (s : store) : Prop :=
  ∃ cm l0 l, stored s KConfigMap (config_key (Key_Namespace req)) = Some cm
    ∧ cm_list (config_of s0) = Some l0 ∧ cm_list cm = Some l ∧ unique_ids l
    ∧ (∀ key, key ≠ CsiConfigMapConfigKey → CM_Data cm !! key = CM_Data (config_of s0) !! key)
    ∧ if being_deleted KClientProfile p0
      then record_map l = delete (Meta_Name (Profile_Meta p0)) (record_map l0)
      else IsOwnedBy (CM_Meta cm) (Profile_Meta p0) = true
           ∧ ∃ rec, describes p0 c0 (elected s0 p0) rec
                    ∧ record_map l = <[Meta_Name (Profile_Meta p0) := rec]> (record_map l0).

Lemma mutated_recorded r s s' cm :
  tracks req s0 p0 c0 r s → mutated r (config_of s0) cm →
  stored s' KConfigMap (config_key (Key_Namespace req)) = Some cm → recorded s'.
Proof.
  intros Ht ((l0 & l & Hl0 & Hl & Hu & _ & Hit) & Hother & Hown & _) Hcm.
  exists cm, l0, l. do 5 (split; [done|]). unfold iterates in Hit.
  rewrite (tracks_cleanUp _ _ _ _ _ _ Ht), (tracks_name r s Ht) in Hit.
  rewrite (tracks_cleanUp _ _ _ _ _ _ Ht) in Hown. destruct (being_deleted _ _); [done|].
  split.
  - rewrite <-(Hown eq_refl). unfold IsOwnedBy. f_equal. by rewrite (tracks_uid _ _ _ _ _ _ Ht).
  - destruct Hit as (rec & Hd & Hm). exists rec. split; [|done].
    eapply describes_same; [..|exact Hd]; symmetry; [by apply (tracks_name r s)|by destruct Ht..].
Qed.

Lemma wp_config_map r s :
  tracks req s0 p0 c0 r s →
  wp api_spec (reconcileCephCsiClusterInfo r)
    (λ s' o, ∃ err, o = Done err ∧ s' KClientProfile = s KClientProfile ∧ (err = None → recorded s')) s.
Proof.
  intros Ht.
  assert (Hk : ObjectKeyFromObject KConfigMap (new_config r) = config_key (Key_Namespace req)).
  { pose proof (tracks_key _ _ _ _ _ _ Ht) as Hk. rewrite <-Hk. done. }
  assert (Hcm : stored s KConfigMap (config_key (Key_Namespace req)) = stored s0 KConfigMap (config_key (Key_Namespace req)))
    by (unfold stored; by rewrite (tracks_cms _ _ _ _ _ _ Ht)).
  eapply wp_mono; [apply wp_cluster_info|].
  - by eapply tracks_inputs.
  - rewrite Hk, Hcm. apply (healthy_cm _ _ Hhealthy).
  - cbv zeta. rewrite Hk. intros s' o (err & -> & H). exists err. split; [done|].
    destruct err as [err|]; [by subst|]. destruct H as (cm & Hs & Hm & Hkinds & _).
    split; [by apply Hkinds|]. intros _. eapply mutated_recorded; [done| |done].
    unfold config_of. rewrite <-Hcm. unfold new_config in Hm.
    pose proof (tracks_key _ _ _ _ _ _ Ht) as Hkey. rewrite <-Hkey at 1. exact Hm.
Qed.

Lemma recorded_frame s s' : s' KConfigMap = s KConfigMap → recorded s → recorded s'.
Proof. intros Hs (cm & l0 & l & Hcm & H). exists cm, l0, l. unfold stored in *. by rewrite Hs. Qed.

(** Before the status is written. *)
Definition completed (r : ClientProfileReconcile) (s : store) : Prop :=
  meta_key (Profile_Meta (clientProfile r)) = req ∧ recorded s
  ∧ (∀ x, stored s KClientProfile req = Some x →
       Profile_Spec x = Profile_Spec p0
       ∧ if being_deleted KClientProfile p0
         then cleanupFinalizer ∉ Meta_Finalizers (Profile_Meta x) ∧ replications s0 p0 = []
         else cleanupFinalizer ∈ Meta_Finalizers (Profile_Meta x)
              ∧ ClientProfile_Phase (Profile_Status (clientProfile r)) = ClientProfilePhaseReady)
  ∧ (being_deleted KClientProfile p0 = true →
     Meta_Finalizers (Profile_Meta p0) = [cleanupFinalizer] → stored s KClientProfile req = None).

Definition settled_phases (s : store) (o : outcome (ClientProfileReconcile * option error)) : Prop :=
  ∃ r err, o = Done (r, err) ∧ (err = None → completed r s) ∧ (err ≠ None → kept req s0 s).

Lemma settled_error s r err : kept req s0 s → settled_phases s (Done (r, Some err)).
Proof. intros H. by exists r, (Some err). Qed.

Lemma RemoveFinalizer_elem m f : f ∉ Meta_Finalizers (RemoveFinalizer m f).1.
Proof.
  simpl. intros (_ & Hf)%list_elem_of_In%filter_In. by rewrite String.eqb_refl in Hf.
Qed.

Lemma wp_finish r s s' :
  tracks req s0 p0 c0 r s → unreferenced s0 p0 r →
  (cleanUp r = false → cleanupFinalizer ∈ Meta_Finalizers (Profile_Meta (clientProfile r))) →
  s' KClientProfile = s KClientProfile → recorded s' →
  wp api_spec (finish r) settled_phases s'.
Proof.
  intros Ht Hnone Hfin Hs Hrec. pose proof Ht as []. unfold unreferenced in Hnone.
  destruct tracks_stored0 as (x & Hx & Hspec & Huid & Hxf & Hdel).
  assert (Hx' : stored s' KClientProfile req = Some x) by (unfold stored in *; by rewrite Hs).
  assert (Hkept : kept req s0 s')
    by (intros Hd; rewrite Hs; by apply (tracks_kept _ _ _ _ _ _ Hres Ht)).
  unfold finish. destruct (cleanUp r) eqn:Hc.
  - set (m := (RemoveFinalizer (Profile_Meta (clientProfile r)) cleanupFinalizer).1).
    assert (Hmkey : meta_key m = req) by (by rewrite <-tracks_key0).
    cbn [wp bind trigger mbind prog_bind]. split; [done|].
    intros [err|p] s2 Hpost; [simpl in Hpost; subst; by apply settled_error|].
    destruct Hpost as (x' & Hx2 & (_ & _ & Hd2) & [Hm Hsp] & ->).
    change (ObjectKeyFromObject KClientProfile _) with (meta_key m) in Hx2. rewrite Hmkey, Hx' in Hx2.
    injection Hx2 as <-. unfold client_fields in Hm. injection Hm as Hn Hns _ _ _ Hfs.
    simpl in Hsp, Hd2, Hn, Hns. fold m in Hn, Hns, Hfs. change (meta_of KClientProfile) with Profile_Meta in *.
    assert (Hpkey : ObjectKeyFromObject KClientProfile p = req).
    { rewrite <-Hmkey. unfold ObjectKeyFromObject, meta_key. simpl. congruence. }
    simpl. eexists _, None. split; [done|]. split; [intros _|done]. split; [done|].
    split; [eapply recorded_frame; [|exact Hrec]; by apply update_other_kind|]. split.
    + intros y Hy. unfold update in Hy. rewrite Hpkey in Hy.
      destruct (releases _ _ _); [by rewrite stored_remove_eq in Hy|].
      rewrite <-Hpkey, (stored_put_eq KClientProfile p) in Hy. injection Hy as <-.
      split; [congruence|]. rewrite <-tracks_cleanUp0. split; [|by apply Hnone].
      rewrite <-Hfs. apply RemoveFinalizer_elem.
    + intros Hd Hf0. unfold update, releases. rewrite Hpkey, Hx', Hdel, Hd.
      unfold finalized. simpl. rewrite Hxf, tracks_fin0, Hf0 by done.
      rewrite <-Hfs. unfold m. simpl. rewrite tracks_fin0, Hf0 by done. simpl. apply (stored_remove_eq KClientProfile).
  - simpl. eexists _, None. split; [done|]. split; [intros _|done]. split; [done|]. split; [done|].
    split; [|by rewrite <-tracks_cleanUp0]. intros y. rewrite Hx'. intros [= <-]. split; [done|].
    rewrite <-tracks_cleanUp0. split; [|done]. rewrite Hxf. by apply Hfin.
Qed.

Lemma wp_phases r s :
  tracks req s0 p0 c0 r s → wp api_spec (profile_reconcilePhases r) settled_phases s.
Proof.
  intros Ht. apply (tracks_phase _ _ _ _ _ _ ClientProfilePhasePending) in Ht.
  pose proof (tracks_kept _ _ _ _ _ _ Hres Ht) as Hk0.
  unfold profile_reconcilePhases. apply wp_bind.
  eapply wp_mono; [by apply (wp_ensure_finalizer req s0 p0 c0)|].
  intros s1 ? (r1 & err & -> & Hok & Hcl). destruct err as [err|].
  { apply settled_error. intros Hd. exfalso.
    rewrite (tracks_cleanUp _ _ _ _ _ _ Ht) in Hcl. destruct Hres as [Hp _]. by specialize (Hcl (Hd _ Hp)). }
  destruct (Hok eq_refl) as [Ht1 Hfin1]. apply wp_bind.
  assert (Hfin : ∀ r' s', tracks req s0 p0 c0 r' s' → clientProfile r' = clientProfile r1 → cleanUp r' = false →
            cleanupFinalizer ∈ Meta_Finalizers (Profile_Meta (clientProfile r'))).
  { intros r' s' Ht' Hp Hc'. rewrite Hp. apply Hfin1.
    by rewrite (tracks_cleanUp _ _ _ _ _ _ Ht1), <-(tracks_cleanUp _ _ _ _ _ _ Ht'). }
  eapply wp_mono; [by apply (wp_reconcileCephConnection req s0 p0 c0)|].
  intros s2 ? (r2 & err & -> & Hp2 & Ht2). destruct err as [err|].
  { apply settled_error. by eapply tracks_kept. }
  apply wp_bind.
  eapply wp_mono; [by apply (wp_reconcileClientProfileReplication req s0 p0 c0 key0)|].
  intros s3 ? [(r3 & err & -> & Hp3 & Ht3) Hnone]. destruct err as [err|].
  { apply settled_error. by eapply tracks_kept. }
  apply wp_bind. eapply wp_mono; [by apply wp_config_map|].
  intros s4 ? (err & -> & Hs4 & Hrec). destruct err as [err|].
  { apply settled_error. intros Hd. rewrite Hs4. by apply (tracks_kept _ _ _ _ _ _ Hres Ht3). }
  apply (wp_finish r3 s3); auto. apply (Hfin _ s3); [done|congruence].
Qed.

End after.

(** ** The whole iteration *)

(** What an iteration that succeeds leaves. *)
Definition reconciled (req : NamespacedName) (s s' : store) : Prop :=
  ∃ p c p', inputs req s p c ∧ recorded req s p c s'
    ∧ stored s' KClientProfile req = Some p' ∧ Profile_Spec p' = Profile_Spec p
    ∧ if being_deleted KClientProfile p
      then cleanupFinalizer ∉ Meta_Finalizers (Profile_Meta p') ∧ replications s p = []
           ∧ Meta_Finalizers (Profile_Meta p) ≠ [cleanupFinalizer]
      else cleanupFinalizer ∈ Meta_Finalizers (Profile_Meta p')
           ∧ ClientProfile_Phase (Profile_Status p') = ClientProfilePhaseReady.

(** The profile is gone, or has nothing but the finalizer of this controller
    left to wait for. *)
Definition condemned (req : NamespacedName) (s : store) : Prop :=
  ∀ x, stored s KClientProfile req = Some x →
       being_deleted KClientProfile x = true ∧ Meta_Finalizers (Profile_Meta x) = [cleanupFinalizer].

Lemma condemned_kept req s s' : condemned req s → kept req s s' → condemned req s'.
Proof.
  intros Hc Hk x. unfold stored. rewrite Hk by (intros y Hy; by apply Hc). apply Hc.
Qed.

Lemma condemned_status req s r o x :
  condemned req s → stored s KClientProfile (ObjectKeyFromObject KClientProfile r) = Some x →
  same_identity KClientProfile x o → ObjectKeyFromObject KClientProfile o = ObjectKeyFromObject KClientProfile r →
  status_accepted KClientProfile x r o → condemned req (put KClientProfile o s).
Proof.
  intros Hc Hx (_ & _ & Hd) Hk [Hm _] y Hy.
  destruct (decide (req = ObjectKeyFromObject KClientProfile o)) as [->|Hne].
  - rewrite (stored_put_eq KClientProfile o) in Hy. injection Hy as <-. rewrite <-Hk in Hx.
    destruct (Hc x Hx) as [Hb Hf]. unfold client_fields in Hm. injection Hm as _ _ _ _ _ Hm.
    unfold being_deleted in *. rewrite Hd. split; [done|]. by rewrite <-Hf.
  - apply Hc. by rewrite (stored_put_ne KClientProfile KClientProfile o) in Hy by (by right).
Qed.

Lemma wp_profile_reconcile req s :
  healthy req s →
  wp api_spec (profile_reconcile req)
    (λ s' o, ∃ err, o = Done err ∧ (err = None → reconciled req s s')
       ∧ (condemned req s → err ≠ None ∧ condemned req s')) s.
Proof.
  intros Hh. unfold profile_reconcile. apply wp_bind. eapply wp_mono; [by apply wp_load|].
  intros s1 ? (Hk1 & r1 & err & -> & Hl). destruct err as [err|].
  { exists (Some err). split; [done|]. split; [done|]. intros Hc. split; [done|]. by eapply condemned_kept. }
  destruct (Hl eq_refl) as (p0 & c0 & Hres & Ht). apply wp_bind.
  eapply wp_mono; [by apply (wp_phases req s p0 c0 Hres Hh)|].
  intros s2 ? (r2 & err & -> & Hfin & Hkept). cbn [wp bind trigger mbind prog_bind]. split; [done|].
  intros t s3 Hpost. destruct err as [err|].
  { exists (Some err). split; [done|]. split; [done|]. intros Hc. split; [done|].
    apply (condemned_kept _ _ s2) in Hc; [|by apply Hkept]. destruct t as [e|o]; [by simpl in Hpost; subst|].
    destruct Hpost as (x & Hx & Hid & Hk & Hacc & ->). by eapply condemned_status. }
  destruct (Hfin eq_refl) as (Hkey & Hrec & Hx & Hgone). simpl. destruct t as [e|o].
  - simpl in Hpost. subst s3. exists (Some e). split; [done|]. split; [done|]. intros Hc. split; [done|].
    destruct Hres as [Hp _]. destruct (Hc _ Hp) as [Hd Hf]. intros y. by rewrite (Hgone Hd Hf).
  - destruct Hpost as (x & Hx2 & (_ & _ & Hdel) & Hk & [Hm [Hspec Hst]] & ->).
    change (ObjectKeyFromObject KClientProfile (clientProfile r2))
      with (meta_key (Profile_Meta (clientProfile r2))) in Hx2, Hk.
    rewrite Hkey in Hx2, Hk. destruct (Hx x Hx2) as [Hxs Hxd].
    assert (Hnf : being_deleted KClientProfile p0 = true → Meta_Finalizers (Profile_Meta p0) ≠ [cleanupFinalizer])
      by (intros Hd Hf; specialize (Hgone Hd Hf); congruence).
    exists None. split; [done|]. split.
    + intros _. exists p0, c0, o. split; [done|]. split.
      { eapply recorded_frame; [|exact Hrec]. by apply put_other_kind. }
      rewrite <-Hk. split; [apply (stored_put_eq KClientProfile o)|]. split; [congruence|].
      unfold client_fields in Hm. injection Hm as _ _ _ _ _ Hm.
      change (Meta_Finalizers (Profile_Meta o) = Meta_Finalizers (Profile_Meta x)) in Hm.
      rewrite Hm, Hst. destruct (being_deleted KClientProfile p0); [|done].
      destruct Hxd. by auto.
    + intros Hc. destruct Hres as [Hp _]. destruct (Hc _ Hp) as [Hd Hf]. by destruct (Hnf Hd).
Qed.

(** C3: in a cluster whose objects hold UTF-8 strings and whose config map
    holds one record per cluster, an iteration that succeeds for a profile
    that is not being deleted leaves in the config map, as a finite map, exactly one change, the record
    that describes the profile, its Ceph connection and its only Ready
    replication as they were stored when it started, leaves the other keys of
    the config map as they were and the profile among its owners, the profile
    with its spec and the clean-up finalizer, and the status Ready.  One that
    succeeds for a profile being deleted found no replication for it, and
    leaves no record of it and no clean-up finalizer on it. *)
Theorem profile_iteration_establishes (req : NamespacedName) (s : store) :
  healthy req s →
  wp api_spec (profile_reconcile req)
    (λ s' o, ∃ err, o = Done err ∧ (err = None → reconciled req s s')) s.
Proof.
  intros Hh. eapply wp_mono; [by apply wp_profile_reconcile|].
  intros s' o (err & -> & H & _). by exists err.
Qed.

(** C9: in a cluster whose objects hold UTF-8 strings and whose config map
    holds one record per cluster, no iteration succeeds for a profile that is
    being deleted and waits for nothing but this controller: the update that
    takes the last finalizer off removes the object, and the status update
    that follows finds none.  Nor does any later iteration, as long as the
    cluster is like that, since the request is for an object that is gone or
    still waits in the same way. *)
Theorem profile_cleanup_never_succeeds (req : NamespacedName) (s : store) :
  healthy req s → condemned req s →
  wp api_spec (profile_reconcile req)
    (λ s' o, (∃ err, o = Done (Some err)) ∧ condemned req s') s.
Proof.
  intros Hh Hc. eapply wp_mono; [by apply wp_profile_reconcile|].
  intros s' o (err & -> & _ & H). destruct (H Hc) as [He Hs]. split; [|done].
  destruct err as [err|]; [by exists err|done].
Qed.

(** C27: while the Ceph connection a profile names does not exist, an iteration
    reads the two objects, writes nothing and fails, also for a profile that
    is being deleted: its record and its finalizer stay. *)
Theorem profile_cleanup_needs_connection (req : NamespacedName) (s : store) (p : obj KClientProfile) :
  stored s KClientProfile req = Some p → stored s KCephConnection (conn_key p) = None →
  wp api_spec (profile_reconcile req) (λ s' o, s' = s ∧ ∃ err, o = Done (Some err)) s.
Proof.
  intros Hp Hc. unfold profile_reconcile. apply wp_bind. unfold loadAndValidate.
  cbn [wp bind trigger mbind prog_bind]. split; [done|].
  assert (Hkey : meta_key (Profile_Meta (clientProfile (load_start req))) = req) by (by destruct req).
  change (meta_key (Profile_Meta (clientProfile _)))
    with (meta_key (Profile_Meta (clientProfile (load_start req)))).
  rewrite Hkey. intros [err|p'] s' [-> Hp']; simpl; [by eauto|].
  rewrite Hp in Hp'. injection Hp' as <-. destruct (String.eqb _ ""); simpl; [by eauto|]. split; [done|].
  intros [err|c] s' [-> Hc']; simpl; [by eauto|]. by pose proof (eq_trans (eq_sym Hc') Hc).
Qed.

End lifecycle.

(** ** Evaluation at concrete resources *)

#[local] Existing Instance plain_lib.
#[local] Existing Instance example_equality.
#[local] Instance example_error_text : JsonErrorText := λ text, "invalid JSON".

Definition example_req : NamespacedName := {| Key_Namespace := "ns"; Key_Name := "p" |}.

(** The config map after an iteration for profile [p]. *)
Definition example_recorded_store : store :=
  (run memory_server (profile_reconcile example_req) example_profile_store).1.

(** Profile [p], after that iteration, is marked for deletion. *)
Definition example_deleted_store : store :=
  (run memory_server (trigger (Delete KClientProfile example_req)) example_recorded_store).1.

Lemma stored_listed k key x s : stored s k key = Some x → (key, x) ∈ map_to_list (s k).
Proof. apply elem_of_map_to_list. Qed.

Lemma example_store_healthy : healthy example_req example_profile_store.
Proof.
  split.
  - intros x Hx. vm_compute in Hx. injection Hx as <-. by vm_compute.
  - intros key x Hx. unfold example_profile_store in Hx.
    rewrite (stored_put_ne KClientProfile KCephConnection) in Hx by (by left).
    apply stored_single in Hx as [[_ ->]|Hx]; [done|]. by vm_compute in Hx.
  - intros key x Hx. unfold example_profile_store in Hx.
    rewrite (stored_put_ne KClientProfile KClientProfileReplication) in Hx by (by left).
    rewrite (stored_put_ne KCephConnection KClientProfileReplication) in Hx by (by left).
    by vm_compute in Hx.
  - intros cm Hcm. by vm_compute in Hcm.
Qed.

Lemma profile_iteration_establishes_witness :
  healthy example_req example_profile_store ∧ reconciled example_req example_profile_store example_recorded_store.
Proof.
  split; [exact example_store_healthy|].
  destruct (wp_run _ _ _ _ _ memory_server_implements
              (profile_iteration_establishes example_req example_profile_store example_store_healthy))
    as (err & Herr & H).
  apply H. pose proof (eq_trans (eq_sym Herr) (proj1 example_profile_run)) as Heq. by injection Heq.
Defined.

(** Deleting it: the record and the profile go, and the iteration fails. *)
Lemma example_deleted_healthy : healthy example_req example_deleted_store.
Proof.
  split.
  - intros x Hx. vm_compute in Hx. injection Hx as <-. by vm_compute.
  - intros key x Hx.
    apply stored_listed in Hx. vm_compute in Hx.
    apply list_elem_of_singleton in Hx. injection Hx as _ ->. reflexivity.
  - intros key x Hx. apply stored_listed in Hx. vm_compute in Hx. by apply not_elem_of_nil in Hx.
  - intros cm Hcm. vm_compute in Hcm. injection Hcm as <-.
    exists (Some [Some {|
      ClusterId := "p"; info_Monitors := ["10.0.0.1:6789"]; info_CephFs := zero_cephFs;
      info_Rbd := zero_rbd; info_Nfs := tt; info_Nvmeof := zero_nvmeof;
      info_ReadAffinity := zero_affinity; ReplicationDestination := None |}]).
    split; [vm_compute; reflexivity|]. split; [|reflexivity].
    split; [|apply NoDup_singleton]. intros y Hy. apply list_elem_of_singleton in Hy. by rewrite Hy.
Qed.

Lemma profile_cleanup_never_succeeds_witness :
  (∃ x, stored example_deleted_store KClientProfile example_req = Some x)
  ∧ condemned example_req example_deleted_store
  ∧ let r := run memory_server (profile_reconcile example_req) example_deleted_store in
    (∃ err, r.2 = Done (Some err)) ∧ stored r.1 KClientProfile example_req = None.
Proof.
  split; [eexists; vm_compute; reflexivity|].
  assert (Hc : condemned example_req example_deleted_store).
  { intros x Hx. vm_compute in Hx. injection Hx as <-. by vm_compute. }
  split; [exact Hc|]. split; [|vm_compute; reflexivity].
  exact (proj1 (wp_run _ _ _ _ _ memory_server_implements
    (profile_cleanup_never_succeeds example_req _ example_deleted_healthy Hc))).
Defined.

Lemma profile_cleanup_needs_connection_witness :
  let s := put KClientProfile (marked KClientProfile example_profile) empty_store in
  wp api_spec (profile_reconcile example_req) (λ s' o, s' = s ∧ ∃ err, o = Done (Some err)) s.
Proof.
  apply (profile_cleanup_needs_connection example_req _ (marked KClientProfile example_profile));
    vm_compute; reflexivity.
Defined.
