(* ===== verification/Elections.v ===== *)
(** * Replications and the profile they name, together

    The replication controller elects the oldest replication of a profile
    (Replication.v), the profile controller uses the only one that is Ready
    (ProfileReconcile.v).  Nothing takes Ready away from a replication that is
    no longer the oldest: an older one that comes to name the profile later
    leaves two of them Ready, and the profile cannot be reconciled any more. *)
From S2P Require Import Prelude Prog K8s ApiTypes Cluster CoreUtils CsiUtils Replication Json.
From S2P Require Import JsonCodec Profile Server ProfileReconcile ClusterInfo ProfileTheorems ProfileLifecycle.

Section elections.
Context {lib : ApiLib} `{EQ : !SemanticEquality} `{JT : !JsonErrorText}.

Definition repl_key (x : ClientProfileReplication) : NamespacedName := meta_key (Repl_Meta x).

(** The replications of the profile of a request. *)
Definition naming (req : NamespacedName) : ListOptions := byClientProfile (Key_Namespace req) (Key_Name req).

Definition named (req : NamespacedName) (s : store) : list ClientProfileReplication :=
  listing KClientProfileReplication (s KClientProfileReplication) (naming req).

(** A stored replication that names the profile. *)
Definition names_profile (req : NamespacedName) (s : store) (x : ClientProfileReplication) : Prop :=
  stored s KClientProfileReplication (repl_key x) = Some x
  ∧ matches KClientProfileReplication (naming req) x = true.

Lemma names_profile_listed req s x : names_profile req s x → x ∈ named req s.
Proof.
  intros [Hs Hm]. apply (listing_spec KClientProfileReplication). split; [|done]. by exists (repl_key x).
Qed.

(** Whether an object matches depends on its name, labels and spec only. *)
Lemma matches_same opts (x x' : obj KClientProfileReplication) :
  client_fields (Repl_Meta (x' : ClientProfileReplication)) = client_fields (Repl_Meta (x : ClientProfileReplication)) →
  Repl_Spec (x' : ClientProfileReplication) = Repl_Spec (x : ClientProfileReplication) →
  matches KClientProfileReplication opts x' = matches KClientProfileReplication opts x.
Proof.
  unfold client_fields, matches, field_index, clientProfileIndex. simpl. intros [= _ -> _ _ _ _] ->. done.
Qed.

(** ** The profile side *)

Lemma length_two {A} (l : list A) x y : x ∈ l → y ∈ l → x ≠ y → 1 < length l.
Proof.
  destruct l as [|a [|b l]]; simpl; intros Hx Hy Hne; [by apply not_elem_of_nil in Hx| |lia].
  apply list_elem_of_singleton in Hx, Hy. congruence.
Qed.

Lemma select_two items r x y :
  x ∈ items → y ∈ items → x ≠ y → is_ready x = true → is_ready y = true →
  (select_ready items r).2 ≠ None.
Proof.
  intros Hx Hy Hne Hrx Hry. unfold select_ready.
  change (λ item : ClientProfileReplication, String.eqb (CPR_Phase (Repl_Status item)) _) with is_ready.
  assert (Hin : ∀ z, z ∈ items → is_ready z = true → z ∈ List.filter is_ready items)
    by (intros z Hz Hr; rewrite list_elem_of_In, filter_In, <-list_elem_of_In; done).
  destruct (Nat.ltb_spec 1 (length (List.filter is_ready items))); [done|].
  pose proof (length_two _ x y (Hin x Hx Hrx) (Hin y Hy Hry) Hne). lia.
Qed.

(** Two replications that name the profile are Ready. *)
Definition blocked (req : NamespacedName) (s : store) : Prop :=
  (∀ p, stored s KClientProfile req = Some p → ObjectKeyFromObject KClientProfile p = req)
  ∧ ∃ x y, names_profile req s x ∧ names_profile req s y ∧ repl_key x ≠ repl_key y
           ∧ is_ready x = true ∧ is_ready y = true.

Definition same_but_connections (s s' : store) : Prop := ∀ k, k ≠ KCephConnection → s' k = s k.

Lemma blocked_same req s s' : same_but_connections s s' → blocked req s → blocked req s'.
Proof.
  unfold same_but_connections. intros Hs. unfold blocked, names_profile, stored.
  by rewrite (Hs KClientProfile), (Hs KClientProfileReplication) by done.
Qed.

Lemma wp_owner_same (r : ClientProfileReconcile) s :
  wp api_spec (ensure_conn_owner r)
    (λ s' o, ∃ r' err, o = Done (r', err) ∧ clientProfile r' = clientProfile r
       ∧ same_but_connections s s') s.
Proof.
  unfold ensure_conn_owner. destruct (negb _); [|by eexists _, None].
  destruct (SetOwnerReference _ _ _) as [err|m]; [by eexists _, (Some err)|].
  simpl. split; [done|]. intros [err|c'] s' Hpost; [subst; by eexists _, (Some err)|].
  destruct Hpost as (c2 & _ & _ & _ & ->). eexists _, None. do 2 (split; [done|]).
  intros k Hk. by apply (update_other_kind KCephConnection k).
Qed.

(** Such a profile is given up after its resources have been read. *)
Lemma wp_two_ready req s :
  blocked req s →
  wp api_spec (profile_reconcile req)
    (λ s' o, (∃ err, o = Done (Some err)) ∧ same_but_connections s s') s.
Proof.
  intros (Hkey & x & y & Hx & Hy & Hne & Hrx & Hry). unfold profile_reconcile. apply wp_bind.
  unfold loadAndValidate. cbn [wp bind trigger mbind prog_bind]. split; [done|].
  assert (Hreq : meta_key (Profile_Meta (clientProfile (load_start req))) = req) by (by destruct req).
  change (meta_key (Profile_Meta (clientProfile _)))
    with (meta_key (Profile_Meta (clientProfile (load_start req)))).
  assert (Hrefl : same_but_connections s s) by (by intros k _).
  rewrite Hreq. intros [err|p] s1 [-> Hp]; [by split; [eexists|]|]. specialize (Hkey p Hp).
  destruct (String.eqb _ ""); [by split; [eexists|]|]. cbn [wp bind trigger mbind prog_bind].
  split; [done|]. intros [err|c] s1 [-> Hc]; [by split; [eexists|]|]. apply wp_bind.
  eapply wp_mono; [apply wp_owner_same|].
  intros s1 ? (r & err & -> & Hpr & Hs1). destruct err as [err|]; [by split; [eexists|]|].
  unfold list_replications. cbn [wp bind trigger mbind prog_bind]. split; [done|].
  intros [err|items] s2 [-> Hl]; [by split; [eexists|]|].
  assert (Hitems : ∀ z, names_profile req s z → z ∈ items).
  { intros z Hz%names_profile_listed. rewrite Hl, Hpr, (Hs1 KClientProfileReplication) by done.
    unfold named, naming in Hz. by rewrite <-Hkey in Hz. }
  assert (x ≠ y) as Hxy by (by intros ->).
  pose proof (select_two items r x y (Hitems x Hx) (Hitems y Hy) Hxy Hrx Hry) as Hsel.
  destruct (select_ready _ _) as [r' [err|]]; [by split; [eexists|]|done].
Qed.

(** ** The replication side *)

Lemma precedes_antisym x y : precedes x y → precedes y x → repl_name x = repl_name y.
Proof.
  unfold precedes. intros [?|[[? ?]|[? Hxy]]] [?|[[? ?]|[? Hyx]]]; try lia; try congruence.
  pose proof (string_ltb_trans _ _ _ Hxy Hyx) as Hlt. unfold String.ltb in Hlt.
  pose proof (String.compare_antisym (repl_name x) (repl_name x)) as Hc.
  by destruct (repl_name x ?= repl_name x)%string.
Qed.

Lemma sort_winner items x :
  NoDup (repl_name <$> items) → winner items x → ∃ r, sort_Slice items = x :: r.
Proof.
  intros Hnd [Hx Hle]. destruct (sort_Slice items) as [|w r] eqn:Hs.
  - apply sort_Slice_nil in Hs as ->. by apply not_elem_of_nil in Hx.
  - destruct (sort_Slice_head _ _ _ Hs) as [Hw Hlw]. exists r. f_equal.
    apply (same_name_eq items); try done. by apply precedes_antisym; [apply Hlw|apply Hle].
Qed.

Lemma winner_perm items items' x : items ≡ₚ items' → winner items x → winner items' x.
Proof. intros Hp [Hx Hle]. split; [by rewrite <-Hp|]. intros y Hy. apply Hle. by rewrite Hp. Qed.

(** The phases of a replication that is the oldest of its profile. *)
Lemma wp_phases_winner req s x p :
  names_profile req s x → winner (named req s) x → NoDup (repl_name <$> named req s) →
  Key_Name req ≠ "" →
  stored s KClientProfile req = Some p → ObjectKeyFromObject KClientProfile p = req →
  wp api_spec (reconcilePhases x)
    (λ s' o, s' = s ∧ ∃ x' err, o = Done (x', err) ∧ Repl_Meta x' = Repl_Meta x
       ∧ (err = None → CPR_Phase (Repl_Status x') = ClientProfileReplicationPhaseReady)) s.
Proof.
  intros [_ Hm] Hw Hnd Hne Hp Hkey.
  assert (Hreq : {| Key_Namespace := Meta_Namespace (Repl_Meta x);
                    Key_Name := CPR_LocalClientProfile (Repl_Spec x) |} = req).
  { unfold matches, naming, byClientProfile in Hm. simpl in Hm. apply andb_prop in Hm as [H1 H2].
    apply String.eqb_eq in H1. unfold clientProfileIndex in H2.
    destruct (String.eqb_spec (CPR_LocalClientProfile (Repl_Spec x)) ""); simpl in H2; [done|].
    rewrite orb_false_r in H2. apply String.eqb_eq in H2. rewrite H1, <-H2. by destruct req. }
  assert (Hns : Meta_Namespace (Repl_Meta x) = Key_Namespace req) by (by rewrite <-Hreq).
  unfold reconcilePhases. cbn [wp bind trigger mbind prog_bind]. split; [done|].
  intros got s1 [-> Hgot]. simpl in Hgot. rewrite Hreq in Hgot. destruct got as [err|p'].
  - destruct (IsNotFound err) eqn:Hn; [specialize (Hgot eq_refl); congruence|].
    split; [done|]. by eexists _, (Some err).
  - rewrite Hp in Hgot. injection Hgot as <-. cbn [wp bind trigger mbind prog_bind]. split; [done|].
    intros [err|items] s2 [-> Hl]; [split; [done|]; by eexists _, (Some err)|].
    assert (Hitems : items ≡ₚ named req s).
    { rewrite Hl. unfold named, naming. simpl. rewrite Hns.
      change (Meta_Name (Profile_Meta p)) with (Key_Name (ObjectKeyFromObject KClientProfile p)).
      by rewrite Hkey. }
    destruct (sort_winner items x) as [r ->]; [by rewrite Hitems|by apply (winner_perm (named req s))|]. simpl. rewrite !String.eqb_refl. simpl.
    split; [done|]. by eexists _, None.
Qed.

Lemma wp_elected req s x p :
  names_profile req s x → winner (named req s) x → NoDup (repl_name <$> named req s) →
  Key_Name req ≠ "" →
  stored s KClientProfile req = Some p → ObjectKeyFromObject KClientProfile p = req →
  wp api_spec (reconcile (repl_key x))
    (λ s' o, o = Done None →
       ∃ x', s' = put KClientProfileReplication x' s ∧ repl_key x' = repl_key x
             ∧ client_fields (Repl_Meta x') = client_fields (Repl_Meta x)
             ∧ Repl_Spec x' = Repl_Spec x ∧ is_ready x' = true) s.
Proof.
  intros Hx Hw Hnd Hne Hp Hkey. pose proof Hx as [Hxs _].
  unfold reconcile. cbn [wp bind trigger mbind prog_bind]. split; [done|].
  intros [err|cpr] s1 [-> Hg].
  { destruct (IsNotFound err) eqn:Hn; [|by simpl]. specialize (Hg eq_refl). congruence. }
  rewrite Hxs in Hg. injection Hg as <-. apply wp_bind.
  eapply wp_mono; [by eapply wp_phases_winner|].
  intros s1 ? (-> & x1 & err & -> & Hmeta & Hready). cbn [wp bind trigger mbind prog_bind].
  split; [done|]. intros t s2 Hpost. destruct err as [err|]; [done|].
  destruct t as [err|x']; [done|]. intros _. specialize (Hready eq_refl).
  destruct Hpost as (x0 & Hx0 & _ & Hk & [Hm [Hsp Hst]] & ->).
  assert (Hkx : ObjectKeyFromObject KClientProfileReplication x1 = repl_key x)
    by (unfold ObjectKeyFromObject, repl_key; simpl; by rewrite Hmeta).
  rewrite Hkx in Hx0, Hk. rewrite Hxs in Hx0. injection Hx0 as <-.
  exists x'. split_and!; try done. unfold is_ready. rewrite Hst, Hready. apply String.eqb_refl.
Qed.


End elections.

(** ** Evaluation at concrete resources *)

#[local] Existing Instance plain_lib.
#[local] Existing Instance example_equality.
#[local] Instance example_error_text : JsonErrorText := λ text, "invalid JSON".

Definition ready_repl (x : ClientProfileReplication) : ClientProfileReplication :=
  set_repl_status ClientProfileReplicationPhaseReady "accepted" x.

(** [a] is Ready for the profile; [b], which is older, names it as well now. *)
Definition example_late_store : store :=
  put KClientProfileReplication (ready_repl (example_repl "a" 20))
    (put KClientProfileReplication (example_repl "b" 10) example_profile_store).

Lemma winner_of_two (items : list ClientProfileReplication) a b :
  items = [a; b] ∨ items = [b; a] → precedes b a → precedes b b → winner items b.
Proof.
  intros Hl Hba Hbb. split; [destruct Hl as [-> | ->]; set_solver|].
  intros z Hz. destruct Hl as [-> | ->]; apply list_elem_of_In in Hz;
    destruct Hz as [<-|[<-|[]]]; assumption.
Qed.

Lemma names_of_two (items : list ClientProfileReplication) a b :
  items = [a; b] ∨ items = [b; a] → repl_name a ≠ repl_name b → NoDup (repl_name <$> items).
Proof. intros [-> | ->] Hne; simpl; repeat constructor; set_solver. Qed.

Lemma example_named :
  named example_req example_late_store = [ready_repl (example_repl "a" 20); example_repl "b" 10]
  ∨ named example_req example_late_store = [example_repl "b" 10; ready_repl (example_repl "a" 20)].
Proof. first [left; vm_compute; reflexivity|right; vm_compute; reflexivity]. Qed.

Lemma example_late_result :
  (run memory_server (reconcile (repl_key (example_repl "b" 10))) example_late_store).2 = Done None.
Proof. vm_compute. reflexivity. Qed.

