(* ===== verification/DriverSpec.v ===== *)
(** * The desired state of a Ceph CSI driver
    (internal/controller/defaults.go and the first part of
    internal/controller/driver_controller.go)

    The environment and the defaults of the operator, the type and the names
    of a driver, the merge of the driver spec with the operator's defaults
    and the loading of the desired state. *)
From S2P Require Import Prelude Prog K8s ApiTypes Cluster CoreUtils CsiUtils Json JsonCodec.

(** ** Defaults (defaults.go) *)

Definition imageDefaults : gmap string string := list_to_map [
  ("provisioner", "registry.k8s.io/sig-storage/csi-provisioner:v6.2.0");
  ("attacher", "registry.k8s.io/sig-storage/csi-attacher:v4.12.0");
  ("resizer", "registry.k8s.io/sig-storage/csi-resizer:v2.1.0");
  ("snapshotter", "registry.k8s.io/sig-storage/csi-snapshotter:v8.5.0");
  ("registrar", "registry.k8s.io/sig-storage/csi-node-driver-registrar:v2.17.0");
  ("snapshot-metadata", "registry.k8s.io/sig-storage/csi-snapshot-metadata:v1.0.0");
  ("plugin", "quay.io/cephcsi/cephcsi:v3.17.0");
  ("addons", "quay.io/csiaddons/k8s-sidecar:v0.14.0")].

Definition defaultGRrpcTimeout : Z := 150.
Definition defaultKubeletDirPath : string := "/var/lib/kubelet".
Definition defaultLogHostPath : string := "/var/lib/cephcsi".
Definition defaultLogRotateMaxFiles : Z := 7.
Definition defaultControllerPluginReplicas : Z := 2.

Definition defaultLeaderElection : LeaderElectionSpec :=
  {| LeaseDuration := 137; RenewDeadline := 107; RetryPeriod := 26 |}.

Definition defaultDaemonSetUpdateStrategy : DaemonSetUpdateStrategy :=
  {| DSUS_Type := "RollingUpdate";
     DSUS_RollingUpdate := Some {| RU_MaxUnavailable := Some (FromInt 1); RU_MaxSurge := None |} |}.

Definition defaultDeploymentStrategy : DeploymentStrategy :=
  {| DS_Type := "Recreate"; DS_RollingUpdate := None |}.

(** The package variables computed from the environment at start-up. *)
Record OperatorEnv := {
  operatorNamespace : string;
  operatorConfigName : string;
  serviceAccountPrefix : string;
}.

Definition load_operatorNamespace (env : gmap string string) : string + string :=
  match GetOperatorNamespace env with
  | inl _ => inl "Required OPERATOR_NAMESPACE environment variable is either missing or empty"
  | inr ns => inr ns
  end.

Definition load_operatorConfigName (env : gmap string string) : string + string :=
  match env !! "OPERATOR_CONFIG_NAME" with
  | Some name =>
      if String.eqb name "" then inl "OPERATOR_CONFIG_NAME exists but empty" else inr name
  | None => inr "ceph-csi-operator-config"
  end.

Definition load_serviceAccountPrefix (env : gmap string string) : string :=
  Getenv env "CSI_SERVICE_ACCOUNT_PREFIX".

Definition load_env (env : gmap string string) : string + OperatorEnv :=
  ns ← load_operatorNamespace env;
  name ← load_operatorConfigName env;
  inr {| operatorNamespace := ns; operatorConfigName := name;
         serviceAccountPrefix := load_serviceAccountPrefix env |}.

(** ** Driver types and names *)

Definition RbdDriverType : string := "rbd".
Definition CephFsDriverType : string := "cephfs".
Definition NfsDriverType : string := "nfs".
Definition NvmeofDriverType : string := "nvmeof".

Definition driver_types : list string :=
  [RbdDriverType; CephFsDriverType; NfsDriverType; NvmeofDriverType].

Definition ownerRefAnnotationKey : string := "csi.ceph.io/ownerref".
Definition driverCSIAddonsFeatureVolumeCondition : string := "addons.csi.ceph.io/volume-condition".
Definition logRotateCmd : string :=
  "while true; do logrotate --verbose /logrotate-config/csi; sleep 15m; done".

(** [nameRegExp.FindStringSubmatch(name)[1]]: the regular expression is
    ^(?:.+\.)?(rbd|cephfs|nfs|nvmeof)\.csi\.ceph\.com$ and a dot does not
    match a newline.  [scan_name nonempty s] goes through the text of the
    optional group; [nonempty] says that a character has been read. *)
Definition type_suffix (t : string) : string := (t ++ ".csi.ceph.com")%string.

Definition full_type (s : string) : option string :=
  List.find (λ t, String.eqb s (type_suffix t)) driver_types.

Fixpoint scan_name (nonempty : bool) (s : string) : option string :=
  match s with
  | EmptyString => None
  | String c s =>
      if (byte c =? 10)%N then None
      else if (byte c =? 46)%N && nonempty then
        match full_type s with
        | Some t => Some t
        | None => scan_name true s
        end
      else scan_name true s
  end.

Definition name_type (name : string) : option string :=
  match full_type name with
  | Some t => Some t
  | None => scan_name false name
  end.

(** ** The reconcile object *)
Section desired.
Context {lib : ApiLib}.

Record driverReconcile := {
  driver : Driver;
  driverType : string;
  images : gmap string string;
}.

Definition driver_name (r : driverReconcile) : string := Meta_Name (Driver_Meta (driver r)).
Definition driver_ns (r : driverReconcile) : string := Meta_Namespace (Driver_Meta (driver r)).
Definition driver_spec (r : driverReconcile) : DriverSpec := Driver_Spec (driver r).

Definition image (r : driverReconcile) (name : string) : string := default "" (images r !! name).

Definition isRbdDriver (r : driverReconcile) : bool := String.eqb (driverType r) RbdDriverType.
Definition isCephFsDriver (r : driverReconcile) : bool := String.eqb (driverType r) CephFsDriverType.
Definition isNfsDriver (r : driverReconcile) : bool := String.eqb (driverType r) NfsDriverType.
Definition isNvmeofDriver (r : driverReconcile) : bool := String.eqb (driverType r) NvmeofDriverType.
Definition isRbdOrNvemofDriver (r : driverReconcile) : bool := isRbdDriver r || isNvmeofDriver r.

Definition generateName (r : driverReconcile) (suffix : string) : string :=
  (driver_name r ++ "-" ++ suffix)%string.

(** The class [[^a-z0-9-]], rune by rune. *)
Definition service_rune (x : rune) (rest : string) : string :=
  match x with
  | R1 c => if in_range c 97 122 || in_range c 48 57 || (byte c =? 45)%N
            then String c rest else String "-"%char rest
  | _ => String "-"%char rest
  end.

Definition replace_special (s : string) : string := foldr service_rune EmptyString (runes s).

Definition generateServiceName (r : driverReconcile) (suffix : string) : string :=
  replace_special (generateName r suffix).

(** ** mergeDriverSpecs *)

Definition merge_common (dest src : PodCommonSpec) : PodCommonSpec := {|
  ServiceAccountName := cmp_Or (ServiceAccountName dest) (ServiceAccountName src);
  PrioritylClassName := cmp_Or (PrioritylClassName dest) (PrioritylClassName src);
  Labels := cmp_Or (Labels dest) (Labels src);
  Annotations := cmp_Or (Annotations dest) (Annotations src);
  PodAffinitySpec := cmp_Or (PodAffinitySpec dest) (PodAffinitySpec src);
  Tolerations := cmp_Or (Tolerations dest) (Tolerations src);
  Volumes := cmp_Or (Volumes dest) (Volumes src);
  ImagePullPolicy := cmp_Or (ImagePullPolicy dest) (ImagePullPolicy src) |}.

Definition merge_NodePlugin (dest src : NodePluginSpec) : NodePluginSpec := {|
  Node_Common := merge_common (Node_Common dest) (Node_Common src);
  UpdateStrategy := cmp_Or (UpdateStrategy dest) (UpdateStrategy src);
  Node_Resources := {|
    NR_Registrar := cmp_Or (NR_Registrar (Node_Resources dest)) (NR_Registrar (Node_Resources src));
    NR_Liveness := cmp_Or (NR_Liveness (Node_Resources dest)) (NR_Liveness (Node_Resources src));
    NR_Addons := cmp_Or (NR_Addons (Node_Resources dest)) (NR_Addons (Node_Resources src));
    NR_LogRotator := cmp_Or (NR_LogRotator (Node_Resources dest)) (NR_LogRotator (Node_Resources src));
    NR_Plugin := cmp_Or (NR_Plugin (Node_Resources dest)) (NR_Plugin (Node_Resources src)) |};
  KubeletDirPath := cmp_Or (KubeletDirPath dest) (KubeletDirPath src);
  EnableSeLinuxHostMount := cmp_Or (EnableSeLinuxHostMount dest) (EnableSeLinuxHostMount src);
  Topology := Topology dest;
  Node_ContainerExtraArgs := cmp_Or (Node_ContainerExtraArgs dest) (Node_ContainerExtraArgs src) |}.

Definition merge_ControllerResources (dest src : ControllerPluginResourcesSpec)
    : ControllerPluginResourcesSpec := {|
  CR_Attacher := cmp_Or (CR_Attacher dest) (CR_Attacher src);
  CR_Snapshotter := cmp_Or (CR_Snapshotter dest) (CR_Snapshotter src);
  CR_Resizer := cmp_Or (CR_Resizer dest) (CR_Resizer src);
  CR_Provisioner := cmp_Or (CR_Provisioner dest) (CR_Provisioner src);
  CR_OMapGenerator := cmp_Or (CR_OMapGenerator dest) (CR_OMapGenerator src);
  CR_Liveness := cmp_Or (CR_Liveness dest) (CR_Liveness src);
  CR_Addons := cmp_Or (CR_Addons dest) (CR_Addons src);
  CR_LogRotator := cmp_Or (CR_LogRotator dest) (CR_LogRotator src);
  CR_Plugin := cmp_Or (CR_Plugin dest) (CR_Plugin src) |}.

Definition merge_ControllerPlugin (dest src : ControllerPluginSpec) : ControllerPluginSpec := {|
  HostNetwork := HostNetwork dest;
  Ctrl_Common := merge_common (Ctrl_Common dest) (Ctrl_Common src);
  CtrlDeploymentStrategy := CtrlDeploymentStrategy dest;
  Replicas := cmp_Or (Replicas dest) (Replicas src);
  Ctrl_Resources := merge_ControllerResources (Ctrl_Resources dest) (Ctrl_Resources src);
  Privileged := cmp_Or (Privileged dest) (Privileged src);
  Ctrl_ContainerExtraArgs := cmp_Or (Ctrl_ContainerExtraArgs dest) (Ctrl_ContainerExtraArgs src) |}.

(** A section that both specs have is merged field by field. *)
Definition merge_section {A} (merge : A → A → A) (dest src : option A) : option A :=
  match src with
  | Some s => match dest with Some d => Some (merge d s) | None => Some s end
  | None => dest
  end.

(** The driver's spec after the call; the deep copy of [src] only prevents
    sharing. *)
Definition mergeDriverSpecs (dest src : DriverSpec) : DriverSpec := {|
  Log := cmp_Or (Log dest) (Log src);
  ImageSet := ImageSet dest;
  ClusterName := cmp_Or (ClusterName dest) (ClusterName src);
  EnableMetadata := EnableMetadata dest;
  EnableFencing := cmp_Or (EnableFencing dest) (EnableFencing src);
  GRpcTimeout := cmp_Or (GRpcTimeout dest) (GRpcTimeout src);
  SnapshotPolicy := cmp_Or (SnapshotPolicy dest) (SnapshotPolicy src);
  GenerateOMapInfo := cmp_Or (GenerateOMapInfo dest) (GenerateOMapInfo src);
  FsGroupPolicy := cmp_Or (FsGroupPolicy dest) (FsGroupPolicy src);
  Encryption := cmp_Or (Encryption dest) (Encryption src);
  NodePlugin := merge_section merge_NodePlugin (NodePlugin dest) (NodePlugin src);
  ControllerPlugin := merge_section merge_ControllerPlugin (ControllerPlugin dest) (ControllerPlugin src);
  AttachRequired := cmp_Or (AttachRequired dest) (AttachRequired src);
  Liveness := cmp_Or (Liveness dest) (Liveness src);
  LeaderElection := cmp_Or (LeaderElection dest) (LeaderElection src);
  DeployCsiAddons := cmp_Or (DeployCsiAddons dest) (DeployCsiAddons src);
  CephFsClientType := cmp_Or (CephFsClientType dest) (CephFsClientType src);
  KernelMountOptions := cmp_Or (KernelMountOptions dest) (KernelMountOptions src);
  FuseMountOptions := cmp_Or (FuseMountOptions dest) (FuseMountOptions src) |}.

(** ** The owner annotation: a [types.NamespacedName] as JSON *)

Definition encode_key (k : NamespacedName) : json :=
  JObj [("Namespace", JStr (Key_Namespace k)); ("Name", JStr (Key_Name k))].

Definition key_fields : fields NamespacedName :=
  [("Namespace", λ j k, x ← decode_string j (Key_Namespace k);
      Some {| Key_Namespace := x; Key_Name := Key_Name k |});
   ("Name", λ j k, x ← decode_string j (Key_Name k);
      Some {| Key_Namespace := Key_Namespace k; Key_Name := x |})].

Definition Marshal_key (k : NamespacedName) : string := json_text (encode_key k).
Definition Unmarshal_key (text : string) : option NamespacedName :=
  j ← parse_json text; decode_struct key_fields j {| Key_Namespace := ""; Key_Name := "" |}.

(** ** LoadAndValidateDesiredState *)
Section load.
Context `{JT : !JsonErrorText} (oe : OperatorEnv).

Definition set_driver (d : Driver) (r : driverReconcile) : driverReconcile :=
  {| driver := d; driverType := driverType r; images := images r |}.
Definition set_spec (s : DriverSpec) (r : driverReconcile) : driverReconcile :=
  set_driver {| Driver_Meta := Driver_Meta (driver r); Driver_Spec := s |} r.
(** [maps.Copy(r.images, data)] *)
Definition add_images (data : gmap string string) (r : driverReconcile) : driverReconcile :=
  {| driver := driver r; driverType := driverType r; images := data ∪ images r |}.

(** Is the name of the driver claimed by a CSI driver of somebody else? *)
Definition check_csiDriver (r : driverReconcile) (csiDriver : CSIDriver) : option error :=
  if negb (String.eqb (Meta_UID (CSID_Meta csiDriver)) "") then
    let ownerRef := default "" (Meta_Annotations (CSID_Meta csiDriver) !! ownerRefAnnotationKey) in
    if String.eqb ownerRef "" then Some (Errorf "invalid driver name")
    else
      match Unmarshal_key ownerRef with
      | None => Some (Errorf (json_error_text ownerRef))
      | Some ownerObjKey =>
          if negb (String.eqb (driver_ns r) (Key_Namespace ownerObjKey))
             || negb (String.eqb (driver_name r) (Key_Name ownerObjKey))
          then Some (Errorf "invalid driver name") else None
      end
  else None.

(** An image set config map is read when the spec names one. *)
Definition load_images (imageSet : option string) (ns : string) (r : driverReconcile)
    : M (driverReconcile * option error) :=
  match imageSet with
  | Some name =>
      if negb (String.eqb name "") then
        got ← trigger (Get KConfigMap {| Key_Namespace := ns; Key_Name := name |});
        match got with
        | inl err => mret (r, Some err)
        | inr imageSetCM => mret (add_images (CM_Data imageSetCM) r, None)
        end
      else mret (r, None)
  | None => mret (r, None)
  end.

(** Merge the operator's defaults, and their images. *)
Definition load_defaults (opConfig : option OperatorConfigSpec) (r : driverReconcile)
    : M (driverReconcile * option error) :=
  match opConfig ≫= DriverSpecDefaults with
  | Some defaults =>
      load_images (ImageSet defaults) (operatorNamespace oe)
        (set_spec (mergeDriverSpecs (driver_spec r) defaults) r)
  | None => mret (r, None)
  end.

(** [None] for a result the code ignores: [client.IgnoreNotFound]. *)
Definition found {A} (got : error + A) : error + option A :=
  match got with
  | inl err => if IsNotFound err then inr None else inl err
  | inr x => inr (Some x)
  end.

Definition LoadAndValidateDesiredState (r : driverReconcile)
    : M (driverReconcile * option error) :=
  got ← trigger (Get KCSIDriver {| Key_Namespace := ""; Key_Name := driver_name r |});
  match found got with
  | inl err => mret (r, Some err)
  | inr csiDriver =>
      match csiDriver ≫= check_csiDriver r with
      | Some err => mret (r, Some err)
      | None =>
          match name_type (driver_name r) with
          | None => mret (r, Some (Errorf ("invalid driver name " ++ driver_name r)%string))
          | Some t =>
              let r := {| driver := driver r; driverType := strings_ToLower t; images := images r |} in
              got ← trigger (Get KOperatorConfig {| Key_Namespace := operatorNamespace oe;
                                                     Key_Name := operatorConfigName oe |});
              match found got with
              | inl err => mret (r, Some err)
              | inr opConfig =>
                  got ← trigger (Get KDriver (meta_key (Driver_Meta (driver r))));
                  match got with
                  | inl err => mret (r, Some err)
                  | inr d =>
                      let r := {| driver := d; driverType := driverType r; images := imageDefaults |} in
                      '(r, err) ← load_defaults (OpConf_Spec <$> opConfig) r;
                      match err with
                      | Some err => mret (r, Some err)
                      | None => load_images (ImageSet (driver_spec r)) (driver_ns r) r
                      end
                  end
              end
          end
      end
  end.

End load.
End desired.
