(* ===== verification/SharingTheorems.v ===== *)
(** * mergeDriverSpecs: memory and immutable values

    The merge over memory (Sharing.v) does to the specs of drivers what
    [mergeDriverSpecs] of DriverSpec.v does to immutable values, and what it
    leaves in the driver shares no memory with the defaults. *)
From S2P Require Import Prelude Prog K8s ApiTypes Memory MemoryCopy DeepCopy Sharing DriverSpec.

(** The values of the types of other packages in memory. *)
Class ExtTrees {lib : ApiLib} `{EX : !ExtTypes} := {
  Quantity_value : Quantity → ext_value;
  ResourceRequirements_value : ResourceRequirements → ext_value;
  Affinity_value : Affinity → ext_value;
  Toleration_value : Toleration → ext_value;
  Volume_value : Volume → ext_value;
  VolumeMount_value : VolumeMount → ext_value;
  DaemonSetUpdateStrategy_value : DaemonSetUpdateStrategy → ext_value;
  DeploymentStrategy_value : DeploymentStrategy → ext_value;
}.

Section specs.
Context {lib : ApiLib} `{EX : !ExtTypes} `{ET : !ExtTrees}.

(** ** The value in memory of a spec

    The slice of domain labels, for which the spec does not tell nil from
    empty, is nil when it is empty. *)

Definition of_string (s : string) : tree := Leaf (Str s).
Definition of_int (z : Z) : tree := Leaf (Int z).
Definition of_bool (b : bool) : tree := Leaf (Bool b).

Definition of_option {A} (f : A → tree) (x : option A) : tree :=
  match x with Some a => Ref (f a) | None => Nil end.
Definition of_list {A} (f : A → tree) (l : list A) : tree := Items (f <$> l).
Definition of_slice {A} (f : A → tree) (x : option (list A)) : tree :=
  match x with Some l => of_list f l | None => Nil end.
Definition of_map {A} (f : A → tree) (x : option (gmap string A)) : tree :=
  match x with Some m => Entries (f <$> m) | None => Nil end.

Definition of_requirements (x : option ResourceRequirements) : tree :=
  of_option (λ r, Ext (ResourceRequirements_value r)) x.

Definition of_name (name : string) : tree := Node [("Name", of_string name)].

Definition of_rotation (x : LogRotationSpec) : tree := Node
  [ ("MaxFiles", of_int (MaxFiles x)); ("MaxLogSize", Ext (Quantity_value (MaxLogSize x)));
    ("Periodicity", of_string (Periodicity x)); ("LogHostPath", of_string (LogHostPath x)) ].

Definition of_log (x : LogSpec) : tree := Node
  [ ("Verbosity", of_int (Verbosity x)); ("Rotation", of_option of_rotation (Rotation x)) ].

Definition of_encryption (x : EncryptionSpec) : tree := Node [ ("ConfigMapRef", of_name (ConfigMapRef x)) ].

Definition of_volume (x : VolumeSpec) : tree := Node
  [ ("Volume", Ext (Volume_value (VolumeSpec_Volume x)));
    ("Mount", Ext (VolumeMount_value (VolumeSpec_Mount x))) ].

Definition of_common (x : PodCommonSpec) : tree := Node
  [ ("ServiceAccountName", of_option of_string (ServiceAccountName x));
    ("PrioritylClassName", of_option of_string (PrioritylClassName x));
    ("Labels", of_map of_string (Labels x)); ("Annotations", of_map of_string (Annotations x));
    ("Affinity", of_option (λ a, Ext (Affinity_value a)) (PodAffinitySpec x));
    ("Tolerations", of_slice (λ t, Ext (Toleration_value t)) (Tolerations x));
    ("Volumes", of_slice of_volume (Volumes x)); ("ImagePullPolicy", of_string (ImagePullPolicy x)) ].

Definition of_node_resources (x : NodePluginResourcesSpec) : tree := Node
  [ ("Registrar", of_requirements (NR_Registrar x)); ("Liveness", of_requirements (NR_Liveness x));
    ("Addons", of_requirements (NR_Addons x)); ("LogRotator", of_requirements (NR_LogRotator x));
    ("Plugin", of_requirements (NR_Plugin x)) ].

Definition of_topology (x : TopologySpec) : tree := Node
  [ ("DomainLabels", match DomainLabels x with [] => Nil | l => of_list of_string l end) ].

Definition of_node (x : NodePluginSpec) : tree := Node
  [ ("PodCommonSpec", of_common (Node_Common x));
    ("UpdateStrategy", of_option (λ s, Ext (DaemonSetUpdateStrategy_value s)) (UpdateStrategy x));
    ("Resources", of_node_resources (Node_Resources x)); ("KubeletDirPath", of_string (KubeletDirPath x));
    ("EnableSeLinuxHostMount", of_option of_bool (EnableSeLinuxHostMount x));
    ("Topology", of_option of_topology (Topology x));
    ("ContainerExtraArgs", of_map (of_list of_string) (Node_ContainerExtraArgs x)) ].

Definition of_controller_resources (x : ControllerPluginResourcesSpec) : tree := Node
  [ ("Attacher", of_requirements (CR_Attacher x)); ("Snapshotter", of_requirements (CR_Snapshotter x));
    ("Resizer", of_requirements (CR_Resizer x)); ("Provisioner", of_requirements (CR_Provisioner x));
    ("OMapGenerator", of_requirements (CR_OMapGenerator x)); ("Liveness", of_requirements (CR_Liveness x));
    ("Addons", of_requirements (CR_Addons x)); ("LogRotator", of_requirements (CR_LogRotator x));
    ("Plugin", of_requirements (CR_Plugin x)) ].

Definition of_controller (x : ControllerPluginSpec) : tree := Node
  [ ("HostNetwork", of_option of_bool (HostNetwork x)); ("PodCommonSpec", of_common (Ctrl_Common x));
    ("DeploymentStrategy", of_option (λ s, Ext (DeploymentStrategy_value s)) (CtrlDeploymentStrategy x));
    ("Replicas", of_option of_int (Replicas x)); ("Resources", of_controller_resources (Ctrl_Resources x));
    ("Privileged", of_option of_bool (Privileged x));
    ("ContainerExtraArgs", of_map (of_list of_string) (Ctrl_ContainerExtraArgs x)) ].

Definition of_liveness (x : LivenessSpec) : tree := Node [ ("MetricsPort", of_int (MetricsPort x)) ].

Definition of_election (x : LeaderElectionSpec) : tree := Node
  [ ("LeaseDuration", of_int (LeaseDuration x)); ("RenewDeadline", of_int (RenewDeadline x));
    ("RetryPeriod", of_int (RetryPeriod x)) ].

Definition of_driver_spec (x : DriverSpec) : tree := Node
  [ ("Log", of_option of_log (Log x)); ("ImageSet", of_option of_name (ImageSet x));
    ("ClusterName", of_option of_string (ClusterName x));
    ("EnableMetadata", of_option of_bool (EnableMetadata x));
    ("EnableFencing", of_option of_bool (EnableFencing x)); ("GRpcTimeout", of_int (GRpcTimeout x));
    ("SnapshotPolicy", of_string (SnapshotPolicy x));
    ("GenerateOMapInfo", of_option of_bool (GenerateOMapInfo x));
    ("FsGroupPolicy", of_string (FsGroupPolicy x)); ("Encryption", of_option of_encryption (Encryption x));
    ("NodePlugin", of_option of_node (NodePlugin x));
    ("ControllerPlugin", of_option of_controller (ControllerPlugin x));
    ("AttachRequired", of_option of_bool (AttachRequired x)); ("Liveness", of_option of_liveness (Liveness x));
    ("LeaderElection", of_option of_election (LeaderElection x));
    ("DeployCsiAddons", of_option of_bool (DeployCsiAddons x));
    ("CephFsClientType", of_string (CephFsClientType x));
    ("KernelMountOptions", of_map of_string (KernelMountOptions x));
    ("FuseMountOptions", of_map of_string (FuseMountOptions x)) ].

(** ** One field *)

Lemma fill_option {A} (f : A → tree) x y :
  (if unset_tree (of_option f x) then of_option f y else of_option f x) = of_option f (cmp_Or x y).
Proof. by destruct x. Qed.

Lemma fill_requirements x y :
  (if unset_tree (of_requirements x) then of_requirements y else of_requirements x) = of_requirements (cmp_Or x y).
Proof. apply fill_option. Qed.

Lemma fill_slice {A} (f : A → tree) x y :
  (if unset_tree (of_slice f x) then of_slice f y else of_slice f x) = of_slice f (cmp_Or x y).
Proof. by destruct x. Qed.

Lemma fill_map {A} (f : A → tree) x y :
  (if unset_tree (of_map f x) then of_map f y else of_map f x) = of_map f (cmp_Or x y).
Proof. by destruct x. Qed.

Lemma fill_string x y :
  (if unset_tree (of_string x) then of_string y else of_string x) = of_string (cmp_Or x y).
Proof. unfold cmp_Or, go_is_zero, string_is_zero. simpl. by destruct (String.eqb x ""). Qed.

Lemma fill_int x y : (if unset_tree (of_int x) then of_int y else of_int x) = of_int (cmp_Or x y).
Proof. unfold cmp_Or, go_is_zero, Z_is_zero. simpl. by destruct (Z.eqb x 0). Qed.

Ltac fill :=
  cbn -[unset_tree of_option of_map of_slice of_string of_int of_requirements of_common
        of_node_resources of_controller_resources merged_fields];
  rewrite ?fill_option, ?fill_requirements, ?fill_map, ?fill_slice, ?fill_string, ?fill_int.

Lemma merged_common x y :
  merged_fields merged (filled
    [ "ServiceAccountName"; "PrioritylClassName"; "Labels"; "Annotations"; "Affinity"; "Tolerations";
      "Volumes"; "ImagePullPolicy" ]) (of_common x) (of_common y) = of_common (merge_common x y).
Proof. unfold of_common, merged_fields. by fill. Qed.

Lemma merged_node_resources x y :
  merged_fields merged (filled [ "Registrar"; "Liveness"; "Plugin"; "LogRotator"; "Addons" ])
    (of_node_resources (Node_Resources x)) (of_node_resources (Node_Resources y))
  = of_node_resources (Node_Resources (merge_NodePlugin x y)).
Proof. unfold of_node_resources at 1 2, merged_fields. by fill. Qed.

Lemma merged_controller_resources x y :
  merged_fields merged (filled
    [ "Attacher"; "Snapshotter"; "Resizer"; "Provisioner"; "OMapGenerator"; "Liveness"; "Plugin";
      "LogRotator"; "Addons" ])
    (of_controller_resources x) (of_controller_resources y)
  = of_controller_resources (merge_ControllerResources x y).
Proof. unfold of_controller_resources at 1 2, merged_fields. by fill. Qed.

Lemma merged_node x y :
  merged_fields merged merge_node_rules (of_node x) (of_node y) = of_node (merge_NodePlugin x y).
Proof.
  unfold of_node at 1 2. unfold merged_fields at 1. fill.
  pose proof (merged_common (Node_Common x) (Node_Common y)) as Hc.
  pose proof (merged_node_resources x y) as Hr. cbn -[of_common of_node_resources merged_fields] in Hc, Hr.
  by rewrite Hc, Hr.
Qed.

Lemma merged_controller x y :
  merged_fields merged merge_controller_rules (of_controller x) (of_controller y)
  = of_controller (merge_ControllerPlugin x y).
Proof.
  unfold of_controller at 1 2. unfold merged_fields at 1. fill.
  pose proof (merged_common (Ctrl_Common x) (Ctrl_Common y)) as Hc.
  pose proof (merged_controller_resources (Ctrl_Resources x) (Ctrl_Resources y)) as Hr.
  cbn -[of_common of_controller_resources merged_fields] in Hc, Hr.
  by rewrite Hc, Hr.
Qed.

Lemma merged_section {A} (of_section : A → tree) (merge_values : A → A → A) rules x y :
  (∀ x y, merged_fields merged rules (of_section x) (of_section y) = of_section (merge_values x y)) →
  merged (Through rules) (of_option of_section x) (of_option of_section y)
  = of_option of_section (merge_section merge_values x y).
Proof. intros H. destruct x as [x|], y as [y|]; try done. simpl. by rewrite H. Qed.

Lemma merged_driver_spec x y :
  merged_fields merged merge_driver_rules (of_driver_spec x) (of_driver_spec y)
  = of_driver_spec (mergeDriverSpecs x y).
Proof.
  pose proof (merged_section of_node merge_NodePlugin merge_node_rules (NodePlugin x) (NodePlugin y) merged_node)
    as Hn.
  pose proof (merged_section of_controller merge_ControllerPlugin merge_controller_rules (ControllerPlugin x)
                (ControllerPlugin y) merged_controller) as Hc.
  cbn -[of_node of_controller of_option merge_node_rules merge_controller_rules merged_fields] in Hn, Hc.
  unfold of_driver_spec at 1 2. unfold merged_fields at 1.
  cbn -[unset_tree of_option of_map of_string of_int merged_fields merge_node_rules merge_controller_rules].
  rewrite Hn, Hc. by rewrite !fill_option, !fill_map, !fill_string, fill_int.
Qed.

Context {OK : ExtTypesOk}.

(** C13: merging the defaults of the operator configuration into the spec of a
    driver, in place, always ends; the driver's spec is then the merge of the
    two values, and the defaults are as they were.  The spec uses each of its
    locations once and shares none with the defaults, so that nothing that is
    written to the driver later reaches them; no memory but that of the
    driver's spec has changed. *)
Theorem merge_shares_nothing (h : heap) (dest src : val) (d s : DriverSpec) (ls lss : list loc) :
  reads h (TPtr DriverSpec_type) dest = Some (Ref (of_driver_spec d), ls) →
  reads h (TPtr DriverSpec_type) src = Some (Ref (of_driver_spec s), lss) →
  NoDup ls → apart ls lss →
  ∃ h' lz, merge_specs dest src h = Some (tt, h')
    ∧ reads h' (TPtr DriverSpec_type) dest = Some (Ref (of_driver_spec (mergeDriverSpecs d s)), lz)
    ∧ reads h' (TPtr DriverSpec_type) src = Some (Ref (of_driver_spec s), lss)
    ∧ NoDup lz ∧ apart lz lss ∧ ∀ l, l ∉ ls → is_Some (h !! l) → h' !! l = h !! l.
Proof.
  intros Hd Hs Hnd Hap.
  destruct (merge_apart h dest src _ _ ls lss Hd Hs Hnd Hap ltac:(done)) as (h' & lz & Hrun & Hz & Hrest).
  exists h', lz. split; [exact Hrun|]. split; [|exact Hrest]. rewrite Hz. do 2 f_equal.
  exact (f_equal Ref (merged_driver_spec d s)).
Qed.

End specs.

(** ** Evaluation on a concrete driver and concrete defaults *)

#[local] Existing Instance plain_lib.

#[local] Instance plain_trees : ExtTrees (lib := plain_lib) := {|
  Quantity_value := Int;
  ResourceRequirements_value := Str;
  Affinity_value _ := Str "affinity";
  Toleration_value := Str;
  Volume_value v := Str (Volume_Name v);
  VolumeMount_value m := Str (Mount_Name m);
  DaemonSetUpdateStrategy_value s := Str (DSUS_Type s);
  DeploymentStrategy_value s := Str (DS_Type s);
|}.

(** The driver has a node plugin with labels; the defaults have a cluster name
    and a node plugin with tolerations and a directory. *)
Definition merge_memory : heap := list_to_map
  [ (1, CVal (with_fields [ ("GRpcTimeout", VScalar (Int 30)); ("NodePlugin", VPtr (Some 2)) ]
                (zero_of DriverSpec_type)));
    (2, CVal (with_fields
                [ ("PodCommonSpec", with_fields [ ("Labels", VMap (Some 3)) ] (zero_of PodCommonSpec_type)) ]
                (zero_of NodePluginSpec_type)));
    (3, CMap {[ "app" := VScalar (Str "csi") ]});
    (10, CVal (with_fields [ ("GRpcTimeout", VScalar (Int 60)); ("ClusterName", VPtr (Some 11));
                             ("NodePlugin", VPtr (Some 12)) ] (zero_of DriverSpec_type)));
    (11, CVal (VScalar (Str "ceph")));
    (12, CVal (with_fields
                 [ ("PodCommonSpec", with_fields [ ("Tolerations", VSlice (Some (13, 0, 1))) ]
                                       (zero_of PodCommonSpec_type));
                   ("KubeletDirPath", VScalar (Str "/var/lib/kubelet")) ] (zero_of NodePluginSpec_type)));
    (13, CArr [VScalar (Str "master")]) ].

Definition spec_with (timeout : Z) (name : option string) (node : NodePluginSpec) : DriverSpec := {|
  Log := None; ImageSet := None; ClusterName := name; EnableMetadata := None;
  EnableFencing := None; GRpcTimeout := timeout; SnapshotPolicy := ""; GenerateOMapInfo := None;
  FsGroupPolicy := ""; Encryption := None; NodePlugin := Some node; ControllerPlugin := None;
  AttachRequired := None; Liveness := None; LeaderElection := None; DeployCsiAddons := None;
  CephFsClientType := ""; KernelMountOptions := None; FuseMountOptions := None |}.

Definition node_with (labels : option (gmap string string)) (tolerations : option (list string))
    (dir : string) : NodePluginSpec := {|
  Node_Common := {|
    ServiceAccountName := None; PrioritylClassName := None; Labels := labels; Annotations := None;
    PodAffinitySpec := None; Tolerations := tolerations; Volumes := None; ImagePullPolicy := "" |};
  UpdateStrategy := None; Node_Resources := Node_Resources zero_NodePluginSpec; KubeletDirPath := dir;
  EnableSeLinuxHostMount := None; Topology := None; Node_ContainerExtraArgs := None |}.

Definition merge_dest : DriverSpec := spec_with 30 None (node_with (Some {[ "app" := "csi" ]}) None "").
Definition merge_src : DriverSpec :=
  spec_with 60 (Some "ceph") (node_with None (Some ["master"]) "/var/lib/kubelet").

Lemma merge_dest_reads :
  reads merge_memory (TPtr DriverSpec_type) (VPtr (Some 1)) = Some (Ref (of_driver_spec merge_dest), [1; 2; 3]).
Proof. reflexivity. Qed.

Lemma merge_src_reads :
  reads merge_memory (TPtr DriverSpec_type) (VPtr (Some 10)) = Some (Ref (of_driver_spec merge_src), [10; 11; 12; 13]).
Proof. reflexivity. Qed.

Lemma merge_shares_nothing_witness :
  mergeDriverSpecs merge_dest merge_src
    = spec_with 30 (Some "ceph") (node_with (Some {[ "app" := "csi" ]}) (Some ["master"]) "/var/lib/kubelet")
  ∧ ∃ h' lz, merge_specs (VPtr (Some 1)) (VPtr (Some 10)) merge_memory = Some (tt, h')
    ∧ reads h' (TPtr DriverSpec_type) (VPtr (Some 1))
      = Some (Ref (of_driver_spec (mergeDriverSpecs merge_dest merge_src)), lz)
    ∧ apart lz [10; 11; 12; 13].
Proof.
  split; [reflexivity|].
  destruct (merge_shares_nothing merge_memory (VPtr (Some 1)) (VPtr (Some 10)) merge_dest merge_src
              [1; 2; 3] [10; 11; 12; 13] merge_dest_reads merge_src_reads)
    as (h' & lz & Hrun & Hz & _ & _ & Hap & _).
  - apply (bool_decide_unpack _). vm_compute. exact I.
  - intros l Hl. apply (bool_decide_unpack _). apply list_elem_of_In in Hl.
    simpl in Hl. destruct Hl as [<-|[<-|[<-|[]]]]; vm_compute; exact I.
  - exists h', lz. split; [exact Hrun|]. split; [exact Hz|exact Hap].
Defined.
