(* ===== verification/ControllerPlugin.v ===== *)
(** * The controller plugin deployment
    (reconcileControllerPluginDeployment of
    internal/controller/driver_controller.go)

    The pod the operator deploys once per driver: the plugin container, its
    sidecars and the volumes they mount.  The local variables of the Go
    function are functions of the reconcile object [r]; one definition builds
    each container. *)
From S2P Require Import Prelude Prog K8s ApiTypes Cluster CoreUtils CsiUtils DriverSpec.

Definition PullIfNotPresent : string := "IfNotPresent".
Definition DNSClusterFirst : string := "ClusterFirst".
Definition DNSClusterFirstWithHostNet : string := "ClusterFirstWithHostNet".
Definition LabelHostname : string := "kubernetes.io/hostname".

Section controller_plugin.
Context {lib : ApiLib}.

(** ** Merging the volumes of the user *)

(** Add user defined volume mounts at the end, so that they overwrite. *)
Definition merge_mounts (mounts : list VolumeMount) (volumes : list VolumeSpec) : list VolumeMount :=
  MapMergeByKey
    (λ v, (VolumeSpec_Mount v, negb (String.eqb (Mount_Name (VolumeSpec_Mount v)) "")))
    Mount_Name mounts volumes.

Definition merge_volumes (volumes : list Volume) (user : list VolumeSpec) : list Volume :=
  MapMergeByKey
    (λ v, (VolumeSpec_Volume v, negb (String.eqb (Volume_Name (VolumeSpec_Volume v)) "")))
    Volume_Name volumes user.

(** The resources of a container: [ptr.Deref(r, ResourceRequirements{})]. *)
Definition resources (r : option ResourceRequirements) : ResourceRequirements :=
  default zero_ResourceRequirements r.

(** The security context of a privileged sidecar. *)
Definition privileged_context (privileged : option bool) : SecurityContext :=
  {| SC_Privileged := privileged;
     SC_Capabilities := Some {| Cap_Add := []; Cap_Drop := ["All"] |};
     SC_AllowPrivilegeEscalation := None |}.

(** [podLabels]: the labels of the user, then the label of the selector. *)
Definition pod_labels (user : option (gmap string string)) (appName : string) : gmap string string :=
  <["app" := appName]> (default ∅ user).

(** ** The local variables *)
Section variables.
Variable r : driverReconcile.

Definition ctrl_spec : ControllerPluginSpec :=
  or_new (ControllerPlugin (driver_spec r)) zero_ControllerPluginSpec.
Definition ctrl_volumes : list VolumeSpec := default [] (Volumes (Ctrl_Common ctrl_spec)).
Definition leaderElectionSpec : LeaderElectionSpec :=
  or_new (LeaderElection (driver_spec r)) defaultLeaderElection.
Definition ctrl_imagePullPolicy : string :=
  cmp_Or (ImagePullPolicy (Ctrl_Common ctrl_spec)) PullIfNotPresent.
Definition grpcTimeout : Z := cmp_Or (GRpcTimeout (driver_spec r)) defaultGRrpcTimeout.
Definition logVerbosity : Z := Verbosity (default zero_LogSpec (Log (driver_spec r))).
Definition forceKernelClient : bool :=
  isCephFsDriver r && String.eqb (CephFsClientType (driver_spec r)) KernelCephFsClient.
Definition snPolicy : string := cmp_Or (SnapshotPolicy (driver_spec r)) VolumeSnapshotSnapshotPolicy.
Definition logRotationSpec : option LogRotationSpec :=
  Rotation (or_new (Log (driver_spec r)) zero_LogSpec).
Definition logRotationEnabled : bool :=
  match logRotationSpec with Some _ => true | None => false end.
Definition logRotateSecurityContext : option SecurityContext :=
  match Privileged ctrl_spec with
  | Some privileged =>
      if logRotationEnabled then Some (privileged_context (Some privileged)) else None
  | None => None
  end.
Definition leaderElectionSettingsArg : list string := [
  LeaderElectionNamespaceContainerArg (driver_ns r);
  LeaderElectionLeaseDurationContainerArg (LeaseDuration leaderElectionSpec);
  LeaderElectionRenewDeadlineContainerArg (RenewDeadline leaderElectionSpec);
  LeaderElectionRetryPeriodContainerArg (RetryPeriod leaderElectionSpec)].
Definition ctrl_topology : bool :=
  isRbdDriver r
  && match Topology (or_new (NodePlugin (driver_spec r)) zero_NodePluginSpec) with
     | Some _ => true | None => false end.

Definition deployCsiAddons : bool := default false (DeployCsiAddons (driver_spec r)).
Definition plugin_name : string := ("csi-" ++ driverType r ++ "plugin")%string.
Definition ctrl_extra (container : string) : list string :=
  GetExtraArgsForContainer container (Ctrl_ContainerExtraArgs ctrl_spec).

(** [controllerPluginCsiAddonsContainerPort]: the two drivers use different
    ports to avoid collisions with the host network. *)
Definition controllerPluginCsiAddonsContainerPort : ContainerPort :=
  if isCephFsDriver r then ControllerPluginCsiAddonsContainerCephFsPort
  else ControllerPluginCsiAddonsContainerRbdPort.

(** ** The containers *)

Definition ctrl_plugin_container : Container := {|
  Container_Name := plugin_name;
  Container_Image := image r "plugin";
  Container_ImagePullPolicy := ctrl_imagePullPolicy;
  Container_SecurityContext := logRotateSecurityContext;
  Container_Command := [];
  Container_Args := DeleteZeroValues ([
    TypeContainerArg (driverType r);
    LogVerbosityContainerArg logVerbosity;
    EndpointContainerArg;
    NodeIdContainerArg;
    ControllerServerContainerArg;
    DriverNameContainerArg (driver_name r);
    PidlimitContainerArg;
    SetFencingContainerArg (default false (EnableFencing (driver_spec r)));
    ClusterNameContainerArg (default "" (ClusterName (driver_spec r)));
    If forceKernelClient ForceCephKernelClientContainerArg "";
    If deployCsiAddons CsiAddonsEndpointContainerArg "";
    If logRotationEnabled LogToStdErrContainerArg "";
    If logRotationEnabled AlsoLogToStdErrContainerArg "";
    If logRotationEnabled (LogFileContainerArg plugin_name) ""] ++ ctrl_extra plugin_name);
  Container_Ports := [];
  Container_Env := [PodIpEnvVar; NodeIdEnvVar; PodNamespaceEnvVar];
  Container_VolumeMounts :=
    merge_mounts
      ([SocketDirVolumeMount; HostDevVolumeMount; HostSysVolumeMount; LibModulesVolumeMount;
        KeysTmpDirVolumeMount; CsiConfigVolumeMount]
       ++ (match Encryption (driver_spec r) with Some _ => [KmsConfigVolumeMount] | None => [] end)
       ++ (if isRbdDriver r then [OidcTokenVolumeMount] else [])
       ++ (if logRotationEnabled then [LogsDirVolumeMount] else []))
      ctrl_volumes;
  Container_Resources := resources (CR_Plugin (Ctrl_Resources ctrl_spec)) |}.

(** A sidecar that talks to the plugin over the socket. *)
Definition ctrl_sidecar (name img : string) (sc : option SecurityContext) (args : list string)
    (res : option ResourceRequirements) : Container := {|
  Container_Name := name;
  Container_Image := image r img;
  Container_ImagePullPolicy := ctrl_imagePullPolicy;
  Container_SecurityContext := sc;
  Container_Command := [];
  Container_Args := DeleteZeroValues (args ++ ctrl_extra name);
  Container_Ports := [];
  Container_Env := [];
  Container_VolumeMounts := [SocketDirVolumeMount];
  Container_Resources := resources res |}.

(** The arguments every leader-elected sidecar starts with. *)
Definition sidecar_args : list string :=
  leaderElectionSettingsArg
  ++ [LeaderElectionContainerArg; LogVerbosityContainerArg logVerbosity; CsiAddressContainerArg;
      TimeoutContainerArg grpcTimeout].

Definition provisioner_container : Container :=
  ctrl_sidecar "csi-provisioner" "provisioner" None
    (sidecar_args ++ [
       RetryIntervalStartContainerArg;
       DefaultFsTypeContainerArg;
       PreventVolumeModeConversionContainerArg;
       If (isRbdOrNvemofDriver r) DefaultFsTypeContainerArg "";
       TopologyContainerArg ctrl_topology;
       If (negb (isNfsDriver r)) ExtraCreateMetadataContainerArg ""])
    (CR_Provisioner (Ctrl_Resources ctrl_spec)).

Definition resizer_container : Container :=
  ctrl_sidecar "csi-resizer" "resizer" None
    (sidecar_args ++ [HandleVolumeInuseErrorContainerArg; RecoverVolumeExpansionFailureContainerArg])
    (CR_Resizer (Ctrl_Resources ctrl_spec)).

Definition attacher_container : Container :=
  ctrl_sidecar "csi-attacher" "attacher" None
    (sidecar_args ++ [If (isRbdOrNvemofDriver r) DefaultFsTypeContainerArg ""])
    (CR_Attacher (Ctrl_Resources ctrl_spec)).

Definition snapshotter_container : Container :=
  ctrl_sidecar "csi-snapshotter" "snapshotter" None
    (sidecar_args ++ [
       If (negb (isNfsDriver r)) ExtraCreateMetadataContainerArg "";
       If (String.eqb snPolicy VolumeGroupSnapshotPolicy) EnableVolumeGroupSnapshotsContainerArg ""])
    (CR_Snapshotter (Ctrl_Resources ctrl_spec)).

Definition ex_snapshotter_container : Container :=
  ctrl_sidecar "ex-csi-snapshotter" "ex-snapshotter" (Some (privileged_context (Some true)))
    (sidecar_args ++ [ExtraCreateMetadataContainerArg; EnableVolumeGroupSnapshotsContainerArg])
    (CR_Snapshotter (Ctrl_Resources ctrl_spec)).

Definition ctrl_addons_container : Container := {|
  Container_Name := "csi-addons";
  Container_Image := image r "addons";
  Container_ImagePullPolicy := ctrl_imagePullPolicy;
  Container_SecurityContext := logRotateSecurityContext;
  Container_Command := [];
  Container_Args := DeleteZeroValues (leaderElectionSettingsArg ++ [
    LogVerbosityContainerArg logVerbosity;
    CsiAddonsNodeIdContainerArg;
    PodContainerArg;
    PodUidContainerArg;
    CsiAddonsAddressContainerArg;
    ContainerPortArg controllerPluginCsiAddonsContainerPort;
    NamespaceContainerArg;
    If logRotationEnabled (LogFileContainerArg "csi-addons") ""] ++ ctrl_extra "csi-addons");
  Container_Ports := [controllerPluginCsiAddonsContainerPort];
  Container_Env := [NodeIdEnvVar; PodUidEnvVar; PodNameEnvVar; PodNamespaceEnvVar];
  Container_VolumeMounts :=
    [SocketDirVolumeMount] ++ (if logRotationEnabled then [LogsDirVolumeMount] else []);
  Container_Resources := resources (CR_Addons (Ctrl_Resources ctrl_spec)) |}.

Definition omap_generator_container : Container := {|
  Container_Name := "csi-omap-generator";
  Container_Image := image r "plugin";
  Container_ImagePullPolicy := ctrl_imagePullPolicy;
  Container_SecurityContext := None;
  Container_Command := [];
  Container_Args := DeleteZeroValues ([
    LogVerbosityContainerArg logVerbosity;
    TypeContainerArg "controller";
    DriverNamespaceContainerArg;
    DriverNameContainerArg (driver_name r);
    ClusterNameContainerArg (default "" (ClusterName (driver_spec r)))]
    ++ ctrl_extra "csi-omap-generator");
  Container_Ports := [];
  Container_Env := [DriverNamespaceEnvVar];
  Container_VolumeMounts := [CsiConfigVolumeMount; KeysTmpDirVolumeMount];
  Container_Resources := resources (CR_OMapGenerator (Ctrl_Resources ctrl_spec)) |}.

Definition ctrl_liveness_container (liveness : LivenessSpec) : Container := {|
  Container_Name := "liveness-prometheus";
  Container_Image := image r "plugin";
  Container_ImagePullPolicy := ctrl_imagePullPolicy;
  Container_SecurityContext := None;
  Container_Command := [];
  Container_Args := DeleteZeroValues ([
    TypeContainerArg "liveness";
    EndpointContainerArg;
    MetricsPortContainerArg (MetricsPort liveness);
    MetricsPathContainerArg;
    PoolTimeContainerArg;
    TimeoutContainerArg 3] ++ ctrl_extra "liveness-prometheus");
  Container_Ports := [];
  Container_Env := [PodIpEnvVar];
  Container_VolumeMounts := [SocketDirVolumeMount];
  Container_Resources := resources (CR_Liveness (Ctrl_Resources ctrl_spec)) |}.

Definition ctrl_log_rotator_container : Container := {|
  Container_Name := "log-rotator";
  Container_Image := image r "plugin";
  Container_ImagePullPolicy := ctrl_imagePullPolicy;
  Container_SecurityContext := logRotateSecurityContext;
  Container_Command := ["/bin/bash"; "-c"; logRotateCmd];
  Container_Args := [];
  Container_Ports := [];
  Container_Env := [];
  Container_VolumeMounts := [LogsDirVolumeMount; LogRotateDirVolumeMount];
  Container_Resources := resources (CR_LogRotator (Ctrl_Resources ctrl_spec)) |}.

(** The user's volume that holds the TLS key. *)
Definition tls_volume (v : VolumeSpec) : bool := String.eqb (Volume_Name (VolumeSpec_Volume v)) "tls-key".

Definition snapshot_metadata_container (tls : VolumeSpec) : Container := {|
  Container_Name := "csi-snapshot-metadata";
  Container_Image := image r "snapshot-metadata";
  Container_ImagePullPolicy := ctrl_imagePullPolicy;
  Container_SecurityContext := None;
  Container_Command := [];
  Container_Args := DeleteZeroValues ([
    LogVerbosityContainerArg logVerbosity;
    TimeoutContainerArg grpcTimeout;
    SnapshotMetadataGrpcServicePortArg;
    CsiAddressContainerArg;
    SnapshotMetadataTlsCertArg;
    SnapshotMetadataTlsKeyArg;
    SnapshotMetadataAudienceArg (driver_name r)] ++ ctrl_extra "csi-snapshot-metadata");
  Container_Ports := [SnapshotMetadataGrpcPort];
  Container_Env := [];
  Container_VolumeMounts := [VolumeSpec_Mount tls; SocketDirVolumeMount];
  Container_Resources := zero_ResourceRequirements |}.

Definition with_snapshotter : bool := negb (String.eqb snPolicy NoneSnapshotPolicy).
Definition with_ex_snapshotter : bool :=
  negb (String.eqb (image r "ex-snapshotter") "") && with_snapshotter && isCephFsDriver r.
Definition with_ctrl_addons : bool := negb (isNfsDriver r) && deployCsiAddons.
Definition with_omap_generator : bool :=
  (isRbdDriver r || isCephFsDriver r) && default false (GenerateOMapInfo (driver_spec r)).

Definition ctrl_containers : list Container :=
  [ctrl_plugin_container; provisioner_container; resizer_container; attacher_container]
  ++ (if with_snapshotter then [snapshotter_container] else [])
  ++ (if with_ex_snapshotter then [ex_snapshotter_container] else [])
  ++ (if with_ctrl_addons then [ctrl_addons_container] else [])
  ++ (if with_omap_generator then [omap_generator_container] else [])
  ++ (match Liveness (driver_spec r) with
      | Some liveness => [ctrl_liveness_container liveness] | None => [] end)
  ++ (if logRotationEnabled then [ctrl_log_rotator_container] else [])
  ++ (if isRbdDriver r then
        match IndexFunc tls_volume ctrl_volumes ≫= (λ i, ctrl_volumes !! i) with
        | Some tls => [snapshot_metadata_container tls]
        | None => []
        end
      else []).

(** ** The volumes *)

(** The two volumes of the log rotation; the first one is on the host. *)
Definition log_volumes (pluginName : string) : list Volume :=
  match logRotationSpec with
  | Some rotation =>
      [LogsDirVolume (cmp_Or (LogHostPath rotation) defaultLogHostPath) pluginName;
       LogRotateDirVolumeName (driver_name r)]
  | None => []
  end.

Definition kms_volumes : list Volume :=
  match Encryption (driver_spec r) with
  | Some encryption => [KmsConfigVolume (ConfigMapRef encryption)]
  | None => []
  end.

Definition ctrl_pod_volumes (appName : string) : list Volume :=
  merge_volumes
    ([HostDevVolume; HostSysVolume; LibModulesVolume; SocketDirVolume; KeysTmpDirVolume;
      OidcTokenVolume; CsiConfigVolume]
     ++ kms_volumes ++ log_volumes appName)
    ctrl_volumes.

(** ** Affinity *)

Definition getControllerPluginPodAffinity (selector : LabelSelector) : option Affinity :=
  let spread := Some {|
    Anti_Required := [{| Term_LabelSelector := Some selector; Term_Namespaces := [];
                         Term_TopologyKey := LabelHostname; Term_NamespaceSelector := None;
                         Term_MatchLabelKeys := []; Term_MismatchLabelKeys := [] |}];
    Anti_Preferred := [] |} in
  match PodAffinitySpec (Ctrl_Common ctrl_spec) with
  | Some affinity =>
      match Affinity_PodAntiAffinity affinity with
      | Some _ => Some affinity
      | None => Some {| Affinity_NodeAffinity := Affinity_NodeAffinity affinity;
                        Affinity_PodAffinity := Affinity_PodAffinity affinity;
                        Affinity_PodAntiAffinity := spread |}
      end
  | None => Some {| Affinity_NodeAffinity := None; Affinity_PodAffinity := None;
                    Affinity_PodAntiAffinity := spread |}
  end.

(** ** The deployment *)

Definition ctrl_hostNetwork : bool := default false (HostNetwork ctrl_spec).

Definition ctrl_pod_spec (oe : OperatorEnv) (appName : string) : PodSpec := {|
  Pod_ServiceAccountName :=
    cmp_Or (default "" (ServiceAccountName (Ctrl_Common ctrl_spec)))
      (serviceAccountPrefix oe ++ driverType r ++ "-ctrlplugin-sa")%string;
  Pod_PriorityClassName := default "" (PrioritylClassName (Ctrl_Common ctrl_spec));
  Pod_HostNetwork := ctrl_hostNetwork;
  Pod_HostPID := false;
  Pod_DNSPolicy := if ctrl_hostNetwork then DNSClusterFirstWithHostNet else DNSClusterFirst;
  Pod_Affinity := getControllerPluginPodAffinity (match_labels {["app" := appName]});
  Pod_Tolerations := Tolerations (Ctrl_Common ctrl_spec);
  Pod_Containers := ctrl_containers;
  Pod_Volumes := ctrl_pod_volumes appName |}.

Definition ctrl_deployment_spec (oe : OperatorEnv) (appName : string) (replicas : Z)
    : DeploymentSpec := {|
  Deployment_Replicas := Some replicas;
  Deployment_Selector := Some (match_labels {["app" := appName]});
  Deployment_Strategy := default defaultDeploymentStrategy (CtrlDeploymentStrategy ctrl_spec);
  Deployment_Template := {|
    Template_Labels := pod_labels (Labels (Ctrl_Common ctrl_spec)) appName;
    Template_Annotations := Annotations (Ctrl_Common ctrl_spec);
    Template_Spec := ctrl_pod_spec oe appName |} |}.

End variables.

(** ** Replicas *)

(** The number of replicas asked for; else two, or one on a single node. *)
Definition cap_replicas (nodeCount : nat) : Z :=
  if (0 <? nodeCount)%nat && (Z.of_nat nodeCount <? defaultControllerPluginReplicas)%Z
  then 1 else defaultControllerPluginReplicas.

Definition getControllerPluginReplicas (specReplicas : option Z) : M Z :=
  match specReplicas with
  | Some replicas => mret replicas
  | None =>
      listed ← trigger (ListObjs KNode {| InNamespace := None; MatchingFields := None |});
      match listed with
      | inl _ => mret defaultControllerPluginReplicas
      | inr items => mret (cap_replicas (length items))
      end
  end.

(** ** reconcileControllerPluginDeployment *)

Definition mutate_deployment (oe : OperatorEnv) (r : driverReconcile) : MutateFn KDeployment := λ deploy,
  match SetControllerReference KDriver (Driver_Meta (driver r)) (Dep_Meta deploy) with
  | inl err => mret (deploy, Some err)
  | inr m =>
      replicas ← getControllerPluginReplicas (Replicas (ctrl_spec r));
      mret ({| Dep_Meta := m;
               Dep_Spec := ctrl_deployment_spec r oe (Meta_Name m) replicas |}, None)
  end.

Definition zero_deployment_spec : DeploymentSpec := {|
  Deployment_Replicas := None; Deployment_Selector := None;
  Deployment_Strategy := {| DS_Type := ""; DS_RollingUpdate := None |};
  Deployment_Template := {|
    Template_Labels := ∅; Template_Annotations := None;
    Template_Spec := {|
      Pod_ServiceAccountName := ""; Pod_PriorityClassName := ""; Pod_HostNetwork := false;
      Pod_HostPID := false; Pod_DNSPolicy := ""; Pod_Affinity := None; Pod_Tolerations := None;
      Pod_Containers := []; Pod_Volumes := [] |} |} |}.

Definition reconcileControllerPluginDeployment `{EQ : !SemanticEquality} (oe : OperatorEnv)
    (r : driverReconcile) : M (option error) :=
  let deploy := {| Dep_Meta := new_meta (driver_ns r) (generateName r "ctrlplugin");
                   Dep_Spec := zero_deployment_spec |} in
  '(_, _, err) ← CreateOrUpdate (deploy : obj KDeployment) (mutate_deployment oe r);
  mret err.

End controller_plugin.
