(* ===== verification/NodePlugin.v ===== *)
(** * The node plugin daemon sets
    (reconcileNodePluginDaemonSet and reconcileNodePluginDaemonSetForCsiAddons
    of internal/controller/driver_controller.go)

    The pods the operator runs on every node: the node plugin with its
    registrar, and the CSI-Addons sidecar in a pod of its own. *)
From S2P Require Import Prelude Prog K8s ApiTypes Cluster CoreUtils CsiUtils DriverSpec.
From S2P Require Import ControllerPlugin.

Section node_plugin.
Context {lib : ApiLib}.

(** ** The local variables *)
Section variables.
Variable r : driverReconcile.

Definition node_spec : NodePluginSpec :=
  or_new (NodePlugin (driver_spec r)) zero_NodePluginSpec.
Definition node_volumes : list VolumeSpec := default [] (Volumes (Node_Common node_spec)).
Definition node_imagePullPolicy : string :=
  cmp_Or (ImagePullPolicy (Node_Common node_spec)) PullIfNotPresent.
Definition kubeletDirPath : string := cmp_Or (KubeletDirPath node_spec) defaultKubeletDirPath.
Definition node_topology : bool :=
  isRbdDriver r && match Topology node_spec with Some _ => true | None => false end.
Definition domainLabels : list string :=
  DomainLabels (or_new (Topology node_spec) {| DomainLabels := [] |}).
Definition seLinuxHostMount : bool := default false (EnableSeLinuxHostMount node_spec).
Definition node_extra (container : string) : list string :=
  GetExtraArgsForContainer container (Node_ContainerExtraArgs node_spec).
Definition node_serviceAccount (oe : OperatorEnv) : string :=
  cmp_Or (default "" (ServiceAccountName (Node_Common node_spec)))
    (serviceAccountPrefix oe ++ driverType r ++ "-nodeplugin-sa")%string.

(** ** The node plugin *)

(** [kernel] and [fuse] are the entries of the mount options in the order
    [range] visits them. *)
Definition node_plugin_args (kernel fuse : list (string * string)) : list string :=
  DeleteZeroValues ([
    LogVerbosityContainerArg (logVerbosity r);
    TypeContainerArg (driverType r);
    NodeServerContainerArg;
    NodeIdContainerArg;
    DriverNameContainerArg (driver_name r);
    SetFencingContainerArg (default false (EnableFencing (driver_spec r)));
    EndpointContainerArg;
    PidlimitContainerArg;
    If (forceKernelClient r) ForceCephKernelClientContainerArg "";
    If (deployCsiAddons r) CsiAddonsEndpointContainerArg "";
    If (isRbdOrNvemofDriver r) (StagingPathContainerArg kubeletDirPath) "";
    If (isCephFsDriver r) (KernelMountOptionsContainerArg kernel) "";
    If (isCephFsDriver r) (FuseMountOptionsContainerArg fuse) "";
    If node_topology (DomainLabelsContainerArg domainLabels) "";
    If (logRotationEnabled r) LogToStdErrContainerArg "";
    If (logRotationEnabled r) AlsoLogToStdErrContainerArg "";
    If (logRotationEnabled r) (LogFileContainerArg (plugin_name r)) ""]
    ++ node_extra (plugin_name r)).

Definition node_plugin_mounts : list VolumeMount :=
  merge_mounts
    ([HostDevVolumeMount; HostSysVolumeMount; HostRunMountVolumeMount; LibModulesVolumeMount;
      KeysTmpDirVolumeMount; PluginDirVolumeMount; CsiConfigVolumeMount;
      PluginMountDirVolumeMount kubeletDirPath; PodsMountDirVolumeMount kubeletDirPath]
     ++ (if seLinuxHostMount then [EtcSelinuxVolumeMount] else [])
     ++ (match Encryption (driver_spec r) with Some _ => [KmsConfigVolumeMount] | None => [] end)
     ++ (if isCephFsDriver r then [CsiMountInfoVolumeMount] else [])
     ++ (if isRbdOrNvemofDriver r then [OidcTokenVolumeMount] else [])
     ++ (if logRotationEnabled r then [LogsDirVolumeMount] else []))
    node_volumes.

Definition node_plugin_container (kernel fuse : list (string * string)) : Container := {|
  Container_Name := plugin_name r;
  Container_Image := image r "plugin";
  Container_ImagePullPolicy := node_imagePullPolicy;
  Container_SecurityContext := Some {|
    SC_Privileged := Some true;
    SC_Capabilities := Some {| Cap_Add := ["SYS_ADMIN"]; Cap_Drop := ["All"] |};
    SC_AllowPrivilegeEscalation := Some true |};
  Container_Command := [];
  Container_Args := node_plugin_args kernel fuse;
  Container_Ports := [];
  Container_Env := [PodIpEnvVar; NodeIdEnvVar; PodNamespaceEnvVar];
  Container_VolumeMounts := node_plugin_mounts;
  Container_Resources := resources (NR_Plugin (Node_Resources node_spec)) |}.

Definition registrar_container : Container := {|
  Container_Name := "driver-registrar";
  Container_Image := image r "registrar";
  Container_ImagePullPolicy := node_imagePullPolicy;
  Container_SecurityContext := Some (privileged_context (Some true));
  Container_Command := [];
  Container_Args := DeleteZeroValues ([
    LogVerbosityContainerArg (logVerbosity r);
    KubeletRegistrationPathContainerArg kubeletDirPath (driver_name r);
    CsiAddressContainerArg] ++ node_extra "driver-registrar");
  Container_Ports := [];
  Container_Env := [];
  Container_VolumeMounts := [PluginDirVolumeMount; RegistrationDirVolumeMount];
  Container_Resources := resources (NR_Registrar (Node_Resources node_spec)) |}.

Definition node_liveness_container (liveness : LivenessSpec) : Container := {|
  Container_Name := "liveness-prometheus";
  Container_Image := image r "plugin";
  Container_ImagePullPolicy := node_imagePullPolicy;
  Container_SecurityContext := Some (privileged_context (Some true));
  Container_Command := [];
  Container_Args := DeleteZeroValues ([
    TypeContainerArg "liveness";
    EndpointContainerArg;
    MetricsPortContainerArg (MetricsPort liveness);
    MetricsPathContainerArg;
    PoolTimeContainerArg;
    TimeoutContainerArg 3] ++ node_extra "liveness-prometheus");
  Container_Ports := [];
  Container_Env := [PodIpEnvVar];
  Container_VolumeMounts := [PluginDirVolumeMount];
  Container_Resources := resources (NR_Liveness (Node_Resources node_spec)) |}.

Definition node_log_rotator_container : Container := {|
  Container_Name := "log-rotator";
  Container_Image := image r "plugin";
  Container_ImagePullPolicy := node_imagePullPolicy;
  Container_SecurityContext := Some (privileged_context (Some true));
  Container_Command := ["/bin/bash"; "-c"; logRotateCmd];
  Container_Args := [];
  Container_Ports := [];
  Container_Env := [];
  Container_VolumeMounts := [LogsDirVolumeMount; LogRotateDirVolumeMount];
  Container_Resources := resources (NR_LogRotator (Node_Resources node_spec)) |}.

Definition node_containers (kernel fuse : list (string * string)) : list Container :=
  [node_plugin_container kernel fuse; registrar_container]
  ++ (match Liveness (driver_spec r) with
      | Some liveness => [node_liveness_container liveness] | None => [] end)
  ++ (if logRotationEnabled r then [node_log_rotator_container] else []).

Definition node_pod_volumes (appName : string) : list Volume :=
  merge_volumes
    ([HostDevVolume; HostSysVolume; HostRunMountVolume; LibModulesVolume; KeysTmpDirVolume;
      CsiConfigVolume; PluginDirVolume kubeletDirPath (driver_name r);
      PluginMountDirVolume kubeletDirPath; PodsMountDirVolume kubeletDirPath;
      RegistrationDirVolume kubeletDirPath]
     ++ (if isCephFsDriver r then [CsiMountInfoVolume kubeletDirPath (driver_name r)] else [])
     ++ (if seLinuxHostMount then [EtcSelinuxVolume] else [])
     ++ kms_volumes r
     ++ (if isRbdOrNvemofDriver r then [OidcTokenVolume] else [])
     ++ log_volumes r appName)
    node_volumes.

(** The labels of the pod, with [contains] when liveness is on. *)
Definition node_pod_labels (appName : string) : gmap string string :=
  let podLabels := pod_labels (Labels (Node_Common node_spec)) appName in
  match Liveness (driver_spec r) with
  | Some _ => <["contains" := (appName ++ "-metrics")%string]> podLabels
  | None => podLabels
  end.

Definition node_pod_spec (oe : OperatorEnv) (appName : string) (kernel fuse : list (string * string))
    : PodSpec := {|
  Pod_ServiceAccountName := node_serviceAccount oe;
  Pod_PriorityClassName := default "" (PrioritylClassName (Node_Common node_spec));
  Pod_HostNetwork := true;
  Pod_HostPID := isRbdOrNvemofDriver r;
  Pod_DNSPolicy := DNSClusterFirstWithHostNet;
  Pod_Affinity := PodAffinitySpec (Node_Common node_spec);
  Pod_Tolerations := Tolerations (Node_Common node_spec);
  Pod_Containers := node_containers kernel fuse;
  Pod_Volumes := node_pod_volumes appName |}.

Definition node_daemonset_spec (oe : OperatorEnv) (appName : string)
    (kernel fuse : list (string * string)) : DaemonSetSpec := {|
  DaemonSet_Selector := Some (match_labels {["app" := appName]});
  DaemonSet_UpdateStrategy := default defaultDaemonSetUpdateStrategy (UpdateStrategy node_spec);
  DaemonSet_Template := {|
    Template_Labels := node_pod_labels appName;
    Template_Annotations := Annotations (Node_Common node_spec);
    Template_Spec := node_pod_spec oe appName kernel fuse |} |}.

(** ** The CSI-Addons daemon set; [condition] enables the volume condition
    reporter *)

Definition node_addons_container (condition : bool) : Container := {|
  Container_Name := "csi-addons";
  Container_Image := image r "addons";
  Container_ImagePullPolicy := node_imagePullPolicy;
  Container_SecurityContext := Some (privileged_context (Some true));
  Container_Command := [];
  Container_Args := DeleteZeroValues ([
    CsiAddonsNodeIdContainerArg;
    LogVerbosityContainerArg (logVerbosity r);
    CsiAddonsAddressContainerArg;
    ContainerPortArg NodePluginCsiAddonsContainerPort;
    PodContainerArg;
    NamespaceContainerArg;
    PodUidContainerArg;
    StagingPathContainerArg kubeletDirPath;
    If (logRotationEnabled r) (LogFileContainerArg "csi-addons") "";
    If condition CsiAddonsVolumeConditionArg ""] ++ node_extra "csi-addons");
  Container_Ports := [NodePluginCsiAddonsContainerPort];
  Container_Env := [NodeIdEnvVar; PodUidEnvVar; PodNameEnvVar; PodNamespaceEnvVar];
  Container_VolumeMounts :=
    [PluginDirVolumeMount]
    ++ (if logRotationEnabled r then [LogsDirVolumeMount] else [])
    ++ (if condition then [PluginMountDirVolumeMount kubeletDirPath;
                           PodsMountDirVolumeMount kubeletDirPath] else []);
  Container_Resources := resources (NR_Addons (Node_Resources node_spec)) |}.

Definition addons_pod_volumes (condition : bool) (appName : string) : list Volume :=
  [PluginDirVolume kubeletDirPath (driver_name r)]
  ++ log_volumes r appName
  ++ (if condition then [PluginMountDirVolume kubeletDirPath; PodsMountDirVolume kubeletDirPath]
      else []).

Definition addons_daemonset_spec (oe : OperatorEnv) (condition : bool) (appName : string)
    : DaemonSetSpec := {|
  DaemonSet_Selector := Some (match_labels {["app" := appName]});
  DaemonSet_UpdateStrategy := default defaultDaemonSetUpdateStrategy (UpdateStrategy node_spec);
  DaemonSet_Template := {|
    Template_Labels := pod_labels (Labels (Node_Common node_spec)) appName;
    Template_Annotations := Annotations (Node_Common node_spec);
    Template_Spec := {|
      Pod_ServiceAccountName := node_serviceAccount oe;
      Pod_PriorityClassName := default "" (PrioritylClassName (Node_Common node_spec));
      Pod_HostNetwork := false;
      Pod_HostPID := false;
      Pod_DNSPolicy := DNSClusterFirstWithHostNet;
      Pod_Affinity := PodAffinitySpec (Node_Common node_spec);
      Pod_Tolerations := Tolerations (Node_Common node_spec);
      Pod_Containers :=
        [node_addons_container condition]
        ++ (if logRotationEnabled r then [node_log_rotator_container] else []);
      Pod_Volumes := addons_pod_volumes condition appName |} |} |}.

End variables.

(** ** The reconcilers *)
Context `{EQ : !SemanticEquality}.

Definition zero_daemonset_spec : DaemonSetSpec := {|
  DaemonSet_Selector := None;
  DaemonSet_UpdateStrategy := {| DSUS_Type := ""; DSUS_RollingUpdate := None |};
  DaemonSet_Template := Deployment_Template zero_deployment_spec |}.

(** Both maps of mount options are formatted for every driver. *)
Definition mutate_node_daemonset (oe : OperatorEnv) (r : driverReconcile) : MutateFn KDaemonSet :=
  λ daemonSet,
  match SetControllerReference KDriver (Driver_Meta (driver r)) (DSet_Meta daemonSet) with
  | inl err => mret (daemonSet, Some err)
  | inr m =>
      kernel ← trigger (RangeMap (default ∅ (KernelMountOptions (driver_spec r))));
      fuse ← trigger (RangeMap (default ∅ (FuseMountOptions (driver_spec r))));
      mret ({| DSet_Meta := m;
               DSet_Spec := node_daemonset_spec r oe (Meta_Name m) kernel fuse |}, None)
  end.

Definition reconcileNodePluginDaemonSet (oe : OperatorEnv) (r : driverReconcile)
    : M (option error) :=
  let daemonSet := {| DSet_Meta := new_meta (driver_ns r) (generateName r "nodeplugin");
                      DSet_Spec := zero_daemonset_spec |} in
  '(_, _, err) ← CreateOrUpdate (daemonSet : obj KDaemonSet) (mutate_node_daemonset oe r);
  mret err.

(** [strconv.ParseBool]; [None] is its error. *)
Definition ParseBool (s : string) : option bool :=
  if existsb (String.eqb s) ["1"; "t"; "T"; "true"; "TRUE"; "True"] then Some true
  else if existsb (String.eqb s) ["0"; "f"; "F"; "false"; "FALSE"; "False"] then Some false
  else None.

(** [strconv.Quote], on UTF-8 text: a rune above ASCII is written as it is,
    also one that [unicode.IsPrint] does not accept. *)
Definition quoted_hex (n : N) : ascii :=
  ascii_of_N (if (n <? 10)%N then 48 + n else 87 + n).

Definition quoted_byte (c : ascii) (rest : string) : string :=
  let n := N_of_ascii c in
  let escaped x := String "\"%char (String x rest) in
  if (n =? 34)%N || (n =? 92)%N then escaped c
  else if (n =? 7)%N then escaped "a"%char
  else if (n =? 8)%N then escaped "b"%char
  else if (n =? 9)%N then escaped "t"%char
  else if (n =? 10)%N then escaped "n"%char
  else if (n =? 11)%N then escaped "v"%char
  else if (n =? 12)%N then escaped "f"%char
  else if (n =? 13)%N then escaped "r"%char
  else if (n <? 32)%N || (n =? 127)%N then
    String "\"%char (String "x"%char (String (quoted_hex (n / 16)) (String (quoted_hex (n mod 16)) rest)))
  else String c rest.

Fixpoint quoted_text (s rest : string) : string :=
  match s with
  | EmptyString => rest
  | String c s => quoted_byte c (quoted_text s rest)
  end.

Definition Quote (s : string) : string :=
  let mark := ascii_of_N 34 in
  String mark (quoted_text s (String mark EmptyString)).

(** The volume condition asked for by the annotation of the driver. *)
Definition volume_condition (r : driverReconcile) : error + bool :=
  let feature := default "" (Meta_Annotations (Driver_Meta (driver r))
                               !! driverCSIAddonsFeatureVolumeCondition) in
  if negb (String.eqb feature "") then
    match ParseBool feature with
    | Some enabled => inr enabled
    | None => inl (Errorf ("strconv.ParseBool: parsing " ++ Quote feature ++ ": invalid syntax")%string)
    end
  else inr false.

Definition mutate_addons_daemonset (oe : OperatorEnv) (r : driverReconcile) (condition : bool)
    : MutateFn KDaemonSet := λ daemonSet,
  match SetControllerReference KDriver (Driver_Meta (driver r)) (DSet_Meta daemonSet) with
  | inl err => mret (daemonSet, Some err)
  | inr m => mret ({| DSet_Meta := m;
                      DSet_Spec := addons_daemonset_spec r oe condition (Meta_Name m) |}, None)
  end.

Definition with_addons_daemonset (r : driverReconcile) : bool :=
  if isNfsDriver r then false else deployCsiAddons r.

Definition reconcileNodePluginDaemonSetForCsiAddons (oe : OperatorEnv) (r : driverReconcile)
    : M (option error) :=
  let daemonSet := {| DSet_Meta := new_meta (driver_ns r) (generateName r "nodeplugin-csi-addons");
                      DSet_Spec := zero_daemonset_spec |} in
  match volume_condition r with
  | inl err => mret (Some err)
  | inr condition =>
      if negb (with_addons_daemonset r) then
        err ← trigger (Delete KDaemonSet (meta_key (DSet_Meta daemonSet)));
        mret (IgnoreNotFound err)
      else
        '(_, _, err) ← CreateOrUpdate (daemonSet : obj KDaemonSet)
                         (mutate_addons_daemonset oe r condition);
        mret err
  end.

End node_plugin.
