(* ===== verification/DriverReconcile.v ===== *)
(** * One iteration of the Driver controller
    (internal/controller/driver_controller.go)

    The config maps, the CSIDriver object, the network policies and the
    liveness service of a driver, and the iteration: load the desired state,
    then run the nine reconcilers concurrently. *)
From S2P Require Import Prelude Prog K8s ApiTypes Cluster CoreUtils Concurrency CsiUtils Json.
From S2P Require Import JsonCodec DriverSpec ControllerPlugin NodePlugin.

Definition FileFSGroupPolicy : string := "File".
Definition ProtocolTCP : string := "TCP".
Definition PolicyTypeIngress : string := "Ingress".
Definition PolicyTypeEgress : string := "Egress".

Section driver_reconcile.
Context {lib : ApiLib} `{EQ : !SemanticEquality} `{JT : !JsonErrorText} (oe : OperatorEnv).

(** ** The log rotation config map *)

Definition rotation_invalid (rotation : LogRotationSpec) : bool :=
  negb (String.eqb (Periodicity rotation) "") && Quantity_IsZero (MaxLogSize rotation).

(** The settings of the logrotate configuration, one per line. *)
Definition cronLogRotateSettings (rotation : LogRotationSpec) : list string :=
  [(tab ++ "missingok")%string; (tab ++ "compress")%string; (tab ++ "copytruncate")%string;
   (tab ++ "notifempty")%string;
   (tab ++ "rotate " ++ itoa (cmp_Or (MaxFiles rotation) defaultLogRotateMaxFiles))%string]
  ++ (if negb (String.eqb (Periodicity rotation) "")
      then [(tab ++ Periodicity rotation)%string] else [])
  ++ (if negb (String.eqb (Quantity_String (MaxLogSize rotation)) "0")
      then [(tab ++ "maxsize " ++ Quantity_String (MaxLogSize rotation))%string] else []).

Definition logrotate_text (rotation : LogRotationSpec) : string :=
  ("/csi-logs/*.log {" ++ nl ++ strings_Join (cronLogRotateSettings rotation) nl
   ++ nl ++ "}" ++ nl)%string.

Definition mutate_logrotate (r : driverReconcile) (rotation : LogRotationSpec)
    : MutateFn KConfigMap := λ cm,
  let '(m, _, err) := ToggleOwnerReference true (CM_Meta cm) KDriver (Driver_Meta (driver r)) in
  match err with
  | Some err => mret ({| CM_Meta := m; CM_Data := CM_Data cm |}, Some err)
  | None =>
      if rotation_invalid rotation then
        mret ({| CM_Meta := m; CM_Data := CM_Data cm |}, Some (Errorf "invalid Log.Rotation spec"))
      else mret ({| CM_Meta := m; CM_Data := {["csi" := logrotate_text rotation]} |}, None)
  end.

Definition reconcileLogRotateConfigMap (r : driverReconcile) : M (option error) :=
  let cm := {| CM_Meta := new_meta (driver_ns r) (LogRotateConfigMapName (driver_name r));
               CM_Data := ∅ |} in
  match logRotationSpec r with
  | Some rotation =>
      '(_, _, err) ← CreateOrUpdate (cm : obj KConfigMap) (mutate_logrotate r rotation);
      mret err
  | None =>
      err ← trigger (Delete KConfigMap (meta_key (CM_Meta cm)));
      mret (IgnoreNotFound err)
  end.

(** ** The Ceph CSI config map *)

Definition mutate_csi_configmap (r : driverReconcile) : MutateFn KConfigMap := λ cm,
  let '(m, _, err) := ToggleOwnerReference true (CM_Meta cm) KDriver (Driver_Meta (driver r)) in
  mret ({| CM_Meta := m; CM_Data := CM_Data cm |}, err).

Definition reconcileCsiConfigMap (r : driverReconcile) : M (option error) :=
  let cm := {| CM_Meta := new_meta (driver_ns r) CsiConfigVolume_Name; CM_Data := ∅ |} in
  '(_, _, err) ← CreateOrUpdate (cm : obj KConfigMap) (mutate_csi_configmap r);
  mret err.

(** ** The CSIDriver *)

Definition zero_csidriver_spec : CSIDriverSpec :=
  {| CSID_AttachRequired := None; CSID_PodInfoOnMount := None; CSID_FSGroupPolicy := None;
     CSID_SELinuxMount := None; CSID_other := zero_OtherCSIDriverSpec |}.

Definition mutate_csidriver (r : driverReconcile) : MutateFn KCSIDriver := λ csiDriver,
  let ownerObjKey := meta_key (Driver_Meta (driver r)) in
  mret ({| CSID_Meta := (AddAnnotation (CSID_Meta csiDriver) ownerRefAnnotationKey
                           (Marshal_key ownerObjKey)).1;
           CSID_Spec := {|
             CSID_AttachRequired := cmp_Or (AttachRequired (driver_spec r)) (Some true);
             CSID_PodInfoOnMount := Some true;
             CSID_FSGroupPolicy := Some (cmp_Or (FsGroupPolicy (driver_spec r)) FileFSGroupPolicy);
             CSID_SELinuxMount := Some true;
             CSID_other := CSID_other (CSID_Spec csiDriver) |} |}, None).

(** The object that replaces one whose immutable fields differ. *)
Definition recreated (csiDriver : CSIDriver) : CSIDriver :=
  let m := CSID_Meta csiDriver in
  {| CSID_Meta := {| Meta_Name := Meta_Name m; Meta_Namespace := ""; Meta_UID := "";
       Meta_ResourceVersion := ""; Meta_Generation := 0; Meta_CreationTimestamp := 0;
       Meta_DeletionTimestamp := None; Meta_Labels := Meta_Labels m;
       Meta_Annotations := Meta_Annotations m; Meta_OwnerReferences := [];
       Meta_Finalizers := [] |};
     CSID_Spec := CSID_Spec csiDriver |}.

Definition reconcileK8sCsiDriver (r : driverReconcile) : M (option error) :=
  let csiDriver := {| CSID_Meta := new_meta "" (driver_name r); CSID_Spec := zero_csidriver_spec |} in
  '(csiDriver, _, err) ← CreateOrUpdate (csiDriver : obj KCSIDriver) (mutate_csidriver r);
  let invalid := match err with Some e => IsInvalid e | None => false end in
  if negb (String.eqb (Meta_UID (CSID_Meta (csiDriver : CSIDriver))) "") && invalid then
    err ← trigger (Delete KCSIDriver (meta_key (CSID_Meta (csiDriver : CSIDriver))));
    match err with
    | Some err => mret (Some err)
    | None =>
        created ← trigger (Create KCSIDriver (recreated csiDriver));
        match created with
        | inl err => mret (Some err)
        | inr _ => mret None
        end
    end
  else mret err.

(** ** Network policies *)

Definition empty_selector : LabelSelector := match_labels ∅.

Definition tcp_port (port : Z) : NetworkPolicyPort :=
  {| NPP_Protocol := Some ProtocolTCP; NPP_Port := Some (FromInt32 port) |}.

(** Traffic from the controller of CSI-Addons, in any namespace. *)
Definition addons_ingress (port : ContainerPort) : NetworkPolicyIngressRule := {|
  Ingress_From := [{|
    NPPeer_NamespaceSelector := Some empty_selector;
    NPPeer_PodSelector := Some (match_labels (list_to_map [
      ("app.kubernetes.io/name", "csi-addons"); ("control-plane", "controller-manager")])) |}];
  Ingress_Ports := [tcp_port (ContainerPort_Port port)] |}.

Definition ctrl_ingress (r : driverReconcile) : list NetworkPolicyIngressRule :=
  (if deployCsiAddons r then [addons_ingress (controllerPluginCsiAddonsContainerPort r)] else [])
  ++ (if isRbdDriver r then
        if ContainsFunc tls_volume (ctrl_volumes r)
        then [{| Ingress_From := [];
                 Ingress_Ports := [tcp_port (ContainerPort_Port SnapshotMetadataGrpcPort)] |}]
        else []
      else []).

Definition network_policy_spec (appName : string) (ingress : list NetworkPolicyIngressRule)
    : NetworkPolicySpec := {|
  NP_PodSelector := match_labels {["app" := appName]};
  NP_Ingress := ingress;
  NP_Egress := [{| Egress_Ports := []; Egress_To := [] |}];
  NP_PolicyTypes := [PolicyTypeIngress; PolicyTypeEgress] |}.

Definition mutate_network_policy (r : driverReconcile) (ingress : list NetworkPolicyIngressRule)
    : MutateFn KNetworkPolicy := λ np,
  match SetControllerReference KDriver (Driver_Meta (driver r)) (NetPol_Meta np) with
  | inl err => mret (np, Some err)
  | inr m => mret ({| NetPol_Meta := m;
                      NetPol_Spec := network_policy_spec (Meta_Name m) ingress |}, None)
  end.

Definition zero_network_policy (ns name : string) : NetworkPolicy := {|
  NetPol_Meta := new_meta ns name;
  NetPol_Spec := {| NP_PodSelector := match_labels ∅; NP_Ingress := []; NP_Egress := [];
                    NP_PolicyTypes := [] |} |}.

Definition reconcileControllerPluginNetworkPolicy (r : driverReconcile) : M (option error) :=
  let np := zero_network_policy (driver_ns r) (generateName r "ctrlplugin") in
  if ctrl_hostNetwork r then
    err ← trigger (Delete KNetworkPolicy (meta_key (NetPol_Meta np)));
    mret (IgnoreNotFound err)
  else
    '(_, _, err) ← CreateOrUpdate (np : obj KNetworkPolicy) (mutate_network_policy r (ctrl_ingress r));
    mret err.

Definition reconcileNodePluginCsiAddonsNetworkPolicy (r : driverReconcile) : M (option error) :=
  if isNfsDriver r then mret None
  else
    let np := zero_network_policy (driver_ns r) (generateName r "nodeplugin-csi-addons") in
    if negb (deployCsiAddons r) then
      err ← trigger (Delete KNetworkPolicy (meta_key (NetPol_Meta np)));
      mret (IgnoreNotFound err)
    else
      '(_, _, err) ← CreateOrUpdate (np : obj KNetworkPolicy)
                       (mutate_network_policy r [addons_ingress NodePluginCsiAddonsContainerPort]);
      mret err.

(** ** The liveness service *)

(** The literal sets no selector. *)
Definition liveness_service_spec (liveness : LivenessSpec) : ServiceSpec := {|
  Service_Ports := [{|
    SP_Name := "csi-http-metrics"; SP_Protocol := ProtocolTCP; SP_Port := 8080;
    SP_TargetPort := FromInt (MetricsPort liveness) |}];
  Service_Selector := ∅ |}.

Definition mutate_liveness_service (r : driverReconcile) (liveness : LivenessSpec)
    : MutateFn KService := λ service,
  match SetControllerReference KDriver (Driver_Meta (driver r)) (Svc_Meta service) with
  | inl err => mret (service, Some err)
  | inr m =>
      mret ({| Svc_Meta := m;
               Svc_Spec := liveness_service_spec liveness |}, None)
  end.

Definition reconcileLivenessService (r : driverReconcile) : M (option error) :=
  let service := {| Svc_Meta := new_meta (driver_ns r) (generateServiceName r "liveness");
                    Svc_Spec := {| Service_Ports := []; Service_Selector := ∅ |} |} in
  match Liveness (driver_spec r) with
  | Some liveness =>
      '(_, _, err) ← CreateOrUpdate (service : obj KService) (mutate_liveness_service r liveness);
      mret err
  | None =>
      err ← trigger (Delete KService (meta_key (Svc_Meta service)));
      mret (IgnoreNotFound err)
  end.

(** ** The iteration *)

Definition reconcilers (r : driverReconcile) : list (M (option error)) := [
  reconcileCsiConfigMap r;
  reconcileLogRotateConfigMap r;
  reconcileK8sCsiDriver r;
  reconcileControllerPluginDeployment oe r;
  reconcileControllerPluginNetworkPolicy r;
  reconcileNodePluginDaemonSet oe r;
  reconcileLivenessService r;
  reconcileNodePluginDaemonSetForCsiAddons oe r;
  reconcileNodePluginCsiAddonsNetworkPolicy r].

(** The part before the concurrent one: the reconcilers to run, or the error. *)
Definition driver_load (req : NamespacedName) : M (error + driverReconcile) :=
  '(r, err) ← LoadAndValidateDesiredState oe
                {| driver := {| Driver_Meta := new_meta (Key_Namespace req) (Key_Name req);
                                Driver_Spec := zero_DriverSpec |};
                   driverType := ""; images := ∅ |};
  match err with
  | Some err => mret (inl err)
  | None => mret (inr r)
  end.

(** The concurrent part: the pool of the reconcilers, and the error joined
    from what [ChannelToSlice] received. *)
Definition driver_start {W} (r : driverReconcile) (w : W) : pool (E := call) (W := W) (A := option error) :=
  RunConcurrently w (reconcilers r).

Definition driver_result (errList : list (option error)) : option error := errors_Join errList.

End driver_reconcile.
