(* ===== verification/DriverSpecTheorems.v ===== *)
(** * The desired state of a driver: properties

    The names of drivers and services, the claim on a CSIDriver, the merge
    with the operator's defaults and the state that is loaded. *)
From S2P Require Import Prelude Prog K8s ApiTypes Cluster CoreUtils CsiUtils Json JsonCodec Server.
From S2P Require Import DriverSpec.

(** ** Names *)

Fixpoint no_newline (s : string) : bool :=
  match s with
  | EmptyString => true
  | String c s => negb (byte c =? 10)%N && no_newline s
  end.

(** The strings the regular expression
    ^(?:.+\.)?(rbd|cephfs|nfs|nvmeof)\.csi\.ceph\.com$ matches, with the group
    [t]: an optional prefix that ends in a dot, then the type. *)
Definition name_matches (s t : string) : Prop :=
  t ∈ driver_types ∧ ∃ prefix, s = (prefix ++ type_suffix t)%string ∧
    (prefix = "" ∨ ∃ x, prefix = (x ++ ".")%string ∧ x ≠ "" ∧ no_newline x = true).

Lemma full_type_Some s t : full_type s = Some t ↔ t ∈ driver_types ∧ s = type_suffix t.
Proof.
  unfold full_type. split.
  - intros H. apply List.find_some in H as [Hin Heq%String.eqb_eq].
    split; [by apply list_elem_of_In|done].
  - intros [Hin ->]. rewrite list_elem_of_In in Hin.
    destruct Hin as [<-|[<-|[<-|[<-|[]]]]]; reflexivity.
Qed.

Lemma string_app_cases (a b c d : string) :
  (a ++ b = c ++ d)%string → ∃ x, (a = c ++ x ∧ d = x ++ b)%string ∨ (c = a ++ x ∧ b = x ++ d)%string.
Proof.
  revert c. induction a as [|h a IH]; intros [|k c]; autorewrite with golib; intros H.
  - exists "". left. by autorewrite with golib.
  - exists (String k c). right. by autorewrite with golib.
  - exists (String h a). left. by autorewrite with golib.
  - injection H as -> H. destruct (IH c H) as (x & [[-> ->]|[-> ->]]); exists x; [left|right];
      by autorewrite with golib.
Qed.

Lemma scan_name_sound b s t :
  scan_name b s = Some t →
  t ∈ driver_types ∧ ∃ x, s = (x ++ String "." (type_suffix t))%string
                          ∧ (b = false → x ≠ "") ∧ no_newline x = true.
Proof.
  revert b. induction s as [|c s IH]; intros b; simpl; [done|].
  destruct (N.eqb_spec (byte c) 10) as [|Hnl]; [done|].
  assert (Hrec : scan_name true s = Some t → t ∈ driver_types ∧
    ∃ x, String c s = (x ++ String "." (type_suffix t))%string ∧ (b = false → x ≠ "") ∧ no_newline x = true).
  { intros H. destruct (IH true H) as (Ht & x & -> & _ & Hx). split; [done|].
    exists (String c x). split; [done|]. split; [done|]. simpl. rewrite Hx.
    by destruct (N.eqb_spec (byte c) 10). }
  destruct (N.eqb_spec (byte c) 46) as [Hdot|]; simpl; [|apply Hrec].
  destruct b; simpl; [|apply Hrec]. destruct (full_type s) as [t'|] eqn:Hfull; [|apply Hrec].
  intros [= ->]. apply full_type_Some in Hfull as [Ht ->]. split; [done|]. exists "".
  split; [|done]. rewrite string_app_nil_l. f_equal. by apply (byte_inj c).
Qed.

(** No type is another one behind a prefix. *)
Lemma type_suffix_inj t t' p :
  t ∈ driver_types → t' ∈ driver_types → type_suffix t = (p ++ type_suffix t')%string →
  p = "" ∧ t = t'.
Proof.
  rewrite !list_elem_of_In. intros Ht Ht'.
  destruct Ht as [<-|[<-|[<-|[<-|[]]]]], Ht' as [<-|[<-|[<-|[<-|[]]]]]; intros H;
    repeat match goal with
    | H : _ = (?p ++ _)%string |- _ =>
        is_var p; destruct p as [|? p];
        [rewrite ?string_app_nil_l in H; first [discriminate H | by split]
        |rewrite string_app_cons in H; first [discriminate H | injection H as _ H | injection H as H]]
    end.
Qed.

Lemma scan_name_complete b x t :
  t ∈ driver_types → no_newline x = true → (b = false → x ≠ "") →
  scan_name b (x ++ String "." (type_suffix t)) = Some t.
Proof.
  intros Ht. revert b. induction x as [|c x IH]; intros b Hx Hb.
  - destruct b; [|by destruct (Hb eq_refl)]. rewrite string_app_nil_l. simpl.
    assert (full_type (type_suffix t) = Some t) as -> by (by apply full_type_Some). done.
  - rewrite string_app_cons. cbn [scan_name]. simpl in Hx. apply andb_true_iff in Hx as [Hc Hx].
    destruct (N.eqb_spec (byte c) 10); [done|].
    destruct ((byte c =? 46)%N && b); [|by apply IH].
    destruct (full_type _) as [t'|] eqn:Hfull; [|by apply IH].
    apply full_type_Some in Hfull as [Ht' Heq].
    assert (Heq' : type_suffix t' = ((x ++ ".") ++ type_suffix t)%string)
      by (rewrite <-Heq; by autorewrite with golib).
    by apply type_suffix_inj in Heq' as [_ ->].
Qed.

Lemma name_type_matches name t : name_type name = Some t ↔ name_matches name t.
Proof.
  unfold name_type, name_matches. split.
  - destruct (full_type name) as [t'|] eqn:Hfull.
    + intros [= ->]. apply full_type_Some in Hfull as [Ht ->]. split; [done|].
      exists "". split; [done|by left].
    + intros H. apply scan_name_sound in H as (Ht & x & -> & Hx & Hnl). split; [done|].
      exists (x ++ ".")%string. split; [by autorewrite with golib|]. right. exists x.
      split; [done|]. split; [by apply Hx|done].
  - intros (Ht & prefix & -> & [-> |(x & -> & Hx & Hnl)]).
    + rewrite string_app_nil_l.
      assert (full_type (type_suffix t) = Some t) as -> by (by apply full_type_Some). done.
    + destruct (full_type _) as [t'|] eqn:Hfull.
      * apply full_type_Some in Hfull as [Ht' Heq]. symmetry in Heq.
        apply type_suffix_inj in Heq as [_ ->]; done.
      * rewrite string_app_assoc. by apply scan_name_complete.
Qed.

(** C29: the type taken from a driver's name is the group of the regular
    expression of driver names, for every string; the name determines the
    type. *)
Theorem name_type_regexp (name : string) :
  (∀ t, name_type name = Some t ↔ name_matches name t)
  ∧ (∀ t t', name_matches name t → name_matches name t' → t = t').
Proof.
  split; [intros t; apply name_type_matches|].
  intros t t' H H'. apply name_type_matches in H, H'. congruence.
Qed.

(** A string of characters a service name can hold. *)
Fixpoint service_chars (s : string) : bool :=
  match s with
  | EmptyString => true
  | String c s => (in_range c 97 122 || in_range c 48 57 || (byte c =? 45)%N) && service_chars s
  end.

Lemma replace_special_chars s : service_chars (replace_special s) = true.
Proof.
  unfold replace_special. induction (runes s) as [|x rs IH]; [done|]. csimpl.
  destruct x; simpl; try done. destruct (_ || _) eqn:E; simpl; rewrite ?E; done.
Qed.

Lemma replace_special_id s : service_chars s = true → replace_special s = s.
Proof.
  intros H. assert (Hr : ∀ s, service_chars s = true → runes s = R1 <$> String.list_ascii_of_string s).
  { clear. induction s as [|c s IH]; [done|]. simpl. intros [Hc Hs]%andb_true_iff.
    replace (byte c <? 128)%N with true by (unfold in_range in Hc; lia). by rewrite IH. }
  unfold replace_special. rewrite Hr by done. clear Hr.
  induction s as [|c s IH]; [done|]. simpl in H. apply andb_true_iff in H as [Hc Hs].
  change (service_rune (R1 c) (foldr service_rune "" (R1 <$> String.list_ascii_of_string s))
          = String c s).
  rewrite IH by done. simpl. by rewrite Hc.
Qed.

Section names.
Context {lib : ApiLib}.

(** A generated service name only holds lower-case letters, digits and
    hyphens, whatever the name of the driver is, and a generated name that
    only holds these is kept as it is. *)
Theorem generateServiceName_chars (r : driverReconcile) (suffix : string) :
  service_chars (generateServiceName r suffix) = true
  ∧ (service_chars (generateName r suffix) = true →
     generateServiceName r suffix = generateName r suffix).
Proof. split; [apply replace_special_chars|apply replace_special_id]. Qed.

End names.

(** ** Merging *)
Section merging.
Context {lib : ApiLib}.

(** A field the driver sets is never overridden; but five fields are not
    filled in from the defaults when the driver leaves them unset: the image
    set and the metadata switch, and, for a plugin section the driver has,
    the topology, the host network switch and the deployment strategy. *)
Theorem mergeDriverSpecs_skips (dest src : DriverSpec) :
  let m := mergeDriverSpecs dest src in
  ImageSet m = ImageSet dest
  ∧ EnableMetadata m = EnableMetadata dest
  ∧ (∀ n, NodePlugin dest = Some n → Topology <$> NodePlugin m = Some (Topology n))
  ∧ (∀ c, ControllerPlugin dest = Some c →
       HostNetwork <$> ControllerPlugin m = Some (HostNetwork c)
       ∧ CtrlDeploymentStrategy <$> ControllerPlugin m = Some (CtrlDeploymentStrategy c))
  ∧ (∀ x, Log dest = Some x → Log m = Some x)
  ∧ (∀ x, Liveness dest = Some x → Liveness m = Some x)
  ∧ (∀ x, Encryption dest = Some x → Encryption m = Some x)
  ∧ (∀ x, DeployCsiAddons dest = Some x → DeployCsiAddons m = Some x).
Proof.
  simpl. split; [done|]. split; [done|]. split; [|split; [|split_and!; by intros x ->]].
  - intros n ->. by destruct (NodePlugin src).
  - intros c ->. by destruct (ControllerPlugin src).
Qed.

End merging.

(** ** Loading *)
Section loading.
Context {lib : ApiLib} `{JT : !JsonErrorText} (oe : OperatorEnv).

(** The images of an image set config map. *)
Definition image_set (s : store) (ns : string) (imageSet : option string) : gmap string string :=
  match imageSet with
  | Some name =>
      if String.eqb name "" then ∅
      else match stored s KConfigMap {| Key_Namespace := ns; Key_Name := name |} with
           | Some cm => CM_Data cm
           | None => ∅
           end
  | None => ∅
  end.

(** The operator's defaults in the store. *)
Definition stored_defaults (s : store) : option DriverSpec :=
  match stored s KOperatorConfig {| Key_Namespace := operatorNamespace oe;
                                    Key_Name := operatorConfigName oe |} with
  | Some c => DriverSpecDefaults (OpConf_Spec c)
  | None => None
  end.

(** What the iteration for the driver [d] of the store works from. *)
Definition desired (s : store) (req : NamespacedName) (d : Driver) (r : driverReconcile) : Prop :=
  Driver_Meta (driver r) = Driver_Meta d
  ∧ name_type (Key_Name req) = Some (driverType r)
  ∧ driver_spec r = match stored_defaults s with
                    | Some defaults => mergeDriverSpecs (Driver_Spec d) defaults
                    | None => Driver_Spec d
                    end
  ∧ images r = image_set s (Meta_Namespace (Driver_Meta d)) (ImageSet (Driver_Spec d))
               ∪ (image_set s (operatorNamespace oe) (stored_defaults s ≫= ImageSet) ∪ imageDefaults).

Lemma wp_load_images imageSet ns (r : driverReconcile) s :
  wp api_spec (load_images imageSet ns r)
    (λ s' o, s' = s ∧ ∃ r' err, o = Done (r', err) ∧
       (err = None → r' = add_images (image_set s ns imageSet) r)) s.
Proof.
  assert (Hid : r = add_images ∅ r) by (destruct r; unfold add_images; simpl; by rewrite (left_id_L ∅ (∪))).
  unfold load_images, image_set. destruct imageSet as [name|]; [|by simpl; eauto 10].
  destruct (String.eqb name ""); simpl; [by eauto 10|].
  split; [done|]. intros [err|cm] s' [-> Hgot]; simpl; (split; [done|]).
  - by eexists _, (Some err).
  - rewrite Hgot. eexists _, None. by split.
Qed.

Lemma ToLower_type t : t ∈ driver_types → strings_ToLower t = t.
Proof. rewrite list_elem_of_In. by intros [<-|[<-|[<-|[<-|[]]]]]. Qed.

Lemma wp_load_defaults c (r : driverReconcile) s :
  (c ≫= DriverSpecDefaults) = stored_defaults s →
  wp api_spec (load_defaults oe c r)
    (λ s' o, s' = s ∧ ∃ r' err, o = Done (r', err) ∧ (err = None →
       Driver_Meta (driver r') = Driver_Meta (driver r) ∧ driverType r' = driverType r
       ∧ driver_spec r' = match stored_defaults s with
                          | Some defaults => mergeDriverSpecs (driver_spec r) defaults
                          | None => driver_spec r
                          end
       ∧ images r' = image_set s (operatorNamespace oe) (stored_defaults s ≫= ImageSet) ∪ images r)) s.
Proof.
  intros Hc. unfold load_defaults. rewrite Hc. destruct (stored_defaults s) as [x|].
  - eapply wp_mono; [apply wp_load_images|]. intros s' o (-> & r' & err & -> & H).
    split; [done|]. exists r', err. split; [done|]. intros He. by rewrite (H He).
  - simpl. split; [done|]. exists r, None. split; [done|]. intros _.
    by rewrite (left_id_L ∅ (∪)).
Qed.

Lemma wp_LoadAndValidate (r : driverReconcile) s :
  let req := meta_key (Driver_Meta (driver r)) in
  wp api_spec (LoadAndValidateDesiredState oe r)
    (λ s' o, s' = s ∧ ∃ r' err, o = Done (r', err) ∧ (err = None →
       ∃ d, stored s KDriver req = Some d ∧ desired s req d r'
            ∧ ∀ c, stored s KCSIDriver {| Key_Namespace := ""; Key_Name := driver_name r |} = Some c →
                   check_csiDriver r c = None)) s.
Proof.
  intros req. unfold LoadAndValidateDesiredState. cbn [wp bind trigger mbind prog_bind].
  split; [done|]. intros got s' [-> Hgot].
  match goal with |- context [@found ?X ?g] => destruct (@found X g) as [err|csi] eqn:Hf end;
    [simpl; split; [done|]; by eexists _, (Some err)|].
  destruct (csi ≫= check_csiDriver r) as [err|] eqn:Hchk;
    [simpl; split; [done|]; by eexists _, (Some err)|].
  destruct (name_type (driver_name r)) as [t|] eqn:Ht;
    [|simpl; split; [done|]; by eexists _, (Some _)].
  cbn [wp bind trigger mbind prog_bind]. split; [done|]. intros got2 s' [-> Hgot2].
  match goal with |- context [@found ?X ?g] => destruct (@found X g) as [err|op] eqn:Hf2 end;
    [simpl; split; [done|]; by eexists _, (Some err)|].
  cbn [wp bind trigger mbind prog_bind]. split; [done|]. intros [err|d] s' [-> Hd];
    [simpl; split; [done|]; by eexists _, (Some err)|].
  assert (Hop : ((OpConf_Spec <$> op) ≫= DriverSpecDefaults) = stored_defaults s).
  { unfold stored_defaults, found in *. destruct got2 as [e|c]; simpl in *.
    - destruct (IsNotFound e); [|done]. injection Hf2 as <-. by rewrite Hgot2.
    - injection Hf2 as <-. by rewrite Hgot2. }
  apply wp_bind. eapply wp_mono; [by apply wp_load_defaults|].
  intros s' o (-> & r1 & err & -> & H1). destruct err as [err|];
    [simpl; split; [done|]; by eexists _, (Some err)|].
  destruct (H1 eq_refl) as (Hm & Hty & Hsp & Him). clear H1. simpl in *.
  eapply wp_mono; [apply wp_load_images|]. intros s' o (-> & r2 & err & -> & H2).
  split; [done|]. exists r2, err. split; [done|]. intros He. rewrite (H2 He). clear H2.
  exists d. split; [done|]. split.
  - unfold desired. simpl. split; [done|]. split.
    + rewrite Hty. simpl. apply name_type_matches in Ht as Hmt. destruct Hmt as [Hin _].
      by rewrite ToLower_type.
    + split; [exact Hsp|]. unfold driver_ns. rewrite Hm, Him. f_equal. f_equal.
      rewrite Hsp. by destruct (stored_defaults s).
  - intros c Hc. unfold found in Hf. destruct got as [e|c']; simpl in *.
    + destruct (IsNotFound e) eqn:Hn; [|done]. pose proof (eq_trans (eq_sym (Hgot eq_refl)) Hc). done.
    + injection Hf as <-. simpl in Hchk. pose proof (eq_trans (eq_sym Hgot) Hc) as Heq.
      injection Heq as ->. done.
Qed.

(** C16: loading reads and never writes; when it succeeds, the state to work
    from is that of the stored driver: the type is the one its name carries,
    the spec is the driver's merged with the operator's defaults, and an image
    is looked up in the driver's image set, then the operator's, then the
    built-in images; and the CSIDriver of that name, if there is one, is
    claimed by this driver. *)
Theorem LoadAndValidate_desired (r : driverReconcile) (s : store) :
  let req := meta_key (Driver_Meta (driver r)) in
  wp api_spec (LoadAndValidateDesiredState oe r)
    (λ s' o, s' = s ∧ ∃ r' err, o = Done (r', err) ∧ (err = None →
       ∃ d, stored s KDriver req = Some d ∧ desired s req d r'
            ∧ ∀ c, stored s KCSIDriver {| Key_Namespace := ""; Key_Name := driver_name r |} = Some c →
                   check_csiDriver r c = None)) s.
Proof. apply wp_LoadAndValidate. Qed.

End loading.

(** ** The environment *)

(** The operator starts exactly when OPERATOR_NAMESPACE is set to a
    non-empty string and OPERATOR_CONFIG_NAME is absent or non-empty; the
    namespace is then never empty and the name of the configuration neither. *)
Theorem load_env_ok (env : gmap string string) :
  match load_env env with
  | inr oe => operatorNamespace oe ≠ "" ∧ operatorConfigName oe ≠ ""
              ∧ env !! "OPERATOR_NAMESPACE" = Some (operatorNamespace oe)
              ∧ serviceAccountPrefix oe = default "" (env !! "CSI_SERVICE_ACCOUNT_PREFIX")
  | inl _ => (env !! "OPERATOR_NAMESPACE" = None ∨ env !! "OPERATOR_NAMESPACE" = Some "")
             ∨ env !! "OPERATOR_CONFIG_NAME" = Some ""
  end.
Proof.
  unfold load_env, load_operatorNamespace, load_operatorConfigName, GetOperatorNamespace, Getenv,
    operatorNamespaceEnvVar.
  destruct (env !! "OPERATOR_NAMESPACE") as [ns|]; simpl; [|by left; left].
  destruct (String.eqb_spec ns ""); simpl; [left; right; congruence|].
  destruct (env !! "OPERATOR_CONFIG_NAME") as [name|]; simpl; [|done].
  destruct (String.eqb_spec name ""); simpl; [right; congruence|done].
Qed.
