(* ===== verification/PodTheorems.v ===== *)
(** * The pods of a driver: properties

    The pods the operator asks for are well formed whatever the driver's spec
    is: every volume a container mounts is declared, no two containers and no
    two volumes share a name, no argument is empty, and the selector selects
    the pod. *)
From S2P Require Import Prelude Prog K8s ApiTypes Cluster CoreUtils CsiUtils Json DriverSpec.
From S2P Require Import ControllerPlugin NodePlugin.

Section pods.
Context {lib : ApiLib}.

(** ** Well-formed pods *)

Record pod_valid (ps : PodSpec) : Prop := {
  mounts_declared :
    ∀ c m, c ∈ Pod_Containers ps → m ∈ Container_VolumeMounts c →
           Mount_Name m ∈ Volume_Name <$> Pod_Volumes ps;
  volumes_distinct : NoDup (Volume_Name <$> Pod_Volumes ps);
  containers_distinct : NoDup (Container_Name <$> Pod_Containers ps);
  args_nonempty : ∀ c, c ∈ Pod_Containers ps → "" ∉ Container_Args c;
}.

(** The volumes of the user are named and mounted under their names. *)
Definition user_volumes_ok (vs : list VolumeSpec) : Prop :=
  ∀ v, v ∈ vs → Volume_Name (VolumeSpec_Volume v) ≠ ""
                ∧ Mount_Name (VolumeSpec_Mount v) = Volume_Name (VolumeSpec_Volume v).

Definition user_names (vs : list VolumeSpec) : list string :=
  (λ v, Volume_Name (VolumeSpec_Volume v)) <$> vs.

Lemma selected_volumes vs :
  user_volumes_ok vs →
  selected (λ v, (VolumeSpec_Volume v, negb (String.eqb (Volume_Name (VolumeSpec_Volume v)) "")))
    Volume_Name vs = VolumeSpec_Volume <$> vs.
Proof.
  intros Hok. induction vs as [|v vs IH]; [done|]. unfold selected in *. simpl.
  destruct (Hok v ltac:(left)) as [Hn _]. destruct (String.eqb_spec (Volume_Name (VolumeSpec_Volume v)) "");
    [done|]. simpl. f_equal. apply IH. intros w Hw. apply Hok. by right.
Qed.

Lemma selected_mounts vs :
  user_volumes_ok vs →
  selected (λ v, (VolumeSpec_Mount v, negb (String.eqb (Mount_Name (VolumeSpec_Mount v)) "")))
    Mount_Name vs = VolumeSpec_Mount <$> vs.
Proof.
  intros Hok. induction vs as [|v vs IH]; [done|]. unfold selected in *. simpl.
  destruct (Hok v ltac:(left)) as [Hn Heq]. rewrite Heq.
  destruct (String.eqb_spec (Volume_Name (VolumeSpec_Volume v)) ""); [done|]. simpl. f_equal.
  apply IH. intros w Hw. apply Hok. by right.
Qed.

Lemma merge_volumes_names base vs k :
  NoDup (Volume_Name <$> base) → user_volumes_ok vs →
  k ∈ Volume_Name <$> merge_volumes base vs ↔ k ∈ Volume_Name <$> base ∨ k ∈ user_names vs.
Proof.
  intros Hnd Hok. unfold merge_volumes. rewrite MapMergeByKey_upsert by (by apply NoDup_distinct_keys).
  rewrite selected_volumes by done. rewrite elem_of_foldl_keys. unfold user_names.
  by rewrite <-list_fmap_compose.
Qed.

Lemma merge_mounts_names base vs k :
  NoDup (Mount_Name <$> base) → user_volumes_ok vs →
  k ∈ Mount_Name <$> merge_mounts base vs → k ∈ Mount_Name <$> base ∨ k ∈ user_names vs.
Proof.
  intros Hnd Hok. unfold merge_mounts. rewrite MapMergeByKey_upsert by (by apply NoDup_distinct_keys).
  rewrite selected_mounts by done. rewrite elem_of_foldl_keys. intros [?|Hk]; [by left|right].
  apply list_elem_of_fmap in Hk as (m & -> & (v & -> & Hv)%list_elem_of_fmap).
  destruct (Hok v Hv) as [_ ->]. unfold user_names.
  by apply (list_elem_of_fmap_2 (λ v, Volume_Name (VolumeSpec_Volume v))).
Qed.

Lemma merge_volumes_distinct base vs :
  NoDup (Volume_Name <$> base) → "" ∉ Volume_Name <$> base → user_volumes_ok vs →
  NoDup (Volume_Name <$> merge_volumes base vs).
Proof.
  intros Hnd Hne Hok. apply distinct_keys_NoDup.
  - unfold merge_volumes. rewrite MapMergeByKey_upsert by (by apply NoDup_distinct_keys).
    by apply foldl_upsert_distinct, NoDup_distinct_keys.
  - rewrite merge_volumes_names by done. intros [?|Hk]; [done|].
    apply list_elem_of_fmap in Hk as (v & Heq & Hv). destruct (Hok v Hv) as [Hn _]. congruence.
Qed.

Lemma DeleteZeroValues_nonempty l : "" ∉ DeleteZeroValues l.
Proof. rewrite elem_of_DeleteZeroValues. tauto. Qed.

(** A mount of a built-in volume, or of a volume of the user. *)
Definition declared (base : list Volume) (user : list VolumeSpec) (m : VolumeMount) : Prop :=
  Mount_Name m ∈ Volume_Name <$> base ∨ Mount_Name m ∈ user_names user.

Definition built_in (base : list Volume) (m : VolumeMount) : Prop :=
  Mount_Name m ∈ Volume_Name <$> base.

#[local] Instance built_in_dec base m : Decision (built_in base m).
Proof. unfold built_in. apply _. Defined.

Lemma merge_declared base user mounts :
  NoDup (Mount_Name <$> mounts) → Forall (built_in base) mounts → user_volumes_ok user →
  Forall (declared base user) (merge_mounts mounts user).
Proof.
  intros Hnd Hb Hok. apply Forall_forall. intros m Hm.
  destruct (merge_mounts_names mounts user (Mount_Name m)) as [Hm'|Hm']; [done|done| |left|by right].
  - by apply list_elem_of_fmap_2.
  - apply list_elem_of_fmap in Hm' as (m' & Heq & Hm'). rewrite Heq. by eapply Forall_forall in Hb.
Qed.

Lemma user_mount user v :
  user_volumes_ok user → v ∈ user → Mount_Name (VolumeSpec_Mount v) ∈ user_names user.
Proof.
  intros Hok Hv. destruct (Hok v Hv) as [_ ->]. unfold user_names.
  by apply (list_elem_of_fmap_2 (λ v, Volume_Name (VolumeSpec_Volume v))).
Qed.

Lemma tls_found user v : IndexFunc tls_volume user ≫= (λ i, user !! i) = Some v → v ∈ user.
Proof. intros (i & _ & Hi)%bind_Some. by eapply list_elem_of_lookup_2. Qed.

(** Split a statement about the containers of a pod into one per container. *)
Ltac each_container :=
  repeat first [apply Forall_app_2 | apply Forall_cons; split | apply Forall_nil; exact I | case_match].

Ltac computed := apply (bool_decide_unpack _); vm_compute; exact I.

Definition args_ok (c : Container) : Prop := "" ∉ Container_Args c.

(** A pod whose containers mount what it declares is valid. *)
Lemma pod_valid_of (ps : PodSpec) base user :
  Pod_Volumes ps = merge_volumes base user →
  NoDup (Volume_Name <$> base) → "" ∉ Volume_Name <$> base → user_volumes_ok user →
  Forall (λ c, Forall (declared base user) (Container_VolumeMounts c)) (Pod_Containers ps) →
  NoDup (Container_Name <$> Pod_Containers ps) →
  Forall args_ok (Pod_Containers ps) →
  pod_valid ps.
Proof.
  intros Hv Hnd Hne Hok Hm Hc Ha. split.
  - intros c m Hin Hm'. eapply Forall_forall in Hm; [|exact Hin]. eapply Forall_forall in Hm; [|exact Hm'].
    rewrite Hv. by apply merge_volumes_names.
  - rewrite Hv. by apply merge_volumes_distinct.
  - done.
  - intros c Hin. by eapply Forall_forall in Ha.
Qed.

(** ** The controller plugin *)
Section controller.
Variable r : driverReconcile.

(** The names the built-in volumes and mounts can have. *)
Definition ctrl_base_volumes (appName : string) : list Volume :=
  [HostDevVolume; HostSysVolume; LibModulesVolume; SocketDirVolume; KeysTmpDirVolume;
   OidcTokenVolume; CsiConfigVolume] ++ kms_volumes r ++ log_volumes r appName.

Lemma ctrl_base_volumes_ok appName :
  NoDup (Volume_Name <$> ctrl_base_volumes appName)
  ∧ "" ∉ Volume_Name <$> ctrl_base_volumes appName.
Proof.
  unfold ctrl_base_volumes, kms_volumes, log_volumes.
  destruct (Encryption (driver_spec r)), (logRotationSpec r);
    (split; [by apply (bool_decide_unpack _)|by apply (bool_decide_unpack _)]).
Qed.


Lemma ctrl_containers_declared appName :
  user_volumes_ok (ctrl_volumes r) →
  Forall (λ c, Forall (declared (ctrl_base_volumes appName) (ctrl_volumes r)) (Container_VolumeMounts c))
    (ctrl_containers r).
Proof.
  intros Hok. unfold ctrl_containers, ctrl_plugin_container, ctrl_addons_container, ctrl_base_volumes,
    kms_volumes, log_volumes, logRotationEnabled.
  destruct (Encryption (driver_spec r)) eqn:He, (logRotationSpec r) eqn:Hl.
  all: each_container; try (left; computed);
    try (cbn [Container_VolumeMounts]; apply merge_declared; [computed|computed|done]).
  all: right; by eapply user_mount, tls_found.
Qed.

Lemma ctrl_containers_args : Forall args_ok (ctrl_containers r).
Proof.
  unfold ctrl_containers.
  each_container; first [apply DeleteZeroValues_nonempty | apply not_elem_of_nil].
Qed.

(** The names of the containers, all of them. *)
Definition ctrl_names : list string := [
  plugin_name r; "csi-provisioner"; "csi-resizer"; "csi-attacher"; "csi-snapshotter";
  "ex-csi-snapshotter"; "csi-addons"; "csi-omap-generator"; "liveness-prometheus"; "log-rotator";
  "csi-snapshot-metadata"].

Lemma ctrl_containers_names : Container_Name <$> ctrl_containers r `sublist_of` ctrl_names.
Proof.
  unfold ctrl_containers. rewrite !fmap_app. unfold ctrl_names. simpl.
  do 4 apply sublist_skip. repeat case_match; repeat first [apply sublist_skip | apply sublist_cons | constructor].
Qed.

Lemma ctrl_containers_distinct :
  driverType r ∈ driver_types → NoDup (Container_Name <$> ctrl_containers r).
Proof.
  intros Hd. eapply sublist_NoDup, ctrl_containers_names. unfold ctrl_names, plugin_name.
  apply list_elem_of_In in Hd as [<-|[<-|[<-|[<-|[]]]]]; computed.
Qed.

Lemma ctrl_pod_valid_aux oe appName :
  driverType r ∈ driver_types → user_volumes_ok (ctrl_volumes r) →
  pod_valid (ctrl_pod_spec r oe appName).
Proof.
  intros Hd Hok. destruct (ctrl_base_volumes_ok appName) as [Hnd Hne].
  eapply (pod_valid_of _ (ctrl_base_volumes appName) (ctrl_volumes r));
    [done|done|done|done|by apply ctrl_containers_declared|by apply ctrl_containers_distinct
    |apply ctrl_containers_args].
Qed.

End controller.

(** ** The node plugin *)
Section node.
Variable r : driverReconcile.

Definition node_base_volumes (appName : string) : list Volume :=
  [HostDevVolume; HostSysVolume; HostRunMountVolume; LibModulesVolume; KeysTmpDirVolume;
   CsiConfigVolume; PluginDirVolume (kubeletDirPath r) (driver_name r);
   PluginMountDirVolume (kubeletDirPath r); PodsMountDirVolume (kubeletDirPath r);
   RegistrationDirVolume (kubeletDirPath r)]
  ++ (if isCephFsDriver r then [CsiMountInfoVolume (kubeletDirPath r) (driver_name r)] else [])
  ++ (if seLinuxHostMount r then [EtcSelinuxVolume] else [])
  ++ kms_volumes r
  ++ (if isRbdOrNvemofDriver r then [OidcTokenVolume] else [])
  ++ log_volumes r appName.

Lemma node_base_volumes_ok appName :
  NoDup (Volume_Name <$> node_base_volumes appName)
  ∧ "" ∉ Volume_Name <$> node_base_volumes appName.
Proof.
  unfold node_base_volumes, kms_volumes, log_volumes.
  destruct (Encryption (driver_spec r)), (logRotationSpec r), (isCephFsDriver r),
    (seLinuxHostMount r), (isRbdOrNvemofDriver r); split; computed.
Qed.

Lemma node_containers_declared appName kernel fuse :
  user_volumes_ok (node_volumes r) →
  Forall (λ c, Forall (declared (node_base_volumes appName) (node_volumes r)) (Container_VolumeMounts c))
    (node_containers r kernel fuse).
Proof.
  intros Hok. unfold node_containers, node_plugin_container, node_plugin_mounts, node_base_volumes,
    kms_volumes, log_volumes, logRotationEnabled.
  destruct (Encryption (driver_spec r)), (logRotationSpec r), (isCephFsDriver r),
    (seLinuxHostMount r), (isRbdOrNvemofDriver r).
  all: each_container; first [left; computed|cbn [Container_VolumeMounts]; apply merge_declared; [computed|computed|done]].
Qed.

Lemma node_containers_args kernel fuse : Forall args_ok (node_containers r kernel fuse).
Proof.
  unfold node_containers.
  each_container; first [apply DeleteZeroValues_nonempty | apply not_elem_of_nil].
Qed.

Lemma node_containers_distinct kernel fuse :
  driverType r ∈ driver_types → NoDup (Container_Name <$> node_containers r kernel fuse).
Proof.
  intros Hd. unfold node_containers. rewrite !fmap_app. simpl. unfold plugin_name.
  apply list_elem_of_In in Hd as [<-|[<-|[<-|[<-|[]]]]]; repeat case_match; computed.
Qed.

Lemma node_pod_valid_aux oe appName kernel fuse :
  driverType r ∈ driver_types → user_volumes_ok (node_volumes r) →
  pod_valid (node_pod_spec r oe appName kernel fuse).
Proof.
  intros Hd Hok. destruct (node_base_volumes_ok appName) as [Hnd Hne].
  eapply (pod_valid_of _ (node_base_volumes appName) (node_volumes r));
    [done|done|done|done|by apply node_containers_declared|by apply node_containers_distinct
    |apply node_containers_args].
Qed.

(** ** The CSI-Addons pod *)

Lemma addons_pod_valid_aux oe condition appName :
  pod_valid (Template_Spec (DaemonSet_Template (addons_daemonset_spec r oe condition appName))).
Proof.
  unfold addons_daemonset_spec. cbn [Template_Spec DaemonSet_Template].
  eapply (pod_valid_of _ (addons_pod_volumes r condition appName) []); [done|..|];
    cbn [Pod_Containers]; unfold addons_pod_volumes, node_addons_container, log_volumes,
      logRotationEnabled; destruct (logRotationSpec r), condition.
  1-8: computed.
  1-4: by intros v ?%elem_of_nil.
  5-8: computed.
  all: each_container;
    first [left; computed | apply DeleteZeroValues_nonempty | apply not_elem_of_nil].
Qed.

End node.

(** ** Selectors *)

(** A label selector of a workload selects the pods made from its template. *)
Definition selects (selector : option LabelSelector) (labels : gmap string string) : Prop :=
  ∃ s, selector = Some s ∧ MatchExpressions s = [] ∧ MatchLabels s ≠ ∅ ∧ MatchLabels s ⊆ labels.

Lemma selects_app appName labels :
  labels !! "app" = Some appName → selects (Some (match_labels {["app" := appName]})) labels.
Proof.
  intros Hl. eexists. split; [done|]. split; [done|]. split; [by apply map_non_empty_singleton|].
  by apply map_singleton_subseteq_l.
Qed.

Lemma pod_labels_app user appName : pod_labels user appName !! "app" = Some appName.
Proof. apply lookup_insert_eq. Qed.

Lemma node_pod_labels_app r appName : node_pod_labels r appName !! "app" = Some appName.
Proof.
  unfold node_pod_labels. destruct (Liveness (driver_spec r)); [|apply pod_labels_app].
  rewrite lookup_insert_ne by done. apply pod_labels_app.
Qed.

(** ** Properties *)
Variable oe : OperatorEnv.

(** C18: the deployment of the controller plugin is well formed for every
    driver type and every driver spec whose user volumes are named like their
    mounts: every volume a container mounts is declared in the pod, no two
    volumes and no two containers share a name, no argument is empty, and the
    selector selects the pod whatever labels the user adds. *)
Theorem ctrl_pod_valid r appName replicas :
  driverType r ∈ driver_types → user_volumes_ok (ctrl_volumes r) →
  let spec := ctrl_deployment_spec r oe appName replicas in
  pod_valid (Template_Spec (Deployment_Template spec))
  ∧ selects (Deployment_Selector spec) (Template_Labels (Deployment_Template spec)).
Proof.
  intros Hd Hok. split; [by apply ctrl_pod_valid_aux|].
  apply selects_app, pod_labels_app.
Qed.

(** C19: the daemon set of the node plugin is well formed for every driver
    type, every order of the mount options and every driver spec whose user
    volumes are named like their mounts: every volume a container mounts is
    declared in the pod, no two volumes and no two containers share a name, no
    argument is empty, and the selector selects the pod. *)
Theorem node_pod_valid r appName kernel fuse :
  driverType r ∈ driver_types → user_volumes_ok (node_volumes r) →
  let spec := node_daemonset_spec r oe appName kernel fuse in
  pod_valid (Template_Spec (DaemonSet_Template spec))
  ∧ selects (DaemonSet_Selector spec) (Template_Labels (DaemonSet_Template spec)).
Proof.
  intros Hd Hok. split; [by apply node_pod_valid_aux|].
  apply selects_app, node_pod_labels_app.
Qed.

(** C20: the daemon set of CSI-Addons is well formed for every driver, with
    and without the volume condition reporter: mounted volumes are declared,
    names are distinct, no argument is empty, and the selector selects the
    pod. *)
Theorem addons_pod_valid r condition appName :
  let spec := addons_daemonset_spec r oe condition appName in
  pod_valid (Template_Spec (DaemonSet_Template spec))
  ∧ selects (DaemonSet_Selector spec) (Template_Labels (DaemonSet_Template spec)).
Proof. split; [apply addons_pod_valid_aux|]. apply selects_app, pod_labels_app. Qed.

End pods.

(** ** An example *)

#[local] Existing Instance plain_lib.

(** A volume of the user that replaces a built-in one, and one of its own. *)
Definition example_volume (name : string) : VolumeSpec := {|
  VolumeSpec_Volume := {| Volume_Name := name; Volume_Source := emptydir_source "" |};
  VolumeSpec_Mount := mount name "/data" false |}.

Definition example_common : PodCommonSpec := {|
  ServiceAccountName := None; PrioritylClassName := None; Labels := Some {["app" := "mine"]};
  Annotations := None; PodAffinitySpec := None; Tolerations := None;
  Volumes := Some [example_volume "host-dev"; example_volume "tls-key"]; ImagePullPolicy := "" |}.

Definition example_driver_spec : DriverSpec := {|
  Log := Some {| Verbosity := 5; Rotation := Some {| MaxFiles := 0; MaxLogSize := (10%Z : Quantity);
                   Periodicity := "daily"; LogHostPath := "" |} |};
  ImageSet := None; ClusterName := Some "c"; EnableMetadata := None; EnableFencing := Some true;
  GRpcTimeout := 0; SnapshotPolicy := ""; GenerateOMapInfo := Some true; FsGroupPolicy := "";
  Encryption := Some {| ConfigMapRef := "kms" |};
  NodePlugin := Some {|
    Node_Common := example_common; UpdateStrategy := None;
    Node_Resources := Node_Resources zero_NodePluginSpec; KubeletDirPath := "";
    EnableSeLinuxHostMount := Some true; Topology := None; Node_ContainerExtraArgs := None |};
  ControllerPlugin := Some {|
    HostNetwork := None; Ctrl_Common := example_common; CtrlDeploymentStrategy := None;
    Replicas := None; Ctrl_Resources := Ctrl_Resources zero_ControllerPluginSpec;
    Privileged := Some true; Ctrl_ContainerExtraArgs := None |};
  AttachRequired := None; Liveness := Some {| MetricsPort := 8080 |}; LeaderElection := None;
  DeployCsiAddons := Some true; CephFsClientType := ""; KernelMountOptions := None;
  FuseMountOptions := None |}.

Definition example_reconcile : driverReconcile := {|
  driver := {| Driver_Meta := new_meta "ns" "x.rbd.csi.ceph.com"; Driver_Spec := example_driver_spec |};
  driverType := "rbd"; images := imageDefaults |}.

Definition example_env : OperatorEnv :=
  {| operatorNamespace := "op"; operatorConfigName := "conf"; serviceAccountPrefix := "" |}.

Lemma example_volumes_ok :
  user_volumes_ok [example_volume "host-dev"; example_volume "tls-key"].
Proof.
  intros v Hv. apply list_elem_of_In in Hv as [<-|[<-|[]]]; by split.
Qed.

Lemma ctrl_pod_valid_witness :
  pod_valid (ctrl_pod_spec example_reconcile example_env "x-ctrlplugin")
  ∧ length (ctrl_containers example_reconcile) = 10.
Proof.
  split; [|by vm_compute].
  apply (ctrl_pod_valid example_env example_reconcile "x-ctrlplugin" 2); [by left|].
  exact example_volumes_ok.
Defined.

Lemma node_pod_valid_witness :
  pod_valid (node_pod_spec example_reconcile example_env "x-nodeplugin" [] [])
  ∧ length (node_containers example_reconcile [] []) = 4.
Proof.
  split; [|by vm_compute].
  apply (node_pod_valid example_env example_reconcile "x-nodeplugin" [] []); [by left|].
  exact example_volumes_ok.
Defined.
