(* ===== verification/DriverTargets.v ===== *)
(** * The objects of a driver and their reconcilers

    The nine objects one iteration of the Driver controller is about
    ([targets]) with the content the driver's spec asks for, the calls the
    reconciler of an object may issue ([target_spec]), and the shape all
    reconcilers but the one of the CSIDriver have: one [CreateOrUpdate], one
    delete, or nothing. *)
From S2P Require Import Prelude Prog K8s ApiTypes Cluster CoreUtils Concurrency CsiUtils Json.
From S2P Require Import JsonCodec Server DriverSpec ControllerPlugin NodePlugin DriverReconcile.

Section driver_targets.
Context {lib : ApiLib} `{EQ : !SemanticEquality} `{JT : !JsonErrorText} (oe : OperatorEnv).

(** ** What the reconcilers may submit *)
Section desired.
Variable r : driverReconcile.

Definition driver_key : NamespacedName := meta_key (Driver_Meta (driver r)).
Definition in_ns (name : string) : NamespacedName :=
  {| Key_Namespace := driver_ns r; Key_Name := name |}.

(** The driver is the controller of the object. *)
Definition controlled (m : ObjectMeta) : Prop :=
  GetControllerOf m = Some (controller_ref KDriver (Driver_Meta (driver r))).

Definition replicas_ok (n : Z) : Prop :=
  match Replicas (ctrl_spec r) with Some m => n = m | None => n = 1%Z ∨ n = 2%Z end.

Definition desired_deployment (d : Deployment) : Prop :=
  controlled (Dep_Meta d)
  ∧ ∃ n, replicas_ok n ∧ Dep_Spec d = ctrl_deployment_spec r oe (generateName r "ctrlplugin") n.

Definition desired_node_daemonset (d : DaemonSet) : Prop :=
  controlled (DSet_Meta d)
  ∧ ∃ kernel fuse, kernel ≡ₚ map_to_list (default ∅ (KernelMountOptions (driver_spec r)))
      ∧ fuse ≡ₚ map_to_list (default ∅ (FuseMountOptions (driver_spec r)))
      ∧ DSet_Spec d = node_daemonset_spec r oe (generateName r "nodeplugin") kernel fuse.

Definition desired_addons_daemonset (d : DaemonSet) : Prop :=
  controlled (DSet_Meta d) ∧ with_addons_daemonset r = true
  ∧ ∃ condition, volume_condition r = inr condition
      ∧ DSet_Spec d = addons_daemonset_spec r oe condition (generateName r "nodeplugin-csi-addons").

Definition desired_ctrl_policy (np : NetworkPolicy) : Prop :=
  controlled (NetPol_Meta np) ∧ ctrl_hostNetwork r = false
  ∧ NetPol_Spec np = network_policy_spec (generateName r "ctrlplugin") (ctrl_ingress r).

Definition desired_addons_policy (np : NetworkPolicy) : Prop :=
  controlled (NetPol_Meta np) ∧ isNfsDriver r = false ∧ deployCsiAddons r = true
  ∧ NetPol_Spec np = network_policy_spec (generateName r "nodeplugin-csi-addons")
                       [addons_ingress NodePluginCsiAddonsContainerPort].

Definition desired_service (s : Service) : Prop :=
  controlled (Svc_Meta s)
  ∧ ∃ liveness, Liveness (driver_spec r) = Some liveness ∧ Svc_Spec s = liveness_service_spec liveness.

Definition desired_csi_configmap (cm : ConfigMap) : Prop :=
  IsOwnedBy (CM_Meta cm) (Driver_Meta (driver r)) = true.

Definition desired_logrotate_configmap (cm : ConfigMap) : Prop :=
  IsOwnedBy (CM_Meta cm) (Driver_Meta (driver r)) = true
  ∧ ∃ rotation, logRotationSpec r = Some rotation ∧ rotation_invalid rotation = false
      ∧ CM_Data cm = {["csi" := logrotate_text rotation]}.

Definition desired_csidriver (c : CSIDriver) : Prop :=
  Meta_Annotations (CSID_Meta c) !! ownerRefAnnotationKey = Some (Marshal_key driver_key)
  ∧ CSID_AttachRequired (CSID_Spec c) = Some (default true (AttachRequired (driver_spec r)))
  ∧ CSID_PodInfoOnMount (CSID_Spec c) = Some true
  ∧ CSID_FSGroupPolicy (CSID_Spec c) = Some (cmp_Or (FsGroupPolicy (driver_spec r)) FileFSGroupPolicy)
  ∧ CSID_SELinuxMount (CSID_Spec c) = Some true.

(** The object of each reconciler, the content it is to have, when the spec
    asks for it, and when the spec disables it, in the order of [reconcilers]. *)
Record target := Target {
  target_kind : kind;
  target_key : NamespacedName;
  content : obj target_kind → Prop;
  wanted : Prop;
  obsolete : Prop;
}.

Definition targets : list target := [
  Target KConfigMap (in_ns CsiConfigVolume_Name) desired_csi_configmap True False;
  Target KConfigMap (in_ns (LogRotateConfigMapName (driver_name r))) desired_logrotate_configmap
    (logRotationSpec r ≠ None) (logRotationSpec r = None);
  Target KCSIDriver {| Key_Namespace := ""; Key_Name := driver_name r |} desired_csidriver True False;
  Target KDeployment (in_ns (generateName r "ctrlplugin")) desired_deployment True False;
  Target KNetworkPolicy (in_ns (generateName r "ctrlplugin")) desired_ctrl_policy
    (ctrl_hostNetwork r = false) (ctrl_hostNetwork r = true);
  Target KDaemonSet (in_ns (generateName r "nodeplugin")) desired_node_daemonset True False;
  Target KService (in_ns (generateServiceName r "liveness")) desired_service
    (Liveness (driver_spec r) ≠ None) (Liveness (driver_spec r) = None);
  Target KDaemonSet (in_ns (generateName r "nodeplugin-csi-addons")) desired_addons_daemonset
    (with_addons_daemonset r = true) (with_addons_daemonset r = false);
  Target KNetworkPolicy (in_ns (generateName r "nodeplugin-csi-addons")) desired_addons_policy
    (isNfsDriver r = false ∧ deployCsiAddons r = true)
    (isNfsDriver r = false ∧ deployCsiAddons r = false)].

End desired.

(** A submitted object is the target, with the content it is to have. *)
Definition submits (t : target) (k : kind) (o : obj k) : Prop :=
  ∃ e : target_kind t = k,
    content t (eq_rect_r obj o e) ∧ ObjectKeyFromObject k o = target_key t.

(** The object whose immutable fields may make the server refuse an update:
    its reconciler may replace it. *)
Definition replaceable (t : target) : Prop := target_kind t = KCSIDriver.

(** The calls of the reconciler of a target: it writes no other object, what
    it submits has the content asked for, and it deletes the object when the
    spec disables it, or to replace it. *)
Definition target_call (t : target) (T : Type) (e : call T) : Prop :=
  match e with
  | Create k o | Update k o => submits t k o
  | StatusUpdate _ _ => False
  | Delete k key => k = target_kind t ∧ key = target_key t ∧ (obsolete t ∨ replaceable t)
  | MutexLock | MutexUnlock => False
  | _ => True
  end.

(** Where the reconciler of a replaceable object is: an update of it has been
    refused as Invalid; the object that was refused has been deleted, and none
    submitted in its place. *)
Inductive phase := Settled | Refused | Missing.

Definition next_phase (t : target) (T : Type) (e : call T) : T → phase → phase :=
  match e in call T return T → phase → phase with
  | Update _ _ => λ answer ph,
      match answer with
      | inl err => if IsInvalid err then Refused else ph
      | inr _ => Settled
      end
  | Create _ _ => λ _ _, Settled
  | Delete _ _ => λ answer ph,
      match answer, ph with None, Refused => Missing | _, _ => ph end
  | _ => λ _ ph, ph
  end.

(** A delete is the one the spec asks for, or follows a refused update.
    [range] visits a map in some order, every other call may be answered
    anything. *)
Definition target_spec (t : target) : spec call phase := {|
  pre := λ T e ph, target_call t T e ∧
    match e with Delete _ _ => obsolete t ∨ ph = Refused | _ => True end;
  post := λ T e answer ph ph', ph' = next_phase t T e answer ph ∧
    match e in call T return T → Prop with
    | RangeMap m => λ l, l ≡ₚ map_to_list m
    | _ => λ _, True
    end answer |}.

(** The reconciler returns, issues only calls of its target, and does not
    leave an object it deleted to replace it without submitting the new one,
    unless that delete failed. *)
Definition reconciles (t : target) (p : M (option error)) : Prop :=
  wp (target_spec t) p (λ ph o, (∃ err, o = Done err) ∧ ph ≠ Missing) Settled.

Lemma submits_own t (o : obj (target_kind t)) :
  content t o → ObjectKeyFromObject _ o = target_key t → submits t _ o.
Proof. intros Hc Hk. by exists eq_refl. Qed.

(** What a mutate function may call. *)
Definition looks (T : Type) (e : call T) : Prop :=
  match e with ListObjs _ _ | RangeMap _ => True | _ => False end.

Definition look_spec : spec call unit := {|
  pre := λ T e _, looks T e;
  post := λ T e t _ _,
    match e in call T return T → Prop with
    | RangeMap m => λ l, l ≡ₚ map_to_list m
    | _ => λ _, True
    end t |}.

(** A specification under which looking is allowed and changes nothing. *)
Definition lookable {S} (sp : spec call S) : Prop :=
  ∀ T (e : call T) s, looks T e →
    pre sp _ e s ∧ ∀ t s', post sp _ e t s s' → s' = s ∧ post look_spec _ e t tt tt.

Lemma wp_looks {S A} (sp : spec call S) (p : M A) Q s :
  lookable sp → wp look_spec p Q tt → wp sp p (λ s' o, s' = s ∧ Q tt o) s.
Proof.
  intros Hsp. induction p as [a|m|T e k IH]; simpl; [by split..|]. intros [He Hk].
  destruct (Hsp T e s He) as [Hpre Hpost]. split; [done|].
  intros t s' [-> Ht]%Hpost. by apply IH, (Hk t tt).
Qed.

Lemma target_lookable t : lookable (target_spec t).
Proof. intros T e ph He. destruct e; try done; (split; [done|]); by intros t' ph' [-> ?]. Qed.

(** A mutate function that only looks, gives the object of the target its
    content and leaves its finalizers alone. *)
Definition mutated_to (t : target) (x : obj (target_kind t))
    (q : outcome (obj (target_kind t) * option error)) : Prop :=
  ∃ y err, q = Done (y, err) ∧
    match err with
    | None => (ObjectKeyFromObject _ y = target_key t → content t y)
              ∧ Meta_Finalizers (meta_of _ y) = Meta_Finalizers (meta_of _ x)
    | Some e => IsInvalid e = false
    end.

Definition mutates (t : target) (f : MutateFn (target_kind t)) : Prop :=
  ∀ x, wp look_spec (f x) (λ _ q, mutated_to t x q) tt.

(** [CreateOrUpdate] on the target; an Invalid answer to an update is about an
    object that was submitted; one to another call leaves what [P] says of the
    object the caller passed. *)
Lemma reconciles_CreateOrUpdate t (o : obj (target_kind t)) (f : MutateFn (target_kind t)) (P : obj (target_kind t) → Prop) :
  ObjectKeyFromObject _ o = target_key t → mutates t f →
  P o → wp look_spec (f o) (λ _ q, ∀ y err, q = Done (y, err) → P y) tt →
  wp (target_spec t) (CreateOrUpdate o f)
    (λ ph q, ph ≠ Missing ∧ ∃ y res err, q = Done (y, res, err) ∧
       ∀ e, err = Some e → IsInvalid e = true → P y ∨ (submits t _ y ∧ ph = Refused)) Settled.
Proof.
  intros Ho Hf HP HPf. unfold CreateOrUpdate. cbn [wp bind trigger mbind prog_bind]. split; [done|].
  intros [err|existing] ph [-> _]; cbn [next_phase].
  - destruct (negb (IsNotFound err)); simpl; [by eauto 10|].
    unfold mutate. apply wp_bind, wp_bind.
    eapply wp_mono; [apply wp_looks, wp_and; [apply target_lookable|apply Hf|exact HPf]|].
    intros ph ? (-> & (y & err' & -> & Hy) & HPy). specialize (HPy _ _ eq_refl).
    cbv beta iota. destruct err' as [e|]; simpl; [by eauto 10|].
    destruct (decide _) as [Hk|]; simpl; [|by eauto 10].
    split; [split; [|done]; apply submits_own; [apply Hy|]; congruence|].
    intros [e|o'] ph [-> _]; simpl; [by eauto 10|]. split; [done|]. by eexists _, _, _.
  - unfold mutate. apply wp_bind, wp_bind. eapply wp_mono; [apply wp_looks, Hf; apply target_lookable|].
    intros ph ? (-> & y & err' & -> & Hy). cbv beta iota. destruct err' as [e|]; simpl.
    { split; [done|]. eexists _, _, _. split; [done|]. intros e' [= <-]. congruence. }
    destruct (decide _) as [Hk|]; simpl;
      [|split; [done|]; eexists _, _, _; split; [done|]; by intros e [= <-]].
    destruct (DeepEqual _ existing y); simpl; [split; [done|]; by eexists _, _, _|].
    assert (submits t _ y) by (apply submits_own; [apply Hy|]; congruence). split; [done|].
    intros [e|o'] ph [-> _]; simpl; (split; [by repeat case_match|]);
      (eexists _, _, _; split; [done|]); [|done].
    intros e' [= <-] ->. by right.
Qed.

(** The shape of the reconciler of a target. *)
Inductive shape (t : target) : M (option error) → Prop :=
| shape_create (o : obj (target_kind t)) f :
    wanted t → ObjectKeyFromObject _ o = target_key t → mutates t f →
    shape t ('(_, _, err) ← CreateOrUpdate o f; mret err)
| shape_delete :
    ¬ wanted t → obsolete t →
    shape t (err ← trigger (Delete (target_kind t) (target_key t)); mret (IgnoreNotFound err))
| shape_skip :
    ¬ wanted t → ¬ obsolete t → shape t (mret None)
| shape_fail e :
    shape t (mret (Some e)).

Lemma shape_reconciles t p : shape t p → reconciles t p.
Proof.
  destruct 1 as [o f _ Ho Hf|_ Ho| |].
  - apply wp_bind.
    eapply wp_mono; [apply (reconciles_CreateOrUpdate t o f (λ _, True)); [done..|]|].
    { eapply wp_mono; [apply Hf|]. done. }
    intros ph ? (Hph & y & res & err & -> & _). simpl. eauto.
  - split; [split; [split_and!; [done|done|by left]|by left]|].
    intros [err|] ph [-> _]; simpl; eauto.
  - split; [by eexists|done].
  - split; [by eexists|done].
Qed.

(** ** The references *)

Lemma SetControllerReference_spec k owner m :
  match SetControllerReference k owner m with
  | inl e => IsInvalid e = false
  | inr m' => GetControllerOf m' = Some (controller_ref k owner)
  end.
Proof.
  destruct (SetControllerReference k owner m) as [e|m'] eqn:Hs;
    [|by apply SetControllerReference_controls in Hs].
  unfold SetControllerReference, validateOwner, newAlreadyOwnedError in Hs.
  repeat case_match; by simplify_eq.
Qed.

Lemma ToggleOwnerReference_error on m k owner m' c e :
  ToggleOwnerReference on m k owner = (m', c, Some e) → IsInvalid e = false.
Proof.
  unfold ToggleOwnerReference, SetOwnerReference, RemoveOwnerReference, validateOwner.
  repeat case_match; intros; simplify_eq; done.
Qed.

(** ** Each reconciler *)

Lemma SetControllerReference_finalizers k owner m m' :
  SetControllerReference k owner m = inr m' → Meta_Finalizers m' = Meta_Finalizers m.
Proof.
  unfold SetControllerReference, upsertOwnerRef. by repeat case_match; intros; simplify_eq.
Qed.

(** The mutate function after its reference: the part that sets the rest. *)
Ltac controller_reference r m' Href Hfin :=
  match goal with
  | |- context [SetControllerReference KDriver ?owner ?m] =>
      pose proof (SetControllerReference_spec KDriver owner m) as Href;
      pose proof (SetControllerReference_finalizers KDriver owner m) as Hfin;
      destruct (SetControllerReference KDriver owner m) as [?|m'];
      [by simpl; eexists _, (Some _)|specialize (Hfin _ eq_refl)]
  end.

(** The same for a config map, whose owner reference is toggled. *)
Ltac owner_reference m' Href Hfin :=
  match goal with
  | |- context [ToggleOwnerReference true ?m KDriver ?owner] =>
      pose proof (ToggleOwnerReference_finalizers true m KDriver owner) as Hfin;
      destruct (ToggleOwnerReference true m KDriver owner) as [[m' ?] [?|]] eqn:Href;
      simpl in Hfin;
      [by eexists _, (Some _); split; [done|]; eapply ToggleOwnerReference_error
      |apply ToggleOwnerReference_on in Href]
  end.

Lemma key_name {k} (x : obj k) key : ObjectKeyFromObject k x = key → Meta_Name (meta_of k x) = Key_Name key.
Proof. by intros <-. Qed.

Section each.
Variable r : driverReconcile.

Notation nth_target i := (nth i (targets r) (Target KNode (in_ns r "") (λ _, True) True True)).

Lemma replicas_wp :
  wp look_spec (getControllerPluginReplicas (Replicas (ctrl_spec r)))
    (λ _ q, ∃ n, q = Done n ∧ replicas_ok r n) tt.
Proof.
  unfold getControllerPluginReplicas, replicas_ok.
  destruct (Replicas (ctrl_spec r)) as [n|]; simpl; [by eauto|]. split; [done|].
  intros [e|items] [] _; simpl; eexists; (split; [done|]).
  - by right.
  - unfold cap_replicas. destruct (_ && _); [by left|by right].
Qed.

Lemma csi_configmap_shape : shape (nth_target 0) (reconcileCsiConfigMap r).
Proof.
  apply (shape_create (nth_target 0)); [done|done|]. intros x. unfold mutate_csi_configmap.
  owner_reference m Href Hfin. by eexists _, None.
Qed.

Lemma logrotate_shape : shape (nth_target 1) (reconcileLogRotateConfigMap r).
Proof.
  unfold reconcileLogRotateConfigMap. destruct (logRotationSpec r) as [rotation|] eqn:Hr.
  - apply (shape_create (nth_target 1)); [simpl; congruence|done|]. intros x. unfold mutate_logrotate.
    owner_reference m Href Hfin.
    destruct (rotation_invalid rotation) eqn:Hi; [by eexists _, (Some _)|].
    eexists _, None. split; [done|]. split; [|done]. intros _. split; [done|]. by exists rotation.
  - apply (shape_delete (nth_target 1)); [by intros []|done].
Qed.

Lemma deployment_shape : shape (nth_target 3) (reconcileControllerPluginDeployment oe r).
Proof.
  apply (shape_create (nth_target 3)); [done|done|]. intros x. unfold mutate_deployment.
  controller_reference r m Href Hfin. apply wp_bind. eapply wp_mono; [apply replicas_wp|].
  intros [] ? (n & -> & Hn). simpl. eexists _, _. split; [done|]. split; [|done]. intros Hk.
  apply key_name in Hk. simpl in Hk. split; [done|]. exists n. by rewrite <-Hk.
Qed.

Lemma ctrl_policy_shape : shape (nth_target 4) (reconcileControllerPluginNetworkPolicy r).
Proof.
  unfold reconcileControllerPluginNetworkPolicy. destruct (ctrl_hostNetwork r) eqn:Hh.
  - apply (shape_delete (nth_target 4)); simpl; congruence.
  - apply (shape_create (nth_target 4)); [done|done|]. intros x. unfold mutate_network_policy.
    controller_reference r m Href Hfin. simpl. eexists _, _. split; [done|]. split; [|done]. intros Hk.
    apply key_name in Hk. simpl in Hk. split; [done|]. split; [done|]. simpl. by rewrite Hk.
Qed.

Lemma node_daemonset_shape : shape (nth_target 5) (reconcileNodePluginDaemonSet oe r).
Proof.
  apply (shape_create (nth_target 5)); [done|done|]. intros x. unfold mutate_node_daemonset.
  controller_reference r m Href Hfin. cbn [wp bind trigger mbind prog_bind]. split; [done|].
  intros kernel [] Hkernel. cbn [wp bind trigger mbind prog_bind]. split; [done|].
  intros fuse [] Hfuse. simpl. eexists _, _. split; [done|]. split; [|done]. intros Hk.
  apply key_name in Hk. simpl in Hk. split; [done|]. exists kernel, fuse. by rewrite <-Hk.
Qed.

Lemma service_shape : shape (nth_target 6) (reconcileLivenessService r).
Proof.
  unfold reconcileLivenessService. destruct (Liveness (driver_spec r)) as [liveness|] eqn:Hl.
  - apply (shape_create (nth_target 6)); [simpl; congruence|done|]. intros x. unfold mutate_liveness_service.
    controller_reference r m Href Hfin. simpl. eexists _, _. split; [done|]. split; [|done]. intros _.
    split; [done|]. by exists liveness.
  - apply (shape_delete (nth_target 6)); [by intros []|done].
Qed.

Lemma addons_daemonset_shape :
  shape (nth_target 7) (reconcileNodePluginDaemonSetForCsiAddons oe r).
Proof.
  unfold reconcileNodePluginDaemonSetForCsiAddons.
  destruct (volume_condition r) as [e|condition] eqn:Hc; [by constructor|].
  destruct (with_addons_daemonset r) eqn:Hw; cbn [negb].
  - apply (shape_create (nth_target 7)); [done|done|]. intros x. unfold mutate_addons_daemonset.
    controller_reference r m Href Hfin. simpl. eexists _, _. split; [done|]. split; [|done]. intros Hk.
    apply key_name in Hk. simpl in Hk. do 2 (split; [done|]). exists condition. by rewrite <-Hk.
  - apply (shape_delete (nth_target 7)); simpl; congruence.
Qed.

Lemma addons_policy_shape :
  shape (nth_target 8) (reconcileNodePluginCsiAddonsNetworkPolicy r).
Proof.
  unfold reconcileNodePluginCsiAddonsNetworkPolicy.
  destruct (isNfsDriver r) eqn:Hn; [apply (shape_skip (nth_target 8)); simpl; intros []; congruence|].
  destruct (deployCsiAddons r) eqn:Hd; cbn [negb].
  - apply (shape_create (nth_target 8)); [done|done|]. intros x. unfold mutate_network_policy.
    controller_reference r m Href Hfin. simpl. eexists _, _. split; [done|]. split; [|done]. intros Hk.
    apply key_name in Hk. simpl in Hk. do 3 (split; [done|]). simpl. by rewrite Hk.
  - apply (shape_delete (nth_target 8)); simpl; [intros []; congruence|done].
Qed.

Lemma csidriver_mutated (x : CSIDriver) :
  ∃ y, mutate_csidriver r x = mret (y, None) ∧ desired_csidriver r y
       ∧ meta_key (CSID_Meta y) = meta_key (CSID_Meta x) ∧ Meta_UID (CSID_Meta y) = Meta_UID (CSID_Meta x)
       ∧ Meta_Finalizers (CSID_Meta y) = Meta_Finalizers (CSID_Meta x).
Proof.
  eexists. split; [done|]. unfold desired_csidriver, AddAnnotation. simpl. split.
  - split.
    + destruct (Meta_Annotations (CSID_Meta x) !! ownerRefAnnotationKey) as [v|] eqn:Hv; simpl.
      * destruct (String.eqb_spec v (Marshal_key (meta_key (Driver_Meta (driver r))))); simpl;
          [by rewrite Hv; subst|apply lookup_insert_eq].
      * apply lookup_insert_eq.
    + split_and!; [|done..]. by destruct (AttachRequired (driver_spec r)).
  - by repeat case_match.
Qed.

Lemma recreated_desired (c : CSIDriver) :
  meta_key (CSID_Meta c) = {| Key_Namespace := ""; Key_Name := driver_name r |} →
  desired_csidriver r c →
  desired_csidriver r (recreated c)
  ∧ meta_key (CSID_Meta (recreated c)) = {| Key_Namespace := ""; Key_Name := driver_name r |}.
Proof. unfold meta_key. intros [= _ Hn] H. split; [exact H|]. simpl. by rewrite Hn. Qed.

Lemma csidriver_mutates : mutates (nth_target 2) (mutate_csidriver r).
Proof.
  intros x. destruct (csidriver_mutated x) as (y & -> & Hy & _ & _ & Hf). by exists y, None.
Qed.

(** The mutate function leaves the UID of a new object empty. *)
Lemma csidriver_fresh (c : obj KCSIDriver) :
  Meta_UID (CSID_Meta (c : CSIDriver)) = "" →
  wp look_spec (mutate_csidriver r c)
    (λ _ q, ∀ y err, q = Done (y, err) → Meta_UID (CSID_Meta (y : CSIDriver)) = "") tt.
Proof.
  intros Hu. destruct (csidriver_mutated c) as (y & -> & _ & _ & Hy & _).
  intros ? ? [= <- _]. congruence.
Qed.

(** An object that was refused is the CSIDriver the reconciler submitted. *)
Lemma csidriver_refused (c : CSIDriver) :
  submits (nth_target 2) KCSIDriver c →
  meta_key (CSID_Meta c) = {| Key_Namespace := ""; Key_Name := driver_name r |}
  ∧ desired_csidriver r (recreated c)
  ∧ meta_key (CSID_Meta (recreated c)) = {| Key_Namespace := ""; Key_Name := driver_name r |}.
Proof.
  intros (e & Hc & Hk). simpl in e. rewrite (proof_irrel e eq_refl) in Hc.
  unfold eq_rect_r in Hc. simpl in Hc, Hk. split; [exact Hk|]. by apply recreated_desired.
Qed.

Lemma csidriver_reconciles : reconciles (nth_target 2) (reconcileK8sCsiDriver r).
Proof.
  unfold reconciles, reconcileK8sCsiDriver. apply wp_bind.
  eapply wp_mono; [apply (reconciles_CreateOrUpdate (nth_target 2) _ _
    (λ c : obj KCSIDriver, Meta_UID (CSID_Meta (c : CSIDriver)) = ""));
    [done|apply csidriver_mutates|done|by apply csidriver_fresh]|].
  intros ph ? (Hph & c & res & err & -> & Hinv). cbv beta iota zeta.
  destruct err as [e|]; [|rewrite andb_false_r; by split; [eexists|]].
  destruct (IsInvalid e) eqn:He; [|rewrite andb_false_r; by split; [eexists|]].
  destruct (Hinv e eq_refl He) as [->|[(Hk & Hd & Hkr)%csidriver_refused ->]];
    [by split; [eexists|]|].
  destruct (negb _ && true); [|by split; [eexists|]].
  simpl. split; [split; [by split_and!; [|exact Hk|right]|by right]|].
  intros [e2|] ph' [-> _]; simpl; [by split; [eexists|]|].
  split; [split; [by exists eq_refl|done]|]. intros [e3|o] ph' [-> _]; simpl; by split; [eexists|].
Qed.

(** All reconcilers but the third, at the place of their target. *)
Lemma reconcilers_shapes i t p :
  targets r !! i = Some t → reconcilers oe r !! i = Some p → i ≠ 2 → shape t p.
Proof.
  intros Ht Hp Hi. destruct i as [|[|[|[|[|[|[|[|[|i]]]]]]]]]; simplify_eq/=.
  - exact csi_configmap_shape.
  - exact logrotate_shape.
  - exact deployment_shape.
  - exact ctrl_policy_shape.
  - exact node_daemonset_shape.
  - exact service_shape.
  - exact addons_daemonset_shape.
  - exact addons_policy_shape.
Qed.

Lemma reconcilers_targets : Forall2 reconciles (targets r) (reconcilers oe r).
Proof.
  apply Forall2_same_length_lookup_2; [done|]. intros i t p Ht Hp.
  destruct (decide (i = 2)) as [->|Hi]; [simplify_eq/=; exact csidriver_reconciles|].
  by eapply shape_reconciles, reconcilers_shapes.
Qed.

(** ** The targets are apart *)

Lemma logrotate_name_ne : CsiConfigVolume_Name ≠ LogRotateConfigMapName (driver_name r).
Proof.
  intros H. apply (f_equal String.length) in H. unfold LogRotateConfigMapName in H.
  rewrite string_length_app in H. simpl in H. lia.
Qed.

Definition place (t : target) : kind * NamespacedName := (target_kind t, target_key t).

Lemma targets_apart : NoDup (place <$> targets r).
Proof.
  unfold place. simpl. repeat (apply NoDup_cons; split); [..|apply NoDup_nil_2].
  all: rewrite list_elem_of_In; simpl; intuition (simplify_eq; try done).
  - by apply logrotate_name_ne.
Qed.

End each.
End driver_targets.
