(* ===== verification/DriverTheorems.v ===== *)
(** * One iteration of the Driver controller: properties

    What the nine concurrent reconcilers ask the server for, on which objects,
    and that they always return; the outcome of the concurrent part; and the
    single pieces: the claim on the CSIDriver, replicas, log rotation, ports. *)
From S2P Require Import Prelude Prog K8s ApiTypes Cluster CoreUtils Concurrency CsiUtils Json.
From S2P Require Import JsonCodec Server DriverSpec ControllerPlugin NodePlugin DriverReconcile DriverTargets.

Section driver_theorems.
Context {lib : ApiLib} `{EQ : !SemanticEquality} `{JT : !JsonErrorText} (oe : OperatorEnv).

Section each.
Variable r : driverReconcile.

Notation nth_target i := (nth i (targets oe r) (Target KNode (in_ns r "") (λ _, True) True True)).

(** C1: each of the nine reconcilers returns, whatever the server answers;
    it creates, updates and deletes nothing but the object it is for, and what
    it submits for that object is what the driver's spec asks for: controlled
    by the driver, or owned by it (the config maps), or annotated with it (the
    CSIDriver).  It deletes the object only when the spec disables it; the
    CSIDriver, which is never disabled, only after an update of it was refused
    as Invalid, and once that delete succeeded it submits the CSIDriver again.
    No two of the reconcilers, which run concurrently, are for the same
    object. *)
Theorem reconcilers_desired :
  Forall2 reconciles (targets oe r) (reconcilers oe r) ∧ NoDup (place <$> targets oe r).
Proof. split; [apply reconcilers_targets|apply targets_apart]. Qed.

(** ** The concurrent part *)

Lemma api_answers T (e : call T) (w : store) : ∃ t w', post api_spec _ e t w w'.
Proof.
  destruct e as [k key|k opts|k o|k o|k o|k key|m| |]; simpl.
  - by exists (inl (Errorf "")), w.
  - by exists (inl (Errorf "")), w.
  - by exists (inl (Errorf "")), w.
  - by exists (inl (Errorf "")), w.
  - by exists (inl (Errorf "")), w.
  - by exists (Some (Errorf "")), w.
  - by exists (map_to_list m), w.
  - by exists tt, w.
  - by exists tt, w.
Qed.

Lemma api_order t T (e : call T) x w w' ph :
  post api_spec _ e x w w' → post (target_spec t) _ e x ph (next_phase t T e x ph).
Proof. intros H. split; [done|]. destruct e; simpl in *; try done. by destruct H. Qed.

Lemma reconciles_no_panic t p m : reconciles t p → ¬ panics api_spec p m.
Proof.
  unfold reconciles. generalize Settled.
  induction p as [a|m'|T e k IH]; simpl; intros ph; [by intros _ []|by intros [[? ?] _]|].
  intros [_ Hk] (x & w & w' & Hpost & Hp). eapply (IH x); [|done].
  by apply Hk, (api_order t _ _ _ w w').
Qed.

Lemma errors_Join_nil errs : errors_Join errs = None ↔ Forall (λ e, e = None) errs.
Proof.
  unfold errors_Join. induction errs as [|[e|] errs IH]; simpl.
  - by split.
  - split; [done|]. by inversion 1.
  - rewrite IH. split; [by constructor|]. by inversion 1.
Qed.

(** C15: against any server that keeps to the specification, every run of the
    concurrent part of an iteration ends, with all nine reconcilers having
    returned, however they interleave: it cannot block, crash or lose a
    result.  The iteration then succeeds exactly when every reconciler did. *)
Theorem driver_iteration_result (w : store) :
  Acc (flip (pstep api_spec)) (driver_start oe r w)
  ∧ ∀ s, rtc (pstep api_spec) (driver_start oe r w) s →
      (∃ s', pstep api_spec s s')
      ∨ ∃ w' ts errs vs, s = Pool w' ts true errs true
          ∧ Forall2 (returns api_spec) (reconcilers oe r) vs ∧ errs ≡ₚ vs
          ∧ (driver_result errs = None ↔ Forall (λ v, v = None) vs).
Proof.
  destruct (RunConcurrently_runs api_spec w (reconcilers oe r) api_answers) as [Hacc Hrun].
  split; [exact Hacc|]. intros s Hs.
  destruct (Hrun s Hs) as [?|[(m & p & _ & Hp & Hpanic)|(w' & ts & errs & vs & -> & Hvs & Hperm)]].
  - by left.
  - exfalso. apply list_elem_of_lookup in Hp as [i Hi].
    destruct (Forall2_lookup_r _ _ _ _ _ (reconcilers_targets oe r) Hi) as (t & _ & Ht).
    by eapply reconciles_no_panic.
  - right. exists w', ts, errs, vs. do 3 (split; [done|]).
    unfold driver_result. by rewrite errors_Join_nil, Hperm.
Qed.

(** ** Network policies *)

Definition open_ports (rules : list NetworkPolicyIngressRule) : list NetworkPolicyPort :=
  rules ≫= Ingress_Ports.

Definition container_ports (cs : list Container) : list NetworkPolicyPort :=
  (λ p, tcp_port (ContainerPort_Port p)) <$> (cs ≫= Container_Ports).

Lemma tls_container :
  container_ports (match IndexFunc tls_volume (ctrl_volumes r) ≫= (λ i, ctrl_volumes r !! i) with
                   | Some tls => [snapshot_metadata_container r tls]
                   | None => []
                   end)
  = if ContainsFunc tls_volume (ctrl_volumes r)
    then [tcp_port (ContainerPort_Port SnapshotMetadataGrpcPort)] else [].
Proof.
  unfold ContainsFunc. destruct (IndexFunc tls_volume (ctrl_volumes r)) as [i|] eqn:Hi; [|done].
  apply IndexFunc_Some in Hi as (v & Hv & _). simpl. by rewrite Hv.
Qed.

Lemma container_ports_app cs cs' : container_ports (cs ++ cs') = container_ports cs ++ container_ports cs'.
Proof. unfold container_ports. by rewrite bind_app, fmap_app. Qed.

Lemma nfs_driver :
  isNfsDriver r = true →
  isRbdDriver r = false
  ∧ controllerPluginCsiAddonsContainerPort r = ControllerPluginCsiAddonsContainerRbdPort.
Proof.
  unfold isNfsDriver, isRbdDriver, controllerPluginCsiAddonsContainerPort, isCephFsDriver.
  by intros ->%String.eqb_eq.
Qed.

(** C30: the ports the network policy of the controller plugin opens are, in
    order, the ports its containers declare, except for an NFS driver with
    CSI-Addons: its policy opens the CSI-Addons port, and no container of the
    pod listens there. *)
Theorem ctrl_policy_ports :
  open_ports (ctrl_ingress r)
  = (if isNfsDriver r && deployCsiAddons r
     then [tcp_port (ContainerPort_Port ControllerPluginCsiAddonsContainerRbdPort)] else [])
    ++ container_ports (ctrl_containers r).
Proof.
  unfold ctrl_ingress, ctrl_containers, open_ports. rewrite !container_ports_app.
  assert (Hnil : ∀ (b : bool) c, Container_Ports c = [] → container_ports (if b then [c] else []) = []).
  { intros [] c Hc; [|done]. unfold container_ports. simpl. by rewrite Hc. }
  rewrite (Hnil (with_snapshotter r)), (Hnil (with_ex_snapshotter r)), (Hnil (with_omap_generator r)),
    (Hnil (logRotationEnabled r)) by done.
  assert (Hlive : container_ports (match Liveness (driver_spec r) with
            | Some liveness => [ctrl_liveness_container r liveness] | None => [] end) = [])
    by (by destruct (Liveness (driver_spec r))).
  rewrite Hlive, bind_app, !app_nil_l. change (container_ports [_; _; _; _]) with (@nil NetworkPolicyPort).
  pose proof tls_container as Htls. unfold with_ctrl_addons.
  destruct (isNfsDriver r) eqn:Hn; [destruct (nfs_driver Hn) as [-> Hp]|destruct (isRbdDriver r)];
    destruct (deployCsiAddons r); simpl; rewrite ?Htls, ?Hp; try done;
    by destruct (ContainsFunc tls_volume (ctrl_volumes r)).
Qed.

(** ** The claim on the CSIDriver *)

Definition csidriver_key : NamespacedName := {| Key_Namespace := ""; Key_Name := driver_name r |}.

Lemma Unmarshal_Marshal_key k :
  valid_utf8 (Key_Namespace k) = true → valid_utf8 (Key_Name k) = true →
  Unmarshal_key (Marshal_key k) = Some k.
Proof.
  intros Hns Hn. unfold Unmarshal_key, Marshal_key. rewrite (carried_roundtrip 1); [by destruct k| |done].
  constructor. repeat apply Forall_cons_2; try apply Forall_nil_2; simpl; (split; [done|by constructor]).
Qed.

Lemma Marshal_key_nonempty k : Marshal_key k ≠ "".
Proof. done. Qed.

Lemma check_claim r' c :
  valid_utf8 (driver_ns r) = true → valid_utf8 (driver_name r) = true →
  Meta_UID (CSID_Meta c) ≠ "" →
  Meta_Annotations (CSID_Meta c) !! ownerRefAnnotationKey = Some (Marshal_key (driver_key r)) →
  check_csiDriver r' c = None ↔ driver_key r' = driver_key r.
Proof.
  intros Hns Hn Huid Ha. unfold check_csiDriver. rewrite Ha. cbn [default from_option id].
  destruct (String.eqb_spec (Meta_UID (CSID_Meta c)) ""); [done|]. cbn [negb].
  destruct (String.eqb_spec (Marshal_key (driver_key r)) "") as [He|];
    [by apply Marshal_key_nonempty in He|].
  rewrite Unmarshal_Marshal_key by done. unfold driver_key, meta_key. cbn [Key_Namespace Key_Name].
  unfold driver_ns, driver_name.
  destruct (String.eqb_spec (Meta_Namespace (Driver_Meta (driver r'))) (Meta_Namespace (Driver_Meta (driver r))));
  destruct (String.eqb_spec (Meta_Name (Driver_Meta (driver r'))) (Meta_Name (Driver_Meta (driver r))));
    simpl; split; try done; congruence.
Qed.

(** What holds whatever the server answers holds of one that keeps to the
    specification. *)
Lemma api_wp {A} t (p : M A) Q w ph :
  wp (target_spec t) p Q ph → wp api_spec p (λ _ o, ∃ ph', Q ph' o) w.
Proof.
  revert w ph. induction p as [a|m|T e k IH]; simpl; intros w ph; [by eauto..|].
  intros [_ Hk]. split; [done|]. intros x w' Hpost. by eapply IH, Hk, (api_order t _ _ _ w w').
Qed.

Definition claimed (s : store) : Prop :=
  ∃ c, stored s KCSIDriver csidriver_key = Some c
       ∧ Meta_Annotations (CSID_Meta c) !! ownerRefAnnotationKey = Some (Marshal_key (driver_key r)).

Lemma claimed_put (y o : obj KCSIDriver) s :
  desired_csidriver r y → meta_key (CSID_Meta y) = csidriver_key → accepted KCSIDriver y o →
  claimed (put KCSIDriver o s).
Proof.
  intros [Ha _] Hk Hacc. pose proof (accepted_key _ _ _ Hacc) as Hk'.
  assert (csidriver_key = ObjectKeyFromObject KCSIDriver o) as Heq by (by rewrite <-Hk', <-Hk).
  exists o. rewrite Heq. split; [apply stored_put_eq|].
  apply accepted_fields in Hacc. unfold client_fields in Hacc.
  injection Hacc as _ _ _ Hann _ _. simpl in Hann. by rewrite <-Hann.
Qed.

Lemma wp_csidriver s :
  wp api_spec (reconcileK8sCsiDriver r)
    (λ s' o, match o with Done None => claimed s' | Done (Some _) => True | Panicked _ => False end) s.
Proof.
  unfold reconcileK8sCsiDriver. apply wp_bind.
  eapply wp_mono; [apply wp_and|].
  - apply (wp_CreateOrUpdate (k := KCSIDriver) _ _ (λ x y, desired_csidriver r y
      ∧ Meta_Finalizers (CSID_Meta (y : CSIDriver)) = Meta_Finalizers (CSID_Meta (x : CSIDriver)))).
    { by intros x y []. }
    intros x _. destruct (csidriver_mutated r x) as (y & -> & Hy & _ & _ & Hf). simpl.
    split; [done|]. by exists y, None.
  - eapply (api_wp (nth_target 2)), (reconciles_CreateOrUpdate (nth_target 2) _ _
      (λ c : obj KCSIDriver, Meta_UID (CSID_Meta (c : CSIDriver)) = ""));
      [done|apply csidriver_mutates|done|by apply csidriver_fresh].
  - intros s' ? [Hs (ph & _ & c & res & err & -> & Hinv)]. cbv beta iota zeta.
    destruct err as [e|].
    + destruct (IsInvalid e) eqn:He; [|by rewrite andb_false_r].
      destruct (Hinv e eq_refl He) as [->|[(_ & Hd & Hkr)%csidriver_refused _]]; [done|].
      destruct (negb _ && true); [|done]. split; [done|]. intros [e2|] s2 _; simpl; [done|].
      split; [done|]. intros [e3|o] s3; simpl; [done|]. intros (_ & Hacc & ->). by eapply claimed_put.
    + rewrite andb_false_r. simpl.
      destruct Hs as (x & y & Hb & [Hy _] & Hkey & [[Hacc ->]|(-> & -> & Heq & Hx)]).
      * by eapply claimed_put.
      * exists x. split; [done|]. apply DeepEqual_meta in Heq. simpl in Heq. rewrite Heq. apply Hy.
Qed.

(** C17: when a driver has reconciled its CSIDriver, also by recreating it,
    the stored CSIDriver is claimed by that driver alone: the check every
    iteration starts with accepts it for a driver of the same namespace and
    name and rejects it for every other one. *)
Theorem csidriver_claim s :
  valid_utf8 (driver_ns r) = true → valid_utf8 (driver_name r) = true →
  wp api_spec (reconcileK8sCsiDriver r)
    (λ s' o, match o with
             | Done None => ∃ c, stored s' KCSIDriver csidriver_key = Some c
                 ∧ (Meta_UID (CSID_Meta c) ≠ "" →
                    ∀ r', check_csiDriver r' c = None ↔ driver_key r' = driver_key r)
             | Done (Some _) => True
             | Panicked _ => False
             end) s.
Proof.
  intros Hns Hn. eapply wp_mono; [apply wp_csidriver|]. intros s' [[e|]|m]; try done.
  intros (c & Hc & Ha). exists c. split; [done|]. intros Huid r'. by apply check_claim.
Qed.

(** ** Replicas *)

Lemma cap_replicas_spec n : cap_replicas n = if decide (n = 1) then 1%Z else 2%Z.
Proof.
  unfold cap_replicas, defaultControllerPluginReplicas.
  destruct (decide (n = 1)) as [->|Hn]; [done|].
  destruct (Nat.ltb_spec 0 n), (Z.ltb_spec (Z.of_nat n) 2); simpl; lia.
Qed.

(** The controller plugin gets the number of replicas the spec asks for;
    without one it gets two, or one on a cluster of exactly one node.  The
    nodes are only read, and an error of the listing counts as many nodes. *)
Theorem getControllerPluginReplicas_spec (specReplicas : option Z) s :
  wp api_spec (getControllerPluginReplicas specReplicas)
    (λ s' o, s' = s ∧ ∃ n, o = Done n ∧
       match specReplicas with
       | Some m => n = m
       | None => n = 2%Z
                 ∨ n = 1%Z ∧ length (listing KNode (s KNode)
                                       {| InNamespace := None; MatchingFields := None |}) = 1
       end) s.
Proof.
  unfold getControllerPluginReplicas. destruct specReplicas as [m|]; simpl; [by eauto|].
  split; [done|]. intros [e|items] s'; simpl.
  - intros [-> _]. split; [done|]. eexists. split; [done|]. by left.
  - intros [-> Hl]. split; [done|]. eexists. split; [done|]. rewrite cap_replicas_spec.
    apply Permutation_length in Hl. rewrite Hl. destruct (decide _); [by right|by left].
Qed.

(** ** Log rotation *)

(** C40: a log rotation with a periodicity and no maximal size is rejected: the
    reconciler fails and writes nothing, although the message it logs, and the
    rule of the custom resource, ask for either of the two. *)
Theorem logrotate_periodicity_rejected rotation s :
  logRotationSpec r = Some rotation →
  Periodicity rotation ≠ "" → Quantity_IsZero (MaxLogSize rotation) = true →
  wp api_spec (reconcileLogRotateConfigMap r) (λ s' o, s' = s ∧ ∃ err, o = Done (Some err)) s.
Proof.
  intros Hr Hp Hz. unfold reconcileLogRotateConfigMap. rewrite Hr. apply wp_bind.
  eapply wp_mono; [apply (wp_CreateOrUpdate (k := KConfigMap) _ _ (λ _ _, False))|].
  - done.
  - intros x _. unfold mutate_logrotate.
    destruct (ToggleOwnerReference true _ KDriver _) as [[m c] [e|]]; simpl.
    { split; [done|]. by eexists _, (Some _). }
    unfold rotation_invalid. rewrite Hz. destruct (String.eqb_spec (Periodicity rotation) ""); [done|].
    simpl. split; [done|]. by eexists _, (Some _).
  - intros s' [[[o' res] [e|]]|m]; simpl; [by eauto|by intros (? & ? & _ & [] & _)|done].
Qed.

(** ** Liveness *)

(** A liveness service selects no pod: every service the reconciler
    submits has an empty selector, while the node plugin's pods carry the
    label [contains] for it. *)
Theorem liveness_service_selects_nothing liveness :
  Liveness (driver_spec r) = Some liveness →
  (∀ s, desired_service r s → Service_Selector (Svc_Spec s) = ∅)
  ∧ ∀ appName, node_pod_labels r appName !! "contains" = Some (appName ++ "-metrics")%string.
Proof.
  intros Hl. split.
  - intros s (_ & l & _ & ->). done.
  - intros appName. unfold node_pod_labels. rewrite Hl. apply lookup_insert_eq.
Qed.

End each.

(** The names of the liveness services of two drivers of one namespace
    can collide: distinct driver names that the name check accepts have the
    same service name. *)
Theorem generateServiceName_collides :
  ∃ r1 r2 : driverReconcile,
    driver_ns r1 = driver_ns r2 ∧ driver_name r1 ≠ driver_name r2
    ∧ name_type (driver_name r1) = Some "rbd" ∧ name_type (driver_name r2) = Some "rbd"
    ∧ generateServiceName r1 "liveness" = generateServiceName r2 "liveness".
Proof.
  set (mk name := {| driver := {| Driver_Meta := new_meta "ns" name; Driver_Spec := zero_DriverSpec |};
                     driverType := "rbd"; images := imageDefaults |}).
  exists (mk "a.b.rbd.csi.ceph.com"), (mk "a-b.rbd.csi.ceph.com").
  split; [reflexivity|]. split; [vm_compute; discriminate|].
  split; [vm_compute; reflexivity|]. split; vm_compute; reflexivity.
Qed.

End driver_theorems.

(** ** Examples *)

#[local] Existing Instance plain_lib.
#[local] Existing Instance example_equality.
#[local] Instance example_error_text : JsonErrorText := λ _, "invalid".

Definition example_spec (rotation : LogRotationSpec) : DriverSpec := {|
  Log := Some {| Verbosity := 0; Rotation := Some rotation |};
  ImageSet := None; ClusterName := None; EnableMetadata := None; EnableFencing := None;
  GRpcTimeout := 0; SnapshotPolicy := ""; GenerateOMapInfo := None; FsGroupPolicy := "";
  Encryption := None; NodePlugin := None; ControllerPlugin := None; AttachRequired := None;
  Liveness := Some {| MetricsPort := 9000 |}; LeaderElection := None; DeployCsiAddons := Some true;
  CephFsClientType := ""; KernelMountOptions := None; FuseMountOptions := None |}.

Definition example_rotation (size : Z) : LogRotationSpec :=
  {| MaxFiles := 3; MaxLogSize := (size : Quantity); Periodicity := "daily"; LogHostPath := "" |}.

Definition example_driver (size : Z) : driverReconcile := {|
  driver := {| Driver_Meta := new_meta "ns" "x.rbd.csi.ceph.com";
               Driver_Spec := example_spec (example_rotation size) |};
  driverType := "rbd"; images := imageDefaults |}.

Definition example_env : OperatorEnv :=
  {| operatorNamespace := "op"; operatorConfigName := "conf"; serviceAccountPrefix := "" |}.

Lemma csidriver_claim_witness :
  wp api_spec (reconcileK8sCsiDriver (example_driver 1))
    (λ s' o, match o with
             | Done None => ∃ c, stored s' KCSIDriver (csidriver_key (example_driver 1)) = Some c
                 ∧ (Meta_UID (CSID_Meta c) ≠ "" →
                    ∀ r', check_csiDriver r' c = None ↔ driver_key r' = driver_key (example_driver 1))
             | Done (Some _) => True
             | Panicked _ => False
             end) empty_store
  ∧ (run memory_server (reconcileK8sCsiDriver (example_driver 1)) empty_store).2 = Done None.
Proof.
  split; [|by vm_compute].
  apply (csidriver_claim example_env (example_driver 1) empty_store); vm_compute; reflexivity.
Defined.

Lemma logrotate_periodicity_rejected_witness :
  wp api_spec (reconcileLogRotateConfigMap (example_driver 0))
    (λ s' o, s' = empty_store ∧ ∃ err, o = Done (Some err)) empty_store.
Proof.
  apply (logrotate_periodicity_rejected (example_driver 0) (example_rotation 0) empty_store);
    [reflexivity|discriminate|reflexivity].
Defined.

Definition example_service : Service := {|
  Svc_Meta := SetOwnerReferences [controller_ref KDriver (Driver_Meta (driver (example_driver 1)))]
                (new_meta "ns" "x-rbd-csi-ceph-com-liveness");
  Svc_Spec := liveness_service_spec {| MetricsPort := 9000 |} |}.

Lemma liveness_service_selects_nothing_witness :
  desired_service (example_driver 1) example_service ∧ Service_Selector (Svc_Spec example_service) = ∅.
Proof.
  assert (Hs : desired_service (example_driver 1) example_service).
  { split; [reflexivity|]. by exists {| MetricsPort := 9000 |}. }
  split; [exact Hs|].
  exact (proj1 (liveness_service_selects_nothing (example_driver 1) {| MetricsPort := 9000 |} eq_refl) _ Hs).
Defined.
