(* ===== verification/DriverIteration.v ===== *)
(** * One iteration of the Driver controller, end to end

    The nine reconcilers run concurrently against one store.  Each is about
    one object, its target, so that each can be proved alone against the
    object it sees ([local]) and the goroutines of a run be composed by
    [RunConcurrently_framed]: what an iteration that succeeds leaves in the
    store is exactly what the driver's spec asks for. *)
From S2P Require Import Prelude Prog K8s ApiTypes Cluster CoreUtils Concurrency CsiUtils Json.
From S2P Require Import JsonCodec Server DriverSpec ControllerPlugin NodePlugin DriverReconcile.
From S2P Require Import DriverSpecTheorems DriverTargets DriverTheorems.

Section driver_iteration.
Context {lib : ApiLib} `{EQ : !SemanticEquality} `{JT : !JsonErrorText} (oe : OperatorEnv).

(** ** A target in the store *)

Definition seen_by (t : target) (s : store) : option (obj (target_kind t)) :=
  stored s (target_kind t) (target_key t).

(** The object is there with content [y] that the spec asks for, as the server
    keeps it: the metadata of the client as they are, the data of a config map
    as they are, and in the other objects every field of the spec that is set
    in [y]. *)
Definition installed (t : target) (v : option (obj (target_kind t))) : Prop :=
  ∃ o y, v = Some o ∧ content t y ∧ ObjectKeyFromObject _ y = target_key t
         ∧ client_fields (meta_of _ y) = client_fields (meta_of _ o) ∧ spec_kept _ y o.

(** The object is not there, or is on its way out. *)
Definition gone (t : target) (v : option (obj (target_kind t))) : Prop :=
  ∀ o, v = Some o → being_deleted _ o = true.

Definition established (t : target) (v : option (obj (target_kind t))) : Prop :=
  (wanted t → installed t v) ∧ (¬ wanted t → obsolete t → gone t v).

(** The server as the reconciler of a target sees it: its own object, with
    whatever else the store may hold. *)
Definition local (t : target) : spec call (option (obj (target_kind t))) := {|
  pre := λ T e _, target_call t T e;
  post := λ T e x v v', ∃ s s', seen_by t s = v ∧ seen_by t s' = v' ∧ post api_spec _ e x s s';
|}.

Definition ends_established (t : target) (a : option error) (v : option (obj (target_kind t))) : Prop :=
  a = None → established t v.

Definition driver_view (t : target) : view := View _ (seen_by t) (local t) (ends_established t).

Lemma local_lookable t : lookable (local t).
Proof.
  intros T e v He. destruct e; try done; (split; [done|]).
  - by intros x v' (s & s' & <- & <- & -> & _).
  - by intros x v' (s & s' & <- & <- & -> & ?).
Qed.

(** What holds whatever the server answers. *)
Lemma local_wp {A} t (p : M A) Q v ph :
  wp (target_spec t) p Q ph → wp (local t) p (λ _ o, ∃ ph', Q ph' o) v.
Proof.
  revert v ph. induction p as [a|m|T e k IH]; simpl; intros v ph; [by eauto..|].
  intros [[He _] Hk]. split; [done|]. intros x v' (s & s' & _ & _ & Hpost).
  by eapply IH, Hk, (api_order t _ _ _ s s').
Qed.

Lemma seen_put t (o y : obj (target_kind t)) s :
  accepted _ y o → ObjectKeyFromObject _ y = target_key t → seen_by t (put _ o s) = Some o.
Proof. intros Hacc Hk. unfold seen_by. rewrite <-Hk, (accepted_key _ _ _ Hacc). apply stored_put_eq. Qed.

Lemma installed_put t (o y : obj (target_kind t)) s :
  content t y → accepted _ y o → ObjectKeyFromObject _ y = target_key t →
  installed t (seen_by t (put _ o s)).
Proof.
  intros Hc Hacc Hk. rewrite (seen_put t o y s) by done. exists o, y.
  split_and!; [done..|by apply accepted_fields|by apply accepted_kept].
Qed.

(** ** CreateOrUpdate on the target *)

Lemma local_CreateOrUpdate t (o : obj (target_kind t)) (f : MutateFn (target_kind t)) v :
  ObjectKeyFromObject _ o = target_key t → mutates t f →
  wp (local t) (CreateOrUpdate o f)
    (λ v' q, ∃ y res err, q = Done (y, res, err) ∧ (err = None → installed t v')) v.
Proof.
  intros Ho Hf. unfold CreateOrUpdate. cbn [wp bind trigger mbind prog_bind]. split; [done|].
  intros [err|existing] v' (s & s' & <- & <- & -> & Hgot); rewrite Ho in Hgot.
  - destruct (negb (IsNotFound err)); simpl; [by eexists _, _, (Some _)|].
    unfold mutate. apply wp_bind, wp_bind.
    eapply wp_mono; [apply wp_looks, Hf; apply local_lookable|].
    intros v ? (-> & y & err' & -> & Hy). cbv beta iota. destruct err' as [e|]; simpl; [by eexists _, _, (Some _)|].
    destruct (decide _) as [Hk|]; simpl; [|by eexists _, _, (Some _)]. rewrite Ho in Hk.
    destruct Hy as [Hc _]. split; [by apply submits_own; [apply Hc|]|].
    intros [e|o'] v' (s1 & s2 & Hs1 & <- & Hpost); simpl in *; [by eexists _, _, (Some _)|].
    destruct Hpost as (_ & Hacc & ->). eexists _, _, _. split; [done|]. intros _.
    eapply installed_put; [by apply Hc|done|done].
  - unfold mutate. apply wp_bind, wp_bind.
    eapply wp_mono; [apply wp_looks, Hf; apply local_lookable|].
    intros v ? (-> & y & err' & -> & Hy). cbv beta iota. destruct err' as [e|]; simpl; [by eexists _, _, (Some _)|].
    destruct (decide _) as [Hk|]; simpl; [|by eexists _, _, (Some _)]. rewrite Ho in Hk.
    destruct Hy as [Hc Hfin]. destruct (DeepEqual _ existing y) eqn:Heq; simpl.
    + eexists _, _, _. split; [done|]. intros _. exists existing, y. unfold seen_by.
      split_and!; [done|by apply Hc|done| |by apply DeepEqual_kept].
      by rewrite (DeepEqual_meta _ _ _ Heq).
    + split; [by apply submits_own; [apply Hc|]|].
      intros [e|o'] v' (s1 & s2 & Hs1 & <- & Hpost); simpl in *; [by eexists _, _, (Some _)|].
      destruct Hpost as (x & Hx & _ & Hacc & ->). eexists _, _, _. split; [done|]. intros _.
      rewrite update_put; [by eapply installed_put; [apply Hc|..]|].
      intros x' Hx'. rewrite <-(accepted_key _ _ _ Hacc) in Hx'.
      unfold seen_by in Hs1. rewrite <-Hk, Hs1, Hgot in Hx'. injection Hx' as <-.
      rewrite <-Hfin. apply accepted_fields in Hacc. unfold client_fields in Hacc. by injection Hacc.
Qed.

(** ** The reconcilers *)

Lemma shape_establishes t p v :
  shape t p →
  wp (local t) p (λ v' o, match o with Done a => ends_established t a v' | Panicked _ => False end) v.
Proof.
  destruct 1 as [o f Hw Ho Hf|Hw Ho|Hw Ho|e].
  - apply wp_bind. eapply wp_mono; [by apply local_CreateOrUpdate|].
    intros v' ? (y & res & err & -> & H). simpl. intros He. by split; [auto|].
  - simpl. split; [by split_and!; [| |left]|]. intros err v' (s & s' & <- & <- & Hpost). simpl. intros He.
    split; [done|]. intros _ _ o Hs. unfold seen_by in Hs. destruct err as [err|].
    + destruct Hpost as [-> Hnf]. simpl in He. destruct (IsNotFound err); [|done].
      specialize (Hnf eq_refl). congruence.
    + unfold deleted in Hpost. destruct (stored s _ _) as [x|]; [|done].
      destruct (finalized _ x); [subst s'; by rewrite stored_remove_eq in Hs|].
      destruct Hpost as (o' & Hdel & Hk & ->). rewrite <-Hk, stored_put_eq in Hs. by injection Hs as <-.
  - simpl. intros _. by split.
  - simpl. by intros ?.
Qed.

Section iteration.
Variable r : driverReconcile.

Notation nth_target i := (nth i (targets oe r) (Target KNode (in_ns r "") (λ _, True) True True)).

Lemma csidriver_establishes v :
  wp (local (nth_target 2)) (reconcileK8sCsiDriver r)
    (λ v' o, match o with Done a => ends_established (nth_target 2) a v' | Panicked _ => False end) v.
Proof.
  unfold reconcileK8sCsiDriver. apply wp_bind. eapply wp_mono; [apply wp_and|].
  - apply (local_CreateOrUpdate (nth_target 2)); [done|apply csidriver_mutates].
  - eapply (local_wp (nth_target 2)), (reconciles_CreateOrUpdate (nth_target 2) _ _
      (λ c : obj KCSIDriver, Meta_UID (CSID_Meta (c : CSIDriver)) = ""));
      [done|apply csidriver_mutates|done|by apply csidriver_fresh].
  - intros v' ? [(y & res & err & -> & Hin) (ph & _ & c & res' & err' & Heq & Hinv)].
    simplify_eq. cbv beta iota zeta. destruct err' as [e|].
    + destruct (IsInvalid e) eqn:He; [|by rewrite andb_false_r].
      destruct (Hinv e eq_refl He) as [->|[(Hk & Hd & Hkr)%csidriver_refused _]]; [done|].
      destruct (negb _ && true); [|done]. split; [by split_and!; [|exact Hk|right]|].
      intros [e2|] v2 _; simpl; [done|].
      split; [by exists eq_refl|]. intros [e3|o] v3 (s1 & s2 & _ & <- & Hpost); simpl; [done|].
      destruct Hpost as (_ & Hacc & ->). intros _. split; [intros _|by intros []].
      by eapply (installed_put (nth_target 2)).
    + rewrite andb_false_r. simpl. intros _. split; [auto|by intros []].
Qed.

Lemma reconcilers_establish s :
  Forall2 (λ v p, view_wp v p s) (driver_view <$> targets oe r) (reconcilers oe r).
Proof.
  apply Forall2_fmap_l, Forall2_same_length_lookup_2; [done|]. intros i t p Ht Hp.
  destruct (decide (i = 2)) as [->|Hi]; [simplify_eq/=; apply csidriver_establishes|].
  apply shape_establishes. by eapply reconcilers_shapes.
Qed.

(** ** The frame *)

(** A reconciler changes no object but its target. *)
Lemma target_step t T (e : call T) x s s' k key :
  target_call t T e → post api_spec _ e x s s' → (k, key) ≠ place t →
  stored s' k key = stored s k key.
Proof.
  intros Hpre Hpost Hne.
  assert (Hput : ∀ o : obj (target_kind t), ObjectKeyFromObject _ o = target_key t →
            stored (put _ o s) k key = stored s k key).
  { intros o Ho. apply stored_put_ne. rewrite Ho.
    destruct (decide (target_kind t = k)) as [<-|]; [right|by left]. intros ->. by apply Hne. }
  assert (Hrem : stored (remove (target_kind t) (target_key t) s) k key = stored s k key).
  { apply stored_remove_ne.
    destruct (decide (target_kind t = k)) as [<-|]; [right|by left]. intros <-. by apply Hne. }
  destruct e as [k' key'|k' opts|k' o|k' o|k' o|k' key'|m| |]; simpl in Hpre, Hpost; try done;
    try (by destruct Hpost as [-> _]); try (by subst s').
  - destruct Hpre as (e & _ & Hk). destruct e. destruct x as [err|o']; [by subst|].
    destruct Hpost as (_ & Hacc & ->). apply Hput. by rewrite <-(accepted_key _ _ _ Hacc).
  - destruct Hpre as (e & _ & Hk). destruct e. destruct x as [err|o']; [by subst|].
    destruct Hpost as (y & _ & _ & Hacc & ->). unfold update.
    rewrite (accepted_key _ _ _ Hacc) in Hk. rewrite Hk. destruct (releases _ _ _); auto.
  - destruct Hpre as (-> & -> & _). destruct x as [err|]; [by destruct Hpost as [-> _]|].
    unfold deleted in Hpost. destruct (stored s _ _) as [o|]; [|done].
    destruct (finalized _ o); [by subst s'|]. destruct Hpost as (o' & _ & Hk & ->). by apply Hput.
Qed.

(** The objects that are no target of the driver. *)
Definition elsewhere_kept (s s' : store) : Prop :=
  ∀ k key, (k, key) ∉ place <$> targets oe r → stored s' k key = stored s k key.

Lemma targets_distinct i j t t' :
  targets oe r !! i = Some t → targets oe r !! j = Some t' → i ≠ j → place t' ≠ place t.
Proof.
  intros Hi Hj Hne Heq. apply Hne. eapply NoDup_lookup; [apply (targets_apart oe r)| |].
  - by rewrite list_lookup_fmap, Hi.
  - rewrite list_lookup_fmap, Hj. simpl. by rewrite Heq.
Qed.

Lemma driver_run_establishes s s' ts errs closed returned :
  rtc (pstep api_spec) (driver_start oe r s) (Pool s' ts closed errs returned) →
  elsewhere_kept s s'
  ∧ (returned = true → driver_result errs = None → ∀ t, t ∈ targets oe r → established t (seen_by t s')).
Proof.
  intros Hrun.
  destruct (RunConcurrently_framed api_spec (driver_view <$> targets oe r) (elsewhere_kept s))
    with (6 := Hrun) as [Hkept Hends]; [| | |apply reconcilers_establish|done|].
  - intros v T e x w w' (t & -> & Ht)%list_elem_of_fmap [_ Hpost]. by exists w, w'.
  - intros i j v v' T e x w w' Hi Hj Hne [Hpre Hpost].
    rewrite list_lookup_fmap in Hi, Hj.
    destruct (targets oe r !! i) as [t|] eqn:Ht; [|done]. injection Hi as <-.
    destruct (targets oe r !! j) as [t'|] eqn:Ht'; [|done]. injection Hj as <-.
    eapply target_step; [exact Hpre|exact Hpost|]. by eapply (targets_distinct i j).
  - intros v T e x w w' (t & -> & Ht)%list_elem_of_fmap [Hpre Hpost] Hw k key Hk.
    rewrite <-(Hw k key Hk). eapply target_step; [exact Hpre|exact Hpost|].
    intros Heq. apply Hk. rewrite Heq. by apply list_elem_of_fmap_2.
  - split; [done|]. intros Hret Hres t Ht. destruct (Hends Hret) as (vs & Hvs & Hperm).
    unfold driver_result in Hres. rewrite errors_Join_nil, Hperm, Forall_forall in Hres.
    apply Forall2_fmap_l in Hvs. apply list_elem_of_lookup in Ht as [i Hi].
    destruct (Forall2_lookup_l _ _ _ _ _ Hvs Hi) as (a & Ha & Hend).
    apply Hend, Hres. by eapply list_elem_of_lookup_2.
Qed.

End iteration.

Lemma wp_driver_load (req : NamespacedName) (s : store) :
  wp api_spec (driver_load oe req)
    (λ s' o, s' = s ∧ ∃ res, o = Done res ∧ ∀ r, res = inr r →
       ∃ d, stored s KDriver req = Some d ∧ desired oe s req d r) s.
Proof.
  unfold driver_load. apply wp_bind. eapply wp_mono; [apply wp_LoadAndValidate|].
  intros s' ? (-> & r & err & -> & H). destruct err as [e|]; simpl.
  - split; [done|]. by eexists.
  - split; [done|]. eexists. split; [done|]. intros ? [= <-].
    destruct (H eq_refl) as (d & Hd & Hdes & _). exists d. by destruct req.
Qed.

(** C2: an iteration of the Driver controller first only reads, and loads the
    state the stored driver asks for.  However the nine reconcilers then
    interleave, no object but their nine is ever changed; and when the
    iteration ends without an error, each object the driver's spec asks for
    is stored with the metadata and the content the spec asks for, where the
    API server has at most filled in fields of a workload's, policy's or
    service's spec that were left unset, and each object the spec disables is
    gone, or marked for deletion. *)
Theorem driver_iteration_establishes (req : NamespacedName) (s : store) :
  wp api_spec (driver_load oe req)
    (λ s' o, s' = s ∧ ∃ res, o = Done res ∧ ∀ r, res = inr r →
       (∃ d, stored s KDriver req = Some d ∧ desired oe s req d r)
       ∧ ∀ s' ts errs closed returned,
           rtc (pstep api_spec) (driver_start oe r s) (Pool s' ts closed errs returned) →
           elsewhere_kept r s s'
           ∧ (returned = true → driver_result errs = None →
              ∀ t, t ∈ targets oe r → established t (seen_by t s'))) s.
Proof.
  eapply wp_mono; [apply wp_driver_load|]. intros s' o (-> & res & -> & H). split; [done|].
  exists res. split; [done|]. intros r Hr. split; [by apply H|].
  intros s' ts errs closed returned Hrun.
  destruct (driver_run_establishes r s s' ts errs closed returned Hrun) as [Hkept Hest].
  by split.
Qed.

End driver_iteration.

(** ** Evaluation at a concrete driver *)

#[local] Existing Instance plain_lib.
#[local] Existing Instance example_equality.
#[local] Instance example_error_text : JsonErrorText := λ _, "invalid".

Definition example_driver_req : NamespacedName :=
  {| Key_Namespace := "ns"; Key_Name := "x.rbd.csi.ceph.com" |}.

Definition example_driver_store : store :=
  put KDriver (driver (example_driver 1)) empty_store.

Definition example_loaded : driverReconcile :=
  match (run memory_server (driver_load example_env example_driver_req) example_driver_store).2 with
  | Done (inr r) => r
  | _ => example_driver 1
  end.

(** The reconcilers of the example driver, one after the other, succeed. *)
Lemma example_driver_run :
  match run_all memory_server (reconcilers example_env example_loaded) example_driver_store with
  | Some (_, l) => driver_result l = None
  | None => False
  end.
Proof. vm_compute. reflexivity. Qed.

(** A run of an iteration that succeeds, and what it establishes. *)
Lemma driver_iteration_establishes_witness :
  ∃ s' ts errs,
    rtc (pstep api_spec) (driver_start example_env example_loaded example_driver_store)
      (Pool s' ts true errs true)
    ∧ driver_result errs = None
    ∧ ∀ t, t ∈ targets example_env example_loaded → established t (seen_by t s').
Proof.
  pose proof example_driver_run as Hrun.
  destruct (run_all _ _ _) as [[s' l]|] eqn:Hl; [|destruct Hrun].
  destruct (RunConcurrently_sequential api_spec memory_server
              (λ T e w, memory_server_implements T e w I) _ _ _ _ Hl) as [ts Hts].
  exists s', ts, l. split; [exact Hts|]. split; [exact Hrun|].
  assert (Hload : (run memory_server (driver_load example_env example_driver_req)
                     example_driver_store).2 = Done (inr example_loaded))
    by (vm_compute; reflexivity).
  destruct (wp_run _ _ _ _ _ memory_server_implements
              (driver_iteration_establishes example_env example_driver_req example_driver_store))
    as [_ (res & Hres & H)].
  rewrite Hres in Hload. injection Hload as Heq.
  exact (proj2 (proj2 (H example_loaded Heq) s' ts l true true Hts) eq_refl Hrun).
Defined.
