(* ===== verification/System.v ===== *)
(** * The controllers together

    All controllers of the operator run in one process against one API
    server.  Three of them write the config map the drivers mount: the
    ClientProfile controller its list of clusters, the ClientProfileMapping
    controller the mappings, the Driver controller the owner reference; each
    reads it, changes what it read and writes it back, and the lock is taken
    by the ClientProfile controller only.  What keeps these writes apart is
    the server's check of the resource version.

    A state of the [system] is the store, the resource versions used so far,
    the lock and the iterations under way; [sys_step] interleaves the calls of
    the iterations with each other, with new iterations, and with what other
    clients of the cluster do to other objects. *)
From S2P Require Import Prelude Prog K8s ApiTypes Cluster CoreUtils CsiUtils Replication Json.
From S2P Require Import JsonCodec Server Mapping Profile ProfileReconcile ClusterInfo ProfileTheorems.
From S2P Require Import DriverSpec ControllerPlugin NodePlugin DriverReconcile DriverTargets.

Section system.
Context {lib : ApiLib} `{EQ : !SemanticEquality} `{JT : !JsonErrorText} (oe : OperatorEnv).

(** ** The server, with resource versions *)

Definition version_of (k : kind) (o : obj k) : string := Meta_ResourceVersion (meta_of k o).

(** Strings come out of the server as UTF-8. *)
Definition utf8_obj (k : kind) : obj k → Prop :=
  match k with
  | KClientProfile => λ o, profile_ok o = true
  | KCephConnection => λ o, conn_ok o = true
  | KClientProfileReplication => λ o, repl_ok o = true
  | _ => λ _, True
  end.

Definition answer_ok (T : Type) (e : call T) : T → Prop :=
  match e in call T return T → Prop with
  | Get k key => λ t, match t with
                      | inl _ => True
                      | inr o => ObjectKeyFromObject k o = key ∧ utf8_obj k o
                      end
  | Update k _ => λ t, match t with inl _ => True | inr o => utf8_obj k o end
  | ListObjs k _ => λ t, match t with inl _ => True | inr l => ∀ o, o ∈ l → utf8_obj k o end
  | _ => λ _, True
  end.

(** Every change of an object gives it a version that was never used, and is
    not empty. *)
Definition fresh (s s' : store) (u u' : gset string) : Prop :=
  u ⊆ u' ∧ ("" ∈ u' → "" ∈ u) ∧ ∀ k key x, stored s' k key = Some x →
             stored s k key = Some x ∨ (version_of k x ∉ u ∧ version_of k x ∈ u').

(** An update that names a version is refused when the object has another. *)
Definition unconflicted (T : Type) (e : call T) : T → store → Prop :=
  match e in call T return T → store → Prop with
  | Update k o => λ t s,
      match t with
      | inl _ => True
      | inr _ => ∃ x, stored s k (ObjectKeyFromObject k o) = Some x
                      ∧ (version_of k o = "" ∨ version_of k o = version_of k x)
      end
  | _ => λ _ _, True
  end.

Definition served (T : Type) (e : call T) (t : T) (s s' : store) (u u' : gset string) : Prop :=
  post api_spec _ e t s s' ∧ answer_ok T e t ∧ fresh s s' u u' ∧ unconflicted T e t s.

(** The other clients change one object at a time, and of a config map of the
    drivers never the data. *)
Definition config (s : store) (ns : string) : option ConfigMap := stored s KConfigMap (config_key ns).

Definition data (x : option ConfigMap) : gmap string string := from_option CM_Data ∅ x.

Definition environment (s s' : store) (u u' : gset string) : Prop :=
  fresh s s' u u'
  ∧ (∃ k key, ∀ k' key', (k', key') ≠ (k, key) → stored s' k' key' = stored s k' key')
  ∧ ∀ ns x, config s' ns = Some x → CM_Data x = data (config s ns).

(** ** Iterations *)

Inductive iteration_of :=
| TProfile (req : NamespacedName)
| TMapping (req : NamespacedName)
| TReplication (req : NamespacedName)
| TDriverLoad (req : NamespacedName)
| TDriver (r : driverReconcile).

(** The programs the iterations of a controller are made of: the concurrent
    part of the Driver controller runs each reconciler as a thread. *)
Inductive runs_for : iteration_of → M (option error) → Prop :=
| runs_profile req : valid_utf8 (Key_Name req) = true → runs_for (TProfile req) (profile_reconcile req)
| runs_mapping req : runs_for (TMapping req) (mapping_reconcile req)
| runs_replication req : runs_for (TReplication req) (reconcile req)
| runs_driver_load req : runs_for (TDriverLoad req) (_ ← driver_load oe req; mret None)
| runs_driver r p : p ∈ reconcilers oe r → runs_for (TDriver r) p.

Definition thread : Type := iteration_of * M (option error).

Record system := Sys {
  sys_store : store;
  sys_used : gset string;
  sys_lock : option nat;
  sys_threads : list thread;
}.

Definition is_mutex (T : Type) (e : call T) : Prop := ¬ no_mutex T e.

(** A step, with the controller that makes it. *)
Inductive sys_step : system → option iteration_of → system → Prop :=
| sys_call s u l ts i c T (e : call T) (k : T → M (option error)) t s' u' :
    ts !! i = Some (c, Vis e k) → no_mutex T e → served T e t s s' u u' →
    sys_step (Sys s u l ts) (Some c) (Sys s' u' l (<[i := (c, k t)]> ts))
| sys_acquire s u ts i c k :
    ts !! i = Some (c, Vis MutexLock k) →
    sys_step (Sys s u None ts) (Some c) (Sys s u (Some i) (<[i := (c, k tt)]> ts))
| sys_release s u l ts i c k :
    ts !! i = Some (c, Vis MutexUnlock k) →
    sys_step (Sys s u l ts) (Some c) (Sys s u None (<[i := (c, k tt)]> ts))
| sys_spawn s u l ts c p :
    runs_for c p →
    sys_step (Sys s u l ts) None (Sys s u l (ts ++ [(c, p)]))
| sys_other s u l ts s' u' :
    environment s s' u u' →
    sys_step (Sys s u l ts) None (Sys s' u' l ts).

Definition sys_steps : system → system → Prop := rtc (λ σ σ', ∃ c, sys_step σ c σ').

(** The operator starts: the config maps in the cluster hold one record per
    cluster, and what is stored has versions of its own. *)
Record starts (σ : system) : Prop := {
  starts_threads : sys_threads σ = [];
  starts_lock : sys_lock σ = None;
  starts_unused : "" ∉ sys_used σ;
  starts_configs ns x : config (sys_store σ) ns = Some x →
    cm_ok x ∧ version_of KConfigMap x ∈ sys_used σ;
  starts_distinct ns ns' x x' :
    config (sys_store σ) ns = Some x → config (sys_store σ) ns' = Some x' →
    version_of KConfigMap x = version_of KConfigMap x' → x = x';
}.

Definition reachable (σ : system) : Prop := ∃ σ0, starts σ0 ∧ sys_steps σ0 σ.

(** ** What a controller contributes to the config map *)

Definition empty_config (ns : string) : ConfigMap :=
  {| CM_Meta := new_meta ns CsiConfigVolume_Name; CM_Data := ∅ |}.

(** What the controllers but the first do to the data. *)
Definition mapping_change (x y : gmap string string) : Prop :=
  ∀ key, key ≠ CsiConfigMapMappingKey → y !! key = x !! key.

(** [y] is what an iteration of [c] makes of the config map [x] of [ns]. *)
Definition contributes (c : iteration_of) (ns : string) (x : option ConfigMap) (y : ConfigMap) : Prop :=
  match c with
  | TProfile req =>
      Key_Namespace req = ns
      ∧ ∃ r, meta_key (Profile_Meta (clientProfile r)) = req ∧ mutated r (default (empty_config ns) x) y
  | TMapping req => Key_Namespace req = ns ∧ mapping_change (data x) (CM_Data y)
  | TDriver r => driver_ns r = ns ∧ CM_Data y = data x
  | TReplication _ | TDriverLoad _ => False
  end.

(** ** The config maps under the calls *)

(** A call that writes no config map of the drivers. *)
Definition config_quiet (T : Type) (e : call T) : Prop :=
  match e with
  | Create KConfigMap o | Update KConfigMap o =>
      Key_Name (ObjectKeyFromObject KConfigMap o) ≠ CsiConfigVolume_Name
  | StatusUpdate KConfigMap _ => False
  | Delete KConfigMap key => Key_Name key ≠ CsiConfigVolume_Name
  | _ => True
  end.

Lemma config_put_ne (o : obj KConfigMap) s ns :
  ObjectKeyFromObject KConfigMap o ≠ config_key ns →
  config (put KConfigMap o s) ns = config s ns.
Proof. intros H. apply (stored_put_ne KConfigMap KConfigMap). right. congruence. Qed.

Lemma config_put_eq (o : obj KConfigMap) s ns :
  ObjectKeyFromObject KConfigMap o = config_key ns → config (put KConfigMap o s) ns = Some o.
Proof. unfold config. intros <-. apply (stored_put_eq KConfigMap). Qed.

Lemma config_other_kind s s' ns : s' KConfigMap = s KConfigMap → config s' ns = config s ns.
Proof. unfold config, stored. by intros ->. Qed.

Lemma quiet_frame T (e : call T) t s s' ns :
  config_quiet T e → post api_spec _ e t s s' → config s' ns = config s ns.
Proof.
  intros Hq Hpost.
  assert (Hne : ∀ key, Key_Name key ≠ CsiConfigVolume_Name → key ≠ config_key ns)
    by (intros key Hk ->; by apply Hk).
  destruct e as [k key|k opts|k o|k o|k o|k key|m| |]; simpl in Hpost;
    try (by destruct Hpost as [-> _]); try (by subst).
  - destruct t as [err|o']; [by subst|]. destruct Hpost as (_ & Hacc & ->).
    destruct (decide (k = KConfigMap)) as [->|Hk]; [|by apply config_other_kind, put_other_kind].
    apply config_put_ne. rewrite <-(accepted_key _ _ _ Hacc). by apply Hne.
  - destruct t as [err|o']; [by subst|]. destruct Hpost as (x & _ & _ & Hacc & ->).
    destruct (decide (k = KConfigMap)) as [->|Hk]; [|by apply config_other_kind, update_other_kind].
    apply Hne in Hq. rewrite (accepted_key _ _ _ Hacc) in Hq. unfold update.
    destruct (releases _ _ _); [|by apply config_put_ne].
    apply (stored_remove_ne KConfigMap KConfigMap). by right.
  - destruct t as [err|o']; [by subst|]. destruct Hpost as (x & _ & _ & Hk' & _ & ->).
    destruct (decide (k = KConfigMap)) as [->|Hk]; [done|by apply config_other_kind, put_other_kind].
  - destruct t as [err|]; [by destruct Hpost as [-> _]|]. unfold deleted in Hpost.
    destruct (stored s k key) as [o|]; [|done].
    destruct (decide (k = KConfigMap)) as [->|Hk].
    + apply Hne in Hq. destruct (finalized _ o).
      * subst s'. apply (stored_remove_ne KConfigMap KConfigMap). by right.
      * destruct Hpost as (o' & _ & Hk' & ->). apply config_put_ne. congruence.
    + destruct (finalized k o); [subst s'; by apply config_other_kind, remove_other_kind|].
      destruct Hpost as (o' & _ & _ & ->). by apply config_other_kind, put_other_kind.
Qed.

(** ** The versions of the config maps *)

(** [hist] holds every version of the config maps there has been. *)
Record versions (s : store) (u : gset string) (hist : list ConfigMap) : Prop := {
  versions_inj x y : x ∈ hist → y ∈ hist → version_of KConfigMap x = version_of KConfigMap y → x = y;
  versions_used x : x ∈ hist → version_of KConfigMap x ∈ u;
  versions_unused : "" ∉ u;
  versions_ok x : x ∈ hist → cm_ok x;
  versions_config ns x : config s ns = Some x → x ∈ hist;
}.

Definition knows (hist : list ConfigMap) (known : option ConfigMap) : Prop :=
  ∀ x, known = Some x → x ∈ hist.

Lemma knows_mono hist hist' known : hist ⊆ hist' → knows hist known → knows hist' known.
Proof. intros Hs Hk x Hx. by apply Hs, Hk. Qed.

Lemma knows_none hist : knows hist None.
Proof. done. Qed.

Lemma knows_some hist x : x ∈ hist → knows hist (Some x).
Proof. by intros Hx y [= <-]. Qed.

Hint Resolve knows_none knows_some knows_mono : golib.

Lemma versions_quiet s s' u u' hist :
  versions s u hist → fresh s s' u u' → (∀ ns x, config s' ns = Some x → config s ns = Some x) →
  versions s' u' hist.
Proof.
  intros [] (Hu & Hv & _) Hs. split; try done; [|by intros ?%Hv|].
  - intros x Hx. by apply Hu, versions_used0.
  - intros ns x Hx%Hs. by eapply versions_config0.
Qed.

(** A write to the config map of one namespace. *)
Lemma versions_write s s' u u' hist ns (y : ConfigMap) :
  versions s u hist → fresh s s' u u' → cm_ok y → config s' ns = Some y →
  (∀ ns', ns' ≠ ns → config s' ns' = config s ns') →
  versions s' u' (y :: hist).
Proof.
  intros [] (Hu & Hv & Hf) Hok Hy Hother.
  assert (Hnew : y ∈ hist ∨ (version_of KConfigMap y ∉ u ∧ version_of KConfigMap y ∈ u')).
  { destruct (Hf KConfigMap _ _ Hy) as [Hold|]; [left|by right]. by eapply versions_config0. }
  split; [| |by intros ?%Hv| |].
  - intros a b Ha Hb Hab. apply elem_of_cons in Ha, Hb.
    destruct Ha as [->|Ha], Hb as [->|Hb]; [done| | |by apply versions_inj0].
    + destruct Hnew as [Hin|[Hnin _]]; [by apply versions_inj0|]. destruct Hnin. rewrite Hab. auto.
    + destruct Hnew as [Hin|[Hnin _]]; [by apply versions_inj0|]. destruct Hnin. rewrite <-Hab. auto.
  - intros a [->|Ha]%elem_of_cons; [|by apply Hu, versions_used0].
    destruct Hnew as [Hin|[_ Hin]]; [by apply Hu, versions_used0|done].
  - intros a [->|Ha]%elem_of_cons; [done|by apply versions_ok0].
  - intros ns' x Hx. destruct (decide (ns' = ns)) as [->|Hne].
    + rewrite Hy in Hx. injection Hx as <-. by left.
    + right. rewrite Hother in Hx by done. by eapply versions_config0.
Qed.

(** ** What a write stores *)

Definition edits (change : gmap string string → gmap string string → Prop) (x y : ConfigMap) : Prop :=
  change (CM_Data x) (CM_Data y) ∧ same_version x y
  ∧ Meta_Finalizers (CM_Meta y) = Meta_Finalizers (CM_Meta x).

(** The config map of [ns] becomes [y]; the others stay. *)
Definition config_write (ns : string) (s s' : store) (y : ConfigMap) : Prop :=
  config s' ns = Some y ∧ ∀ ns', ns' ≠ ns → config s' ns' = config s ns'.

Lemma put_write (o : obj KConfigMap) s ns :
  ObjectKeyFromObject KConfigMap o = config_key ns → config_write ns s (put KConfigMap o s) o.
Proof.
  intros Hk. split; [by apply config_put_eq|]. intros ns' Hne. apply config_put_ne.
  rewrite Hk. by intros [= ->].
Qed.

Lemma create_effect (o o' : obj KConfigMap) s s' ns :
  ObjectKeyFromObject KConfigMap o = config_key ns →
  post api_spec _ (Create KConfigMap o) (inr o') s s' →
  config s ns = None ∧ accepted KConfigMap o o' ∧ config_write ns s s' o'.
Proof.
  intros Hk (Hnone & Hacc & ->). rewrite Hk in Hnone. split; [done|]. split; [done|].
  apply put_write. by rewrite <-(accepted_key _ _ _ Hacc).
Qed.

(** The version a thread read is the one it overwrites. *)
Lemma update_effect (o o' : obj KConfigMap) x s s' u hist ns :
  versions s u hist → x ∈ hist → same_version x o →
  Meta_Finalizers (CM_Meta (o : ConfigMap)) = Meta_Finalizers (CM_Meta x) →
  ObjectKeyFromObject KConfigMap o = config_key ns →
  post api_spec _ (Update KConfigMap o) (inr o') s s' →
  unconflicted _ (Update KConfigMap o) (inr o') s →
  config s ns = Some x ∧ accepted KConfigMap o o' ∧ config_write ns s s' o'.
Proof.
  intros Hv Hx Hver Hfin Hk (x' & Hx' & _ & Hacc & ->) (x2 & Hx2 & Hconf).
  rewrite Hx' in Hx2. injection Hx2 as <-. rewrite Hk in Hx'. change (config s ns = Some x') in Hx'.
  assert (x' = x) as ->.
  { apply (versions_inj _ _ _ Hv); [by eapply versions_config|done|].
    destruct Hconf as [He|He]; unfold version_of in *; simpl in *.
    - unfold same_version in Hver. destruct (versions_unused _ _ _ Hv). rewrite <-He, Hver.
      by apply (versions_used _ _ _ Hv).
    - by rewrite <-He. }
  split; [done|]. split; [done|]. pose proof (accepted_key _ _ _ Hacc) as Hk'.
  rewrite update_put; [apply put_write; by rewrite <-Hk'|].
  intros y. rewrite <-Hk', Hk. change (stored s KConfigMap (config_key ns)) with (config s ns).
  rewrite Hx'. intros [= <-]. destruct Hacc as [Hm _]. unfold client_fields in Hm.
  injection Hm as _ _ _ _ _ Hm. simpl. by rewrite <-Hm.
Qed.

(** ** Well-formed config maps *)

Lemma cm_ok_same x y :
  CM_Data y !! CsiConfigMapConfigKey = CM_Data x !! CsiConfigMapConfigKey → cm_ok x → cm_ok y.
Proof. unfold cm_ok, cm_list. by intros ->. Qed.

Lemma empty_config_ok ns : cm_ok (empty_config ns).
Proof. apply (no_config_ok {| Key_Namespace := ns; Key_Name := "" |}). Qed.

Lemma contributes_ok c ns x y :
  contributes c ns x y → (∀ x0, x = Some x0 → cm_ok x0) → cm_ok y.
Proof.
  intros Hc Hx.
  assert (Hd : cm_ok (default (empty_config ns) x))
    by (destruct x as [x|]; [by apply Hx|apply empty_config_ok]).
  destruct c as [req|req|req|req|r]; simpl in Hc; [| |done|done|].
  - destruct Hc as (_ & r & _ & (l & l' & _ & Hl' & Hu & Hok & _) & _). by exists l'.
  - destruct Hc as [_ Hm]. eapply cm_ok_same; [|exact Hd]. rewrite Hm by done. by destruct x.
  - destruct Hc as [_ Hm]. eapply cm_ok_same; [|exact Hd]. rewrite Hm. by destruct x.
Qed.

(** ** The threads *)

(** A client that writes the config map of its namespace by editing what it
    last read; the state is the config map of the drivers it last read. *)
Definition config_client (ns : string) (change : gmap string string → gmap string string → Prop)
    : spec call (option ConfigMap) := {|
  pre := λ T e known, match e with
    | Create KConfigMap o =>
        Key_Name (ObjectKeyFromObject KConfigMap o) = CsiConfigVolume_Name →
        ObjectKeyFromObject KConfigMap o = config_key ns ∧ change ∅ (CM_Data (o : ConfigMap))
    | Update KConfigMap o =>
        Key_Name (ObjectKeyFromObject KConfigMap o) = CsiConfigVolume_Name →
        ObjectKeyFromObject KConfigMap o = config_key ns ∧ ∃ x, known = Some x ∧ edits change x o
    | StatusUpdate KConfigMap _ => False
    | Delete KConfigMap key => Key_Name key ≠ CsiConfigVolume_Name
    | _ => True
    end;
  post := λ T e t known known',
    match e in call T return T → Prop with
    | Get KConfigMap key => λ t,
        match t with
        | inl _ => known' = known
        | inr cm => known' = if decide (Key_Name key = CsiConfigVolume_Name) then Some cm else known
        end
    | RangeMap m => λ t, known' = known ∧ t ≡ₚ map_to_list m
    | _ => λ _, known' = known
    end t |}.

Definition same_data (x y : gmap string string) : Prop := y = x.

Definition thread_ok (hist : list ConfigMap) (th : thread) : Prop :=
  match th.1 with
  | TProfile req => ∃ k, knows hist (known_cm k) ∧ wp (guard_spec req) th.2 (λ _ _, True) k
  | TMapping req => ∃ known, knows hist known
      ∧ wp (config_client (Key_Namespace req) mapping_change) th.2 (λ _ _, True) known
  | TDriver r => ∃ known, knows hist known
      ∧ wp (config_client (driver_ns r) same_data) th.2 (λ _ _, True) known
  | TReplication _ | TDriverLoad _ => all_calls config_quiet th.2
  end.

Lemma thread_ok_mono hist hist' th : hist ⊆ hist' → thread_ok hist th → thread_ok hist' th.
Proof.
  intros Hs. unfold thread_ok. destruct th.1; [| |done|done|];
    intros (k & Hk & Hwp); exists k; (split; [by eapply knows_mono|done]).
Qed.

(** What a call of an iteration does: the config maps stay, or one becomes
    what the iteration makes of it. *)
Definition effect (c : iteration_of) (s s' : store) : Prop :=
  ∀ ns, config s' ns = config s ns
        ∨ ∃ y, config s' ns = Some y ∧ contributes c ns (config s ns) y.

Definition moves (c : iteration_of) (hist : list ConfigMap) (s s' : store) (u' : gset string)
    (P : list ConfigMap → Prop) : Prop :=
  ∃ hist', hist ⊆ hist' ∧ versions s' u' hist' ∧ P hist' ∧ effect c s s'.

Lemma moves_same c hist s s' u u' (P : list ConfigMap → Prop) :
  versions s u hist → fresh s s' u u' → (∀ ns, config s' ns = config s ns) →
  P hist → moves c hist s s' u' P.
Proof.
  intros Hv Hf Hs HP. exists hist. split; [done|].
  split; [eapply versions_quiet; [done..|]; intros ns x; by rewrite Hs|].
  split; [done|]. intros ns. left. apply Hs.
Qed.

Lemma moves_write c hist s s' u u' (P : list ConfigMap → Prop) ns y :
  versions s u hist → fresh s s' u u' →
  config_write ns s s' y → contributes c ns (config s ns) y →
  P (y :: hist) → moves c hist s s' u' P.
Proof.
  intros Hv Hf [Hy Hother] Hc HP. exists (y :: hist).
  split; [set_solver|]. split.
  { eapply versions_write; try done. eapply contributes_ok; [done|].
    intros x Hx. eapply versions_ok; [done|]. by eapply versions_config. }
  split; [done|]. intros ns'. destruct (decide (ns' = ns)) as [->|Hne].
  - right. by exists y.
  - left. by apply Hother.
Qed.

#[export] Instance config_quiet_dec T (e : call T) : Decision (config_quiet T e).
Proof. destruct e as [[]|[]|[]|[]|[]|[]| | |]; apply _. Defined.

(** A config map of the drivers that was read is one of the versions. *)
Lemma got_version s u hist key (cm : obj KConfigMap) :
  versions s u hist → stored s KConfigMap key = Some cm → Key_Name key = CsiConfigVolume_Name →
  (cm : ConfigMap) ∈ hist.
Proof.
  intros Hv Hs Hn. apply (versions_config _ _ _ Hv (Key_Namespace key)). unfold config, config_key.
  rewrite <-Hn. by destruct key.
Qed.

(** ** The steps of the clients of [config_client] *)
Section client.
Variables (c : iteration_of) (ns : string) (change : gmap string string → gmap string string → Prop).
Hypothesis change_contributes : ∀ x y, change (data x) (CM_Data y) → contributes c ns x y.

Definition client_ok (p : M (option error)) (hist : list ConfigMap) : Prop :=
  ∃ known, knows hist known ∧ wp (config_client ns change) p (λ _ _, True) known.

Lemma client_quiet hist known T (e : call T) t s s' u :
  versions s u hist → knows hist known → post api_spec _ e t s s' → config_quiet T e →
  ∃ known', post (config_client ns change) _ e t known known' ∧ knows hist known'.
Proof.
  intros Hv Hk Hpost Hq.
  destruct e as [[] key| | | | | | | |]; try (by exists known).
  - destruct t as [err|cm]; [by exists known|]. eexists. split; [done|].
    destruct (decide _) as [Hn|]; [|done]. apply knows_some. destruct Hpost as [_ Hg].
    by eapply got_version.
  - exists known. split; [|done]. by destruct Hpost.
Qed.

Lemma client_moves hist T (e : call T) k t s s' u u' :
  versions s u hist → served T e t s s' u u' → client_ok (Vis e k) hist →
  moves c hist s s' u' (client_ok (k t)).
Proof.
  intros Hv (Hpost & _ & Hf & Hconf) (known & Hk & Hpre & Hwp).
  destruct (decide (config_quiet T e)) as [Hq|Hq].
  - destruct (client_quiet hist known T e t s s' u) as (known' & Hp & Hk'); try done.
    eapply moves_same; [done..|intros ns'; by eapply quiet_frame|]. exists known'. auto.
  - destruct e as [[]|[]|[] o|[] o|[]|[]| | |]; try done; simpl in Hq; apply dec_stable in Hq.
    + destruct (Hpre Hq) as [Hkey Hch]. destruct t as [err|o'].
      { simpl in Hpost. subst s'. eapply moves_same; [done..|]. exists known. split; [done|]. by apply Hwp. }
      destruct (create_effect o o' s s' ns Hkey Hpost) as (Hnone & [_ Hd] & Hw).
      eapply moves_write; [done..| |].
      * apply change_contributes. rewrite Hnone. simpl. by rewrite <-Hd.
      * exists known. split; [eapply knows_mono; [|done]; set_solver|]. by apply Hwp.
    + destruct (Hpre Hq) as (Hkey & x & Hx & Hch & Hver & Hfin). destruct t as [err|o'].
      { simpl in Hpost. subst s'. eapply moves_same; [done..|]. exists known. split; [done|]. by apply Hwp. }
      destruct (update_effect o o' x s s' u hist ns Hv (Hk _ Hx) Hver Hfin Hkey Hpost Hconf)
        as (Hcur & [_ Hd] & Hw).
      eapply moves_write; [done..| |].
      * apply change_contributes. rewrite Hcur. simpl. by rewrite <-Hd.
      * exists known. split; [eapply knows_mono; [|done]; set_solver|]. by apply Hwp.
Qed.

End client.

(** ** The steps of an iteration for a profile *)

Definition profile_ok_thread (req : NamespacedName) (p : M (option error)) (hist : list ConfigMap) : Prop :=
  ∃ k, knows hist (known_cm k) ∧ wp (guard_spec req) p (λ _ _, True) k.

Lemma guard_quiet req hist k T (e : call T) t s s' u :
  versions s u hist → knows hist (known_cm k) → pre (guard_spec req) _ e k →
  post api_spec _ e t s s' → answer_ok T e t → config_quiet T e →
  ∃ k', post (guard_spec req) _ e t k k' ∧ knows hist (known_cm k').
Proof.
  intros Hv Hk Hpre Hpost Ha Hq.
  destruct e as [[] key|[]|[]|[]|[]|[]| | |]; simpl in Hpre; try done; try (by exists k).
  - destruct t as [err|cm]; [by exists k|]. eexists. split.
    + split; [|done]. destruct Hpost as [_ Hg]. subst key.
      apply (versions_ok _ _ _ Hv). by eapply versions_config.
    + apply knows_some. destruct Hpost as [_ Hg]. subst key. by eapply got_version.
  - exists k. split; [|done]. split; [done|]. by destruct t; [|destruct Ha].
  - destruct t as [err|p]; [by exists k|]. destruct Ha as [Hkey Hp].
    eexists. split; [split_and!; [exact Hp|exact Hkey|done]|done].
  - destruct t as [err|l]; [by exists k|]. eexists. split; [split; [|done]|done].
    apply forallb_forall. intros x Hx. apply Ha. by apply list_elem_of_In.
  - destruct Hpre as [Hkey _]. unfold config_quiet in Hq. by rewrite Hkey in Hq.
  - destruct Hpre as [Hkey _]. unfold config_quiet in Hq. by rewrite Hkey in Hq.
  - exists k. split; [|done]. split; [done|]. destruct t as [err|p]; [done|].
    destruct Hpost as (x & _ & _ & Hacc & _). by split.
  - exists k. split; [|done]. by destruct Hpost.
Qed.

Lemma profile_moves req hist T (e : call T) k t s s' u u' :
  versions s u hist → served T e t s s' u u' → profile_ok_thread req (Vis e k) hist →
  moves (TProfile req) hist s s' u' (profile_ok_thread req (k t)).
Proof.
  intros Hv (Hpost & Ha & Hf & Hconf) (kn & Hk & Hpre & Hwp).
  destruct (decide (config_quiet T e)) as [Hq|Hq].
  - destruct (guard_quiet req hist kn T e t s s' u) as (kn' & Hp & Hk'); try done.
    eapply moves_same; [done..|intros ns'; by eapply quiet_frame|]. exists kn'. auto.
  - destruct e as [[]|[]|[] o|[] o|[]|[]| | |]; try done; simpl in Hq, Hpre.
    + destruct Hpre as (Hkey & Hok & r & Hr & Hm & Hver). destruct t as [err|o'].
      { simpl in Hpost. subst s'. eapply moves_same; [done..|]. eexists. split; [|by apply Hwp]. done. }
      destruct (create_effect o o' s s' _ Hkey Hpost) as (Hnone & Hacc & Hw).
      eapply moves_write; [done..| |].
      * rewrite Hnone. split; [done|]. exists r. split; [done|]. by eapply mutated_accepted.
      * eexists. split; [|by apply Hwp]. apply knows_some. by left.
    + destruct Hpre as (Hkey & Hok & x & Hx & r & Hr & Hm & Hver). destruct t as [err|o'].
      { simpl in Hpost. subst s'. eapply moves_same; [done..|]. eexists. split; [|by apply Hwp]. done. }
      pose proof Hm as (_ & _ & _ & Hfin).
      destruct (update_effect o o' x s s' u hist _ Hv (Hk _ Hx) Hver Hfin Hkey Hpost Hconf)
        as (Hcur & Hacc & Hw).
      eapply moves_write; [done..| |].
      * rewrite Hcur. split; [done|]. exists r. split; [done|]. by eapply mutated_accepted.
      * eexists. split; [|by apply Hwp]. apply knows_some. by left.
Qed.

(** ** The programs *)

Lemma client_CreateOrUpdate ns change (o : obj KConfigMap) (f : MutateFn KConfigMap) known :
  ObjectKeyFromObject KConfigMap o = config_key ns → CM_Data (o : ConfigMap) = ∅ →
  (∀ (x : obj KConfigMap) kn, wp (config_client ns change) (f x)
     (λ kn' q, kn' = kn ∧ match q with Done (y, None) => edits change x y | _ => True end) kn) →
  wp (config_client ns change) (CreateOrUpdate o f) (λ _ _, True) known.
Proof.
  intros Ho Hd Hf. unfold CreateOrUpdate. cbn [wp bind trigger mbind prog_bind]. split; [done|].
  intros [err|existing] kn Hget; simpl in Hget.
  - subst kn. destruct (negb _); [done|]. unfold mutate. apply wp_bind, wp_bind.
    eapply wp_mono; [apply Hf|]. intros kn [[y err']|m] [-> Hy]; [|done]. cbv beta iota.
    destruct err' as [e|]; [done|]. destruct (decide _) as [Hk|]; [|done]. simpl.
    split; [|by intros [e|o'] ? _]. intros _. destruct Hy as [Hc _]. rewrite Hd in Hc.
    split; [|done]. by rewrite <-Ho, Hk.
  - change (Meta_Name (CM_Meta (o : ConfigMap))) with (Key_Name (ObjectKeyFromObject KConfigMap o)) in Hget.
    rewrite Ho, decide_True in Hget by done. subst kn.
    unfold mutate. apply wp_bind, wp_bind. eapply wp_mono; [apply Hf|].
    intros kn [[y err']|m] [-> Hy]; [|done]. cbv beta iota.
    destruct err' as [e|]; [done|]. destruct (decide _) as [Hk|]; [|done].
    simpl. destruct (DeepEqual KConfigMap existing y); [done|].
    split; [|by intros [e|o'] ? _]. intros _. split; [by rewrite <-Ho, Hk|]. by exists existing.
Qed.

Lemma mapping_client req known :
  wp (config_client (Key_Namespace req) mapping_change) (mapping_reconcile req) (λ _ _, True) known.
Proof.
  unfold mapping_reconcile. cbn [wp bind trigger mbind prog_bind]. split; [done|].
  intros [err|items] kn _; [done|]. unfold reconcileCephCsiBlockPoolMapping. apply wp_bind, wp_bind.
  eapply wp_mono; [apply client_CreateOrUpdate; [done..|]|].
  - intros x kn'. unfold mutate_mapping.
    set (m := match List.find (is_request req) items with Some _ => _ | None => _ end).
    assert (Hm : Meta_ResourceVersion m.1.1 = Meta_ResourceVersion (CM_Meta (x : ConfigMap))
                 ∧ Meta_Finalizers m.1.1 = Meta_Finalizers (CM_Meta (x : ConfigMap))).
    { unfold m. destruct (List.find _ _); [|done].
      by rewrite ToggleOwnerReference_version, ToggleOwnerReference_finalizers. }
    destruct m as [[m b] [err|]]; [done|]. destruct (build_mappings items) as [e|l]; [done|].
    simpl. split; [done|]. split; [|done]. intros key Hkey. simpl. by apply lookup_insert_ne.
  - intros kn' [[[o' res] err]|m] _; [|done]. by destruct err.
Qed.

Lemma csi_configmap_client r known :
  wp (config_client (driver_ns r) same_data) (reconcileCsiConfigMap r) (λ _ _, True) known.
Proof.
  unfold reconcileCsiConfigMap. apply wp_bind. eapply wp_mono; [apply client_CreateOrUpdate; [done..|]|].
  - intros x kn. unfold mutate_csi_configmap.
    pose proof (ToggleOwnerReference_version true (CM_Meta (x : ConfigMap)) KDriver (Driver_Meta (driver r))) as Hv.
    pose proof (ToggleOwnerReference_finalizers true (CM_Meta (x : ConfigMap)) KDriver (Driver_Meta (driver r))) as Hf.
    destruct (ToggleOwnerReference _ _ _ _) as [[m b] err]. simpl. split; [done|]. by destruct err.
  - by intros kn [[[o' res] err]|m] _.
Qed.

(** A reconciler of another object writes no config map of the drivers. *)
Lemma target_client t ns change (p : M (option error)) Q known ph :
  ¬ (target_kind t = KConfigMap ∧ Key_Name (target_key t) = CsiConfigVolume_Name) →
  wp (target_spec t) p Q ph → wp (config_client ns change) p (λ _ _, True) known.
Proof.
  intros Ht. revert known ph. induction p as [a|m|T e k IH]; simpl; intros known ph; [done..|].
  intros [[Hpre _] Hk]. split.
  - destruct e as [k' key|k' opts|k' o|k' o|k' o|k' key|m| |]; try done; try (by destruct k').
    + destruct k'; try done. intros Hn. destruct Ht. destruct Hpre as (e & _ & Hkey).
      by rewrite <-Hkey.
    + destruct k'; try done. intros Hn. destruct Ht. destruct Hpre as (e & _ & Hkey).
      by rewrite <-Hkey.
    + destruct k'; try done. intros Hn. destruct Ht. destruct Hpre as (<- & <- & _). done.
  - intros x known' Hpost. eapply (IH x), Hk. split; [done|]. destruct e; try done. by destruct Hpost.
Qed.

Lemma driver_client r p known :
  p ∈ reconcilers oe r → wp (config_client (driver_ns r) same_data) p (λ _ _, True) known.
Proof.
  intros [i Hi]%list_elem_of_lookup.
  destruct (Forall2_lookup_r _ _ _ _ _ (reconcilers_targets oe r) Hi) as (t & Ht & Hrec).
  destruct (decide (i = 0)) as [->|Hne].
  - simpl in Hi. injection Hi as <-. apply csi_configmap_client.
  - eapply target_client; [|exact Hrec].
    destruct i as [|[|[|[|[|[|[|[|[|i]]]]]]]]]; simplify_eq/=; try (by intros []).
    intros [_ Hn]. by apply (logrotate_name_ne r).
Qed.

Lemma driver_load_quiet req :
  all_calls config_quiet (_ ← driver_load oe req; mret (None : option error)).
Proof.
  unfold driver_load, LoadAndValidateDesiredState, load_defaults, load_images.
  calls_with done.
Qed.

Lemma replication_quiet req : all_calls config_quiet (reconcile req).
Proof.
  eapply all_calls_mono; [apply repl_calls_reconcile|]. intros T e.
  by destruct e as [[]|[]|[]|[]|[]|[]| | |].
Qed.

Lemma spawned_ok c p hist : runs_for c p → thread_ok hist (c, p).
Proof.
  destruct 1 as [req Hn|req|req|req|r p Hp]; simpl.
  - exists {| known_cm := None; listed_none := false; cleaning := false |}. split; [done|].
    eapply wp_mono; [by apply guard_profile_reconcile|done].
  - exists None. split; [done|]. apply mapping_client.
  - apply replication_quiet.
  - apply driver_load_quiet.
  - exists None. split; [done|]. by apply driver_client.
Qed.

(** ** The invariant of the system *)

Definition sys_inv (σ : system) : Prop :=
  ∃ hist, versions (sys_store σ) (sys_used σ) hist ∧ Forall (thread_ok hist) (sys_threads σ).

Definition stored_configs (s : store) : list ConfigMap :=
  omap (λ kv, if decide (Key_Name kv.1 = CsiConfigVolume_Name) then Some (kv.2 : ConfigMap) else None)
    (map_to_list (s KConfigMap)).

Lemma elem_of_stored_configs s x : x ∈ stored_configs s ↔ ∃ ns, config s ns = Some x.
Proof.
  unfold stored_configs. rewrite list_elem_of_omap. split.
  - intros ([key y] & Hin & Hy). simpl in Hy. destruct (decide _) as [Hn|]; [|done]. injection Hy as <-.
    apply elem_of_map_to_list in Hin. exists (Key_Namespace key). unfold config, config_key.
    rewrite <-Hn. by destruct key.
  - intros [ns Hx]. exists (config_key ns, x). split; [by apply elem_of_map_to_list|].
    by rewrite decide_True.
Qed.

Lemma starts_inv σ : starts σ → sys_inv σ.
Proof.
  intros []. exists (stored_configs (sys_store σ)). rewrite starts_threads0. split; [|constructor].
  split; try done.
  - intros x y [ns Hx]%elem_of_stored_configs [ns' Hy]%elem_of_stored_configs. by apply (starts_distinct0 ns ns').
  - intros x [ns Hx]%elem_of_stored_configs. by destruct (starts_configs0 ns x Hx).
  - intros x [ns Hx]%elem_of_stored_configs. by destruct (starts_configs0 ns x Hx).
  - intros ns x Hx. apply elem_of_stored_configs. by exists ns.
Qed.

Lemma quiet_moves c hist T (e : call T) (k : T → M (option error)) t s s' u u' :
  versions s u hist → served T e t s s' u u' → all_calls config_quiet (Vis e k) →
  moves c hist s s' u' (λ _, all_calls config_quiet (k t)).
Proof.
  intros Hv (Hpost & _ & Hf & _) [Hq Hk].
  eapply moves_same; [done..|intros ns; eapply quiet_frame; [exact Hq|exact Hpost]|].
  by apply (Hk t tt).
Qed.

Lemma thread_moves c hist T (e : call T) (k : T → M (option error)) t s s' u u' :
  versions s u hist → served T e t s s' u u' → thread_ok hist (c, Vis e k) →
  moves c hist s s' u' (λ hist', thread_ok hist' (c, k t)).
Proof.
  intros Hv Hs Hok. destruct c as [req|req|req|req|r].
  - exact (profile_moves req hist T e k t s s' u u' Hv Hs Hok).
  - refine (client_moves (TMapping req) _ _ _ hist T e k t s s' u u' Hv Hs Hok). by intros x y.
  - exact (quiet_moves (TReplication req) hist T e k t s s' u u' Hv Hs Hok).
  - exact (quiet_moves (TDriverLoad req) hist T e k t s s' u u' Hv Hs Hok).
  - refine (client_moves (TDriver r) _ _ _ hist T e k t s s' u u' Hv Hs Hok). by intros x y.
Qed.

Lemma environment_inv s s' u u' hist :
  versions s u hist → environment s s' u u' → ∃ hist', hist ⊆ hist' ∧ versions s' u' hist'.
Proof.
  intros Hv (Hf & (k & key & Hother) & Hdata).
  assert (Hcfg : ∀ ns, (k, key) ≠ (KConfigMap, config_key ns) → config s' ns = config s ns)
    by (intros ns Hne; apply (Hother KConfigMap); congruence).
  destruct (decide ((k, key) = (KConfigMap, config_key (Key_Namespace key)))) as [Heq|Hne].
  - set (ns := Key_Namespace key) in *. destruct (config s' ns) as [y|] eqn:Hy.
    + exists (y :: hist). split; [set_solver|]. apply (versions_write s s' u u' hist ns); try done.
      * apply Hdata in Hy. destruct (config s ns) as [x|] eqn:Hx; simpl in Hy.
        -- eapply (cm_ok_same x); [by rewrite Hy|]. eapply versions_ok; [done|]. by eapply versions_config.
        -- eapply (cm_ok_same (empty_config ns)); [by rewrite Hy|apply empty_config_ok].
      * intros ns' Hne. apply Hcfg. rewrite Heq. by intros [= ->].
    + exists hist. split; [done|]. eapply versions_quiet; [done..|]. intros ns' x Hx.
      destruct (decide (ns' = ns)) as [->|Hne]; [congruence|]. rewrite <-Hcfg; [done|].
      rewrite Heq. by intros [= ->].
  - exists hist. split; [done|]. eapply versions_quiet; [done..|]. intros ns x. rewrite Hcfg; [done|].
    intros [= -> ->]. by apply Hne.
Qed.

Lemma Forall_insert_ok hist ts i c p :
  Forall (thread_ok hist) ts → thread_ok hist (c, p) → Forall (thread_ok hist) (<[i := (c, p)]> ts).
Proof. intros Hts Hp. by apply Forall_insert. Qed.

Lemma Forall_ok_mono hist hist' ts :
  hist ⊆ hist' → Forall (thread_ok hist) ts → Forall (thread_ok hist') ts.
Proof. intros Hs Hts. eapply Forall_impl; [exact Hts|]. intros th. by apply thread_ok_mono. Qed.

(** A mutex call keeps what a thread owes. *)
Lemma mutex_ok hist c (e : call unit) (k : unit → M (option error)) :
  e = MutexLock ∨ e = MutexUnlock → thread_ok hist (c, Vis e k) → thread_ok hist (c, k tt).
Proof.
  intros He Hok. unfold thread_ok in *. simpl in *.
  destruct c as [req|req|req|req|r].
  - destruct Hok as (kn & Hk & _ & Hwp). exists kn. split; [done|]. apply Hwp. by destruct He as [->| ->].
  - destruct Hok as (kn & Hk & _ & Hwp). exists kn. split; [done|]. apply Hwp. by destruct He as [->| ->].
  - by apply (proj2 Hok tt tt).
  - by apply (proj2 Hok tt tt).
  - destruct Hok as (kn & Hk & _ & Hwp). exists kn. split; [done|]. apply Hwp. by destruct He as [->| ->].
Qed.

Lemma sys_step_inv σ c σ' :
  sys_inv σ → sys_step σ c σ' →
  sys_inv σ' ∧ ∀ d, c = Some d → effect d (sys_store σ) (sys_store σ').
Proof.
  intros (hist & Hv & Hts) Hs.
  destruct Hs as [s u l ts i c T e k t s' u' Hi _ Hserved|s u ts i c k Hi|s u l ts i c k Hi
    |s u l ts c p Hp|s u l ts s' u' Henv]; simpl in *.
  - pose proof (proj1 (Forall_lookup _ _) Hts _ _ Hi) as Hok.
    destruct (thread_moves c hist T e k t s s' u u' Hv Hserved Hok) as (hist' & Hsub & Hv' & Hok' & Heff).
    split; [|by intros ? [= <-]]. exists hist'. split; [done|].
    apply Forall_insert_ok; [by eapply Forall_ok_mono|done].
  - pose proof (proj1 (Forall_lookup _ _) Hts _ _ Hi) as Hok.
    split; [|intros ? _; by left]. exists hist. split; [done|].
    apply Forall_insert_ok; [done|]. eapply (mutex_ok _ _ MutexLock); [by left|done].
  - pose proof (proj1 (Forall_lookup _ _) Hts _ _ Hi) as Hok.
    split; [|intros ? _; by left]. exists hist. split; [done|].
    apply Forall_insert_ok; [done|]. eapply (mutex_ok _ _ MutexUnlock); [by right|done].
  - split; [|done]. exists hist. split; [done|]. apply Forall_app. split; [done|].
    apply Forall_singleton. by apply spawned_ok.
  - destruct (environment_inv s s' u u' hist Hv Henv) as (hist' & Hsub & Hv').
    split; [|done]. exists hist'. split; [done|]. by eapply Forall_ok_mono.
Qed.

Lemma reachable_inv σ : reachable σ → sys_inv σ.
Proof.
  intros (σ0 & H0 & Hsteps). apply starts_inv in H0.
  induction Hsteps as [|σ1 σ2 σ3 [c Hs] _ IH]; [done|]. apply IH. by eapply sys_step_inv.
Qed.

(** C4: no update of the drivers' config map is lost, however the iterations
    of all controllers, other clients and new requests interleave: whenever
    an iteration changes it, what is stored afterwards is what that iteration
    makes of exactly the config map that was stored before, although it read
    it some steps ago.  An iteration for a profile changes the record of its
    profile, one for a mapping the mappings, one of a driver the metadata
    only, and each only the config map of its own namespace. *)
Theorem system_no_lost_updates (σ σ' : system) (c : iteration_of) :
  reachable σ → sys_step σ (Some c) σ' → effect c (sys_store σ) (sys_store σ').
Proof.
  intros Hr Hs. by destruct (sys_step_inv σ (Some c) σ' (reachable_inv σ Hr) Hs) as [_ H]; apply H.
Qed.

End system.
