(* ===== verification/SystemTheorems.v ===== *)
(** * The controllers together: properties

    The records of different profiles do not interfere, the config maps stay
    well formed, the lock excludes and never blocks the operator for ever. *)
From S2P Require Import Prelude Prog K8s ApiTypes Cluster CoreUtils CsiUtils Replication Json.
From S2P Require Import JsonCodec Server Mapping Profile ProfileReconcile ClusterInfo ProfileTheorems.
From S2P Require Import DriverSpec ControllerPlugin NodePlugin DriverReconcile DriverTargets System.

Section theorems.
Context {lib : ApiLib} `{EQ : !SemanticEquality} `{JT : !JsonErrorText} (oe : OperatorEnv).

(** ** Records *)

(** The record the drivers of a namespace have for a cluster. *)
Definition record_in (s : store) (ns name : string) : option csiClusterInfoRecord :=
  match cm_list (default (empty_config ns) (config s ns)) with
  | Some l => record_map l !! name
  | None => None
  end.

(** The mappings the drivers of a namespace have. *)
Definition mappings_in (s : store) (ns : string) : option string :=
  data (config s ns) !! CsiConfigMapMappingKey.

(** The controller works for the profile, or for the mappings, of a namespace. *)
Definition works_for_profile (c : iteration_of) (ns name : string) : Prop :=
  c = TProfile {| Key_Namespace := ns; Key_Name := name |}.
Definition works_for_mappings (c : iteration_of) (ns : string) : Prop :=
  ∃ req, c = TMapping req ∧ Key_Namespace req = ns.

Lemma cm_list_same x y :
  CM_Data y !! CsiConfigMapConfigKey = CM_Data x !! CsiConfigMapConfigKey → cm_list y = cm_list x.
Proof. unfold cm_list. by intros ->. Qed.

Lemma data_default ns x : CM_Data (default (empty_config ns) x) = data x.
Proof. by destruct x. Qed.

Lemma contributes_record c ns x y name :
  contributes c ns x y → ¬ works_for_profile c ns name →
  match cm_list (default (empty_config ns) x), cm_list y with
  | Some l, Some l' => record_map l' !! name = record_map l !! name
  | None, None => True
  | _, _ => False
  end.
Proof.
  intros Hc Hw. destruct c as [req|req|req|req|r]; simpl in Hc; [| |done|done|].
  - destruct Hc as (Hns & r & Hr & (l & l' & -> & -> & _ & _ & Hit) & _). unfold iterates in Hit.
    assert (Hne : Meta_Name (Profile_Meta (clientProfile r)) ≠ name).
    { intros Hn. apply Hw. unfold works_for_profile. f_equal. rewrite <-Hr, <-Hn, <-Hns, <-Hr. done. }
    destruct (cleanUp r).
    + rewrite Hit. by apply lookup_delete_ne.
    + destruct Hit as (rec & _ & ->). by apply lookup_insert_ne.
  - destruct Hc as [_ Hm]. rewrite (cm_list_same (default (empty_config ns) x) y).
    + by destruct (cm_list _).
    + rewrite data_default. by apply Hm.
  - destruct Hc as [_ Hm]. rewrite (cm_list_same (default (empty_config ns) x) y).
    + by destruct (cm_list _).
    + by rewrite data_default, Hm.
Qed.

Lemma contributes_mappings c ns x y :
  contributes c ns x y → ¬ works_for_mappings c ns →
  CM_Data y !! CsiConfigMapMappingKey = data x !! CsiConfigMapMappingKey.
Proof.
  intros Hc Hw. destruct c as [req|req|req|req|r]; simpl in Hc; [| |done|done|].
  - destruct Hc as (_ & r & _ & _ & Hother & _). rewrite Hother by done. by rewrite data_default.
  - destruct Hw. by exists req; destruct Hc.
  - by destruct Hc as [_ ->].
Qed.

(** C5: when the config maps are well formed to begin with and no other client
    edits their data, at every moment of every run of the operator the config
    map of each namespace, if there is one, holds one record per cluster; and an
    iteration changes no record but that of the profile it is for, and no
    mappings but those of the namespace of the ClientProfileMapping it is
    for, whatever the other iterations do in between. *)
Theorem system_records_isolated (σ : system) :
  reachable oe σ →
  (∀ ns x, config (sys_store σ) ns = Some x → cm_ok x)
  ∧ ∀ c σ', sys_step oe σ (Some c) σ' → ∀ ns,
      (∀ name, ¬ works_for_profile c ns name →
         record_in (sys_store σ') ns name = record_in (sys_store σ) ns name)
      ∧ (¬ works_for_mappings c ns → mappings_in (sys_store σ') ns = mappings_in (sys_store σ) ns).
Proof.
  intros Hr. pose proof (reachable_inv oe σ Hr) as Hinv. split.
  - destruct Hinv as (hist & Hv & _). intros ns x Hx. eapply versions_ok; [done|]. by eapply versions_config.
  - intros c σ' Hs ns. destruct (sys_step_inv oe σ (Some c) σ' Hinv Hs) as [_ Heff].
    specialize (Heff c eq_refl ns). unfold record_in, mappings_in.
    destruct Heff as [->|(y & -> & Hc)]; [done|]. split.
    + intros name Hn. pose proof (contributes_record c ns _ y name Hc Hn) as Hrec. simpl.
      destruct (cm_list (default _ _)), (cm_list y); done.
    + intros Hn. simpl. by apply (contributes_mappings c ns).
Qed.

(** ** The lock *)

(** The state is whether a thread holds the lock. *)
Definition mutex_spec : spec call bool := {|
  pre := λ T e held,
    match e with MutexLock => held = false | MutexUnlock => held = true | _ => True end;
  post := λ T e t held held',
    match e in call T return T → Prop with
    | MutexLock => λ _, held' = true
    | MutexUnlock => λ _, held' = false
    | RangeMap m => λ t, held' = held ∧ t ≡ₚ map_to_list m
    | _ => λ _, held' = held
    end t |}.

Definition spec_of (c : iteration_of) : spec call bool :=
  match c with TProfile _ => lock_spec | _ => mutex_spec end.

Lemma no_mutex_wp {A} (p : M A) :
  all_calls no_mutex p → wp mutex_spec p (λ held _, held = false) false.
Proof.
  intros Hp. apply (wp_all_calls no_mutex mutex_spec (λ h, h = false)); [done| |done].
  intros T e h Hq ->. split; [by destruct e|]. intros t h' Hpost.
  destruct e; simpl in *; try done; by destruct Hpost.
Qed.

Lemma target_mutex t (p : M (option error)) Q ph :
  wp (target_spec t) p Q ph → wp mutex_spec p (λ held _, held = false) false.
Proof.
  revert ph. induction p as [a|m|T e k IH]; simpl; intros ph; [done..|]. intros [[Hpre _] Hk].
  assert (Hpost : ∀ x held, post mutex_spec _ e x false held →
            held = false ∧ post (target_spec t) _ e x ph (next_phase t T e x ph)).
  { intros x held Hp. destruct e; simpl in *; split_and!; try done; by destruct Hp. }
  split; [by destruct e|]. intros x held Hx. destruct (Hpost x held Hx) as [-> Hx'].
  exact (IH x _ (Hk x _ Hx')).
Qed.

Lemma spawned_mutex c p :
  runs_for oe c p → wp (spec_of c) p (λ held _, held = false) false.
Proof.
  destruct 1 as [req Hn|req|req|req|r p Hp]; cbn [spec_of].
  - apply lock_profile_reconcile.
  - apply no_mutex_wp. unfold mapping_reconcile, reconcileCephCsiBlockPoolMapping, CreateOrUpdate,
      mutate, mutate_mapping. calls_with done.
  - apply no_mutex_wp. eapply all_calls_mono; [apply repl_calls_reconcile|].
    intros T e. by destruct e.
  - apply no_mutex_wp. unfold driver_load, LoadAndValidateDesiredState, load_defaults, load_images.
    calls_with done.
  - apply list_elem_of_lookup in Hp as [i Hi].
    destruct (Forall2_lookup_r _ _ _ _ _ (reconcilers_targets oe r) Hi) as (t & _ & Hrec).
    by eapply target_mutex.
Qed.

Definition holds (l : option nat) (i : nat) : bool := bool_decide (l = Some i).

Definition lock_inv (σ : system) : Prop :=
  (∀ i c p, sys_threads σ !! i = Some (c, p) →
     wp (spec_of c) p (λ held _, held = false) (holds (sys_lock σ) i))
  ∧ ∀ i, sys_lock σ = Some i → i < length (sys_threads σ).

(** A call that is no mutex call leaves the lock as it is. *)
Lemma call_keeps_lock c T (e : call T) t s s' held :
  no_mutex T e → post api_spec _ e t s s' → post (spec_of c) _ e t held held.
Proof.
  intros He Hpost. destruct c; simpl; destruct e as [[]|[]|[]|[]|[]|[]| | |]; simpl in *; try done;
    by destruct Hpost.
Qed.

Lemma lock_pre c (k : unit → M (option error)) Q held :
  wp (spec_of c) (Vis MutexLock k) Q held → held = false ∧ wp (spec_of c) (k tt) Q true.
Proof. destruct c; simpl; intros [Hh Hk]; (split; [done|]); by apply Hk. Qed.

Lemma unlock_pre c (k : unit → M (option error)) Q held :
  wp (spec_of c) (Vis MutexUnlock k) Q held → held = true ∧ wp (spec_of c) (k tt) Q false.
Proof. destruct c; simpl; intros [Hh Hk]; (split; [done|]); by apply Hk. Qed.

(** One thread moves, the others neither hold the lock before nor after. *)
Lemma lock_inv_move s u l s' u' l' ts i c p :
  lock_inv (Sys s u l ts) → i < length ts →
  wp (spec_of c) p (λ held _, held = false) (holds l' i) →
  (∀ j, j ≠ i → holds l' j = holds l j) → (∀ j, l' = Some j → j < length ts) →
  lock_inv (Sys s' u' l' (<[i := (c, p)]> ts)).
Proof.
  intros [Hts _] Hi Hp Hoth Hlt. split; simpl in *.
  - intros j c' p' Hj. apply list_lookup_insert_Some in Hj as [(-> & Heq & _)|[Hne Hj]].
    + by injection Heq as <- <-.
    + rewrite Hoth by done. by apply Hts.
  - intros j Hj. rewrite length_insert. by apply Hlt.
Qed.

Lemma lock_step σ c σ' : lock_inv σ → sys_step oe σ c σ' → lock_inv σ'.
Proof.
  intros Hinv Hs. pose proof Hinv as [Hts Hlt].
  destruct Hs as [s u l ts i c T e k t s' u' Hi He Hserved|s u ts i c k Hi|s u l ts i c k Hi
    |s u l ts c p Hp|s u l ts s' u' Henv]; simpl in *.
  - eapply lock_inv_move; [done|by eapply lookup_lt_Some| |done|done].
    destruct (Hts i c _ Hi) as [_ Hk]. destruct Hserved as [Hpost _].
    apply Hk. by eapply call_keeps_lock.
  - eapply lock_inv_move; [done|by eapply lookup_lt_Some| | |].
    + destruct (lock_pre _ _ _ _ (Hts i c _ Hi)) as [_ Hk].
      unfold holds. by rewrite bool_decide_true.
    + intros j Hj. unfold holds. rewrite !bool_decide_false; congruence.
    + intros j [= <-]. by eapply lookup_lt_Some.
  - destruct (unlock_pre _ _ _ _ (Hts i c _ Hi)) as [Hh Hk]. apply bool_decide_eq_true in Hh as ->.
    eapply lock_inv_move; [done|by eapply lookup_lt_Some|done| |done].
    intros j Hj. unfold holds. rewrite !bool_decide_false; congruence.
  - split; simpl.
    + intros i c' p' Hi. apply lookup_app_Some in Hi as [Hi|[Hge Hi]]; [by apply Hts|].
      apply list_lookup_singleton_Some in Hi as [Hi Heq]. injection Heq as <- <-.
      assert (holds l i = false) as ->
        by (apply bool_decide_eq_false; intros Hl; exact (Nat.lt_irrefl i (Nat.lt_le_trans _ _ _ (Hlt i Hl) Hge))).
      by apply spawned_mutex.
    + intros i Hi%Hlt. rewrite length_app. exact (Nat.lt_le_trans _ _ _ Hi (Nat.le_add_r _ _)).
  - by split.
Qed.

Lemma reachable_lock σ : reachable oe σ → lock_inv σ.
Proof.
  intros (σ0 & [] & Hsteps).
  assert (H0 : lock_inv σ0) by (split; [by rewrite starts_threads|by rewrite starts_lock]).
  clear -H0 Hsteps. induction Hsteps as [|σ1 σ2 σ3 [c Hs] _ IH]; [done|]. apply IH. by eapply lock_step.
Qed.

(** Every call can be answered, be it by an error. *)
Lemma served_total T (e : call T) s u :
  no_mutex T e → ∃ t, served T e t s s u u.
Proof.
  assert (Hf : fresh s s u u) by (split; [done|]; split; [done|]; by left).
  destruct e as [k key|k opts|k o|k o|k o|k key|m| |]; simpl; intros Hm; try done.
  - by exists (inl (Errorf "")).
  - by exists (inl (Errorf "")).
  - by exists (inl (Errorf "")).
  - by exists (inl (Errorf "")).
  - by exists (inl (Errorf "")).
  - by exists (Some (Errorf "")).
  - by exists (map_to_list m).
Qed.

Lemma call_enabled σ i c T (e : call T) k :
  sys_threads σ !! i = Some (c, Vis e k) → no_mutex T e → ∃ σ', sys_step oe σ (Some c) σ'.
Proof.
  destruct σ as [s u l ts]. simpl. intros Hi He. destruct (served_total T e s u He) as [t Ht].
  eexists. by eapply sys_call.
Qed.

(** A thread that holds the lock can always move. *)
Lemma holder_moves σ i c p :
  lock_inv σ → sys_lock σ = Some i → sys_threads σ !! i = Some (c, p) →
  ∃ σ', sys_step oe σ (Some c) σ'.
Proof.
  intros [Hts _] Hl Hi. pose proof (Hts i c p Hi) as Hwp. unfold holds in Hwp.
  rewrite bool_decide_true in Hwp by done. destruct p as [a|m|T e k]; [done|done|].
  destruct e; try (by eapply call_enabled).
  - by apply lock_pre in Hwp as [? _].
  - destruct σ as [s u l ts]. eexists. by eapply sys_release.
Qed.

(** The calls on the config maps. *)
Definition touches_config (T : Type) (e : call T) : Prop :=
  match e with
  | Get KConfigMap _ | Create KConfigMap _ | Update KConfigMap _ => True
  | _ => False
  end.

(** C6: the lock does what it is there for.  In every reachable state, an
    iteration for a profile that is about to read or write a config map holds
    [configMapUpdateLock], so no two of them are at that at a time; and as
    long as some iteration has not finished, some iteration can move: the
    operator never deadlocks, also when iterations panic. *)
Theorem system_lock (σ : system) :
  reachable oe σ →
  (∀ i req T (e : call T) k, sys_threads σ !! i = Some (TProfile req, Vis e k) →
     touches_config T e → sys_lock σ = Some i)
  ∧ ∀ i c T (e : call T) k, sys_threads σ !! i = Some (c, Vis e k) →
      ∃ c' σ', sys_step oe σ (Some c') σ'.
Proof.
  intros Hr. pose proof (reachable_lock σ Hr) as Hinv. pose proof Hinv as [Hts Hlt]. split.
  - intros i req T e k Hi He. destruct (Hts i _ _ Hi) as [Hpre _]. apply (bool_decide_eq_true_1 _).
    by destruct e as [[]|[]|[]|[]|[]|[]| | |].
  - intros i c T e k Hi. destruct (sys_lock σ) as [j|] eqn:Hl.
    + destruct (lookup_lt_is_Some_2 (sys_threads σ) j (Hlt j eq_refl)) as [[c' p] Hj].
      exists c'. by eapply holder_moves.
    + exists c. destruct e; try (by eapply call_enabled).
      * destruct σ as [s u l ts]. simpl in *. subst. eexists. by eapply sys_acquire.
      * destruct σ as [s u l ts]. eexists. by eapply sys_release.
Qed.

End theorems.

(** ** Evaluation at concrete resources *)

#[local] Existing Instance plain_lib.
#[local] Existing Instance example_equality.
#[local] Instance example_error_text : JsonErrorText := λ _, "invalid".

Definition example_oe : OperatorEnv :=
  {| operatorNamespace := "op"; operatorConfigName := "conf"; serviceAccountPrefix := "" |}.

Definition example_mapping_req : NamespacedName := {| Key_Namespace := "ns"; Key_Name := "m" |}.

(** The config map an iteration for a mapping creates in an empty cluster, and
    how the server stores it. *)
Definition example_created (version : string) : ConfigMap := {|
  CM_Meta := {|
    Meta_Name := CsiConfigVolume_Name; Meta_Namespace := "ns"; Meta_UID := "";
    Meta_ResourceVersion := version; Meta_Generation := 0; Meta_CreationTimestamp := 0;
    Meta_DeletionTimestamp := None; Meta_Labels := ∅; Meta_Annotations := ∅;
    Meta_OwnerReferences := []; Meta_Finalizers := [] |};
  CM_Data := {[CsiConfigMapMappingKey := mappings_text []]} |}.

Definition example_started : system := Sys empty_store ∅ None [].

Definition example_before (k : error + obj KConfigMap → M (option error)) : system :=
  Sys empty_store ∅ None [(TMapping example_mapping_req, Vis (Create KConfigMap (example_created "")) k)].

Lemma served_read T (e : call T) t (s : store) :
  post api_spec _ e t s s → answer_ok T e t → unconflicted T e t s → served T e t s s ∅ ∅.
Proof. intros Hp Ha Hu. split; [done|]. split; [done|]. split; [|done]. split; [done|]. split; [done|by left]. Qed.

(** After a listing and a read the iteration is about to create it. *)
Lemma example_reachable : ∃ k, reachable example_oe (example_before k).
Proof.
  eexists. exists example_started. split; [by split|].
  eapply rtc_l; [exists None; apply sys_spawn, (runs_mapping _ example_mapping_req)|]. simpl app.
  eapply rtc_l.
  { exists (Some (TMapping example_mapping_req)).
    eapply (sys_call _ _ _ _ _ 0) with (t := inr []); [reflexivity|done|].
    apply served_read; [by vm_compute|by intros o Ho%not_elem_of_nil|done]. }
  simpl.
  eapply rtc_l.
  { exists (Some (TMapping example_mapping_req)).
    eapply (sys_call _ _ _ _ _ 0) with (t := inl (not_found KConfigMap (config_key "ns"))); [reflexivity|done|].
    apply served_read; [by vm_compute|done|done]. }
  apply rtc_refl.
Qed.

Definition example_after (k : error + obj KConfigMap → M (option error)) : system :=
  Sys (put KConfigMap (example_created "1") empty_store) {["1"]} None
    [(TMapping example_mapping_req, k (inr (example_created "1" : obj KConfigMap)))].

Lemma example_create k :
  sys_step example_oe (example_before k) (Some (TMapping example_mapping_req)) (example_after k).
Proof.
  refine (sys_call example_oe empty_store ∅ None (sys_threads (example_before k)) 0 (TMapping example_mapping_req) _
            (Create KConfigMap (example_created "")) k (inr (example_created "1" : obj KConfigMap))
            (put KConfigMap (example_created "1") empty_store) {["1"]} eq_refl I _).
  split; [split; [by vm_compute|by split]|]. split; [done|]. split; [|done].
  split; [set_solver|]. split; [intros H; by apply elem_of_singleton in H|].
  intros k' key x Hx. right. destruct (decide (k' = KConfigMap)) as [->|Hk].
  - apply stored_single in Hx as [[_ ->]|Hx]; [|by vm_compute in Hx].
    split; [set_solver|]. by apply elem_of_singleton.
  - rewrite (stored_put_ne KConfigMap k') in Hx by (by left). by vm_compute in Hx.
Qed.

(** The iteration creates the config map: the contribution of its controller
    to the config map that was not there. *)
Lemma system_no_lost_updates_witness :
  ∃ k, reachable example_oe (example_before k)
    ∧ sys_step example_oe (example_before k) (Some (TMapping example_mapping_req)) (example_after k)
    ∧ config (sys_store (example_after k)) "ns" = Some (example_created "1")
    ∧ effect (TMapping example_mapping_req) (sys_store (example_before k)) (sys_store (example_after k)).
Proof.
  destruct example_reachable as [k Hk]. exists k. split; [exact Hk|]. split; [apply example_create|].
  split; [vm_compute; reflexivity|].
  exact (system_no_lost_updates example_oe _ _ _ Hk (example_create k)).
Defined.

Lemma system_records_isolated_witness :
  ∃ k, reachable example_oe (example_before k)
    ∧ record_in (sys_store (example_after k)) "ns" "p" = record_in (sys_store (example_before k)) "ns" "p".
Proof.
  destruct example_reachable as [k Hk]. exists k. split; [exact Hk|].
  destruct (system_records_isolated example_oe _ Hk) as [_ H].
  apply (H _ _ (example_create k) "ns"). intros Hp. discriminate Hp.
Defined.

Lemma system_lock_witness :
  ∃ k, reachable example_oe (example_before k)
    ∧ ∃ c σ', sys_step example_oe (example_before k) (Some c) σ'.
Proof.
  destruct example_reachable as [k Hk]. exists k. split; [exact Hk|].
  exact (proj2 (system_lock example_oe _ Hk) 0 _ _ _ _ eq_refl).
Defined.
