(* ===== verification/Watches.v ===== *)
(** * Watches: which events start an iteration
    (internal/utils/predicates.go and the SetupWithManager methods)

    A controller is set up with watches: the kind of the objects, predicates
    that filter the events, and a handler that turns an event into requests.
    [driver_requests] and its siblings give, for an event, the requests the
    controller's work queue receives.  Predicates and the owner handler are
    those of controller-runtime (vendored under src/vendor). *)
From S2P Require Import Prelude Prog K8s ApiTypes Cluster CoreUtils CsiUtils Replication Json.
From S2P Require Import JsonCodec DriverSpec.

(** An event about an object of kind [k]. *)
Inductive event {lib : ApiLib} (k : kind) :=
| CreateEvent (o : obj k)
| UpdateEvent (ObjectOld ObjectNew : obj k)
| DeleteEvent (o : obj k)
| GenericEvent (o : obj k).
Arguments CreateEvent {lib k} o.
Arguments UpdateEvent {lib k} ObjectOld ObjectNew.
Arguments DeleteEvent {lib k} o.
Arguments GenericEvent {lib k} o.

(** [reflect.DeepEqual] on the defaults of two operator configurations.  It
    also tells a nil slice from an empty one, which the model does not, so
    only one direction is a law. *)
Class ReflectDeepEqual {lib : ApiLib} := {
  reflect_DeepEqual : option DriverSpec → option DriverSpec → bool;
  reflect_DeepEqual_true : ∀ x y, reflect_DeepEqual x y = true → x = y;
}.

(** Does the REST mapper know the owner type at an API version? *)
Class RestMapper := rest_mapping : kind → string → bool.

Section watches.
Context {lib : ApiLib}.

(** ** Predicates *)

Definition predicate (k : kind) : Type := event k → bool.

(** [predicate.NewPredicateFuncs] *)
Definition NewPredicateFuncs {k} (filter : obj k → bool) : predicate k := λ e,
  match e with
  | CreateEvent o => filter o
  | UpdateEvent _ new => filter new
  | DeleteEvent o => filter o
  | GenericEvent o => filter o
  end.

(** [predicate.GenerationChangedPredicate] *)
Definition GenerationChangedPredicate {k} : predicate k := λ e,
  match e with
  | UpdateEvent old new =>
      negb (Meta_Generation (meta_of k new) =? Meta_Generation (meta_of k old))%Z
  | _ => true
  end.

Definition NamePredicate {k} (name : string) : predicate k :=
  NewPredicateFuncs (λ o, String.eqb (Meta_Name (meta_of k o)) name).

Definition EventTypePredicate {k} (create update del generic : bool) : predicate k := λ e,
  match e with
  | CreateEvent _ => create
  | UpdateEvent _ _ => update
  | DeleteEvent _ => del
  | GenericEvent _ => generic
  end.

(** ** Handlers *)

Definition handler (k : kind) : Type := event k → M (list NamespacedName).

(** A watch: an event all predicates let through goes to the handler. *)
Definition watch {k} (predicates : list (predicate k)) (h : handler k) : handler k := λ e,
  if forallb (λ p : predicate k, p e) predicates then h e else mret [].

(** The handler of [For]. *)
Definition EnqueueRequestForObject {k} : handler k := λ e,
  mret match e with
       | CreateEvent o | UpdateEvent _ o | DeleteEvent o | GenericEvent o =>
           [ObjectKeyFromObject k o]
       end.

(** [handler.EnqueueRequestsFromMapFunc]; a request found twice counts once. *)
Definition EnqueueRequestsFromMapFunc {k} (toRequests : obj k → M (list NamespacedName)) : handler k :=
  λ e,
  match e with
  | UpdateEvent old new =>
      reqs ← toRequests old;
      reqs' ← toRequests new;
      mret (first_occurrences (reqs ++ reqs'))
  | CreateEvent o | DeleteEvent o | GenericEvent o =>
      reqs ← toRequests o;
      mret (first_occurrences reqs)
  end.

(** *** The handler of [Owns] *)
Context {RM : RestMapper}.

Definition getOwnersReferences (isController : bool) (m : ObjectMeta) : list OwnerReference :=
  if negb isController then Meta_OwnerReferences m
  else match GetControllerOf m with Some ownerRef => [ownerRef] | None => [] end.

(** The loop returns at the first reference it cannot parse or map; the
    owner types of the operator are namespaced. *)
Fixpoint owner_requests (owner : kind) (ns : string) (refs : list OwnerReference)
    : list NamespacedName :=
  match refs with
  | [] => []
  | ref :: refs =>
      match ParseGroup (Ref_APIVersion ref), ParseGroup (APIVersion_of owner) with
      | Some group, Some ownerGroup =>
          if String.eqb (Ref_Kind ref) (Kind_of owner) && String.eqb group ownerGroup then
            if rest_mapping owner (Ref_APIVersion ref)
            then {| Key_Namespace := ns; Key_Name := Ref_Name ref |} :: owner_requests owner ns refs
            else []
          else owner_requests owner ns refs
      | _, _ => []
      end
  end.

Definition getOwnerReconcileRequest (owner : kind) (isController : bool) (m : ObjectMeta)
    : list NamespacedName :=
  owner_requests owner (Meta_Namespace m) (getOwnersReferences isController m).

Definition EnqueueRequestForOwner {k} (owner : kind) (isController : bool) : handler k := λ e,
  let requests o := getOwnerReconcileRequest owner isController (meta_of k o) in
  mret (first_occurrences
          match e with
          | UpdateEvent old new => requests old ++ requests new
          | CreateEvent o | DeleteEvent o | GenericEvent o => requests o
          end).

(** ** The Driver controller *)
Section driver.
Context `{RD : !ReflectDeepEqual}.

Definition has_defaults (opConf : OperatorConfig) : bool :=
  match DriverSpecDefaults (OpConf_Spec opConf) with Some _ => true | None => false end.

Definition driverDefaultsPredicate : predicate KOperatorConfig := λ e,
  match e with
  | CreateEvent opConf => has_defaults opConf
  | UpdateEvent oldConf newConf =>
      negb (reflect_DeepEqual (DriverSpecDefaults (OpConf_Spec (oldConf : OperatorConfig)))
                              (DriverSpecDefaults (OpConf_Spec (newConf : OperatorConfig))))
  | DeleteEvent opConf => has_defaults opConf
  | GenericEvent _ => false
  end.

Definition enqueueAllDrivers : M (list NamespacedName) :=
  listed ← trigger (ListObjs KDriver {| InNamespace := None; MatchingFields := None |});
  match listed with
  | inl _ => mret []
  | inr items => mret (ObjectKeyFromObject KDriver <$> items)
  end.

Definition enqueueFromOwnerRefAnnotation (m : ObjectMeta) : list NamespacedName :=
  let ownerRef := default "" (Meta_Annotations m !! ownerRefAnnotationKey) in
  if String.eqb ownerRef "" then []
  else match Unmarshal_key ownerRef with
       | None => []
       | Some ownerObjKey => [ownerObjKey]
       end.

Definition driver_requests (k : kind) : handler k :=
  match k return handler k with
  | KDriver => watch [] EnqueueRequestForObject
  | KDeployment => watch [GenerationChangedPredicate] (EnqueueRequestForOwner KDriver true)
  | KDaemonSet => watch [GenerationChangedPredicate] (EnqueueRequestForOwner KDriver true)
  | KService => watch [GenerationChangedPredicate] (EnqueueRequestForOwner KDriver true)
  | KNetworkPolicy => watch [GenerationChangedPredicate] (EnqueueRequestForOwner KDriver true)
  | KConfigMap =>
      watch [NamePredicate CsiConfigVolume_Name; EventTypePredicate false false true false]
        (EnqueueRequestForOwner KDriver false)
  | KOperatorConfig =>
      watch [driverDefaultsPredicate] (EnqueueRequestsFromMapFunc (λ _, enqueueAllDrivers))
  | KCSIDriver =>
      watch [] (EnqueueRequestsFromMapFunc (k := KCSIDriver)
                  (λ o, mret (enqueueFromOwnerRefAnnotation (CSID_Meta o))))
  | _ => λ _, mret []
  end.
End driver.

(** ** The ClientProfile controller *)

(** The profile a replication names. *)
Definition referenced_profile (cpr : ClientProfileReplication) : NamespacedName :=
  {| Key_Namespace := Meta_Namespace (Repl_Meta cpr);
     Key_Name := CPR_LocalClientProfile (Repl_Spec cpr) |}.

Definition profile_requests (k : kind) : handler k :=
  match k return handler k with
  | KClientProfile => watch [] EnqueueRequestForObject
  | KCephConnection => watch [GenerationChangedPredicate] (EnqueueRequestForOwner KClientProfile false)
  | KConfigMap => watch [GenerationChangedPredicate] (EnqueueRequestForOwner KClientProfile false)
  | KClientProfileReplication =>
      watch [EventTypePredicate true true true false]
        (EnqueueRequestsFromMapFunc (k := KClientProfileReplication)
           (λ cpr, mret [referenced_profile cpr]))
  | _ => λ _, mret []
  end.

(** ** The ClientProfileReplication controller *)

(** The replications that name a profile. *)
Definition referencing_replications (clientProfile : ClientProfile) : M (list NamespacedName) :=
  let m := Profile_Meta clientProfile in
  listed ← trigger (ListObjs KClientProfileReplication
                      (byClientProfile (Meta_Namespace m) (Meta_Name m)));
  match listed with
  | inl _ => mret []
  | inr items => mret (ObjectKeyFromObject KClientProfileReplication <$> items)
  end.

Definition replication_requests (k : kind) : handler k :=
  match k return handler k with
  | KClientProfileReplication => watch [] EnqueueRequestForObject
  | KClientProfile =>
      watch [EventTypePredicate true false true false]
        (EnqueueRequestsFromMapFunc (k := KClientProfile) referencing_replications)
  | _ => λ _, mret []
  end.

(** ** The ClientProfileMapping controller *)

Definition mapping_requests (k : kind) : handler k :=
  match k return handler k with
  | KClientProfileMapping => watch [] EnqueueRequestForObject
  | KConfigMap =>
      watch [NamePredicate CsiConfigVolume_Name; GenerationChangedPredicate]
        (EnqueueRequestForOwner KClientProfileMapping false)
  | _ => λ _, mret []
  end.

End watches.
