(* ===== verification/WatchTheorems.v ===== *)
(** * Watches: properties

    What the reconcilers submit is watched: the loss of one of their objects
    starts an iteration that restores it; changes of the defaults and of the
    referenced profiles reach the resources that depend on them.  And one
    path is missing: the loss of an elected replication. *)
From S2P Require Import Prelude Prog K8s ApiTypes Cluster CoreUtils CsiUtils Replication Json.
From S2P Require Import JsonCodec Server DriverSpec ControllerPlugin NodePlugin DriverReconcile.
From S2P Require Import DriverTargets DriverTheorems Watches.

#[local] Arguments listing : simpl never.

Section watch_theorems.
Context {lib : ApiLib} {RM : RestMapper} `{RD : !ReflectDeepEqual} `{JT : !JsonErrorText}.
Variable oe : OperatorEnv.

(** ** The objects of a driver *)

Lemma controller_request r m :
  rest_mapping KDriver (APIVersion_of KDriver) = true →
  controlled r m → Meta_Namespace m = driver_ns r →
  getOwnerReconcileRequest KDriver true m = [driver_key r].
Proof.
  unfold controlled, getOwnerReconcileRequest, getOwnersReferences. intros Hrm -> ->. simpl in *.
  by rewrite Hrm.
Qed.

Lemma owned_delete r k (o : obj k) :
  rest_mapping KDriver (APIVersion_of KDriver) = true →
  controlled r (meta_of k o) → Meta_Namespace (meta_of k o) = driver_ns r →
  EnqueueRequestForOwner KDriver true (DeleteEvent o) = mret [driver_key r].
Proof.
  intros Hrm Hc Hns. unfold EnqueueRequestForOwner. by rewrite (controller_request r).
Qed.

Lemma key_namespace {k} (o : obj k) key :
  ObjectKeyFromObject k o = key → Meta_Namespace (meta_of k o) = Key_Namespace key.
Proof. by intros <-. Qed.

Lemma csidriver_delete r (c : obj KCSIDriver) :
  valid_utf8 (driver_ns r) = true → valid_utf8 (driver_name r) = true →
  desired_csidriver r c → driver_requests KCSIDriver (DeleteEvent c) = mret [driver_key r].
Proof.
  intros Hns Hn [Ha _]. simpl. unfold watch. simpl. unfold enqueueFromOwnerRefAnnotation.
  rewrite Ha. cbn [default from_option id].
  destruct (String.eqb_spec (Marshal_key (driver_key r)) "") as [He|];
    [by apply Marshal_key_nonempty in He|].
  by rewrite Unmarshal_Marshal_key.
Qed.

(** C22: whatever object of a driver is deleted, apart from the two config
    maps, the deletion starts an iteration for exactly that driver: the watch
    of its kind lets the event through and finds the driver from the object
    the reconcilers submitted. *)
Theorem driver_watches_heal r t (o : obj (target_kind t)) :
  rest_mapping KDriver (APIVersion_of KDriver) = true →
  valid_utf8 (driver_ns r) = true → valid_utf8 (driver_name r) = true →
  t ∈ targets oe r → target_kind t ≠ KConfigMap →
  content t o → ObjectKeyFromObject _ o = target_key t →
  driver_requests (target_kind t) (DeleteEvent o) = mret [driver_key r].
Proof.
  intros Hrm Hns Hn Ht Hk Hc Hkey. apply key_namespace in Hkey.
  apply list_elem_of_In in Ht. simpl in Ht.
  destruct Ht as [<-|[<-|[<-|[<-|[<-|[<-|[<-|[<-|[<-|[]]]]]]]]]]; simpl in *; try done.
  all: try (by apply csidriver_delete).
  all: unfold watch; simpl; apply owned_delete; by destruct Hc.
Qed.

(** The log rotation config map of a driver is not watched: no event
    about it starts an iteration of the Driver controller. *)
Theorem logrotate_configmap_unwatched r (e : event KConfigMap) :
  match e with
  | CreateEvent o | UpdateEvent _ o | DeleteEvent o | GenericEvent o =>
      Meta_Name (CM_Meta o) = LogRotateConfigMapName (driver_name r)
  end →
  driver_requests KConfigMap e = mret [].
Proof.
  intros Hname. simpl. unfold watch, NamePredicate, NewPredicateFuncs. simpl.
  assert (Hne : String.eqb (LogRotateConfigMapName (driver_name r)) CsiConfigVolume_Name = false).
  { apply String.eqb_neq. intros H. by apply (logrotate_name_ne r). }
  destruct e; simpl; by rewrite Hname, Hne.
Qed.

(** ** Fan out *)

(** C34: an update of an operator configuration starts no iteration when the
    defaults of the drivers are deeply equal, and, when the list call
    succeeds, one for every driver it can answer, those in the namespaces the
    cache watches, when they differ. *)
Theorem driver_defaults_fan_out (old new : obj KOperatorConfig) (s : store) :
  let defaults (c : obj KOperatorConfig) := DriverSpecDefaults (OpConf_Spec c) in
  ∃ reqs, run memory_server (driver_requests KOperatorConfig (UpdateEvent old new)) s = (s, Done reqs)
    ∧ (reflect_DeepEqual (defaults old) (defaults new) = true → reqs = [])
    ∧ (defaults old ≠ defaults new → ∀ key (d : obj KDriver),
         stored s KDriver key = Some d → ObjectKeyFromObject KDriver d ∈ reqs).
Proof.
  simpl. unfold watch, driverDefaultsPredicate. simpl.
  destruct (reflect_DeepEqual _ _) eqn:Heq; simpl.
  - exists []. split; [done|]. split; [done|]. by apply reflect_DeepEqual_true in Heq.
  - eexists. split; [done|]. split; [done|].
    intros _ key d Hd. apply elem_of_first_occurrences, elem_of_app. left.
    apply list_elem_of_fmap_2, (listing_spec KDriver). split; [by exists key|done].
Qed.

(** C33: the creation or deletion of a profile starts, when the list call
    succeeds, an iteration for every replication of its namespace that names
    it, and only for those. *)
Theorem profile_fan_out (p : obj KClientProfile) (s : store) :
  Meta_Name (Profile_Meta p) ≠ "" →
  ∃ reqs, run memory_server (replication_requests KClientProfile (CreateEvent p)) s = (s, Done reqs)
    ∧ run memory_server (replication_requests KClientProfile (DeleteEvent p)) s = (s, Done reqs)
    ∧ ∀ req, req ∈ reqs ↔ ∃ key (cpr : obj KClientProfileReplication),
        stored s KClientProfileReplication key = Some cpr
        ∧ req = ObjectKeyFromObject KClientProfileReplication cpr
        ∧ referenced_profile cpr = ObjectKeyFromObject KClientProfile p.
Proof.
  intros Hne. simpl. unfold watch. simpl. eexists. split; [done|]. split; [done|].
  intros req. rewrite elem_of_first_occurrences, list_elem_of_fmap.
  unfold referenced_profile, ObjectKeyFromObject, meta_key. split.
  - intros (cpr & -> & Hin). apply (listing_spec KClientProfileReplication) in Hin as [[key Hk] Hm].
    apply replication_matches in Hm as [Hns Hn]; [|done]. exists key, cpr. simpl. by rewrite Hns, Hn.
  - intros (key & cpr & Hk & -> & [= Hns Hn]). exists cpr. split; [done|].
    apply (listing_spec KClientProfileReplication). split; [by exists key|].
    by apply replication_matches.
Qed.

(** ** A missing path *)

(** The events that start an iteration of the replication controller for the
    replication [key]: its own, and the creation or deletion of the profile it
    names. *)
Definition replication_source (s : store) (k : kind) (e : event k) (key : NamespacedName) : Prop :=
  match k return event k → Prop with
  | KClientProfileReplication => λ e,
      match e with
      | CreateEvent o | UpdateEvent _ o | DeleteEvent o | GenericEvent o =>
          ObjectKeyFromObject KClientProfileReplication o = key
      end
  | KClientProfile => λ e,
      match e with
      | CreateEvent p | DeleteEvent p =>
          ∃ k' (cpr : obj KClientProfileReplication),
            stored s KClientProfileReplication k' = Some cpr
            ∧ key = ObjectKeyFromObject KClientProfileReplication cpr
            ∧ matches KClientProfileReplication
                (byClientProfile (Meta_Namespace (Profile_Meta p)) (Meta_Name (Profile_Meta p))) cpr = true
      | _ => False
      end
  | _ => λ _, False
  end e.

Lemma wp_referencing (p : ClientProfile) (Q : list NamespacedName → Prop) (s : store) :
  Q [] →
  (∀ reqs, (∀ key, key ∈ reqs → replication_source s KClientProfile (CreateEvent (p : obj KClientProfile)) key) →
     Q reqs) →
  wp api_spec (reqs ← referencing_replications p; mret (first_occurrences reqs))
    (λ s' o, s' = s ∧ ∃ reqs, o = Done reqs ∧ Q reqs) s.
Proof.
  intros Hnil HQ. unfold referencing_replications. cbn [wp bind trigger mbind prog_bind]. split; [done|].
  intros [err|items] s' [-> Hl]; simpl; (split; [done|]); [by exists []|].
  eexists. split; [done|]. apply HQ. intros key Hin.
  apply elem_of_first_occurrences, list_elem_of_fmap in Hin as (cpr & -> & Hc).
  apply (list_elem_of_perm _ _ _ Hl), (listing_spec KClientProfileReplication) in Hc as [[k' Hk'] Hm]. by exists k', cpr.
Qed.

(** C32: whatever the server answers, an event starts an iteration of the
    replication controller only for the replication it is about, or, when a
    profile is created or deleted, for the replications that name it.  So the
    deletion of the elected replication, and the update of the profile that
    follows it, start none for the rejected ones: they are not reconsidered. *)
Theorem replication_requests_sources k (e : event k) (s : store) :
  wp api_spec (replication_requests k e)
    (λ s' o, s' = s ∧ ∃ reqs, o = Done reqs ∧ ∀ key, key ∈ reqs → replication_source s k e key) s.
Proof.
  assert (Hnone : wp api_spec (mret [] : M (list NamespacedName)) (λ s' o, s' = s ∧ ∃ reqs, o = Done reqs
            ∧ ∀ key, key ∈ reqs → replication_source s k e key) s).
  { split; [done|]. exists []. split; [done|]. by intros key ?%elem_of_nil. }
  destruct k; try exact Hnone.
  - destruct e as [p|old p|p|p]; try exact Hnone.
    + apply wp_referencing; [by intros key ?%elem_of_nil|done].
    + apply wp_referencing; [by intros key ?%elem_of_nil|done].
  - split; [done|]. eexists. split; [done|]. by destruct e; intros key ->%list_elem_of_singleton.
Qed.

End watch_theorems.

(** ** Examples *)

#[local] Existing Instance plain_lib.
#[local] Instance example_mapper : RestMapper := λ _ _, true.

#[local] Instance example_reflect : ReflectDeepEqual.
Proof.
  refine {| reflect_DeepEqual := λ x y, match x, y with None, None => true | _, _ => false end |}.
  by intros [] [].
Defined.

#[local] Instance example_text : JsonErrorText := λ _, "invalid".

(** The liveness service of the example driver is deleted. *)
Lemma driver_watches_heal_witness :
  driver_requests KService (DeleteEvent (k := KService) example_service)
  = mret [driver_key (example_driver 1)].
Proof.
  assert (Hs : desired_service (example_driver 1) example_service).
  { split; [reflexivity|]. by exists {| MetricsPort := 9000 |}. }
  apply (driver_watches_heal example_env (example_driver 1)
           (Target KService (in_ns (example_driver 1) (generateServiceName (example_driver 1) "liveness"))
              (desired_service (example_driver 1))
              (Liveness (driver_spec (example_driver 1)) ≠ None) (Liveness (driver_spec (example_driver 1)) = None))
           example_service); [reflexivity|reflexivity|reflexivity| |discriminate|exact Hs|reflexivity].
  unfold targets. do 6 apply list_elem_of_further. apply list_elem_of_here.
Defined.

Definition example_logrotate : ConfigMap :=
  {| CM_Meta := new_meta "ns" (LogRotateConfigMapName "x.rbd.csi.ceph.com"); CM_Data := ∅ |}.

Lemma logrotate_configmap_unwatched_witness :
  driver_requests KConfigMap (DeleteEvent (k := KConfigMap) example_logrotate) = mret [].
Proof.
  apply (logrotate_configmap_unwatched (example_driver 1) (DeleteEvent (k := KConfigMap) example_logrotate)).
  reflexivity.
Defined.

Lemma profile_fan_out_witness :
  ∃ reqs, run memory_server (replication_requests KClientProfile
                               (CreateEvent (k := KClientProfile) example_profile)) empty_store
          = (empty_store, Done reqs).
Proof.
  destruct (profile_fan_out example_profile empty_store) as (reqs & Hr & _);
    [discriminate|by exists reqs].
Defined.
