(* ===== verification/Main.v ===== *)
(** * The operator process (cmd/main.go)

    The initialisation of the packages, the flags, the options of the manager
    and the namespaces its cache watches, and the sequence of set-up calls
    that ends with the start of the manager.  A panic during the
    initialisation ends the process with exit status 2, a call of main that
    fails with 1.  The command line is parsed: [flag.Parse] ends the process
    itself on one it does not accept. *)
From S2P Require Import Prelude Prog K8s ApiTypes Cluster CoreUtils CsiUtils DriverSpec.

(** ** Flags and options *)

Record flags := {
  metricsAddr : string;
  probeAddr : string;
  enableLeaderElection : bool;
  secureMetrics : bool;
  metricsCertPath : string;
  metricsCertName : string;
  metricsCertKey : string;
  enableHTTP2 : bool;
}.

(** The flags of a command line without any. *)
Definition default_flags : flags := {|
  metricsAddr := "0"; probeAddr := ":8081"; enableLeaderElection := false; secureMetrics := true;
  metricsCertPath := ""; metricsCertName := "tls.crt"; metricsCertKey := "tls.key";
  enableHTTP2 := false |}.

(** The functions that edit the TLS configuration. *)
Inductive tlsOpt := disableHTTP2 | getCertificate.
#[export] Instance tlsOpt_eq_dec : EqDecision tlsOpt.
Proof. solve_decision. Defined.

Record metricsServerOptions := {
  BindAddress : string;
  SecureServing : bool;
  TLSOpts : list tlsOpt;
  FilterProvider : bool; (* WithAuthenticationAndAuthorization or nil *)
}.

Definition metrics_options (f : flags) : metricsServerOptions := {|
  BindAddress := metricsAddr f;
  SecureServing := secureMetrics f;
  TLSOpts := (if negb (enableHTTP2 f) then [disableHTTP2] else [])
             ++ (if (0 <? String.length (metricsCertPath f))%nat then [getCertificate] else []);
  FilterProvider := secureMetrics f |}.

(** ** Namespaces *)

Definition watchNamespaceEnvVar : string := "WATCH_NAMESPACE".

Definition getWatchNamespace (env : gmap string string) : error + string :=
  let ns := Getenv env watchNamespaceEnvVar in
  if String.eqb ns "" then inl (Errorf (watchNamespaceEnvVar ++ " must be set"))
  else inr ns.

Definition comma : ascii := ","%char.

(** [strings.Split(s, ",")] *)
Fixpoint strings_Split (s : string) : list string :=
  match s with
  | EmptyString => [""]
  | String c s =>
      if Ascii.eqb c comma then "" :: strings_Split s
      else match strings_Split s with
           | piece :: pieces => String c piece :: pieces
           | [] => [String c ""]
           end
  end.

(** The keys of the map given to the cache. *)
Definition defaultNamespaces (operatorNamespace : string) (env : gmap string string) : gset string :=
  match getWatchNamespace env with
  | inl _ => {[operatorNamespace]}
  | inr watchNamespace => list_to_set (strings_Split watchNamespace) ∪ {[operatorNamespace]}
  end.

(** ** main *)

Record managerOptions := {
  Metrics : metricsServerOptions;
  HealthProbeBindAddress : string;
  LeaderElection : bool;
  LeaderElectionID : string;
  DefaultNamespaces : gset string;
}.

Definition manager_options (f : flags) (namespaces : gset string) : managerOptions := {|
  Metrics := metrics_options f;
  HealthProbeBindAddress := probeAddr f;
  LeaderElection := enableLeaderElection f;
  LeaderElectionID := "0a62cc8a.ceph.io";
  DefaultNamespaces := namespaces |}.

Inductive controller := DriverController | ClientProfileController
  | ClientProfileMappingController | ClientProfileReplicationController.
#[export] Instance controller_eq_dec : EqDecision controller.
Proof. solve_decision. Defined.

(** The schemes whose types are registered. *)
Inductive typeScheme := clientgoscheme | csiv1.
#[export] Instance typeScheme_eq_dec : EqDecision typeScheme.
Proof. solve_decision. Defined.

(** The steps of init and main that call into controller-runtime and
    apimachinery; each may fail. *)
Inductive step :=
| AddToScheme (s : typeScheme)
| NewCertWatcher (cert key : list string) (* the elements [filepath.Join] joins *)
| GetConfig
| NewManager (opts : managerOptions)
| SetupWithManager (c : controller)
| AddCertWatcher
| AddHealthzCheck
| AddReadyzCheck
| Start.

Inductive setup_call : Type → Type :=
| Setup (s : step) : setup_call (option error).

(** [if err != nil { os.Exit(1) }] before the rest. *)
Definition or_exit (s : step) (rest : prog setup_call Z) : prog setup_call Z :=
  err ← trigger (Setup s);
  match err with
  | Some _ => mret 1%Z
  | None => rest
  end.

Definition has_cert (f : flags) : bool := (0 <? String.length (metricsCertPath f))%nat.

(** From the health checks to the end. *)
Definition start_manager : prog setup_call Z :=
  or_exit AddHealthzCheck (or_exit AddReadyzCheck (or_exit Start (mret 0%Z))).

(** From the namespaces on. *)
Definition run_manager (f : flags) (env : gmap string string) : prog setup_call Z :=
  match GetOperatorNamespace env with
  | inl _ => mret 1%Z
  | inr operatorNamespace =>
      (* [ctrl.GetConfigOrDie], an argument of [ctrl.NewManager] *)
      or_exit GetConfig (
      or_exit (NewManager (manager_options f (defaultNamespaces operatorNamespace env))) (
      or_exit (SetupWithManager DriverController) (
      or_exit (SetupWithManager ClientProfileController) (
      or_exit (SetupWithManager ClientProfileMappingController) (
      or_exit (SetupWithManager ClientProfileReplicationController) (
      if has_cert f then or_exit AddCertWatcher start_manager else start_manager))))))
  end.

(** The function main; the exit code it ends the process with. *)
Definition main (f : flags) (env : gmap string string) : prog setup_call Z :=
  let rest := run_manager f env in
  if has_cert f
  then or_exit (NewCertWatcher [metricsCertPath f; metricsCertName f]
                               [metricsCertPath f; metricsCertKey f]) rest
  else rest.

(** ** The process *)

(** [utilruntime.Must(err)] before the rest. *)
Definition must (s : step) (rest : prog setup_call Z) : prog setup_call Z :=
  err ← trigger (Setup s);
  match err with
  | Some e => Panic (Error e)
  | None => rest
  end.

(** The package variables of the controllers, then init, then main. *)
Definition process (f : flags) (env : gmap string string) : prog setup_call Z :=
  _ ← lift_panic (load_env env);
  must (AddToScheme clientgoscheme) (must (AddToScheme csiv1) (main f env)).

(** The exit status of the process; that of a panic is 2. *)
Definition exit_status (o : outcome Z) : Z :=
  match o with Done code => code | Panicked _ => 2%Z end.

(** ** Properties *)

Definition has_comma (s : string) : bool := existsb (Ascii.eqb comma) (String.list_ascii_of_string s).

Lemma strings_Split_nonempty s : strings_Split s ≠ [].
Proof. destruct s as [|c s]; simpl; [done|]. destruct (Ascii.eqb c comma); [done|]. by destruct (strings_Split s). Qed.

Lemma strings_Join_cons c p l : strings_Join (String c p :: l) "," = String c (strings_Join (p :: l) ",").
Proof. by destruct l. Qed.

Lemma strings_Split_Join s : strings_Join (strings_Split s) "," = s.
Proof.
  induction s as [|c s IH]; [done|]. simpl strings_Split. pose proof (strings_Split_nonempty s) as Hne.
  destruct (Ascii.eqb_spec c comma) as [->|_].
  - rewrite <-IH at 2. by destruct (strings_Split s).
  - destruct (strings_Split s) as [|p l]; [done|]. by rewrite strings_Join_cons, IH.
Qed.

Lemma has_comma_cons c p : has_comma (String c p) = Ascii.eqb comma c || has_comma p.
Proof. done. Qed.

Lemma strings_Split_pieces s : Forall (λ p, has_comma p = false) (strings_Split s).
Proof.
  induction s as [|c s IH]; [by repeat constructor|]. simpl strings_Split.
  destruct (Ascii.eqb c comma) eqn:Hc; [by constructor|].
  rewrite Ascii.eqb_sym in Hc. pose proof (strings_Split_nonempty s).
  destruct (strings_Split s) as [|p l]; [done|].
  inversion_clear IH as [|? ? Hp Hl]. constructor; [|done]. by rewrite has_comma_cons, Hc.
Qed.

(** C35: the namespaces the operator watches are its own and the
    comma-separated pieces of WATCH_NAMESPACE, as they are written; when the
    variable is absent or empty it is the operator's own namespace alone, not
    every namespace. *)
Theorem watched_namespaces (operatorNamespace : string) (env : gmap string string) :
  let watched := defaultNamespaces operatorNamespace env in
  (default "" (env !! watchNamespaceEnvVar) = "" → watched = {[operatorNamespace]})
  ∧ (default "" (env !! watchNamespaceEnvVar) ≠ "" →
     ∃ pieces, strings_Join pieces "," = default "" (env !! watchNamespaceEnvVar)
       ∧ Forall (λ p, has_comma p = false) pieces
       ∧ ∀ ns, ns ∈ watched ↔ ns = operatorNamespace ∨ ns ∈ pieces).
Proof.
  unfold defaultNamespaces, getWatchNamespace, Getenv.
  destruct (String.eqb_spec (default "" (env !! watchNamespaceEnvVar)) ""); split; try done.
  intros _. eexists. split; [apply strings_Split_Join|]. split; [apply strings_Split_pieces|].
  intros ns. set_solver.
Qed.

(** The set-up so far: the steps done, and whether one failed. *)
Record setup_state := {
  steps_done : list step;
  step_failed : bool;
}.

(** When a step may be made: never after a failure; a manager is made of the
    configuration, once the types are registered, with a cache that watches at
    least the operator's own namespace; and it is started once every
    controller is set up, both checks are there and, with a certificate, its
    watcher. *)
Definition step_allowed (f : flags) (env : gmap string string) (s : step) (st : setup_state) : Prop :=
  step_failed st = false ∧
  match s with
  | NewManager opts =>
      GetConfig ∈ steps_done st ∧ (∀ t, AddToScheme t ∈ steps_done st)
      ∧ ∃ oe, load_env env = inr oe ∧ operatorNamespace oe ≠ ""
              ∧ operatorNamespace oe ∈ DefaultNamespaces opts
  | Start =>
      (∃ opts, NewManager opts ∈ steps_done st) ∧ (∀ c, SetupWithManager c ∈ steps_done st)
      ∧ AddHealthzCheck ∈ steps_done st ∧ AddReadyzCheck ∈ steps_done st
      ∧ (has_cert f = true → AddCertWatcher ∈ steps_done st)
  | _ => True
  end.

Definition setup_spec (f : flags) (env : gmap string string) : spec setup_call setup_state := {|
  pre := λ T e st, let '(Setup s) := e in step_allowed f env s st;
  post := λ T e,
    match e in setup_call T return T → _ with
    | Setup s => λ err st st',
        st' = {| steps_done := s :: steps_done st;
                 step_failed := match err with Some _ => true | None => false end |}
    end |}.

(** The status 0 of the process: its environment is complete, every step
    succeeded, and the manager has run. *)
Definition exits (env : gmap string string) (st : setup_state) (o : outcome Z) : Prop :=
  (exit_status o = 0%Z ↔ step_failed st = false ∧ ∃ oe, load_env env = inr oe)
  ∧ (exit_status o = 0%Z → Start ∈ steps_done st).

Lemma exits_failed env l o : exit_status o ≠ 0%Z → exits env {| steps_done := l; step_failed := true |} o.
Proof. intros Ho. split; [|done]. by split; [|intros []]. Qed.

Definition running (l : list step) : setup_state := {| steps_done := l; step_failed := false |}.

Lemma wp_or_exit f env s rest l :
  step_allowed f env s (running l) →
  wp (setup_spec f env) rest (exits env) (running (s :: l)) →
  wp (setup_spec f env) (or_exit s rest) (exits env) (running l).
Proof. intros Hpre Hrest. split; [exact Hpre|]. intros [e|] st' ->; [by apply exits_failed|done]. Qed.

Lemma wp_must f env s rest l :
  step_allowed f env s (running l) →
  wp (setup_spec f env) rest (exits env) (running (s :: l)) →
  wp (setup_spec f env) (must s rest) (exits env) (running l).
Proof. intros Hpre Hrest. split; [exact Hpre|]. intros [e|] st' ->; [by apply exits_failed|done]. Qed.

Lemma load_env_namespace env oe :
  load_env env = inr oe → GetOperatorNamespace env = inr (operatorNamespace oe) ∧ operatorNamespace oe ≠ "".
Proof.
  unfold load_env, load_operatorNamespace, GetOperatorNamespace.
  destruct (String.eqb_spec (Getenv env operatorNamespaceEnvVar) ""); simpl; [done|].
  destruct (load_operatorConfigName env); simpl; [done|]. by intros [= <-].
Qed.

Lemma operator_watched ns env : ns ∈ defaultNamespaces ns env.
Proof. unfold defaultNamespaces. destruct (getWatchNamespace env); set_solver. Qed.

Section sequence.
Variables (f : flags) (env : gmap string string) (oe : OperatorEnv).
Hypothesis loaded : load_env env = inr oe.

Lemma wp_start_manager l :
  (∃ opts, NewManager opts ∈ l) → (∀ c, SetupWithManager c ∈ l) →
  (has_cert f = true → AddCertWatcher ∈ l) →
  wp (setup_spec f env) start_manager (exits env) (running l).
Proof.
  intros [opts Hm] Hc Hw. do 2 (apply wp_or_exit; [done|]). apply wp_or_exit.
  - split; [done|]. split_and!; [exists opts|intros c|..|intros Hf]; simpl;
      do 2 (first [by apply list_elem_of_here|apply list_elem_of_further]); auto.
  - split; [|intros _; apply list_elem_of_here].
    split; [|done]. intros _. split; [done|by exists oe].
Qed.

Lemma wp_run_manager l :
  (∀ t, AddToScheme t ∈ l) → wp (setup_spec f env) (run_manager f env) (exits env) (running l).
Proof.
  intros Ht. unfold run_manager. destruct (load_env_namespace env oe loaded) as [-> Hns].
  apply wp_or_exit; [done|]. apply wp_or_exit.
  { split; [done|]. split; [apply list_elem_of_here|].
    split; [intros t; by apply list_elem_of_further|].
    exists oe. split_and!; [done..|apply operator_watched]. }
  do 4 (apply wp_or_exit; [done|]).
  destruct (has_cert f) eqn:Hf; [apply wp_or_exit; [done|]|];
    (apply wp_start_manager; [eexists; do 6 (first [apply list_elem_of_here|apply list_elem_of_further])|intros []; set_solver|]).
  - intros _. apply list_elem_of_here.
  - congruence.
Qed.

Lemma wp_main l :
  (∀ t, AddToScheme t ∈ l) → wp (setup_spec f env) (main f env) (exits env) (running l).
Proof.
  intros Ht. unfold main. destruct (has_cert f); [|by apply wp_run_manager].
  apply wp_or_exit; [done|]. apply wp_run_manager. intros t. by apply list_elem_of_further.
Qed.

End sequence.

(** C36: the process panics before any call when OPERATOR_NAMESPACE is missing
    or empty or OPERATOR_CONFIG_NAME is set to the empty string.  It makes no
    call after one that failed, makes the manager once the types are
    registered and the configuration is loaded, with a cache that watches the
    operator's non-empty namespace, and starts it only when the four
    controllers and the checks are set up.  It ends with exit status 0 exactly
    when its environment is complete and no call failed, and then the manager
    has been started. *)
Theorem main_sequence (f : flags) (env : gmap string string) :
  (Getenv env operatorNamespaceEnvVar = "" ∨ env !! "OPERATOR_CONFIG_NAME" = Some "" ↔
   ∃ m, process f env = Panic m)
  ∧ wp (setup_spec f env) (process f env) (exits env) (running []).
Proof.
  unfold process. destruct (load_env env) as [m|oe] eqn:Hl; simpl.
  - split.
    + split; [by exists m|]. intros _. unfold load_env, load_operatorNamespace, GetOperatorNamespace in Hl.
      destruct (String.eqb_spec (Getenv env operatorNamespaceEnvVar) ""); [by left|]. right.
      unfold load_operatorConfigName in Hl. simpl in Hl.
      destruct (env !! "OPERATOR_CONFIG_NAME") as [cn|]; [|done]. simpl in Hl.
      destruct (String.eqb_spec cn "") as [Hcn|]; [by rewrite Hcn|done].
    + split; [|done]. split; [done|]. intros [_ [oe ?]]. congruence.
  - split.
    + split; [|by intros []]. destruct (load_env_namespace env oe Hl) as [Hns _].
      unfold load_env, load_operatorNamespace, load_operatorConfigName in Hl.
      unfold GetOperatorNamespace in *.
      intros [Hn|Hn]; rewrite Hn in *; simpl in *; [done|]. by destruct (String.eqb _ "").
    + do 2 (apply wp_must; [done|]). apply (wp_main f env oe Hl). intros []; set_solver.
Qed.

(** ** Examples *)

(** A trailing comma adds the empty name, which the cache reads as all
    namespaces. *)
Example trailing_comma : strings_Split "a," = ["a"; ""].
Proof. reflexivity. Qed.
